(** * Codis backend core: RESP decoder, buffered reader, backend pool, off-heap slices

  A shallow embedding of the Go sources

    - [pkg/utils/bufio2]          (buffered reader),
    - [pkg/proxy/redis/decoder.go] (RESP decoder),
    - [pkg/proxy/backend.go]      (backend connection, shared pool),
    - [pkg/utils/unsafe2]         (off-heap slices),

  together with the properties of these functions that the specification
  of the proxy states.

  Conventions.  A Go [[]byte] is a [list byte]; a Go [string] is a
  [string]; a nil slice or pointer is [None].  Go's [int64] and [uint64] are
  integers [Z] with the wrap-around written out ([wrap64], [wrapu64]).  A
  Go function returning [(v, err)] returns a pair whose second component is
  an [option error], [None] standing for a nil error.  [errors.Trace] only
  attaches a stack to its argument and is the identity here. *)

From Stdlib Require Import ZArith Lia Bool.
From Stdlib Require Import Strings.Byte Strings.Ascii Strings.String.
From stdpp Require Import base option list gmap strings fin_maps.

Open Scope Z_scope.

(** ** Machine integers and bytes *)

Module Go.

Definition wrap64 (z : Z) : Z := (z + 2 ^ 63) mod 2 ^ 64 - 2 ^ 63.
Definition wrapu64 (z : Z) : Z := z mod 2 ^ 64.
Definition wrap8 (z : Z) : Z := z mod 2 ^ 8.

Definition in_int64 (z : Z) : Prop := - 2 ^ 63 <= z < 2 ^ 63.

Lemma wrap64_id z : in_int64 z -> wrap64 z = z.
Proof.
  unfold in_int64, wrap64. intros H.
  rewrite Z.mod_small by lia. lia.
Qed.

Lemma wrapu64_id z : 0 <= z < 2 ^ 64 -> wrapu64 z = z.
Proof. unfold wrapu64. intros H. now rewrite Z.mod_small. Qed.

(** The numeric value of a byte. *)
Definition val (c : byte) : Z := Z.of_N (Byte.to_N c).

Lemma val_range c : 0 <= val c <= 255.
Proof. unfold val. pose proof (Byte.to_N_bounded c). lia. Qed.

Lemma val_inj c d : val c = val d -> c = d.
Proof.
  unfold val. intros H. apply N2Z.inj in H.
  pose proof (Byte.of_to_N c) as Hc. rewrite H, Byte.of_to_N in Hc.
  congruence.
Qed.

Definition bytes (s : string) : list byte := list_byte_of_string s.

(** [b[i:j]] for [i <= j <= len(b)]. *)
Definition slice {A} (l : list A) (i j : nat) : list A := take (j - i) (drop i l).

(** [copy(dst, src)]: the new contents of [dst] and the number of elements
    copied, [min(len(dst), len(src))]. *)
Definition copy {A} (dst src : list A) : list A * nat :=
  (take (length dst) src ++ drop (length src) dst,
   Nat.min (length dst) (length src)).

End Go.

Global Instance byte_eq_dec : EqDecision byte := Byte.byte_eq_dec.
Global Instance byte_countable : Countable byte :=
  inj_countable Byte.to_N Byte.of_N Byte.of_to_N.

(** ** Errors *)

(** [strconv.NumError]; [Err] is [strconv.ErrSyntax] or [strconv.ErrRange]. *)
Inductive strconv_cause := ErrSyntax | ErrRange.

Record NumError := mkNumError {
  Func : string;
  Num : string;
  Cause : strconv_cause
}.

(** Errors of the underlying [io.Reader] (the transport).  *)
Inductive io_error :=
| EOF
| ErrUnexpectedEOF
| ErrNoProgress
| ErrTransport (msg : string).

Inductive error :=
| ErrBadCRLFEnd
| ErrBadArrayLen
| ErrBadArrayLenTooLong
| ErrBadBulkBytesLen
| ErrBadBulkBytesLenTooLong
| ErrBadMultiBulkLen
| ErrBadMultiBulkContent
| ErrFailedDecoder
| ErrBadRespType (t : byte)
| ErrBufferFull
| ErrIO (e : io_error)
| ErrNum (e : NumError).

Global Instance strconv_cause_eq_dec : EqDecision strconv_cause.
Proof. solve_decision. Defined.
Global Instance NumError_eq_dec : EqDecision NumError.
Proof. solve_decision. Defined.
Global Instance io_error_eq_dec : EqDecision io_error.
Proof. solve_decision. Defined.
Global Instance error_eq_dec : EqDecision error.
Proof. solve_decision. Defined.

(** The message of each error of the decoder, as [errors.New] is given it. *)
Definition error_message (e : error) : option string :=
  match e with
  | ErrBadCRLFEnd => Some "bad CRLF end"%string
  | ErrBadArrayLen => Some "bad array len"%string
  | ErrBadArrayLenTooLong => Some "bad array len, too long"%string
  | ErrBadBulkBytesLen => Some "bad bulk bytes len"%string
  | ErrBadBulkBytesLenTooLong => Some "bad bulk bytes len, too long"%string
  | ErrBadMultiBulkLen => Some "bad multi-bulk len"%string
  | ErrBadMultiBulkContent =>
    Some "bad multi-bulk content, should be bulkbytes"%string
  | ErrFailedDecoder => Some "use of failed decoder"%string
  | _ => None
  end.

(** ** [strconv.ParseInt(s, 10, 64)]

  Go's standard library, not part of the repository: transcribed from
  [strconv/atoi.go] at base 10 and bit size 64.  *)

Module strconv.
Import Go.

Definition syntaxError (fn : string) (s : list byte) : NumError :=
  mkNumError fn (string_of_list_byte s) ErrSyntax.
Definition rangeError (fn : string) (s : list byte) : NumError :=
  mkNumError fn (string_of_list_byte s) ErrRange.

Definition maxUint64 : Z := 2 ^ 64 - 1.

(** [lower(c) = c | ('x' - 'X')] *)
Definition lower (c : byte) : Z := Z.lor (val c) 32.

(** The digit of [c] in [ParseUint]'s loop, [None] where the loop
    returns a syntax error before looking at the base. *)
Definition digit_of (c : byte) : option Z :=
  if (val "0" <=? val c) && (val c <=? val "9") then Some (wrap8 (val c - val "0"))
  else if (val "a" <=? lower c) && (lower c <=? val "z")
       then Some (wrap8 (lower c - val "a" + 10))
       else None.

(** The loop of [ParseUint] at base 10, bit size 64: [inl n] is the value
    accumulated, [inr c] the cause of the error returned. *)
Fixpoint ParseUint_loop (s : list byte) (n : Z) : Z + strconv_cause :=
  match s with
  | [] => inl n
  | c :: s' =>
      match digit_of c with
      | None => inr ErrSyntax
      | Some d =>
          if 10 <=? d then inr ErrSyntax
          else if maxUint64 / 10 + 1 <=? n then inr ErrRange
          else
            let n10 := wrapu64 (n * 10) in
            let n1 := wrapu64 (n10 + d) in
            if (n1 <? n10) || (maxUint64 <? n1) then inr ErrRange
            else ParseUint_loop s' n1
      end
  end.

Definition ParseUint (s : list byte) : Z * option NumError :=
  match s with
  | [] => (0, Some (syntaxError "ParseUint" s))
  | _ =>
      match ParseUint_loop s 0 with
      | inl n => (n, None)
      | inr ErrSyntax => (0, Some (syntaxError "ParseUint" s))
      | inr ErrRange => (maxUint64, Some (rangeError "ParseUint" s))
      end
  end.

Definition ParseInt (s0 : list byte) : Z * option NumError :=
  match s0 with
  | [] => (0, Some (syntaxError "ParseInt" s0))
  | c :: s' =>
      let '(neg, s) :=
        if decide (c = "+"%byte) then (false, s')
        else if decide (c = "-"%byte) then (true, s')
        else (false, s0) in
      let '(un, err) := ParseUint s in
      match err with
      | Some (mkNumError _ _ ErrSyntax) => (0, Some (syntaxError "ParseInt" s0))
      | _ =>
          let cutoff := 2 ^ 63 in
          if negb neg && (cutoff <=? un) then
            (cutoff - 1, Some (rangeError "ParseInt" s0))
          else if neg && (cutoff <? un) then
            (- cutoff, Some (rangeError "ParseInt" s0))
          else
            let n := wrap64 un in
            (if neg then wrap64 (- n) else n, None)
      end
  end.

End strconv.

(** ** [redis]: integer parsing ([decoder.go]) *)

Module redis_int.
Import Go.

Definition is_digit (c : byte) : bool :=
  (val "0" <=? val c) && (val c <=? val "9").

(** The loop [for ; i < len(b) && b[i] >= '0' && b[i] <= '9'; i++] of
    [Btoi64], run on [b[i:]]: the value accumulated and the part of [b] left
    when the loop stops ([len(b) == i] holds exactly when nothing is left). *)
Fixpoint Btoi64_loop (bs : list byte) (n : Z) : Z * list byte :=
  match bs with
  | [] => (n, [])
  | c :: bs' =>
      if is_digit c
      then Btoi64_loop bs' (wrap64 (wrap8 (val c - val "0") + wrap64 (n * 10)))
      else (n, bs)
  end.

(** The last statement of [Btoi64]: the call of [strconv.ParseInt]. *)
Definition Btoi64_generic (b : list byte) : Z * option error :=
  match strconv.ParseInt b with
  | (_, Some err) => (0, Some (ErrNum err))
  | (n, None) => (n, None)
  end.

Definition Btoi64 (b : list byte) : Z * option error :=
  if negb (length b =? 0)%nat && (length b <? 10)%nat then
    let '(neg, i) :=
      match b with
      | c :: _ =>
          if decide (c = "-"%byte) then (true, 1%nat)
          else if decide (c = "+"%byte) then (false, 1%nat)
          else (false, 0%nat)
      | [] => (false, 0%nat)
      end in
    if negb (length b =? i)%nat then
      let '(n, rest) := Btoi64_loop (drop i b) 0 in
      if decide (rest = []) then
        ((if neg then wrap64 (- n) else n), None)
      else Btoi64_generic b
    else Btoi64_generic b
  else Btoi64_generic b.

(** The number a sequence of decimal digits denotes, after [n]. *)
Definition decimal (ds : list byte) (n : Z) : Z :=
  fold_left (fun acc c => acc * 10 + (val c - val "0")) ds n.

(** An optional sign followed by decimal digits. *)
Definition signed_digits (b : list byte) : Prop :=
  exists sgn ds,
    b = sgn ++ ds /\
    (sgn = [] \/ sgn = ["+"%byte] \/ sgn = ["-"%byte]) /\
    Forall (fun c => is_digit c = true) ds.

Lemma is_digit_val c : is_digit c = true -> 48 <= val c <= 57.
Proof.
  unfold is_digit. rewrite andb_true_iff, !Z.leb_le.
  change (val "0") with 48. change (val "9") with 57. lia.
Qed.

Lemma digit_of_digit c :
  is_digit c = true -> strconv.digit_of c = Some (val c - 48) /\ 0 <= val c - 48 <= 9.
Proof.
  intros H. unfold strconv.digit_of. fold (is_digit c). rewrite H.
  apply is_digit_val in H. change (val "0") with 48.
  unfold wrap8. rewrite Z.mod_small by lia. split; [reflexivity | lia].
Qed.

Lemma decimal_cons c ds n :
  decimal (c :: ds) n = decimal ds (n * 10 + (val c - 48)).
Proof. reflexivity. Qed.

Lemma decimal_bounds ds : forall n,
  Forall (fun c => is_digit c = true) ds -> 0 <= n ->
  n * 10 ^ Z.of_nat (length ds) <= decimal ds n
  /\ decimal ds n < (n + 1) * 10 ^ Z.of_nat (length ds).
Proof.
  induction ds as [|c ds IH]; intros n Hd Hn.
  - cbn. lia.
  - inversion Hd as [|? ? Hc Hds]; subst.
    apply is_digit_val in Hc.
    rewrite decimal_cons.
    destruct (IH (n * 10 + (val c - 48)) Hds ltac:(lia)) as [Hlo Hhi].
    cbn [length]. rewrite Nat2Z.inj_succ, Z.pow_succ_r by lia.
    assert (0 < 10 ^ Z.of_nat (length ds)) by (apply Z.pow_pos_nonneg; lia).
    split; nia.
Qed.

Lemma Btoi64_loop_digits ds : forall n,
  Forall (fun c => is_digit c = true) ds -> 0 <= n ->
  (n + 1) * 10 ^ Z.of_nat (length ds) <= 2 ^ 63 ->
  Btoi64_loop ds n = (decimal ds n, []).
Proof.
  induction ds as [|c ds IH]; intros n Hd Hn Hb.
  - reflexivity.
  - inversion Hd as [|? ? Hc Hds]; subst.
    cbn [Btoi64_loop]. rewrite Hc. apply is_digit_val in Hc.
    cbn [length] in Hb. rewrite Nat2Z.inj_succ, Z.pow_succ_r in Hb by lia.
    assert (0 < 10 ^ Z.of_nat (length ds)) by (apply Z.pow_pos_nonneg; lia).
    change (val "0") with 48.
    assert (Hw8 : wrap8 (val c - 48) = val c - 48)
      by (unfold wrap8; rewrite Z.mod_small; lia).
    rewrite Hw8, (wrap64_id (n * 10)) by (unfold in_int64; nia).
    rewrite wrap64_id by (unfold in_int64; nia).
    rewrite decimal_cons, <- IH; [f_equal; lia | assumption | lia | nia].
Qed.

Lemma ParseUint_loop_digits ds : forall n,
  Forall (fun c => is_digit c = true) ds -> 0 <= n ->
  (n + 1) * 10 ^ Z.of_nat (length ds) <= 2 ^ 63 ->
  strconv.ParseUint_loop ds n = inl (decimal ds n).
Proof.
  induction ds as [|c ds IH]; intros n Hd Hn Hb.
  - reflexivity.
  - inversion Hd as [|? ? Hc Hds]; subst.
    cbn [strconv.ParseUint_loop].
    destruct (digit_of_digit c Hc) as [-> Hr].
    cbn [length] in Hb. rewrite Nat2Z.inj_succ, Z.pow_succ_r in Hb by lia.
    assert (0 < 10 ^ Z.of_nat (length ds)) by (apply Z.pow_pos_nonneg; lia).
    assert (Hlin : (n + 1) * 10 <= 2 ^ 63) by nia.
    destruct (10 <=? val c - 48) eqn:E1; [apply Z.leb_le in E1; lia|].
    unfold strconv.maxUint64.
    change (2 ^ 63) with 9223372036854775808 in Hlin.
    change ((2 ^ 64 - 1) / 10 + 1) with 1844674407370955162.
    change (2 ^ 64 - 1) with 18446744073709551615.
    destruct (_ <=? n) eqn:E2; [apply Z.leb_le in E2; lia|].
    rewrite (wrapu64_id (n * 10)) by (change (2 ^ 64) with 18446744073709551616; lia).
    rewrite wrapu64_id by (change (2 ^ 64) with 18446744073709551616; lia).
    destruct (n * 10 + (val c - 48) <? n * 10) eqn:E3;
      [apply Z.ltb_lt in E3; lia|].
    destruct (18446744073709551615 <? n * 10 + (val c - 48)) eqn:E4;
      [apply Z.ltb_lt in E4; lia|].
    cbn [orb]. rewrite decimal_cons. apply IH; [assumption | lia | nia].
Qed.

(** The value a sign gives to a magnitude. *)
Definition apply_sign (sgn : list byte) (n : Z) : Z :=
  if decide (sgn = ["-"%byte]) then - n else n.

Lemma pow10_le_9 (k : nat) : (k <= 9)%nat -> 1 * 10 ^ Z.of_nat k <= 2 ^ 63.
Proof.
  intros Hk. transitivity (10 ^ 9); [|vm_compute; discriminate].
  rewrite Z.mul_1_l. apply Z.pow_le_mono_r; lia.
Qed.

Lemma digit_not_sign c :
  is_digit c = true -> c <> "-"%byte /\ c <> "+"%byte.
Proof. intros H; split; intros ->; discriminate H. Qed.

Lemma decimal_small ds :
  Forall (fun c => is_digit c = true) ds -> (length ds <= 9)%nat ->
  0 <= decimal ds 0 < 2 ^ 63.
Proof.
  intros Hd Hl. destruct (decimal_bounds ds 0 Hd ltac:(lia)) as [Hlo Hhi].
  pose proof (pow10_le_9 _ Hl). lia.
Qed.

(** The fast path: on an optional sign followed by at least one and at most
    nine digits in all, [Btoi64] returns the number denoted. *)
Lemma Btoi64_fast_path sgn ds :
  (sgn = [] \/ sgn = ["+"%byte] \/ sgn = ["-"%byte]) ->
  Forall (fun c => is_digit c = true) ds -> ds <> [] ->
  (length (sgn ++ ds) <= 9)%nat ->
  Btoi64 (sgn ++ ds) = (apply_sign sgn (decimal ds 0), None).
Proof.
  intros Hs Hd Hne Hl. rewrite length_app in Hl.
  assert (Hloop : Btoi64_loop ds 0 = (decimal ds 0, []))
    by (apply Btoi64_loop_digits; [assumption | lia | apply pow10_le_9; lia]).
  pose proof (decimal_small ds Hd ltac:(lia)) as Hsm.
  destruct ds as [|c ds']; [congruence|].
  inversion Hd as [|? ? Hc _]; subst.
  destruct (digit_not_sign c Hc) as [Hm Hp].
  unfold Btoi64.
  destruct Hs as [-> | [-> | ->]]; cbn [app length] in *.
  - replace (negb _ && _) with true
      by (symmetry; apply andb_true_iff; split; [reflexivity | apply Nat.ltb_lt; lia]).
    rewrite !decide_False by assumption.
    cbn [Nat.eqb negb drop]. rewrite Hloop. reflexivity.
  - replace (negb _ && _) with true
      by (symmetry; apply andb_true_iff; split; [reflexivity | apply Nat.ltb_lt; lia]).
    rewrite decide_False by discriminate. rewrite decide_True by reflexivity.
    cbn [Nat.eqb negb drop]. rewrite Hloop. reflexivity.
  - replace (negb _ && _) with true
      by (symmetry; apply andb_true_iff; split; [reflexivity | apply Nat.ltb_lt; lia]).
    rewrite decide_True by reflexivity.
    cbn [Nat.eqb negb drop]. rewrite Hloop. cbn iota beta.
    rewrite decide_True by reflexivity.
    rewrite wrap64_id by (unfold in_int64; lia). reflexivity.
Qed.

(** [strconv.ParseInt] on the same inputs. *)
Lemma ParseInt_signed_digits sgn ds :
  (sgn = [] \/ sgn = ["+"%byte] \/ sgn = ["-"%byte]) ->
  Forall (fun c => is_digit c = true) ds -> ds <> [] ->
  (length (sgn ++ ds) <= 9)%nat ->
  strconv.ParseInt (sgn ++ ds) = (apply_sign sgn (decimal ds 0), None).
Proof.
  intros Hs Hd Hne Hl. rewrite length_app in Hl.
  assert (Hloop : strconv.ParseUint_loop ds 0 = inl (decimal ds 0))
    by (apply ParseUint_loop_digits; [assumption | lia | apply pow10_le_9; lia]).
  pose proof (decimal_small ds Hd ltac:(lia)) as Hsm.
  assert (HU : strconv.ParseUint ds = (decimal ds 0, None)).
  { unfold strconv.ParseUint. destruct ds; [congruence|]. now rewrite Hloop. }
  assert (Hge : (2 ^ 63 <=? decimal ds 0) = false) by (apply Z.leb_gt; lia).
  assert (Hgt : (2 ^ 63 <? decimal ds 0) = false) by (apply Z.ltb_ge; lia).
  destruct ds as [|c ds']; [congruence|].
  inversion Hd as [|? ? Hc _]; subst.
  destruct (digit_not_sign c Hc) as [Hm Hp].
  unfold strconv.ParseInt.
  destruct Hs as [-> | [-> | ->]]; cbn [app].
  - rewrite !decide_False by assumption. rewrite HU. cbn zeta.
    rewrite Hge. cbn [negb andb]. rewrite wrap64_id by (unfold in_int64; lia).
    reflexivity.
  - rewrite decide_True by reflexivity. rewrite HU. cbn zeta.
    rewrite Hge. cbn [negb andb]. rewrite wrap64_id by (unfold in_int64; lia).
    reflexivity.
  - rewrite decide_False by discriminate. rewrite decide_True by reflexivity.
    rewrite HU. cbn zeta. rewrite Hgt. cbn [negb andb].
    rewrite (wrap64_id (decimal _ _)) by (unfold in_int64; lia).
    rewrite wrap64_id by (unfold in_int64; lia). reflexivity.
Qed.

(** The block [if len(b) != 0 && len(b) < 10 { ... }] of [Btoi64] on its
    own, the inline fast path: [Some n] where it returns [n, nil], [None]
    where control leaves it for the call of [strconv.ParseInt]. *)
Definition Btoi64_fast (b : list byte) : option Z :=
  if negb (length b =? 0)%nat && (length b <? 10)%nat then
    let '(neg, i) :=
      match b with
      | c :: _ =>
          if decide (c = "-"%byte) then (true, 1%nat)
          else if decide (c = "+"%byte) then (false, 1%nat)
          else (false, 0%nat)
      | [] => (false, 0%nat)
      end in
    if negb (length b =? i)%nat then
      let '(n, rest) := Btoi64_loop (drop i b) 0 in
      if decide (rest = []) then Some (if neg then wrap64 (- n) else n)
      else None
    else None
  else None.

(** [Btoi64] is its fast path, and the generic parser where that gives
    nothing. *)
Lemma Btoi64_fast_or_generic (b : list byte) :
  Btoi64 b = match Btoi64_fast b with
             | Some n => (n, None)
             | None => Btoi64_generic b
             end.
Proof.
  unfold Btoi64, Btoi64_fast.
  destruct (negb (length b =? 0)%nat && (length b <? 10)%nat); [|reflexivity].
  destruct (match b with [] => _ | _ => _ end) as [neg i].
  destruct (negb (length b =? i)%nat); [|reflexivity].
  destruct (Btoi64_loop (drop i b) 0) as [n rest].
  now destruct (decide (rest = [])).
Qed.

(** The fast path on an optional sign followed by at least one and at most
    nine digits in all: the loop reads every digit and the block returns the
    number denoted. *)
Lemma Btoi64_fast_digits sgn ds :
  (sgn = [] \/ sgn = ["+"%byte] \/ sgn = ["-"%byte]) ->
  Forall (fun c => is_digit c = true) ds -> ds <> [] ->
  (length (sgn ++ ds) <= 9)%nat ->
  Btoi64_loop ds 0 = (decimal ds 0, []) /\
  Btoi64_fast (sgn ++ ds) = Some (apply_sign sgn (decimal ds 0)).
Proof.
  intros Hs Hd Hne Hl. rewrite length_app in Hl.
  assert (Hloop : Btoi64_loop ds 0 = (decimal ds 0, []))
    by (apply Btoi64_loop_digits; [assumption | lia | apply pow10_le_9; lia]).
  split; [exact Hloop|].
  pose proof (decimal_small ds Hd ltac:(lia)) as Hsm.
  destruct ds as [|c ds']; [congruence|].
  inversion Hd as [|? ? Hc _]; subst.
  destruct (digit_not_sign c Hc) as [Hm Hp].
  unfold Btoi64_fast.
  destruct Hs as [-> | [-> | ->]]; cbn [app length] in *.
  - replace (negb _ && _) with true
      by (symmetry; apply andb_true_iff; split; [reflexivity | apply Nat.ltb_lt; lia]).
    rewrite !decide_False by assumption.
    cbn [Nat.eqb negb drop]. rewrite Hloop. reflexivity.
  - replace (negb _ && _) with true
      by (symmetry; apply andb_true_iff; split; [reflexivity | apply Nat.ltb_lt; lia]).
    rewrite decide_False by discriminate. rewrite decide_True by reflexivity.
    cbn [Nat.eqb negb drop]. rewrite Hloop. reflexivity.
  - replace (negb _ && _) with true
      by (symmetry; apply andb_true_iff; split; [reflexivity | apply Nat.ltb_lt; lia]).
    rewrite decide_True by reflexivity.
    cbn [Nat.eqb negb drop]. rewrite Hloop. cbn iota beta.
    rewrite decide_True by reflexivity.
    rewrite wrap64_id by (unfold in_int64; lia). reflexivity.
Qed.

(** C2.  On a byte string of length at most 9 made of an optional sign
    ('+' or '-') followed by decimal digits, [Btoi64] returns the value and
    the error that [strconv.ParseInt(string(b), 10, 64)] returns.  The
    result is that of the inline fast path wherever that returns, and it
    does on every such string that has a digit: its loop reads all the
    digits and the block returns the number they denote with the sign
    applied, the integer [strconv.ParseInt] returns.  A sign alone, or
    nothing, has no digit: the fast path returns nothing and the syntax
    error is that of [strconv.ParseInt]. *)
Theorem Btoi64_agrees_with_ParseInt (b : list byte) :
  (length b <= 9)%nat -> signed_digits b ->
  Btoi64 b = (fst (strconv.ParseInt b), ErrNum <$> snd (strconv.ParseInt b)) /\
  Btoi64 b = match Btoi64_fast b with
             | Some n => (n, None)
             | None => Btoi64_generic b
             end /\
  (forall sgn ds,
     b = sgn ++ ds ->
     (sgn = [] \/ sgn = ["+"%byte] \/ sgn = ["-"%byte]) ->
     Forall (fun c => is_digit c = true) ds ->
     if decide (ds = [])
     then Btoi64_fast b = None /\
          strconv.ParseInt b = (0, Some (strconv.syntaxError "ParseInt" b))
     else Btoi64_loop ds 0 = (decimal ds 0, []) /\
          Btoi64_fast b = Some (apply_sign sgn (decimal ds 0)) /\
          strconv.ParseInt b = (apply_sign sgn (decimal ds 0), None)).
Proof.
  intros Hl Hsd. split; [|split].
  - destruct Hsd as (sgn & ds & -> & Hs & Hd).
    destruct (decide (ds = [])) as [-> | Hne].
    + destruct Hs as [-> | [-> | ->]]; reflexivity.
    + rewrite Btoi64_fast_path, ParseInt_signed_digits by assumption.
      reflexivity.
  - apply Btoi64_fast_or_generic.
  - intros sgn ds -> Hs Hd.
    destruct (decide (ds = [])) as [-> | Hne].
    + destruct Hs as [-> | [-> | ->]]; split; reflexivity.
    + destruct (Btoi64_fast_digits sgn ds Hs Hd Hne Hl) as [Hloop Hfast].
      split; [exact Hloop|]. split; [exact Hfast|].
      now apply ParseInt_signed_digits.
Qed.

Lemma Btoi64_agrees_with_ParseInt_witness :
  Btoi64 (bytes "-12345678") = (-12345678, None)
  /\ Btoi64 (bytes "-12345678")
     = (fst (strconv.ParseInt (bytes "-12345678")),
        ErrNum <$> snd (strconv.ParseInt (bytes "-12345678")))
  /\ Btoi64_loop (bytes "12345678") 0 = (12345678, [])
  /\ Btoi64_fast (bytes "-12345678") = Some (-12345678).
Proof.
  assert (Hsd : signed_digits (bytes "-12345678")).
  { exists ["-"%byte], (bytes "12345678").
    split; [reflexivity|]. split; [auto|]. repeat constructor. }
  destruct (Btoi64_agrees_with_ParseInt (bytes "-12345678")) as (Heq & _ & Hfast);
    [vm_compute; lia | exact Hsd |].
  specialize (Hfast ["-"%byte] (bytes "12345678") eq_refl).
  rewrite decide_False in Hfast by discriminate.
  destruct Hfast as (Hloop & Hf & _); [auto | repeat constructor |].
  split; [vm_compute; reflexivity|]. split; [exact Heq|].
  split; [exact Hloop | exact Hf].
Defined.

(** Beyond nine bytes the generic parser decides, and a value out of range
    comes back as 0 with the range error (where [ParseInt] itself returns
    the nearest bound). *)
Example Btoi64_long :
  Btoi64 (bytes "-1234567890123") = (-1234567890123, None).
Proof. vm_compute. reflexivity. Qed.

Example Btoi64_out_of_range :
  Btoi64 (bytes "9223372036854775808")
  = (0, Some (ErrNum (strconv.rangeError "ParseInt" (bytes "9223372036854775808"))))
  /\ fst (strconv.ParseInt (bytes "9223372036854775808")) = 2 ^ 63 - 1.
Proof. vm_compute. split; reflexivity. Qed.

(** *** [Btoi64] on every input *)

(** A byte that is not a decimal digit ends [ParseUint]'s loop with a syntax
    error: no digit at all, or a letter, whose value is at least the base. *)
Lemma digit_of_other c :
  is_digit c = false ->
  match strconv.digit_of c with None => true | Some d => 10 <=? d end = true.
Proof. destruct c; intros Hd; try discriminate Hd; vm_compute; reflexivity. Qed.

Lemma Btoi64_loop_rest : forall bs n m,
  Btoi64_loop bs n = (m, []) -> Forall (fun c => is_digit c = true) bs.
Proof.
  induction bs as [|c bs IH]; intros n m Hl; [constructor|].
  cbn [Btoi64_loop] in Hl. destruct (is_digit c) eqn:Ec; [|discriminate].
  constructor; [exact Ec | eapply IH; exact Hl].
Qed.

(** The loop of [ParseUint] over decimal digits: the number denoted as long
    as it fits 64 bits, the range error from the digit that makes it
    overflow on. *)
Lemma ParseUint_loop_decimal ds : forall n,
  Forall (fun c => is_digit c = true) ds -> 0 <= n < 2 ^ 64 ->
  strconv.ParseUint_loop ds n
  = if decimal ds n <? 2 ^ 64 then inl (decimal ds n) else inr ErrRange.
Proof.
  induction ds as [|c ds IH]; intros n Hd Hn.
  - cbn. replace (n <? 2 ^ 64) with true by lia. reflexivity.
  - inversion Hd as [|? ? Hc Hds]; subst.
    cbn [strconv.ParseUint_loop].
    destruct (digit_of_digit c Hc) as [-> Hr].
    replace (10 <=? val c - 48) with false by lia.
    rewrite decimal_cons.
    pose proof (decimal_bounds ds (n * 10 + (val c - 48)) Hds ltac:(lia)) as [Hlo _].
    assert (Hp : 0 < 10 ^ Z.of_nat (length ds)) by (apply Z.pow_pos_nonneg; lia).
    unfold strconv.maxUint64.
    change ((2 ^ 64 - 1) / 10 + 1) with 1844674407370955162.
    change (2 ^ 64 - 1) with 18446744073709551615.
    change (2 ^ 64) with 18446744073709551616 in *.
    destruct (1844674407370955162 <=? n) eqn:E2.
    + apply Z.leb_le in E2.
      replace (_ <? 18446744073709551616) with false; [reflexivity|].
      symmetry. apply Z.ltb_ge. nia.
    + apply Z.leb_gt in E2.
      rewrite (wrapu64_id (n * 10))
        by (change (2 ^ 64) with 18446744073709551616; lia).
      destruct (decide (n * 10 + (val c - 48) < 18446744073709551616)) as [Hfit | Hover].
      * rewrite wrapu64_id by (change (2 ^ 64) with 18446744073709551616; lia).
        replace (n * 10 + (val c - 48) <? n * 10) with false by lia.
        replace (18446744073709551615 <? n * 10 + (val c - 48)) with false by lia.
        cbn [orb]. apply IH; [assumption | lia].
      * assert (Hw : wrapu64 (n * 10 + (val c - 48))
                     = n * 10 + (val c - 48) - 18446744073709551616).
        { unfold wrapu64. change (2 ^ 64) with 18446744073709551616.
          symmetry. apply Z.mod_unique with (q := 1); lia. }
        rewrite Hw.
        replace (_ <? n * 10) with true by lia. cbn [orb].
        replace (_ <? 18446744073709551616) with false; [reflexivity|].
        symmetry. apply Z.ltb_ge. nia.
Qed.

(** A byte that is no digit makes the loop fail, whatever comes before. *)
Lemma ParseUint_loop_other ds : forall n,
  ~ Forall (fun c => is_digit c = true) ds ->
  exists cause, strconv.ParseUint_loop ds n = inr cause.
Proof.
  induction ds as [|c ds IH]; intros n Hnd.
  - destruct Hnd. constructor.
  - cbn [strconv.ParseUint_loop]. destruct (is_digit c) eqn:Ec.
    + destruct (digit_of_digit c Ec) as [-> Hr].
      replace (10 <=? val c - 48) with false by lia.
      destruct (_ <=? n); [now exists ErrRange|].
      destruct (_ || _); [now exists ErrRange|].
      apply IH. intros Hds. apply Hnd. now constructor.
    + pose proof (digit_of_other c Ec) as Ho.
      destruct (strconv.digit_of c) as [d|]; [|now exists ErrSyntax].
      rewrite Ho. now exists ErrSyntax.
Qed.

(** [ParseUint] succeeds exactly on one digit or more whose number fits 64
    bits. *)
Lemma ParseUint_ok s un :
  strconv.ParseUint s = (un, None)
  <-> s <> [] /\ Forall (fun c => is_digit c = true) s /\
      un = decimal s 0 /\ un < 2 ^ 64.
Proof.
  unfold strconv.ParseUint. destruct s as [|c s]; [split; [discriminate | intros [? _]; congruence]|].
  destruct (decide (Forall (fun c => is_digit c = true) (c :: s))) as [Hd | Hnd].
  - rewrite ParseUint_loop_decimal by (assumption || lia).
    destruct (decimal (c :: s) 0 <? 2 ^ 64) eqn:E.
    + apply Z.ltb_lt in E. split.
      * intros [= <-]. now repeat split.
      * intros (_ & _ & -> & _). reflexivity.
    + apply Z.ltb_ge in E. split; [discriminate|].
      intros (_ & _ & -> & Hlt). lia.
  - destruct (ParseUint_loop_other (c :: s) 0 Hnd) as [cause ->].
    split; [destruct cause; discriminate | intros (_ & Hd & _); contradiction].
Qed.

(** The one way to cut a byte string into a sign and digits. *)
Lemma sign_split (c : byte) (b' sgn ds : list byte) :
  (sgn = [] \/ sgn = ["+"%byte] \/ sgn = ["-"%byte]) ->
  ds <> [] -> Forall (fun c => is_digit c = true) ds ->
  c :: b' = sgn ++ ds ->
  (c = "+"%byte /\ sgn = ["+"%byte] /\ ds = b') \/
  (c = "-"%byte /\ sgn = ["-"%byte] /\ ds = b') \/
  (c <> "+"%byte /\ c <> "-"%byte /\ sgn = [] /\ ds = c :: b').
Proof.
  intros [-> | [-> | ->]] Hne Hd Hb; cbn [app] in Hb.
  - right; right. subst ds. inversion Hd as [|? ? Hc _]; subst.
    destruct (digit_not_sign c Hc). auto.
  - left. injection Hb as -> ->. auto.
  - right; left. injection Hb as -> ->. auto.
Qed.

(** What [Btoi64] accepts: a sign or none, then digits. *)
Definition accepted (b : list byte) (n : Z) : Prop :=
  exists sgn ds,
    b = sgn ++ ds /\
    (sgn = [] \/ sgn = ["+"%byte] \/ sgn = ["-"%byte]) /\
    ds <> [] /\ Forall (fun c => is_digit c = true) ds /\
    n = apply_sign sgn (decimal ds 0) /\ - 2 ^ 63 <= n < 2 ^ 63.

Lemma ParseInt_ok b n : strconv.ParseInt b = (n, None) <-> accepted b n.
Proof.
  unfold strconv.ParseInt, accepted.
  destruct b as [|c b'].
  { split; [discriminate|]. intros (sgn & ds & Hb & _ & Hne & _).
    symmetry in Hb. apply app_eq_nil in Hb as [_ ->]. congruence. }
  set (pick := if decide (c = "+"%byte) then (false, b')
               else if decide (c = "-"%byte) then (true, b') else (false, c :: b')).
  assert (Hpick : exists sgn, (sgn = [] \/ sgn = ["+"%byte] \/ sgn = ["-"%byte]) /\
            c :: b' = sgn ++ snd pick /\
            fst pick = bool_decide (sgn = ["-"%byte]) /\
            (forall sgn' ds, (sgn' = [] \/ sgn' = ["+"%byte] \/ sgn' = ["-"%byte]) ->
               ds <> [] -> Forall (fun c => is_digit c = true) ds ->
               c :: b' = sgn' ++ ds -> sgn' = sgn /\ ds = snd pick)).
  { subst pick. destruct (decide (c = "+"%byte)) as [-> | Hp];
      [|destruct (decide (c = "-"%byte)) as [-> | Hm]].
    - exists ["+"%byte]. split; [auto|]. split; [reflexivity|]. split; [reflexivity|].
      intros sgn' ds Hs' Hne Hd Hb'.
      destruct (sign_split _ _ _ _ Hs' Hne Hd Hb')
        as [(_ & -> & ->) | [(? & _) | (? & _)]]; [auto | discriminate | congruence].
    - exists ["-"%byte]. split; [auto|]. split; [reflexivity|]. split; [reflexivity|].
      intros sgn' ds Hs' Hne Hd Hb'.
      destruct (sign_split _ _ _ _ Hs' Hne Hd Hb')
        as [(? & _) | [(_ & -> & ->) | (_ & ? & _)]]; [discriminate | auto | congruence].
    - exists []. split; [auto|]. split; [reflexivity|]. split; [reflexivity|].
      intros sgn' ds Hs' Hne Hd Hb'.
      destruct (sign_split _ _ _ _ Hs' Hne Hd Hb')
        as [(? & _) | [(? & _) | (_ & _ & -> & ->)]]; [congruence | congruence | auto]. }
  destruct Hpick as (sgn & Hsgn & Hb & Hneg & Huniq).
  destruct pick as [neg s]. cbn [fst snd] in *. subst neg.
  destruct (strconv.ParseUint s) as [un err] eqn:EU.
  assert (Hdec : forall ds, Forall (fun c => is_digit c = true) ds -> 0 <= decimal ds 0).
  { intros ds Hd. pose proof (decimal_bounds ds 0 Hd ltac:(lia)).
    assert (0 <= 10 ^ Z.of_nat (length ds)) by (apply Z.pow_nonneg; lia). lia. }
  destruct err as [[fn num cause]|].
  - (* [ParseUint] failed: so does [ParseInt] *)
    assert (Hfail : ~ (s <> [] /\ Forall (fun c => is_digit c = true) s /\
                       decimal s 0 < 2 ^ 64)).
    { intros (H1 & H2 & H3).
      assert (strconv.ParseUint s = (decimal s 0, None)) as Hok
        by (apply ParseUint_ok; auto).
      congruence. }
    assert (Hun : cause = ErrRange -> un = strconv.maxUint64).
    { intros ->. unfold strconv.ParseUint in EU. destruct s; [discriminate|].
      unfold strconv.syntaxError, strconv.rangeError in EU.
      destruct (strconv.ParseUint_loop _ _) as [?|[|]]; congruence. }
    split.
    + destruct cause; [discriminate|].
      rewrite (Hun eq_refl). unfold strconv.maxUint64.
      destruct (bool_decide (sgn = ["-"%byte])); cbn; discriminate.
    + intros (sgn' & ds & Hb' & Hs' & Hne & Hd & -> & Hr).
      destruct (Huniq sgn' ds Hs' Hne Hd Hb') as [-> ->].
      exfalso. apply Hfail. split; [assumption|]. split; [assumption|].
      pose proof (Hdec s Hd).
      unfold apply_sign in Hr. destruct (decide _); lia.
  - apply ParseUint_ok in EU as (Hne & Hd & -> & Hlt).
    pose proof (Hdec s Hd) as H0.
    cbn zeta.
    assert (H63 : (2:Z) ^ 63 = 9223372036854775808) by reflexivity.
    assert (H64 : (2:Z) ^ 64 = 18446744073709551616) by reflexivity.
    split.
    + intros Hres. exists sgn, s. split; [exact Hb|]. split; [exact Hsgn|].
      split; [exact Hne|]. split; [exact Hd|].
      unfold apply_sign.
      destruct (decide (sgn = ["-"%byte])) as [Hs | Hs].
      * rewrite bool_decide_eq_true_2 in Hres by exact Hs. cbn [negb andb] in Hres.
        destruct (2 ^ 63 <? decimal s 0) eqn:E; [discriminate|].
        apply Z.ltb_ge in E. injection Hres as <-.
        destruct (decide (decimal s 0 = 2 ^ 63)) as [Heq | Hneq].
        -- rewrite Heq. vm_compute. split; [reflexivity|]. split; [discriminate | reflexivity].
        -- rewrite (wrap64_id (decimal s 0)) by (unfold in_int64; lia).
           rewrite wrap64_id by (unfold in_int64; lia). split; [reflexivity | lia].
      * rewrite bool_decide_eq_false_2 in Hres by exact Hs. cbn [negb andb] in Hres.
        destruct (2 ^ 63 <=? decimal s 0) eqn:E; [discriminate|].
        apply Z.leb_gt in E. injection Hres as <-.
        rewrite wrap64_id by (unfold in_int64; lia). split; [reflexivity | lia].
    + intros (sgn' & ds & Hb' & Hs' & Hne' & Hd' & -> & Hr).
      destruct (Huniq sgn' ds Hs' Hne' Hd' Hb') as [-> ->].
      unfold apply_sign in *.
      destruct (decide (sgn = ["-"%byte])) as [Hs | Hs].
      * rewrite bool_decide_eq_true_2 by exact Hs. cbn [negb andb].
        replace (2 ^ 63 <? decimal s 0) with false by lia.
        destruct (decide (decimal s 0 = 2 ^ 63)) as [Heq | Hneq].
        -- rewrite Heq. reflexivity.
        -- rewrite (wrap64_id (decimal s 0)) by (unfold in_int64; lia).
           rewrite wrap64_id by (unfold in_int64; lia). reflexivity.
      * rewrite bool_decide_eq_false_2 by exact Hs. cbn [negb andb].
        replace (2 ^ 63 <=? decimal s 0) with false by lia.
        rewrite wrap64_id by (unfold in_int64; lia). reflexivity.
Qed.


Lemma Btoi64_generic_accepted sgn ds :
  (sgn = [] \/ sgn = ["+"%byte] \/ sgn = ["-"%byte]) ->
  Forall (fun c => is_digit c = true) ds -> ds <> [] ->
  (length (sgn ++ ds) <= 9)%nat ->
  Btoi64 (sgn ++ ds) = Btoi64_generic (sgn ++ ds).
Proof.
  intros Hs Hd Hne Hl. unfold Btoi64_generic.
  now rewrite Btoi64_fast_path, ParseInt_signed_digits.
Qed.

(** The fast path of [Btoi64] is an optimisation only: what it returns is
    what the call of [strconv.ParseInt] below it would return. *)
Lemma Btoi64_is_generic (b : list byte) : Btoi64 b = Btoi64_generic b.
Proof.
  destruct b as [|c b']; [reflexivity|].
  destruct (le_lt_dec 10 (length (c :: b'))) as [Hlong | Hshort].
  { unfold Btoi64. replace (length (c :: b') <? 10)%nat with false
      by (symmetry; apply Nat.ltb_ge; exact Hlong).
    now rewrite andb_false_r. }
  assert (Hcond : negb (length (c :: b') =? 0)%nat && (length (c :: b') <? 10)%nat = true).
  { apply andb_true_iff. split; [reflexivity | apply Nat.ltb_lt; exact Hshort]. }
  assert (Hsigned : forall (neg : bool) (sgn : list byte) (m : Z) (rest : list byte),
            (sgn = ["+"%byte] \/ sgn = ["-"%byte]) -> c :: b' = sgn ++ b' ->
            Btoi64_loop b' 0 = (m, rest) ->
            (if negb (length (c :: b') =? 1)%nat then
               if decide (rest = []) then ((if neg then wrap64 (- m) else m), None)
               else Btoi64_generic (c :: b')
             else Btoi64_generic (c :: b'))
            = Btoi64 (c :: b') ->
            Btoi64 (c :: b') = Btoi64_generic (c :: b')).
  { intros neg sgn m rest Hsgn Hb EL Hunf.
    destruct b' as [|d b'']; [now rewrite <- Hunf|].
    destruct rest as [|r rest'].
    - apply Btoi64_loop_rest in EL. rewrite Hb.
      apply Btoi64_generic_accepted; [tauto | exact EL | discriminate |].
      rewrite <- Hb. lia.
    - rewrite <- Hunf. cbn [length Nat.eqb negb].
      now rewrite decide_False by discriminate. }
  destruct (Btoi64_loop b' 0) as [m rest] eqn:EL.
  specialize (fun neg sgn Hs Hb => Hsigned neg sgn m rest Hs Hb eq_refl).
  destruct (decide (c = "-"%byte)) as [-> | Hm];
    [|destruct (decide (c = "+"%byte)) as [-> | Hp]].
  - apply (Hsigned true ["-"%byte]); [auto | reflexivity |].
    unfold Btoi64. rewrite Hcond.
    rewrite (decide_True (P := "-"%byte = "-"%byte)) by reflexivity.
    change (drop 1 (_ :: b')) with b'. rewrite EL. reflexivity.
  - apply (Hsigned false ["+"%byte]); [auto | reflexivity |].
    unfold Btoi64. rewrite Hcond.
    rewrite (decide_False (P := "+"%byte = "-"%byte)) by discriminate.
    rewrite (decide_True (P := "+"%byte = "+"%byte)) by reflexivity.
    change (drop 1 (_ :: b')) with b'. rewrite EL. reflexivity.
  - clear Hsigned EL m rest.
    destruct (Btoi64_loop (c :: b') 0) as [m rest] eqn:EL.
    destruct rest as [|r rest'].
    + apply Btoi64_loop_rest in EL.
      apply (Btoi64_generic_accepted [] (c :: b')); [auto | exact EL | discriminate |].
      cbn [app]. lia.
    + unfold Btoi64. rewrite Hcond. rewrite !decide_False by assumption.
      change (drop 0 (c :: b')) with (c :: b'). cbn [length Nat.eqb negb]. rewrite EL.
      now rewrite decide_False by discriminate.
Qed.

(** X1.  On every byte string, of any length and shape, [Btoi64] returns
    what [strconv.ParseInt(string(b), 10, 64)] returns, except that the
    value is 0 whenever there is an error (where [ParseInt] returns the
    nearest bound on a range error): the hand-written loop over at most nine
    bytes never disagrees with the library call it stands for. *)
Theorem Btoi64_is_ParseInt (b : list byte) :
  Btoi64 b
  = match strconv.ParseInt b with
    | (n, None) => (n, None)
    | (_, Some err) => (0, Some (ErrNum err))
    end.
Proof.
  rewrite Btoi64_is_generic. unfold Btoi64_generic.
  now destruct (strconv.ParseInt b) as [n [err|]].
Qed.

(** X2.  [Btoi64] returns a number without error exactly on an optional
    sign ('+' or '-') followed by one decimal digit or more, leading zeros
    allowed, whose value lies in the range of int64; the number is that
    value.  On every other input it returns 0 and an error. *)
Theorem Btoi64_accepts (b : list byte) (n : Z) :
  (Btoi64 b = (n, None)
   <-> exists sgn ds,
         b = sgn ++ ds /\
         (sgn = [] \/ sgn = ["+"%byte] \/ sgn = ["-"%byte]) /\
         ds <> [] /\ Forall (fun c => is_digit c = true) ds /\
         n = apply_sign sgn (decimal ds 0) /\ - 2 ^ 63 <= n < 2 ^ 63) /\
  (snd (Btoi64 b) <> None -> fst (Btoi64 b) = 0).
Proof.
  rewrite Btoi64_is_generic. unfold Btoi64_generic. split.
  - rewrite <- (ParseInt_ok b n).
    destruct (strconv.ParseInt b) as [m [err|]]; [split; discriminate|].
    split; intros [= ->]; reflexivity.
  - now destruct (strconv.ParseInt b) as [m [err|]].
Qed.

End redis_int.

(** ** [bufio2]: the buffered reader *)

Module bufio2.
Import Go.

(** *** The underlying [io.Reader]

    [rd.Read(p)] with [len(p) = n] is [io_Read rd n]: the bytes stored in
    [p[0:]] (as many as the count returned), the error returned and the
    reader afterwards. *)
Class IoReader (R : Type) := io_Read : R -> nat -> list byte * option io_error * R.

(** The contract of [io.Reader]: the count returned is at most [len(p)]. *)
Class IoLawful (R : Type) `{IoReader R} : Prop :=
  io_Read_length : forall (r : R) (n : nat),
    (length (fst (fst (io_Read r n))) <= n)%nat.

(** [bytes.Reader] (Go's standard library), as [bytes.NewReader(s)] makes
    it: the state is the part of [s] not yet read. *)
Definition bytes_Reader := list byte.

Global Instance bytes_Reader_Read : IoReader bytes_Reader := fun r n =>
  match r with
  | [] => ([], Some EOF, r)
  | _ => (take n r, None, drop n r)
  end.

Global Instance bytes_Reader_lawful : IoLawful bytes_Reader.
Proof.
  intros r n. unfold io_Read, bytes_Reader_Read.
  destruct r; cbn [fst]; [cbn; lia|]. rewrite length_take. lia.
Qed.

(** *** [sliceAlloc] *)

(** Modelled from the spec: [sliceAlloc.Make] (bufio2's slice arena, absent
    from the sources at hand) issues a byte region of the requested length,
    carved from a block of its own or freshly allocated, so that it shares
    nothing with the reader's buffer nor with a region issued before. *)
Definition Make (n : nat) : list byte := repeat "000"%byte n.

(** [copy(buf[n:], src)] as it leaves [buf], and the count. *)
Definition copy_at (buf : list byte) (n : nat) (src : list byte) : list byte * nat :=
  let '(tl, k) := copy (drop n buf) src in (take n buf ++ tl, k).

(** *** [Reader] *)

Record Reader (R : Type) := mkReader {
  err : option io_error;
  buf : list byte;
  rd : R;
  rpos : nat;
  wpos : nat
}.
Arguments mkReader {R}.
Arguments err {R}.
Arguments buf {R}.
Arguments rd {R}.
Arguments rpos {R}.
Arguments wpos {R}.

Definition DefaultBufferSize : Z := 1024.

Definition NewReaderSize {R} (r : R) (size : Z) : Reader R :=
  let size := if size <=? 0 then DefaultBufferSize else size in
  mkReader None (repeat "000"%byte (Z.to_nat size)) r 0 0.

Definition set_rpos {R} (b : Reader R) (n : nat) : Reader R :=
  mkReader (err b) (buf b) (rd b) n (wpos b).

Definition set_err {R} (b : Reader R) (e : io_error) : Reader R :=
  mkReader (Some e) (buf b) (rd b) (rpos b) (wpos b).

(** [bytes.IndexByte]; [None] is Go's -1. *)
Fixpoint IndexByte (s : list byte) (c : byte) : option nat :=
  match s with
  | [] => None
  | x :: s' => if decide (x = c) then Some 0%nat else S <$> IndexByte s' c
  end.

Section reader.
Context {R : Type} `{IoReader R}.

Definition buffered (b : Reader R) : nat := wpos b - rpos b.

(** The bytes read from the source and not yet handed out, [buf[rpos:wpos]]. *)
Definition pending (b : Reader R) : list byte := slice (buf b) (rpos b) (wpos b).

(** The first block of [fill]: [if b.rpos > 0 { ... }]. *)
Definition compact (b : Reader R) : Reader R :=
  if (0 <? rpos b)%nat then
    let '(buf', n) := copy (buf b) (slice (buf b) (rpos b) (wpos b)) in
    mkReader (err b) buf' (rd b) 0 n
  else b.

Definition fill (b : Reader R) : option io_error * Reader R :=
  match err b with
  | Some e => (Some e, b)
  | None =>
      let b1 := compact b in
      let '(data, e, rd') := io_Read (rd b1) (length (buf b1) - wpos b1) in
      let buf' := fst (copy_at (buf b1) (wpos b1) data) in
      match e with
      | Some e => (Some e, mkReader (Some e) buf' rd' (rpos b1) (wpos b1))
      | None =>
          if (length data =? 0)%nat
          then (Some ErrNoProgress,
                mkReader (Some ErrNoProgress) buf' rd' (rpos b1) (wpos b1))
          else (None, mkReader None buf' rd' (rpos b1) (wpos b1 + length data))
      end
  end.

(** [Read(p)] with [len(p) = n]: the bytes stored in [p[0:]], the error
    and the reader. *)
Definition Read (b : Reader R) (n : nat) : list byte * option io_error * Reader R :=
  if bool_decide (err b <> None) || (n =? 0)%nat then ([], err b, b)
  else
    let from_buf (b : Reader R) :=
      let data := take n (slice (buf b) (rpos b) (wpos b)) in
      (data, None, set_rpos b (rpos b + length data)) in
    if (buffered b =? 0)%nat then
      if (length (buf b) <=? n)%nat then
        let '(data, e, rd') := io_Read (rd b) n in
        let e' := match e with Some e => Some e | None => err b end in
        (data, e', mkReader e' (buf b) rd' (rpos b) (wpos b))
      else
        let '(e, b1) := fill b in
        match e with
        | Some _ => ([], err b1, b1)
        | None => from_buf b1
        end
    else from_buf b.

Definition ReadByte (b : Reader R) : byte * option io_error * Reader R :=
  match err b with
  | Some e => ("000"%byte, Some e, b)
  | None =>
      let take_byte (b : Reader R) :=
        (default "000"%byte (buf b !! rpos b), None, set_rpos b (rpos b + 1)) in
      if (buffered b =? 0)%nat then
        let '(e, b1) := fill b in
        match e with
        | Some _ => ("000"%byte, err b1, b1)
        | None => take_byte b1
        end
      else take_byte b
  end.

Definition PeekByte (b : Reader R) : byte * option io_error * Reader R :=
  match err b with
  | Some e => ("000"%byte, Some e, b)
  | None =>
      let peek (b : Reader R) := (default "000"%byte (buf b !! rpos b), None, b) in
      if (buffered b =? 0)%nat then
        let '(e, b1) := fill b in
        match e with
        | Some _ => ("000"%byte, err b1, b1)
        | None => peek b1
        end
      else peek b
  end.

(** The loop of [ReadSlice]; [None] when [fuel] iterations did not reach a
    [return]. *)
Fixpoint ReadSlice_loop (fuel : nat) (b : Reader R) (delim : byte)
  : option (option (list byte) * option error * Reader R) :=
  match fuel with
  | O => None
  | S fuel' =>
      match IndexByte (slice (buf b) (rpos b) (wpos b)) delim with
      | Some index =>
          let limit := (rpos b + index + 1)%nat in
          Some (Some (slice (buf b) (rpos b) limit), None, set_rpos b limit)
      | None =>
          if (buffered b =? length (buf b))%nat then
            Some (Some (buf b), Some ErrBufferFull, set_rpos b (wpos b))
          else
            let '(e, b1) := fill b in
            match e with
            | Some _ => Some (None, ErrIO <$> err b1, b1)
            | None => ReadSlice_loop fuel' b1 delim
            end
      end
  end.

(** [ReadSlice(delim)].  Every iteration that goes on has added a byte to
    the buffer, which is not full: [len(buf) + 1] iterations are enough
    ([ReadSlice_returns] below). *)
Definition ReadSlice (b : Reader R) (delim : byte)
  : option (option (list byte) * option error * Reader R) :=
  match err b with
  | Some e => Some (None, Some (ErrIO e), b)
  | None => ReadSlice_loop (S (length (buf b))) b delim
  end.

(** The end of [ReadBytes]: [buf = b.slice.Make(size)], then the fragments
    and the last slice copied into it one after the other. *)
Definition assemble (full : list (list byte)) (last : list byte) (size : nat)
  : list byte :=
  let '(buf, n) :=
    fold_left (fun '(buf, n) frag =>
                 let '(buf', k) := copy_at buf n frag in (buf', (n + k)%nat))
              full (Make size, 0%nat) in
  fst (copy_at buf n last).

(** The loop [for last == nil] of [ReadBytes].  Nothing bounds the number
    of full buffers a line may take: [None] when [fuel] iterations did not
    reach the end of the loop. *)
Fixpoint ReadBytes_loop (fuel : nat) (b : Reader R) (delim : byte)
    (full : list (list byte)) (size : nat)
  : option (option (list byte) * option error * Reader R) :=
  match fuel with
  | O => None
  | S fuel' =>
      '(f, e, b1) ← ReadSlice b delim;
      let len_f := length (default [] f) in
      match e with
      | Some e =>
          if decide (e = ErrBufferFull) then
            let dup := fst (copy (Make len_f) (default [] f)) in
            ReadBytes_loop fuel' b1 delim (full ++ [dup]) (size + len_f)
          else Some (None, ErrIO <$> err b1, b1)
      | None =>
          match f with
          | Some last =>
              Some (Some (assemble full last (size + len_f)), None, b1)
          | None => ReadBytes_loop fuel' b1 delim full (size + len_f)
          end
      end
  end.

Definition ReadBytes (fuel : nat) (b : Reader R) (delim : byte)
  : option (option (list byte) * option error * Reader R) :=
  ReadBytes_loop fuel b delim [] 0.

(** [io.ReadFull(b, buf)] (Go's standard library, [io.ReadAtLeast] with
    [min = len(buf)]): the loop [for n < min && err == nil], then the
    choice of the error. *)
Fixpoint io_ReadAtLeast_loop (fuel : nat) (b : Reader R) (p : list byte) (n : nat)
  : option (list byte * nat * option io_error * Reader R) :=
  if (n <? length p)%nat then
    match fuel with
    | O => None
    | S fuel' =>
        let '(data, e, b1) := Read b (length p - n) in
        let p1 := fst (copy_at p n data) in
        let n1 := (n + length data)%nat in
        match e with
        | Some e => Some (p1, n1, Some e, b1)
        | None => io_ReadAtLeast_loop fuel' b1 p1 n1
        end
    end
  else Some (p, n, None, b).

Definition io_ReadFull (fuel : nat) (b : Reader R) (p : list byte)
  : option (list byte * option io_error * Reader R) :=
  '(p1, n, e, b1) ← io_ReadAtLeast_loop fuel b p 0;
  let e' :=
    if (length p <=? n)%nat then None
    else if (0 <? n)%nat && bool_decide (e = Some EOF) then Some ErrUnexpectedEOF
    else e in
  Some (p1, e', b1).

Definition ReadFull (fuel : nat) (b : Reader R) (n : nat)
  : option (option (list byte) * option error * Reader R) :=
  if bool_decide (err b <> None) || (n =? 0)%nat
  then Some (None, ErrIO <$> err b, b)
  else
    '(p, e, b1) ← io_ReadFull fuel b (Make n);
    match e with
    | Some e => Some (None, Some (ErrIO e), b1)
    | None => Some (Some p, None, b1)
    end.

End reader.

(** *** Properties of the reader *)

Lemma slice_length {A} (l : list A) i j :
  (i <= j <= length l)%nat -> length (slice l i j) = (j - i)%nat.
Proof. intros Hij. unfold slice. rewrite length_take, length_drop. lia. Qed.

Lemma slice_split {A} (l : list A) i k j :
  (i <= k <= j)%nat -> slice l i j = slice l i k ++ slice l k j.
Proof.
  intros Hik. unfold slice.
  replace (j - i)%nat with ((k - i) + (j - k))%nat by lia.
  rewrite <- take_take_drop, drop_drop.
  now replace (i + (k - i))%nat with k by lia.
Qed.

Lemma slice_nil {A} (l : list A) i : slice l i i = [].
Proof. unfold slice. now rewrite Nat.sub_diag. Qed.

Lemma slice_full {A} (l : list A) : slice l 0 (length l) = l.
Proof. unfold slice. rewrite Nat.sub_0_r, drop_0. apply firstn_all. Qed.

Lemma copy_prefix {A} (dst src : list A) :
  (length src <= length dst)%nat ->
  copy dst src = (src ++ drop (length src) dst, length src).
Proof.
  intros Hl. unfold copy. rewrite take_ge by lia.
  now rewrite Nat.min_r by lia.
Qed.

Lemma copy_Make (src : list byte) : fst (copy (Make (length src)) src) = src.
Proof.
  unfold Make. rewrite copy_prefix by (rewrite repeat_length; lia).
  cbn [fst]. rewrite drop_ge by (rewrite repeat_length; lia).
  apply app_nil_r.
Qed.

Lemma IndexByte_Some s c i :
  IndexByte s c = Some i ->
  take (S i) s = take i s ++ [c] /\ (c ∉ take i s) /\ (i < length s)%nat.
Proof.
  revert i. induction s as [|x s IH]; intros i; cbn [IndexByte]; [discriminate|].
  destruct (decide (x = c)) as [-> | Hne].
  - intros [= <-]. cbn. split; [reflexivity|]. split; [apply not_elem_of_nil | lia].
  - destruct (IndexByte s c) as [k|] eqn:E; [|discriminate].
    intros [= <-]. destruct (IH k eq_refl) as (Ht & Hn & Hl).
    rewrite !firstn_cons, Ht. cbn [app length].
    split; [reflexivity|]. split; [|lia].
    rewrite not_elem_of_cons. split; [congruence | exact Hn].
Qed.

Lemma IndexByte_None s c : IndexByte s c = None <-> c ∉ s.
Proof.
  induction s as [|x s IH]; cbn [IndexByte].
  - split; [intros _; apply not_elem_of_nil | reflexivity].
  - rewrite not_elem_of_cons. destruct (decide (x = c)) as [-> | Hne].
    + split; [discriminate | intros [Hc _]; congruence].
    + destruct (IndexByte s c) eqn:E; cbn.
      * split; [discriminate|]. intros [_ Hc]. apply IH in Hc. discriminate.
      * split; [|reflexivity]. intros _. split; [congruence | now apply IH].
Qed.

Lemma copy_length {A} (dst src : list A) : length (fst (copy dst src)) = length dst.
Proof.
  unfold copy. cbn [fst]. rewrite length_app, length_take, length_drop. lia.
Qed.

Lemma copy_at_length (p : list byte) n src :
  length (fst (copy_at p n src)) = length p.
Proof.
  unfold copy_at. pose proof (copy_length (drop n p) src) as Hc.
  destruct (copy (drop n p) src) as [tl k]. cbn [fst] in *.
  rewrite length_app, length_take, Hc, length_drop. lia.
Qed.

Section reader_length.
Context {R : Type} `{IoReader R}.

Lemma io_ReadAtLeast_loop_length : forall fuel (b : Reader R) p n p1 n1 e b1,
  io_ReadAtLeast_loop fuel b p n = Some (p1, n1, e, b1) ->
  length p1 = length p.
Proof.
  induction fuel as [|fuel IH]; intros b p n p1 n1 e b1; cbn [io_ReadAtLeast_loop].
  - destruct (n <? length p)%nat; [discriminate|]. now intros [= <- _ _ _].
  - destruct (n <? length p)%nat; [|now intros [= <- _ _ _]].
    destruct (Read b (length p - n)) as [[data e0] b0].
    destruct e0 as [e0|].
    + intros [= <- _ _ _]. apply copy_at_length.
    + intros Hrun. apply IH in Hrun. now rewrite Hrun, copy_at_length.
Qed.

(** [ReadFull(n)] returns a region of [n] bytes or an error. *)
Lemma ReadFull_length fuel (b : Reader R) n bs b1 :
  ReadFull fuel b n = Some (Some bs, None, b1) -> length bs = n.
Proof.
  unfold ReadFull. destruct (_ || _); [discriminate|].
  unfold io_ReadFull.
  destruct (io_ReadAtLeast_loop fuel b (Make n) 0) as [[[[p1 n1] e] b0]|] eqn:E;
    [|discriminate].
  cbn. apply io_ReadAtLeast_loop_length in E.
  destruct (if (length (Make n) <=? n1)%nat then _ else _); [discriminate|].
  intros [= <- _]. rewrite E. unfold Make. apply repeat_length.
Qed.

Lemma ReadFull_ok_inv fuel (b : Reader R) n v b1 :
  ReadFull fuel b n = Some (v, None, b1) -> n <> 0%nat ->
  exists bs, v = Some bs /\ length bs = n.
Proof.
  intros Hrun Hn. destruct v as [bs|].
  - exists bs. split; [reflexivity|]. eapply ReadFull_length, Hrun.
  - exfalso. revert Hrun. unfold ReadFull.
    destruct (bool_decide (err b <> None)) eqn:Ee; cbn [orb].
    + apply bool_decide_eq_true in Ee. destruct (err b); [discriminate | congruence].
    + destruct (n =? 0)%nat eqn:E0; [apply Nat.eqb_eq in E0; lia|].
      destruct (io_ReadFull fuel b (Make n)) as [[[p e] b0]|]; [|discriminate].
      cbn. destruct e; discriminate.
Qed.

End reader_length.

Section reader_facts.
Context {R : Type} `{IoLawful R}.

(** The cursors of a reader: [rpos <= wpos <= len(buf)]. *)
Definition wf (b : Reader R) : Prop := (rpos b <= wpos b <= length (buf b))%nat.

Lemma NewReaderSize_wf (r : R) size : wf (NewReaderSize r size).
Proof. unfold wf, NewReaderSize. cbn. lia. Qed.

Lemma pending_length b : wf b -> length (pending b) = buffered b.
Proof. intros Hw. unfold pending, buffered. apply slice_length. exact Hw. Qed.

Lemma compact_spec (b : Reader R) :
  wf b ->
  let b1 := compact b in
  rd b1 = rd b /\ rpos b1 = 0%nat /\ wpos b1 = buffered b /\
  length (buf b1) = length (buf b) /\
  take (wpos b1) (buf b1) = pending b /\ err b1 = err b.
Proof.
  intros Hw. unfold compact. destruct (0 <? rpos b)%nat eqn:E.
  - rewrite copy_prefix by (rewrite slice_length; unfold wf in Hw; lia).
    cbn. fold (pending b). rewrite pending_length by assumption.
    repeat split.
    + rewrite length_app, length_drop, pending_length by assumption.
      unfold buffered, wf in *. lia.
    + rewrite <- (pending_length b) by assumption. apply take_app_length.
  - apply Nat.ltb_ge in E. assert (rpos b = 0%nat) as Hr by lia.
    cbn. repeat split; try assumption.
    + unfold buffered. lia.
    + unfold pending, slice. now rewrite Hr, drop_0, Nat.sub_0_r.
Qed.

(** What [fill] does where no error is pending: the unread bytes move to
    the front of the buffer and one [Read] of the source follows them. *)
Lemma fill_spec (b : Reader R) :
  wf b -> err b = None ->
  exists data e rd',
    io_Read (rd b) (length (buf b) - buffered b) = (data, e, rd') /\
    (length data <= length (buf b) - buffered b)%nat /\
    let b' := snd (fill b) in
    rd b' = rd' /\ rpos b' = 0%nat /\ length (buf b') = length (buf b) /\
    match e with
    | Some e =>
        fst (fill b) = Some e /\ err b' = Some e /\ pending b' = pending b /\
        wpos b' = buffered b
    | None =>
        if decide (data = []) then
          fst (fill b) = Some ErrNoProgress /\ err b' = Some ErrNoProgress /\
          pending b' = pending b /\ wpos b' = buffered b
        else
          fst (fill b) = None /\ err b' = None /\
          pending b' = pending b ++ data /\
          wpos b' = (buffered b + length data)%nat
    end.
Proof.
  intros Hw He.
  destruct (compact_spec b Hw) as (Hrd & Hrp & Hwp & Hlen & Htk & He1).
  unfold fill. rewrite He. rewrite He in He1.
  generalize dependent (compact b). intros b1 Hrd Hrp Hwp Hlen Htk He1.
  rewrite Hrd, Hlen, Hwp.
  destruct (io_Read (rd b) (length (buf b) - buffered b)) as [[data e] rd'] eqn:EQ.
  exists data, e, rd'. split; [reflexivity|].
  assert (Hdl : (length data <= length (buf b) - buffered b)%nat).
  { pose proof (io_Read_length (rd b) (length (buf b) - buffered b)) as Hl.
    now rewrite EQ in Hl. }
  split; [exact Hdl|].
  assert (Hb : (buffered b <= length (buf b))%nat) by (unfold buffered, wf in *; lia).
  assert (Hcp : fst (copy_at (buf b1) (buffered b) data)
                = pending b ++ data ++ drop (buffered b + length data) (buf b1)).
  { unfold copy_at. rewrite copy_prefix by (rewrite length_drop; lia).
    cbn [fst]. rewrite <- Hwp, Htk, drop_drop. reflexivity. }
  assert (Hcl : length (fst (copy_at (buf b1) (buffered b) data)) = length (buf b)).
  { rewrite Hcp, !length_app, length_drop, pending_length by assumption. lia. }
  assert (Hpe : forall k, (k <= length data)%nat ->
            slice (fst (copy_at (buf b1) (buffered b) data)) 0 (buffered b + k)
            = pending b ++ take k data).
  { intros k Hk. unfold slice. rewrite drop_0, Nat.sub_0_r, Hcp.
    rewrite <- (pending_length b) by assumption.
    rewrite take_app_add. f_equal. rewrite take_app_le by lia. reflexivity. }
  assert (Hp0 : slice (fst (copy_at (buf b1) (buffered b) data)) 0 (buffered b)
                = pending b).
  { rewrite <- (Nat.add_0_r (buffered b)) at 2. rewrite Hpe by lia.
    rewrite take_0. apply app_nil_r. }
  destruct e as [e|].
  - cbn [fst snd rd rpos wpos buf err]. unfold pending at 1.
    cbn [rpos wpos buf]. rewrite Hrp. repeat split; assumption.
  - destruct (decide (data = [])) as [-> | Hne].
    + cbn [length Nat.eqb fst snd rd rpos wpos buf err]. unfold pending at 1.
      cbn [rpos wpos buf]. rewrite Hrp. repeat split; assumption.
    + destruct (length data =? 0)%nat eqn:E0.
      { apply Nat.eqb_eq in E0. destruct data; [congruence | discriminate]. }
      cbn [snd fst rd rpos buf err wpos].
      unfold pending at 1. cbn [rpos wpos buf].
      rewrite Hrp. repeat split; try assumption.
      rewrite Hpe by (cbn; lia). now rewrite firstn_all.
Qed.

Lemma fill_wf (b : Reader R) : wf b -> wf (snd (fill b)).
Proof.
  intros Hw. destruct (err b) as [e|] eqn:He.
  - unfold fill. now rewrite He.
  - destruct (fill_spec b Hw He) as (data & e & rd' & _ & Hdl & _ & Hr & Hl & Hc).
    assert (Hb : (buffered b <= length (buf b))%nat) by (unfold buffered, wf in *; lia).
    unfold wf. rewrite Hr, Hl.
    destruct e as [e|]; [|destruct (decide (data = []))];
      destruct Hc as (_ & _ & _ & ->); lia.
Qed.

(** What a call of [ReadSlice] leaves, by the error it returns.  [pre] is
    the line without its delimiter, [extra] what the call read from the
    source, [r0] the read cursor when the delimiter was found. *)
Definition ReadSlice_post (b : Reader R) (delim : byte)
    (v : option (list byte)) (e : option error) (b' : Reader R) : Prop :=
  match e with
  | None =>
      exists pre extra r0,
        v = Some (pre ++ [delim]) /\ (delim ∉ pre) /\
        pending b ++ extra = (pre ++ [delim]) ++ pending b' /\
        slice (buf b') r0 (rpos b') = pre ++ [delim] /\
        rpos b' = (r0 + length pre + 1)%nat /\
        err b' = None
  | Some ErrBufferFull =>
      v = Some (buf b') /\ rpos b' = wpos b' /\ wpos b' = length (buf b') /\
      (delim ∉ buf b') /\ (exists extra, buf b' = pending b ++ extra) /\
      err b' = None
  | Some e =>
      v = None /\ (wpos b' < length (buf b'))%nat /\
      exists e', e = ErrIO e' /\ err b' = Some e'
  end.

Lemma ReadSlice_loop_spec (delim : byte) : forall (fuel : nat) (b : Reader R),
  wf b -> err b = None -> (length (buf b) - buffered b < fuel)%nat ->
  exists v e b',
    ReadSlice_loop fuel b delim = Some (v, e, b') /\
    wf b' /\ length (buf b') = length (buf b) /\
    ReadSlice_post b delim v e b'.
Proof.
  induction fuel as [|fuel IH]; intros b Hw He Hf; [lia|].
  cbn [ReadSlice_loop]. fold (pending b).
  assert (Hpl := pending_length b Hw).
  destruct (IndexByte (pending b) delim) as [i|] eqn:Ei.
  - destruct (IndexByte_Some _ _ _ Ei) as (Ht & Hn & Hl).
    rewrite Hpl in Hl. unfold buffered in Hl.
    assert (Hsl : slice (buf b) (rpos b) (rpos b + i + 1) = take (S i) (pending b)).
    { unfold pending, slice. rewrite take_take. f_equal. lia. }
    eexists _, _, _. split; [reflexivity|].
    split; [unfold wf in *; cbn; lia|]. split; [reflexivity|].
    exists (take i (pending b)), [], (rpos b).
    rewrite Hsl, Ht. cbn [rpos set_rpos buf err].
    repeat split; try assumption.
    + rewrite app_nil_r, <- Ht.
      replace (pending (set_rpos b (rpos b + i + 1))) with (drop (S i) (pending b)).
      * symmetry. apply take_drop.
      * unfold pending, slice. cbn [buf rpos wpos set_rpos].
        rewrite skipn_firstn_comm, drop_drop. f_equal; [lia | f_equal; lia].
    + now rewrite Hsl.
    + rewrite length_take, Hpl. unfold buffered. lia.
  - apply IndexByte_None in Ei.
    destruct (buffered b =? length (buf b))%nat eqn:Efull.
    + apply Nat.eqb_eq in Efull. unfold buffered in Efull.
      assert (rpos b = 0%nat /\ wpos b = length (buf b)) as [Hr0 Hwl]
        by (unfold wf in Hw; lia).
      assert (Hpb : pending b = buf b).
      { unfold pending. rewrite Hr0, Hwl. apply slice_full. }
      eexists _, _, _. split; [reflexivity|].
      split; [unfold wf in *; cbn; lia|]. split; [reflexivity|].
      cbn. repeat split; try assumption.
      * now rewrite <- Hpb.
      * exists []. now rewrite app_nil_r.
    + apply Nat.eqb_neq in Efull.
      assert (Hb : (buffered b <= length (buf b))%nat)
        by (unfold buffered, wf in *; lia).
      pose proof (fill_wf b Hw) as Hw1.
      destruct (fill_spec b Hw He) as (data & e & rd' & _ & Hdl & Hrd & Hr & Hlen & Hc).
      destruct (fill b) as [e1 b1]. cbn [fst snd] in *.
      destruct e as [e|]; [|destruct (decide (data = [])) as [->|Hne]].
      * destruct Hc as (-> & Heb & _ & Hwp). eexists _, _, _.
        split; [reflexivity|]. split; [assumption|]. split; [assumption|].
        rewrite Heb. cbn. split; [reflexivity|]. split; [lia|]. now exists e.
      * destruct Hc as (-> & Heb & _ & Hwp). eexists _, _, _.
        split; [reflexivity|]. split; [assumption|]. split; [assumption|].
        rewrite Heb. cbn. split; [reflexivity|]. split; [lia|].
        now exists ErrNoProgress.
      * destruct Hc as (-> & Heb & Hp & Hwp).
        assert (Hd1 : (0 < length data)%nat) by (destruct data; [congruence | cbn; lia]).
        destruct (IH b1 Hw1 Heb) as (v & e & b' & Hrun & Hw' & Hlen' & Hpost).
        { unfold buffered at 1. rewrite Hlen, Hwp, Hr. lia. }
        exists v, e, b'. split; [exact Hrun|]. split; [assumption|].
        split; [congruence|].
        unfold ReadSlice_post in *. rewrite Hp in Hpost.
        destruct e as [e|].
        -- destruct e; try exact Hpost.
           destruct Hpost as (Hv & Hrw & Hwl & Hnd & (extra & Hex) & He').
           repeat split; try assumption.
           exists (data ++ extra). now rewrite app_assoc.
        -- destruct Hpost as (pre & extra & r0 & Hv & Hnd & Hcat & Hs & Hrp & He').
           exists pre, (data ++ extra), r0. rewrite app_assoc.
           repeat split; assumption.
Qed.

(** [PeekByte] without error leaves a reader whose next unread byte is the
    byte returned, and [ReadByte] then (or instead) returns that byte and
    moves the read cursor past it. *)
Lemma PeekByte_ok (b b1 : Reader R) (c : byte) :
  wf b -> PeekByte b = (c, None, b1) ->
  wf b1 /\ err b1 = None /\ length (buf b1) = length (buf b) /\
  (exists tl, pending b1 = c :: tl) /\
  ReadByte b1 = (c, None, set_rpos b1 (rpos b1 + 1)) /\
  ReadByte b = (c, None, set_rpos b1 (rpos b1 + 1)).
Proof.
  intros Hw. unfold PeekByte, ReadByte.
  destruct (err b) as [e|] eqn:He; [discriminate|].
  assert (Hhead : forall b0 : Reader R, wf b0 -> buffered b0 <> 0%nat ->
            exists tl, pending b0 = default "000"%byte (buf b0 !! rpos b0) :: tl).
  { intros b0 Hw0 Hb0. unfold pending, slice, buffered, wf in *.
    destruct (drop (rpos b0) (buf b0)) as [|x tl] eqn:Ed.
    - apply (f_equal length) in Ed. rewrite length_drop in Ed. cbn in Ed. lia.
    - assert (Hx : buf b0 !! rpos b0 = Some x).
      { rewrite <- (Nat.add_0_r (rpos b0)), <- lookup_drop, Ed. reflexivity. }
      rewrite Hx. cbn [default from_option id].
      destruct (wpos b0 - rpos b0)%nat as [|k] eqn:Ek; [lia|].
      cbn [take]. eauto. }
  destruct (buffered b =? 0)%nat eqn:Eb.
  - pose proof (fill_wf b Hw) as Hw1.
    destruct (fill_spec b Hw He) as (data & e & rd' & _ & Hdl & _ & Hr & Hlen & Hc).
    destruct (fill b) as [e1 b2]. cbn [fst snd] in *.
    destruct e as [e|];
      [destruct Hc as (-> & -> & _); discriminate|].
    destruct (decide (data = []));
      [destruct Hc as (-> & -> & _); discriminate|].
    destruct Hc as (-> & He2 & Hp & Hwp).
    intros [= <- <-].
    assert (Hb2 : buffered b2 <> 0%nat).
    { unfold buffered. rewrite Hwp, Hr. destruct data; [congruence | cbn; lia]. }
    rewrite He2. destruct (buffered b2 =? 0)%nat eqn:Eb2;
      [apply Nat.eqb_eq in Eb2; lia|].
    split; [exact Hw1|]. split; [reflexivity|]. split; [exact Hlen|].
    split; [apply Hhead; assumption|]. split; reflexivity.
  - intros [= <- <-]. rewrite He, Eb. apply Nat.eqb_neq in Eb.
    split; [exact Hw|]. split; [reflexivity|]. split; [reflexivity|].
    split; [apply Hhead; assumption|]. split; reflexivity.
Qed.

(** C3.  A call of [ReadSlice(delim)] on a reader with no sticky error
    returns.  When it returns no error, the slice is the bytes of the buffer
    from the read cursor up to and including the first [delim] (of the unread
    bytes followed by what the call read from the source), and [rpos] is just
    past that delimiter.  It returns [ErrBufferFull] exactly when the buffer
    has become full ([wpos = len(buf)]) without holding [delim], and then it
    returns the whole buffer and leaves [rpos = wpos], nothing unread.  A
    slice returned without error ends with [delim]. *)
Theorem ReadSlice_correct (b : Reader R) (delim : byte) :
  wf b -> err b = None ->
  exists v e b',
    ReadSlice b delim = Some (v, e, b') /\
    (e = None ->
       exists pre extra r0,
         v = Some (pre ++ [delim]) /\ (delim ∉ pre) /\
         pending b ++ extra = (pre ++ [delim]) ++ pending b' /\
         slice (buf b') r0 (rpos b') = pre ++ [delim] /\
         rpos b' = (r0 + length pre + 1)%nat) /\
    (e = Some ErrBufferFull <->
       wpos b' = length (buf b') /\ (delim ∉ buf b')) /\
    (e = Some ErrBufferFull ->
       v = Some (buf b') /\ rpos b' = wpos b' /\ pending b' = [] /\
       exists extra, buf b' = pending b ++ extra) /\
    (e = None -> exists l, v = Some l /\ last l = Some delim).
Proof.
  intros Hw He. unfold ReadSlice. rewrite He.
  destruct (ReadSlice_loop_spec delim (S (length (buf b))) b Hw He)
    as (v & e & b' & Hrun & Hw' & Hlen & Hpost); [lia|].
  exists v, e, b'. split; [exact Hrun|].
  unfold ReadSlice_post in Hpost.
  split; [|split; [|split]].
  - intros ->. destruct Hpost as (pre & extra & r0 & Hv & Hnd & Hcat & Hs & Hr & _).
    exists pre, extra, r0. repeat split; assumption.
  - split.
    + intros ->. destruct Hpost as (_ & _ & Hwl & Hnd & _). now split.
    + intros [Hwl Hnd]. destruct e as [e|].
      * destruct e; try reflexivity;
          destruct Hpost as (_ & Hlt & _); lia.
      * exfalso. destruct Hpost as (pre & extra & r0 & _ & _ & _ & Hs & _).
        apply Hnd. assert (Hin : delim ∈ slice (buf b') r0 (rpos b')).
        { rewrite Hs. apply elem_of_app. right. apply list_elem_of_singleton.
          reflexivity. }
        unfold slice in Hin.
        apply (subseteq_take (rpos b' - r0)), (subseteq_drop r0) in Hin.
        exact Hin.
  - intros ->. destruct Hpost as (Hv & Hrw & Hwl & _ & Hex & _).
    repeat split; try assumption.
    unfold pending. rewrite Hrw. apply slice_nil.
  - intros ->. destruct Hpost as (pre & extra & r0 & Hv & _).
    exists (pre ++ [delim]). split; [assumption|]. apply last_snoc.
Qed.

End reader_facts.

(** *** The reader over [bytes.Reader]: the stream of bytes to come *)

Section bytes_stream.

(** What is to be read of a reader over [bytes.NewReader(s)]: the bytes
    buffered and not yet handed out, then the bytes left in the source. *)
Definition stream (b : Reader bytes_Reader) : list byte := pending b ++ rd b.

(** A reader as [NewReaderSize] makes it and the functions of the package
    leave it, as long as none has failed. *)
Definition ready (b : Reader bytes_Reader) : Prop :=
  wf b /\ err b = None /\ (0 < length (buf b))%nat.

Lemma NewReaderSize_ready (src : list byte) (size : Z) :
  ready (NewReaderSize src size) /\ stream (NewReaderSize src size) = src.
Proof.
  unfold ready, wf, stream, pending, NewReaderSize. cbn [buf rpos wpos err rd].
  rewrite repeat_length, slice_nil.
  assert (0 < Z.to_nat (if (size <=? 0)%Z then DefaultBufferSize else size))%nat.
  { destruct (size <=? 0)%Z eqn:E; [unfold DefaultBufferSize; lia|].
    apply Z.leb_gt in E. lia. }
  repeat split; lia.
Qed.

Lemma pending_prefix (b : Reader bytes_Reader) :
  wf b -> take (buffered b) (stream b) = pending b.
Proof.
  intros Hw. unfold stream. rewrite <- (pending_length b Hw).
  apply take_app_length.
Qed.

Lemma fill_bytes (b : Reader bytes_Reader) :
  ready b -> (buffered b < length (buf b))%nat ->
  match rd b with
  | [] => fst (fill b) = Some EOF /\ err (snd (fill b)) = Some EOF
  | _ :: _ =>
      fst (fill b) = None /\ ready (snd (fill b)) /\
      stream (snd (fill b)) = stream b /\
      (buffered b < buffered (snd (fill b)))%nat /\
      length (buf (snd (fill b))) = length (buf b)
  end.
Proof.
  intros (Hw & He & Hl) Hroom.
  pose proof (fill_wf b Hw) as Hw1.
  destruct (fill_spec b Hw He) as (data & e & rd' & Hread & Hdl & Hrd & Hr & Hlen & Hc).
  unfold io_Read, bytes_Reader_Read in Hread.
  destruct (rd b) as [|x src] eqn:Esrc.
  - injection Hread as <- <- <-. destruct Hc as (Hf & He1 & _). now split.
  - injection Hread as <- <- <-.
    destruct (decide (take (length (buf b) - buffered b) (x :: src) = [])) as [Hnil | Hne].
    { destruct (length (buf b) - buffered b)%nat eqn:E; [lia | discriminate]. }
    destruct Hc as (Hf & He1 & Hp & Hwp).
    split; [exact Hf|]. split; [repeat split; try assumption; lia|].
    split.
    + unfold stream. rewrite Hp, Hrd, Esrc, <- app_assoc, take_drop. reflexivity.
    + split; [|exact Hlen]. unfold buffered at 2. rewrite Hwp, Hr.
      destruct (take _ (x :: src)); [congruence | cbn; lia].
Qed.

Lemma IndexByte_app (l k : list byte) (c : byte) :
  IndexByte (l ++ k) c
  = match IndexByte l c with
    | Some i => Some i
    | None => (fun i => (length l + i)%nat) <$> IndexByte k c
    end.
Proof.
  induction l as [|x l IH]; cbn [app IndexByte length].
  - now destruct (IndexByte k c).
  - destruct (decide (x = c)); [reflexivity|]. rewrite IH.
    destruct (IndexByte l c); [reflexivity|].
    now destruct (IndexByte k c).
Qed.

(** What [ReadSlice] returns, by the stream: the line up to the first
    [delim] if that is among the first [len(buf)] bytes; else those
    [len(buf)] bytes and [ErrBufferFull] if the stream has as many; else the
    end of the source as the error. *)
Definition ReadSlice_outcome (b : Reader bytes_Reader) (delim : byte)
    (res : option (option (list byte) * option error * Reader bytes_Reader))
  : Prop :=
  let L := length (buf b) in
  match IndexByte (take L (stream b)) delim with
  | Some i =>
      exists b', res = Some (Some (take (S i) (stream b)), None, b') /\
                 ready b' /\ stream b' = drop (S i) (stream b) /\
                 length (buf b') = L
  | None =>
      if (L <=? length (stream b))%nat then
        exists b', res = Some (Some (take L (stream b)), Some ErrBufferFull, b') /\
                   ready b' /\ stream b' = drop L (stream b) /\
                   length (buf b') = L
      else
        exists b', res = Some (None, Some (ErrIO EOF), b') /\ err b' = Some EOF
  end.

Lemma ReadSlice_loop_bytes (delim : byte) : forall fuel (b : Reader bytes_Reader),
  ready b -> (length (buf b) - buffered b < fuel)%nat ->
  ReadSlice_outcome b delim (ReadSlice_loop fuel b delim).
Proof.
  induction fuel as [|fuel IH]; intros b Hready Hf; [lia|].
  pose proof Hready as (Hw & He & Hl).
  assert (Hpl := pending_length b Hw).
  assert (Hb : (buffered b <= length (buf b))%nat) by (unfold buffered, wf in *; lia).
  assert (Htake : take (length (buf b)) (stream b)
                  = pending b ++ take (length (buf b) - buffered b) (rd b)).
  { unfold stream. rewrite take_app, Hpl. f_equal. apply take_ge. lia. }
  unfold ReadSlice_outcome. rewrite Htake, IndexByte_app.
  cbn [ReadSlice_loop]. fold (pending b).
  destruct (IndexByte (pending b) delim) as [i|] eqn:Ei.
  - destruct (IndexByte_Some _ _ _ Ei) as (_ & _ & Hi). rewrite Hpl in Hi.
    assert (Hsl : slice (buf b) (rpos b) (rpos b + i + 1) = take (S i) (stream b)).
    { transitivity (take (S i) (pending b)).
      - unfold pending, slice. rewrite take_take. f_equal.
        unfold buffered in Hi. lia.
      - unfold stream. now rewrite take_app_le by (rewrite Hpl; lia). }
    rewrite Hsl.
    eexists. split; [reflexivity|]. split; [|split].
    + unfold ready, wf in *. cbn. unfold buffered in Hi. repeat split; lia || assumption.
    + unfold stream. cbn [rd set_rpos].
      rewrite drop_app_le by (rewrite Hpl; lia). f_equal.
      unfold pending, slice. cbn [buf rpos wpos set_rpos].
      rewrite skipn_firstn_comm, drop_drop. unfold buffered in Hi.
      f_equal; [lia | f_equal; lia].
    + reflexivity.
  - destruct (buffered b =? length (buf b))%nat eqn:Efull.
    + apply Nat.eqb_eq in Efull. rewrite Efull, Nat.sub_diag, take_0.
      cbn [IndexByte fmap option_fmap option_map].
      assert (rpos b = 0%nat /\ wpos b = length (buf b)) as [Hr0 Hwl]
        by (unfold buffered, wf in *; lia).
      assert (Hpb : pending b = buf b).
      { unfold pending. rewrite Hr0, Hwl. apply slice_full. }
      assert (Hle : (length (buf b) <=? length (stream b))%nat = true).
      { apply Nat.leb_le. unfold stream. rewrite length_app, Hpl. lia. }
      rewrite Hle, app_nil_r, Hpb.
      eexists. split; [reflexivity|]. split; [|split].
      * unfold ready, wf in *. cbn. repeat split; lia || assumption.
      * unfold stream at 1. unfold pending. cbn [rd set_rpos buf rpos wpos].
        rewrite slice_nil. cbn [app]. unfold stream.
        rewrite Hpb. now rewrite drop_app_length.
      * reflexivity.
    + apply Nat.eqb_neq in Efull.
      pose proof (fill_bytes b Hready ltac:(lia)) as Hfill.
      destruct (rd b) as [|x src] eqn:Esrc.
      * destruct Hfill as [Hfe Herr]. destruct (fill b) as [e1 b1].
        cbn [fst snd] in *. subst e1. rewrite take_nil. cbn [IndexByte fmap option_fmap option_map].
        assert (Hlt : (length (buf b) <=? length (stream b))%nat = false).
        { apply Nat.leb_gt. unfold stream. rewrite Esrc, app_nil_r, Hpl. lia. }
        rewrite Hlt. exists b1. rewrite Herr. split; reflexivity.
      * destruct Hfill as (Hfe & Hready1 & Hstream & Hgrow & Hlen).
        destruct (fill b) as [e1 b1]. cbn [fst snd] in *. subst e1.
        specialize (IH b1 Hready1 ltac:(lia)).
        unfold ReadSlice_outcome in IH. rewrite Hstream, Hlen in IH.
        rewrite Htake, IndexByte_app, Ei in IH. exact IH.
Qed.

Lemma ReadSlice_bytes (b : Reader bytes_Reader) (delim : byte) :
  ready b -> ReadSlice_outcome b delim (ReadSlice b delim).
Proof.
  intros Hready. unfold ReadSlice.
  pose proof Hready as (_ & He & _). rewrite He.
  apply ReadSlice_loop_bytes; [exact Hready | lia].
Qed.

Lemma IndexByte_first (pre post : list byte) (delim : byte) :
  delim ∉ pre -> IndexByte (pre ++ delim :: post) delim = Some (length pre).
Proof.
  intros Hn. rewrite IndexByte_app. apply IndexByte_None in Hn. rewrite Hn.
  cbn [IndexByte]. rewrite decide_True by reflexivity. cbn. f_equal. lia.
Qed.

Lemma copy_at_middle (pre junk src : list byte) :
  (length src <= length junk)%nat ->
  copy_at (pre ++ junk) (length pre) src
  = (pre ++ src ++ drop (length src) junk, length src).
Proof.
  intros Hl. unfold copy_at. rewrite drop_app_length, take_app_length.
  now rewrite copy_prefix by exact Hl.
Qed.

Lemma assemble_fold (full : list (list byte)) : forall pre junk,
  (length (concat full) <= length junk)%nat ->
  fold_left (fun '(buf, n) frag =>
               let '(buf', k) := copy_at buf n frag in (buf', (n + k)%nat))
            full (pre ++ junk, length pre)
  = (pre ++ concat full ++ drop (length (concat full)) junk,
     (length pre + length (concat full))%nat).
Proof.
  induction full as [|frag full IH]; intros pre junk Hl; cbn [fold_left concat].
  - cbn. now rewrite Nat.add_0_r.
  - cbn [concat] in Hl. rewrite length_app in Hl.
    rewrite copy_at_middle by lia.
    rewrite app_assoc, <- length_app.
    rewrite IH by (rewrite length_drop; lia).
    rewrite drop_drop, !length_app, <- !app_assoc. f_equal. lia.
Qed.

(** [ReadBytes] puts the fragments and the last slice end to end. *)
Lemma assemble_concat (full : list (list byte)) (last : list byte) :
  assemble full last (length (concat full) + length last) = concat full ++ last.
Proof.
  unfold assemble, Make.
  pose proof (assemble_fold full [] (repeat "000"%byte (length (concat full) + length last)))
    as Hf.
  cbn [app length] in Hf. rewrite Hf by (rewrite repeat_length; lia).
  cbn [Nat.add]. set (J := drop _ _).
  assert (HJ : length J = length last)
    by (subst J; rewrite length_drop, repeat_length; lia).
  rewrite copy_at_middle by lia. cbn [fst].
  rewrite drop_ge by lia. now rewrite app_nil_r.
Qed.

(** [ReadBytes] over a stream with a delimiter: the line, however many
    buffers it fills, and the stream after it. *)
Lemma ReadBytes_loop_bytes (delim : byte) :
  forall fuel (b : Reader bytes_Reader) full size pre post,
    ready b -> stream b = pre ++ delim :: post -> delim ∉ pre ->
    size = length (concat full) -> (length pre < fuel)%nat ->
    exists b',
      ReadBytes_loop fuel b delim full size
      = Some (Some (concat full ++ pre ++ [delim]), None, b') /\
      ready b' /\ stream b' = post /\ length (buf b') = length (buf b).
Proof.
  induction fuel as [|fuel IH]; intros b full size pre post Hready Hs Hn Hsize Hf;
    [lia|].
  pose proof Hready as (_ & _ & HL).
  cbn [ReadBytes_loop].
  pose proof (ReadSlice_bytes b delim Hready) as Hout.
  unfold ReadSlice_outcome in Hout. rewrite Hs in Hout.
  destruct (decide (length pre < length (buf b))%nat) as [Hlt | Hge].
  - rewrite take_app_ge in Hout by lia.
    destruct (length (buf b) - length pre)%nat as [|k] eqn:Ek; [lia|].
    cbn [take] in Hout. rewrite IndexByte_first in Hout by assumption.
    destruct Hout as (b' & -> & Hready' & Hs' & Hlen).
    cbn [mbind option_bind default from_option id].
    exists b'. split; [|split; [|split]]; try assumption.
    + rewrite <- Nat.add_1_r, <- take_take_drop, take_app_length.
      rewrite drop_app_length. cbn [take]. rewrite Hsize.
      rewrite assemble_concat. reflexivity.
    + rewrite Hs'. rewrite <- Nat.add_1_r, <- drop_drop, drop_app_length.
      reflexivity.
  - assert (Htk : take (length (buf b)) (pre ++ delim :: post)
                  = take (length (buf b)) pre) by (apply take_app_le; lia).
    rewrite Htk in Hout.
    assert (Hnone : IndexByte (take (length (buf b)) pre) delim = None).
    { apply IndexByte_None. intros Hin. apply Hn.
      eapply subseteq_take, Hin. }
    rewrite Hnone in Hout.
    assert (Hle : (length (buf b) <=? length (pre ++ delim :: post))%nat = true).
    { apply Nat.leb_le. rewrite length_app. lia. }
    rewrite Hle in Hout. destruct Hout as (b1 & -> & Hready1 & Hs1 & Hlen1).
    cbn [mbind option_bind default from_option id].
    rewrite decide_True by reflexivity. rewrite copy_Make.
    destruct (IH b1 (full ++ [take (length (buf b)) pre])
                 (size + length (take (length (buf b)) pre))%nat
                 (drop (length (buf b)) pre) post Hready1)
      as (b' & -> & Hready' & Hs' & Hlen').
    + rewrite Hs1. now rewrite drop_app_le by lia.
    + intros Hin. apply Hn. eapply subseteq_drop, Hin.
    + rewrite concat_app, length_app. cbn [concat]. rewrite app_nil_r. lia.
    + rewrite length_drop. lia.
    + exists b'. split; [|split; [|split]]; try assumption; [|congruence].
      rewrite concat_app. cbn [concat]. rewrite app_nil_r, <- !app_assoc.
      now rewrite (app_assoc (take _ pre)), take_drop.
Qed.

Lemma ReadBytes_bytes (delim : byte) fuel (b : Reader bytes_Reader) pre post :
  ready b -> stream b = pre ++ delim :: post -> delim ∉ pre ->
  (length pre < fuel)%nat ->
  exists b',
    ReadBytes fuel b delim = Some (Some (pre ++ [delim]), None, b') /\
    ready b' /\ stream b' = post /\ length (buf b') = length (buf b).
Proof.
  intros Hready Hs Hn Hf. unfold ReadBytes.
  now apply (ReadBytes_loop_bytes delim fuel b [] 0%nat pre post).
Qed.

Lemma pending_head (b : Reader bytes_Reader) :
  wf b -> buffered b <> 0%nat ->
  exists tl, pending b = default "000"%byte (buf b !! rpos b) :: tl.
Proof.
  intros Hw Hb. unfold pending, slice, buffered, wf in *.
  destruct (drop (rpos b) (buf b)) as [|x tl] eqn:Ed.
  - apply (f_equal length) in Ed. rewrite length_drop in Ed. cbn in Ed. lia.
  - assert (Hx : buf b !! rpos b = Some x).
    { rewrite <- (Nat.add_0_r (rpos b)), <- lookup_drop, Ed. reflexivity. }
    rewrite Hx. cbn [default from_option id].
    destruct (wpos b - rpos b)%nat as [|k] eqn:Ek; [lia|].
    cbn [take]. eauto.
Qed.

Lemma pending_advance (b : Reader bytes_Reader) (k : nat) :
  wf b -> (k <= buffered b)%nat ->
  pending (set_rpos b (rpos b + k)) = drop k (pending b).
Proof.
  intros Hw Hk. unfold pending, slice, buffered, wf in *.
  cbn [buf rpos wpos set_rpos].
  rewrite skipn_firstn_comm, drop_drop. f_equal. lia.
Qed.

Lemma advance_ready (b : Reader bytes_Reader) (k : nat) :
  ready b -> (k <= buffered b)%nat ->
  ready (set_rpos b (rpos b + k)) /\
  stream (set_rpos b (rpos b + k)) = drop k (stream b) /\
  length (buf (set_rpos b (rpos b + k))) = length (buf b).
Proof.
  intros (Hw & He & Hl) Hk. split; [|split; [|reflexivity]].
  - unfold ready, wf, buffered in *. cbn. repeat split; lia || assumption.
  - unfold stream. rewrite pending_advance by assumption. cbn [rd set_rpos].
    now rewrite drop_app_le by (rewrite pending_length by assumption; lia).
Qed.

(** Before a byte is taken of a stream that has one, the buffer holds one. *)
Lemma refill_bytes (b : Reader bytes_Reader) :
  ready b -> stream b <> [] ->
  exists b1,
    (if (buffered b =? 0)%nat then fill b = (None, b1) else b1 = b) /\
    ready b1 /\ stream b1 = stream b /\ buffered b1 <> 0%nat /\
    length (buf b1) = length (buf b).
Proof.
  intros Hready Hne. pose proof Hready as (Hw & He & Hl).
  destruct (buffered b =? 0)%nat eqn:Eb.
  - apply Nat.eqb_eq in Eb.
    pose proof (fill_bytes b Hready ltac:(lia)) as Hfill.
    assert (Hp : pending b = []).
    { apply length_zero_iff_nil. now rewrite pending_length. }
    unfold stream in Hne. rewrite Hp in Hne. cbn in Hne.
    destruct (rd b) as [|x src]; [congruence|].
    destruct Hfill as (Hf & Hr1 & Hs1 & Hg & Hlen).
    exists (snd (fill b)). split; [|repeat split; try apply Hr1; try assumption; lia].
    destruct (fill b) as [e1 b1]. cbn in Hf. now subst.
  - apply Nat.eqb_neq in Eb. exists b. repeat split; try assumption; apply Hw.
Qed.

Lemma PeekByte_bytes (b : Reader bytes_Reader) (c : byte) (s : list byte) :
  ready b -> stream b = c :: s ->
  exists b1, PeekByte b = (c, None, b1) /\ ready b1 /\ stream b1 = c :: s /\
             buffered b1 <> 0%nat /\ length (buf b1) = length (buf b).
Proof.
  intros Hready Hs. pose proof Hready as (Hw & He & Hl).
  destruct (refill_bytes b Hready) as (b1 & Hfill & Hr1 & Hs1 & Hb1 & Hlen);
    [congruence|].
  exists b1. split; [|now rewrite Hs1].
  destruct (pending_head b1 (proj1 Hr1) Hb1) as [tl Hhd].
  assert (Hc : default "000"%byte (buf b1 !! rpos b1) = c).
  { rewrite Hs in Hs1. unfold stream in Hs1. rewrite Hhd in Hs1.
    now injection Hs1. }
  unfold PeekByte. rewrite He.
  destruct (buffered b =? 0)%nat; [rewrite Hfill | subst b1]; now rewrite Hc.
Qed.

Lemma ReadByte_bytes (b : Reader bytes_Reader) (c : byte) (s : list byte) :
  ready b -> stream b = c :: s ->
  exists b', ReadByte b = (c, None, b') /\ ready b' /\ stream b' = s /\
             length (buf b') = length (buf b).
Proof.
  intros Hready Hs.
  destruct (PeekByte_bytes b c s Hready Hs) as (b1 & Hpeek & Hr1 & Hs1 & Hb1 & Hlen).
  destruct (PeekByte_ok _ _ _ (proj1 Hready) Hpeek) as (_ & _ & _ & _ & _ & Hrb).
  destruct (advance_ready b1 1 Hr1 ltac:(lia)) as (Hr' & Hs' & Hl').
  exists (set_rpos b1 (rpos b1 + 1)). split; [exact Hrb|].
  split; [exact Hr'|]. split; [|congruence]. now rewrite Hs', Hs1.
Qed.

(** [Read(p)], [len(p) = n > 0], on a stream that is not at its end:
    some bytes of the stream, one at least and [n] at most. *)
Lemma Read_bytes (b : Reader bytes_Reader) (n : nat) :
  ready b -> (0 < n)%nat -> stream b <> [] ->
  exists data b',
    Read b n = (data, None, b') /\ data <> [] /\ (length data <= n)%nat /\
    stream b = data ++ stream b' /\ ready b' /\
    length (buf b') = length (buf b).
Proof.
  intros Hready Hn Hne. pose proof Hready as (Hw & He & Hl).
  assert (Hfrom : forall b1 : Reader bytes_Reader,
            ready b1 -> buffered b1 <> 0%nat ->
            let data := take n (slice (buf b1) (rpos b1) (wpos b1)) in
            data <> [] /\ (length data <= n)%nat /\
            stream b1 = data ++ stream (set_rpos b1 (rpos b1 + length data)) /\
            ready (set_rpos b1 (rpos b1 + length data)) /\
            length (buf (set_rpos b1 (rpos b1 + length data))) = length (buf b1)).
  { intros b1 Hr1 Hb1. cbn zeta. fold (pending b1).
    assert (Hpl := pending_length b1 (proj1 Hr1)).
    assert (Hdl : length (take n (pending b1)) = Nat.min n (buffered b1))
      by (rewrite length_take; lia).
    destruct (advance_ready b1 (length (take n (pending b1))) Hr1 ltac:(lia))
      as (Hr' & Hs' & Hl').
    split; [intros Hnil; rewrite Hnil in Hdl; cbn in Hdl; lia|].
    split; [lia|]. split; [|split; assumption].
    rewrite Hs'.
    assert (Htm : take n (pending b1)
                  = take (length (take n (pending b1))) (stream b1)).
    { unfold stream. rewrite take_app_le by lia.
      rewrite length_take, <- take_take, firstn_all. reflexivity. }
    rewrite Htm at 1. symmetry. apply take_drop. }
  unfold Read. rewrite He. cbn [bool_decide decide_rel orb].
  rewrite bool_decide_eq_false_2 by (intros Hx; now apply Hx).
  replace (n =? 0)%nat with false by (symmetry; apply Nat.eqb_neq; lia).
  cbn [orb].
  destruct (buffered b =? 0)%nat eqn:Eb.
  - apply Nat.eqb_eq in Eb.
    assert (Hp : pending b = []).
    { apply length_zero_iff_nil. now rewrite pending_length. }
    destruct (length (buf b) <=? n)%nat eqn:Ebig.
    + unfold stream in Hne. rewrite Hp in Hne. cbn [app] in Hne.
      unfold io_Read, bytes_Reader_Read.
      destruct (rd b) as [|x src] eqn:Esrc; [congruence|].
      eexists _, _. split; [reflexivity|].
      split; [destruct n; [lia | discriminate]|].
      split; [rewrite length_take; lia|].
      split; [|split; [|reflexivity]].
      * unfold stream, pending. cbn [buf rpos wpos rd].
        fold (pending b). rewrite Hp, Esrc. cbn [app]. now rewrite take_drop.
      * unfold ready, wf in *. cbn. repeat split; assumption || lia.
    + destruct (refill_bytes b Hready Hne) as (b1 & Hfill & Hr1 & Hs1 & Hb1 & Hlen).
      rewrite Eb, Nat.eqb_refl in Hfill. rewrite Hfill.
      destruct (Hfrom b1 Hr1 Hb1) as (Hd & Hdl & Hst & Hr' & Hl').
      eexists _, _. split; [reflexivity|]. split; [exact Hd|]. split; [exact Hdl|].
      split; [now rewrite <- Hs1|]. split; [exact Hr' | congruence].
  - apply Nat.eqb_neq in Eb.
    destruct (Hfrom b Hready Eb) as (Hd & Hdl & Hst & Hr' & Hl').
    eexists _, _. split; [reflexivity|]. repeat split; assumption || apply Hr'.
Qed.

Lemma io_ReadAtLeast_loop_bytes :
  forall fuel (b : Reader bytes_Reader) (acc junk : list byte),
    ready b -> (length junk <= length (stream b))%nat ->
    (length junk <= fuel)%nat ->
    exists b',
      io_ReadAtLeast_loop fuel b (acc ++ junk) (length acc)
      = Some (acc ++ take (length junk) (stream b),
              (length acc + length junk)%nat, None, b') /\
      ready b' /\ stream b' = drop (length junk) (stream b) /\
      length (buf b') = length (buf b).
Proof.
  induction fuel as [|fuel IH]; intros b acc junk Hready Hs Hf.
  - destruct junk; [|cbn in Hf; lia]. cbn [io_ReadAtLeast_loop].
    rewrite app_nil_r, Nat.ltb_irrefl. exists b. cbn.
    rewrite app_nil_r, Nat.add_0_r. repeat split; apply Hready.
  - cbn [io_ReadAtLeast_loop].
    destruct (decide (junk = [])) as [-> | Hj].
    + rewrite app_nil_r, Nat.ltb_irrefl. exists b. cbn.
      rewrite app_nil_r, Nat.add_0_r. repeat split; apply Hready.
    + assert (Hjl : (0 < length junk)%nat) by (destruct junk; [congruence | cbn; lia]).
      replace (length acc <? length (acc ++ junk))%nat with true
        by (symmetry; apply Nat.ltb_lt; rewrite length_app; lia).
      replace (length (acc ++ junk) - length acc)%nat with (length junk)
        by (rewrite length_app; lia).
      destruct (Read_bytes b (length junk) Hready Hjl)
        as (data & b1 & -> & Hd & Hdl & Hst & Hr1 & Hl1).
      { intros Hnil. rewrite Hnil in Hs. cbn in Hs. lia. }
      rewrite copy_at_middle by exact Hdl. cbn [fst].
      assert (Hdn : (0 < length data)%nat) by (destruct data; [congruence | cbn; lia]).
      rewrite app_assoc, <- length_app.
      destruct (IH b1 (acc ++ data) (drop (length data) junk) Hr1)
        as (b' & -> & Hr' & Hs' & Hl').
      * rewrite length_drop. rewrite Hst, length_app in Hs. lia.
      * rewrite length_drop. lia.
      * exists b'. split; [|split; [exact Hr'|split; [|congruence]]].
        -- rewrite length_drop, length_app, Hst.
           rewrite take_app_ge by exact Hdl. rewrite <- app_assoc.
           do 3 f_equal. f_equal. lia.
        -- rewrite Hs', length_drop, Hst.
           now rewrite drop_app_ge by exact Hdl.
Qed.

(** [ReadFull(n)] on a stream of [n] bytes at least: the first [n] bytes of
    the stream, which goes on after them. *)
Lemma ReadFull_bytes (fuel : nat) (b : Reader bytes_Reader) (n : nat) :
  ready b -> (0 < n)%nat -> (n <= length (stream b))%nat -> (n <= fuel)%nat ->
  exists b',
    ReadFull fuel b n = Some (Some (take n (stream b)), None, b') /\
    ready b' /\ stream b' = drop n (stream b) /\
    length (buf b') = length (buf b).
Proof.
  intros Hready Hn Hs Hf. pose proof Hready as (_ & He & _).
  unfold ReadFull, io_ReadFull. rewrite He.
  rewrite bool_decide_eq_false_2 by (intros Hx; now apply Hx).
  replace (n =? 0)%nat with false by (symmetry; apply Nat.eqb_neq; lia).
  cbn [orb].
  destruct (io_ReadAtLeast_loop_bytes fuel b [] (Make n) Hready)
    as (b' & Hrun & Hr' & Hs' & Hl'); try (unfold Make; rewrite repeat_length; lia).
  cbn [app length] in Hrun. rewrite Hrun. cbn [mbind option_bind].
  unfold Make in *. rewrite repeat_length in *.
  cbn [Nat.add]. rewrite Nat.leb_refl. cbn.
  exists b'. repeat split; assumption || apply Hr'.
Qed.

End bytes_stream.

(** A reader of four bytes over the source ["ab\ncd"]. *)
Definition reader_ab_cd : Reader bytes_Reader :=
  NewReaderSize (bytes "ab" ++ ["010"%byte] ++ bytes "cd") 4.

Lemma ReadSlice_correct_witness :
  let b := reader_ab_cd in
  ReadSlice b "010"
  = Some (Some (bytes "ab" ++ ["010"%byte]), None,
          mkReader None (bytes "ab" ++ ["010"%byte] ++ bytes "c") (bytes "d") 3 4)
  /\ exists v e b',
    ReadSlice b "010" = Some (v, e, b') /\
    (e = None ->
       exists pre extra r0,
         v = Some (pre ++ ["010"%byte]) /\ ("010"%byte ∉ pre) /\
         pending b ++ extra = (pre ++ ["010"%byte]) ++ pending b' /\
         slice (buf b') r0 (rpos b') = pre ++ ["010"%byte] /\
         rpos b' = (r0 + length pre + 1)%nat) /\
    (e = Some ErrBufferFull <->
       wpos b' = length (buf b') /\ ("010"%byte ∉ buf b')) /\
    (e = Some ErrBufferFull ->
       v = Some (buf b') /\ rpos b' = wpos b' /\ pending b' = [] /\
       exists extra, buf b' = pending b ++ extra) /\
    (e = None -> exists l, v = Some l /\ last l = Some "010"%byte).
Proof.
  split; [vm_compute; reflexivity|].
  apply (ReadSlice_correct (R := bytes_Reader)).
  - unfold wf. cbn. lia.
  - reflexivity.
Defined.
(** *** The other constructors *)

Definition NewReader {R} (r : R) : Reader R := NewReaderSize r DefaultBufferSize.

Definition NewReaderBuffer {R} (r : R) (buf : list byte) : Reader R :=
  let buf :=
    if (length buf =? 0)%nat then repeat "000"%byte (Z.to_nat DefaultBufferSize)
    else buf in
  mkReader None buf r 0 0.

(** *** Errors of the source are kept *)

Section reader_errors.
Context {R : Type} `{IoReader R}.

Lemma fill_error (b b' : Reader R) (e : io_error) :
  fill b = (Some e, b') -> err b' = Some e.
Proof.
  unfold fill. destruct (err b) as [e0|] eqn:E; [now intros [= <- <-]|].
  destruct (io_Read _ _) as [[data e0] rd'].
  destruct e0 as [e0|]; [now intros [= <- <-]|].
  destruct (length data =? 0)%nat; [now intros [= <- <-] | discriminate].
Qed.

Lemma Read_error (b b' : Reader R) (n : nat) data (e : io_error) :
  Read b n = (data, Some e, b') -> err b' = Some e.
Proof.
  unfold Read. destruct (_ || _); [now intros [= _ He <-]|].
  destruct (buffered b =? 0)%nat; [|discriminate].
  destruct (_ <=? _)%nat.
  - destruct (io_Read _ _) as [[d e0] rd']. now intros [= _ He <-].
  - destruct (fill b) as [[e0|] b1]; [now intros [= _ He <-] | discriminate].
Qed.

Lemma ReadByte_error (b b' : Reader R) c (e : io_error) :
  ReadByte b = (c, Some e, b') -> err b' = Some e.
Proof.
  unfold ReadByte. destruct (err b) as [e0|] eqn:E; [now intros [= _ <- <-]|].
  destruct (buffered b =? 0)%nat; [|discriminate].
  destruct (fill b) as [[e0|] b1]; [now intros [= _ He <-] | discriminate].
Qed.

Lemma PeekByte_error (b b' : Reader R) c (e : io_error) :
  PeekByte b = (c, Some e, b') -> err b' = Some e.
Proof.
  unfold PeekByte. destruct (err b) as [e0|] eqn:E; [now intros [= _ <- <-]|].
  destruct (buffered b =? 0)%nat; [|discriminate].
  destruct (fill b) as [[e0|] b1]; [now intros [= _ He <-] | discriminate].
Qed.

Lemma fmap_ErrIO (x : option io_error) (e : error) :
  ErrIO <$> x = Some e -> exists e0, e = ErrIO e0 /\ x = Some e0.
Proof. destruct x as [e0|]; [intros [= <-]; now exists e0 | discriminate]. Qed.

Lemma ReadSlice_loop_error delim : forall fuel (b b' : Reader R) v (e : error),
  ReadSlice_loop fuel b delim = Some (v, Some e, b') -> e <> ErrBufferFull ->
  exists e0, e = ErrIO e0 /\ err b' = Some e0.
Proof.
  induction fuel as [|fuel IH]; intros b b' v e; [discriminate|].
  cbn [ReadSlice_loop]. destruct (IndexByte _ _); [discriminate|].
  destruct (_ =? _)%nat; [intros [= _ <- _] Hne; congruence|].
  destruct (fill b) as [[e0|] b1].
  - intros [= _ He <-] _. now apply fmap_ErrIO.
  - apply IH.
Qed.

Lemma ReadSlice_error delim (b b' : Reader R) v (e : error) :
  ReadSlice b delim = Some (v, Some e, b') -> e <> ErrBufferFull ->
  exists e0, e = ErrIO e0 /\ err b' = Some e0.
Proof.
  unfold ReadSlice. destruct (err b) as [e0|] eqn:E.
  - intros [= _ <- <-] _. now exists e0.
  - apply ReadSlice_loop_error.
Qed.

Lemma ReadBytes_loop_error delim :
  forall fuel (b b' : Reader R) full size v (e : error),
    ReadBytes_loop fuel b delim full size = Some (v, Some e, b') ->
    exists e0, e = ErrIO e0 /\ err b' = Some e0.
Proof.
  induction fuel as [|fuel IH]; intros b b' full size v e; [discriminate|].
  cbn [ReadBytes_loop].
  destruct (ReadSlice b delim) as [[[f e1] b1]|]; [|discriminate].
  cbn [mbind option_bind]. destruct e1 as [e1|].
  - destruct (decide (e1 = ErrBufferFull)); [apply IH|].
    intros [= _ He <-]. now apply fmap_ErrIO.
  - destruct f; [discriminate | apply IH].
Qed.

Lemma io_ReadAtLeast_loop_error :
  forall fuel (b b1 : Reader R) p n p1 n1 (e : io_error),
    io_ReadAtLeast_loop fuel b p n = Some (p1, n1, Some e, b1) ->
    err b1 = Some e.
Proof.
  induction fuel as [|fuel IH]; intros b b1 p n p1 n1 e; cbn [io_ReadAtLeast_loop];
    (destruct (n <? length p)%nat; [|discriminate]); [discriminate|].
  destruct (Read b _) as [[data e0] b2] eqn:ER.
  destruct e0 as [e0|]; [|apply IH].
  intros [= _ _ <- <-]. eapply Read_error. exact ER.
Qed.

Lemma ReadFull_error fuel (b b' : Reader R) (n : nat) v (e : error) :
  ReadFull fuel b n = Some (v, Some e, b') ->
  exists e0, e = ErrIO e0 /\
    (err b' = Some e0 \/ (e0 = ErrUnexpectedEOF /\ err b' = Some EOF)).
Proof.
  unfold ReadFull. destruct (_ || _).
  - intros [= _ He <-]. apply fmap_ErrIO in He as (e0 & -> & He). eauto.
  - unfold io_ReadFull.
    destruct (io_ReadAtLeast_loop _ _ _ _) as [[[[p1 n1] e1] b1]|] eqn:EL;
      [|discriminate].
    cbn [mbind option_bind].
    destruct (_ <=? _)%nat; [discriminate|].
    destruct (_ && _) eqn:Eu.
    + intros [= _ <- <-]. exists ErrUnexpectedEOF. split; [reflexivity|].
      right. split; [reflexivity|].
      apply andb_true_iff in Eu as [_ Heof]. apply bool_decide_eq_true in Heof.
      subst e1. eapply io_ReadAtLeast_loop_error. exact EL.
    + destruct e1 as [e1|]; [|discriminate].
      intros [= _ <- <-]. exists e1. split; [reflexivity|]. left.
      eapply io_ReadAtLeast_loop_error. exact EL.
Qed.

(** X3.  The error of the source is sticky.  A reader that holds an error
    returns it from [fill], [Read], [ReadByte], [PeekByte], [ReadSlice],
    [ReadBytes] and [ReadFull], with no data, and is left as it is; and the
    transport error a call returns is the one the reader then holds, so that
    every later call fails with it too.  The one exception is [ReadFull],
    which may return [io.ErrUnexpectedEOF] while the reader holds [io.EOF]. *)
Theorem Reader_error_is_sticky :
  (forall (b : Reader R) (e : io_error),
     err b = Some e ->
     fill b = (Some e, b) /\
     (forall n, Read b n = ([], Some e, b)) /\
     fst (ReadByte b) = ("000"%byte, Some e) /\ snd (ReadByte b) = b /\
     fst (PeekByte b) = ("000"%byte, Some e) /\ snd (PeekByte b) = b /\
     (forall delim, ReadSlice b delim = Some (None, Some (ErrIO e), b)) /\
     (forall delim fuel,
        ReadBytes (S fuel) b delim = Some (None, Some (ErrIO e), b)) /\
     (forall fuel n, ReadFull fuel b n = Some (None, Some (ErrIO e), b))) /\
  (forall (b b' : Reader R) (e : io_error),
     (fst (fill b) = Some e -> err (snd (fill b)) = Some e) /\
     (forall n data, Read b n = (data, Some e, b') -> err b' = Some e) /\
     (forall c, ReadByte b = (c, Some e, b') -> err b' = Some e) /\
     (forall c, PeekByte b = (c, Some e, b') -> err b' = Some e) /\
     (forall delim v,
        ReadSlice b delim = Some (v, Some (ErrIO e), b') -> err b' = Some e) /\
     (forall delim fuel v,
        ReadBytes fuel b delim = Some (v, Some (ErrIO e), b') -> err b' = Some e) /\
     (forall fuel n v,
        ReadFull fuel b n = Some (v, Some (ErrIO e), b') ->
        err b' = Some e \/ (e = ErrUnexpectedEOF /\ err b' = Some EOF))).
Proof.
  split.
  - intros b e He.
    assert (Hne : bool_decide (err b <> None) = true)
      by (apply bool_decide_eq_true; congruence).
    assert (HRS : forall delim, ReadSlice b delim = Some (None, Some (ErrIO e), b))
      by (intros delim; unfold ReadSlice; now rewrite He).
    split; [unfold fill; now rewrite He|].
    split; [intros n; unfold Read; now rewrite Hne, He|].
    split; [unfold ReadByte; now rewrite He|].
    split; [unfold ReadByte; now rewrite He|].
    split; [unfold PeekByte; now rewrite He|].
    split; [unfold PeekByte; now rewrite He|].
    split; [exact HRS|].
    split.
    + intros delim fuel. unfold ReadBytes. cbn [ReadBytes_loop].
      rewrite HRS. cbn [mbind option_bind].
      rewrite decide_False by discriminate. now rewrite He.
    + intros fuel n. unfold ReadFull. now rewrite Hne, He.
  - intros b b' e.
    split; [destruct (fill b) as [e0 b1] eqn:Ef; cbn [fst snd]; intros ->;
            eapply fill_error; exact Ef|].
    split; [intros n data; apply Read_error|].
    split; [intros c; apply ReadByte_error|].
    split; [intros c; apply PeekByte_error|].
    split.
    { intros delim v Hrs.
      destruct (ReadSlice_error _ _ _ _ _ Hrs ltac:(discriminate)) as (e0 & [= <-] & He).
      exact He. }
    split.
    { intros delim fuel v Hrb.
      destruct (ReadBytes_loop_error _ _ _ _ _ _ _ _ Hrb) as (e0 & [= <-] & He).
      exact He. }
    intros fuel n v Hrf.
    destruct (ReadFull_error _ _ _ _ _ _ Hrf) as (e0 & [= <-] & He). exact He.
Qed.

End reader_errors.

(** *** The cursors stay in order, the buffer keeps its length *)

Section reader_cursors.
Context {R : Type} `{IoLawful R}.

(** What is kept: the cursors in order within the buffer, whose length is
    the one [b0] has. *)
Definition kept (b0 b : Reader R) : Prop :=
  wf b /\ length (buf b) = length (buf b0).

Lemma kept_refl (b : Reader R) : wf b -> kept b b.
Proof. now split. Qed.

Lemma kept_trans (b0 b1 b2 : Reader R) : kept b0 b1 -> kept b1 b2 -> kept b0 b2.
Proof. intros [? ?] [? ?]. split; [assumption | congruence]. Qed.

Lemma fill_kept (b : Reader R) : wf b -> kept b (snd (fill b)).
Proof.
  intros Hw. split; [now apply fill_wf|].
  destruct (err b) as [e|] eqn:E; [unfold fill; now rewrite E|].
  destruct (fill_spec b Hw E) as (data & e & rd' & _ & _ & Hb').
  cbn zeta in Hb'. apply Hb'.
Qed.

(** A call of [fill] that returns no error has added a byte at least. *)
Lemma fill_progress (b b1 : Reader R) :
  wf b -> fill b = (None, b1) ->
  kept b b1 /\ err b1 = None /\ rpos b1 = 0%nat /\ (buffered b < wpos b1)%nat.
Proof.
  intros Hw Hf. pose proof (fill_kept b Hw) as Hk. rewrite Hf in Hk. cbn [snd] in Hk.
  split; [exact Hk|].
  assert (E : err b = None).
  { destruct (err b) as [e|] eqn:E; [|reflexivity].
    unfold fill in Hf. rewrite E in Hf. discriminate. }
  destruct (fill_spec b Hw E) as (data & e & rd' & _ & _ & Hb').
  cbn zeta in Hb'. rewrite Hf in Hb'. cbn [fst snd] in Hb'.
  destruct Hb' as (_ & Hr & _ & Hcase).
  destruct e as [e|]; [destruct Hcase as [? _]; discriminate|].
  destruct (decide (data = [])) as [-> | Hne]; [destruct Hcase as [? _]; discriminate|].
  destruct Hcase as (_ & He & _ & Hwp).
  split; [exact He|]. split; [exact Hr|]. rewrite Hwp.
  destruct data; [congruence | cbn; lia].
Qed.

Lemma advance_kept (b : Reader R) (k : nat) :
  wf b -> (k <= buffered b)%nat -> kept b (set_rpos b (rpos b + k)).
Proof. unfold kept, wf, buffered. cbn. lia. Qed.

Lemma Read_kept (b : Reader R) (n : nat) : wf b -> kept b (snd (Read b n)).
Proof.
  intros Hw. unfold Read. destruct (_ || _); [now apply kept_refl|].
  assert (Hfrom : forall b1 : Reader R, wf b1 ->
            kept b1 (set_rpos b1 (rpos b1
                       + length (take n (slice (buf b1) (rpos b1) (wpos b1)))))).
  { intros b1 Hw1. apply advance_kept; [exact Hw1|].
    fold (pending b1). rewrite length_take, pending_length by exact Hw1. lia. }
  destruct (buffered b =? 0)%nat; [|now apply Hfrom].
  destruct (_ <=? _)%nat.
  - destruct (io_Read _ _) as [[d e0] rd']. cbn [snd]. exact (kept_refl _ Hw).
  - pose proof (fill_kept b Hw) as Hk. destruct (fill b) as [[e0|] b1]; cbn [snd] in *.
    + exact Hk.
    + eapply kept_trans; [exact Hk | apply Hfrom, Hk].
Qed.

(** The byte [ReadByte] returns is the one under the read cursor, which is
    within the data of the buffer: the index [b.buf[b.rpos]] is never out of
    range. *)
Lemma ReadByte_kept (b : Reader R) :
  wf b ->
  kept b (snd (ReadByte b)) /\
  (snd (fst (ReadByte b)) = None ->
   exists b1, PeekByte b = (fst (fst (ReadByte b)), None, b1) /\
     (rpos b1 < wpos b1)%nat /\
     buf b1 !! rpos b1 = Some (fst (fst (ReadByte b))) /\
     snd (ReadByte b) = set_rpos b1 (rpos b1 + 1)).
Proof.
  intros Hw. destruct (PeekByte b) as [[c e] b1] eqn:EP.
  destruct e as [e|].
  - (* the same error under both *)
    assert (ReadByte b = ("000"%byte, Some e, b1) /\ kept b b1) as [-> Hk].
    { unfold PeekByte, ReadByte in *. destruct (err b) as [e0|].
      - injection EP as <- <- <-. split; [reflexivity | now apply kept_refl].
      - destruct (buffered b =? 0)%nat; [|discriminate].
        pose proof (fill_kept b Hw) as Hk.
        destruct (fill b) as [[e0|] b2]; [|discriminate].
        injection EP as <- <- <-. split; [reflexivity | exact Hk]. }
    split; [exact Hk | discriminate].
  - destruct (PeekByte_ok b b1 c Hw EP) as (Hw1 & He1 & Hl1 & (tl & Hp) & _ & ->).
    cbn [fst snd].
    assert (Hb1 : (rpos b1 < wpos b1)%nat).
    { pose proof (pending_length b1 Hw1) as Hpl. rewrite Hp in Hpl.
      unfold buffered in Hpl. cbn in Hpl. lia. }
    split.
    + eapply kept_trans; [split; [exact Hw1 | exact Hl1]|].
      apply advance_kept; [exact Hw1 | unfold buffered; lia].
    + intros _. exists b1. split; [reflexivity|]. split; [exact Hb1|].
      split; [|reflexivity].
      unfold pending, slice in Hp.
      assert (Hh : head (take (wpos b1 - rpos b1) (drop (rpos b1) (buf b1))) = Some c)
        by now rewrite Hp.
      rewrite <- Hh. destruct (wpos b1 - rpos b1)%nat as [|k] eqn:Ek; [lia|].
      assert (Hl0 : buf b1 !! rpos b1 = drop (rpos b1) (buf b1) !! 0%nat)
        by (rewrite lookup_drop; f_equal; lia).
      rewrite Hl0. now destruct (drop (rpos b1) (buf b1)).
Qed.

Lemma PeekByte_kept (b : Reader R) : wf b -> kept b (snd (PeekByte b)).
Proof.
  intros Hw. unfold PeekByte. destruct (err b); [now apply kept_refl|].
  destruct (buffered b =? 0)%nat; [|now apply kept_refl].
  pose proof (fill_kept b Hw) as Hk. now destruct (fill b) as [[e0|] b1].
Qed.

Lemma ReadSlice_kept (b b' : Reader R) delim v e :
  wf b -> ReadSlice b delim = Some (v, e, b') -> kept b b'.
Proof.
  intros Hw. unfold ReadSlice. destruct (err b) as [e0|] eqn:E.
  - intros [= _ _ <-]. now apply kept_refl.
  - intros Hrs.
    destruct (ReadSlice_loop_spec delim (S (length (buf b))) b Hw E ltac:(lia))
      as (v' & e' & b2 & Hrun & Hw2 & Hl2 & _).
    rewrite Hrun in Hrs. injection Hrs as _ _ <-. now split.
Qed.

(** [ReadSlice] always returns: the loop ends within [len(buf) + 1]
    iterations. *)
Lemma ReadSlice_returns (b : Reader R) delim :
  wf b -> exists v e b', ReadSlice b delim = Some (v, e, b').
Proof.
  intros Hw. unfold ReadSlice. destruct (err b) as [e0|] eqn:E; [eauto|].
  destruct (ReadSlice_loop_spec delim (S (length (buf b))) b Hw E ltac:(lia))
    as (v' & e' & b2 & Hrun & _). eauto.
Qed.

Lemma ReadBytes_loop_kept delim : forall fuel (b b' : Reader R) full size v e,
  wf b -> ReadBytes_loop fuel b delim full size = Some (v, e, b') -> kept b b'.
Proof.
  induction fuel as [|fuel IH]; intros b b' full size v e Hw; [discriminate|].
  cbn [ReadBytes_loop].
  destruct (ReadSlice b delim) as [[[f e1] b1]|] eqn:ERS; [|discriminate].
  pose proof (ReadSlice_kept _ _ _ _ _ Hw ERS) as Hk1.
  cbn [mbind option_bind]. destruct e1 as [e1|].
  - destruct (decide (e1 = ErrBufferFull)).
    + intros Hrec. eapply kept_trans; [exact Hk1|]. eapply IH; [apply Hk1 | exact Hrec].
    + now intros [= _ _ <-].
  - destruct f.
    + now intros [= _ _ <-].
    + intros Hrec. eapply kept_trans; [exact Hk1|]. eapply IH; [apply Hk1 | exact Hrec].
Qed.

Lemma io_ReadAtLeast_loop_kept : forall fuel (b b1 : Reader R) p n p1 n1 e,
  wf b -> io_ReadAtLeast_loop fuel b p n = Some (p1, n1, e, b1) -> kept b b1.
Proof.
  induction fuel as [|fuel IH]; intros b b1 p n p1 n1 e Hw; cbn [io_ReadAtLeast_loop];
    (destruct (n <? length p)%nat;
     [|intros [= _ _ _ <-]; now apply kept_refl]); [discriminate|].
  pose proof (Read_kept b (length p - n) Hw) as Hk.
  destruct (Read b _) as [[data e0] b2]. cbn [snd] in Hk.
  destruct e0 as [e0|]; [now intros [= _ _ _ <-]|].
  intros Hrec. eapply kept_trans; [exact Hk|]. eapply IH; [apply Hk | exact Hrec].
Qed.

Lemma ReadFull_kept fuel (b b' : Reader R) n v e :
  wf b -> ReadFull fuel b n = Some (v, e, b') -> kept b b'.
Proof.
  intros Hw. unfold ReadFull. destruct (_ || _).
  - intros [= _ _ <-]. now apply kept_refl.
  - unfold io_ReadFull.
    destruct (io_ReadAtLeast_loop _ _ _ _) as [[[[p1 n1] e1] b1]|] eqn:EL;
      [|discriminate].
    pose proof (io_ReadAtLeast_loop_kept _ _ _ _ _ _ _ _ Hw EL) as Hk.
    cbn [mbind option_bind].
    destruct (if (_ <=? _)%nat then _ else _); now intros [= _ _ <-].
Qed.

(** X4.  Every operation of the reader keeps [rpos <= wpos <= len(buf)] and
    the length of the buffer, whatever the source returns within the
    contract of [io.Reader]; the three constructors establish it, with a
    buffer that is never empty; [ReadSlice] always returns; and the byte
    [ReadByte] hands out is read at an index below [wpos]. *)
Theorem Reader_keeps_cursors (b : Reader R) :
  wf b ->
  kept b (snd (fill b)) /\
  (forall n, kept b (snd (Read b n))) /\
  kept b (snd (ReadByte b)) /\
  kept b (snd (PeekByte b)) /\
  (forall delim,
     exists v e b', ReadSlice b delim = Some (v, e, b') /\ kept b b') /\
  (forall delim fuel v e b',
     ReadBytes fuel b delim = Some (v, e, b') -> kept b b') /\
  (forall fuel n v e b', ReadFull fuel b n = Some (v, e, b') -> kept b b') /\
  (forall c b', ReadByte b = (c, None, b') ->
     (0 < rpos b' <= wpos b')%nat /\ buf b' !! (rpos b' - 1)%nat = Some c) /\
  (forall (r : R) size p,
     let fresh (b0 : Reader R) :=
       wf b0 /\ (0 < length (buf b0))%nat /\ err b0 = None /\ buffered b0 = 0%nat in
     fresh (NewReader r) /\ fresh (NewReaderSize r size) /\
     fresh (NewReaderBuffer r p) /\
     (p <> [] -> buf (NewReaderBuffer r p) = p)).
Proof.
  intros Hw.
  split; [now apply fill_kept|].
  split; [intros n; now apply Read_kept|].
  split; [now apply ReadByte_kept|].
  split; [now apply PeekByte_kept|].
  split.
  { intros delim. destruct (ReadSlice_returns b delim Hw) as (v & e & b' & Hrs).
    exists v, e, b'. split; [exact Hrs | eapply ReadSlice_kept; eauto]. }
  split; [intros delim fuel v e b'; now apply ReadBytes_loop_kept|].
  split; [intros fuel n v e b'; now apply ReadFull_kept|].
  split.
  { intros c b' Hrb. destruct (ReadByte_kept b Hw) as [_ Hin].
    rewrite Hrb in Hin. cbn [fst snd] in Hin.
    destruct (Hin eq_refl) as (b1 & _ & Hlt & Hc & ->). cbn [rpos wpos buf set_rpos].
    replace (rpos b1 + 1 - 1)%nat with (rpos b1) by lia. split; [lia | exact Hc]. }
  intros r size p. cbn zeta.
  assert (Hsz : forall sz, let b0 := NewReaderSize r sz in
            wf b0 /\ (0 < length (buf b0))%nat /\ err b0 = None /\ buffered b0 = 0%nat).
  { intros sz. cbn zeta. unfold wf, buffered, NewReaderSize. cbn [rpos wpos buf err].
    rewrite repeat_length. unfold DefaultBufferSize.
    destruct (sz <=? 0) eqn:E; repeat split; lia || reflexivity. }
  split; [apply Hsz|]. split; [apply Hsz|].
  unfold NewReaderBuffer, wf, buffered. cbn [rpos wpos buf err].
  destruct p as [|x p]; cbn [length Nat.eqb].
  - rewrite repeat_length. unfold DefaultBufferSize.
    repeat split; lia || reflexivity || congruence.
  - repeat split; lia || reflexivity.
Qed.

(** X5.  [PeekByte] does not consume: after a successful [PeekByte] a
    second one returns the same byte and leaves the reader as it is, and
    [ReadByte], on the reader before or after the peek, returns that byte
    and moves the read cursor by one. *)
Theorem PeekByte_does_not_consume (b b1 : Reader R) (c : byte) :
  wf b -> PeekByte b = (c, None, b1) ->
  PeekByte b1 = (c, None, b1) /\
  ReadByte b1 = (c, None, set_rpos b1 (rpos b1 + 1)) /\
  ReadByte b = ReadByte b1 /\
  (exists tl, pending b1 = c :: tl /\
              pending (set_rpos b1 (rpos b1 + 1)) = tl).
Proof.
  intros Hw Hpeek.
  destruct (PeekByte_ok b b1 c Hw Hpeek) as (Hw1 & He1 & _ & (tl & Hp) & Hrb1 & Hrb).
  assert (Hlt : (rpos b1 < wpos b1)%nat).
  { pose proof (pending_length b1 Hw1) as Hpl. rewrite Hp in Hpl.
    unfold buffered in Hpl. cbn in Hpl. lia. }
  split; [|split; [exact Hrb1|split; [congruence|]]].
  - unfold ReadByte in Hrb1. unfold PeekByte. rewrite He1 in *.
    replace (buffered b1 =? 0)%nat with false in *
      by (symmetry; apply Nat.eqb_neq; unfold buffered; lia).
    injection Hrb1 as ->. reflexivity.
  - exists tl. split; [exact Hp|].
    unfold pending, slice in *. cbn [buf rpos wpos set_rpos].
    replace (wpos b1 - rpos b1)%nat with (S (wpos b1 - (rpos b1 + 1))) in Hp by lia.
    rewrite <- drop_drop. destruct (drop (rpos b1) (buf b1)) as [|x l]; [discriminate|].
    cbn in Hp. injection Hp as _ <-. reflexivity.
Qed.

End reader_cursors.

(** *** The reader over [bytes.Reader]: the end of the stream *)

Section reader_streams.

Lemma stream_nil (b : Reader bytes_Reader) :
  ready b -> stream b = [] -> buffered b = 0%nat /\ rd b = [].
Proof.
  intros (Hw & _ & _) Hs. unfold stream in Hs. apply app_eq_nil in Hs as [Hp Hr].
  split; [|exact Hr]. rewrite <- (pending_length b Hw), Hp. reflexivity.
Qed.

Lemma fill_eof (b : Reader bytes_Reader) :
  ready b -> stream b = [] ->
  fst (fill b) = Some EOF /\ err (snd (fill b)) = Some EOF.
Proof.
  intros Hready Hs. destruct (stream_nil b Hready Hs) as [Hb Hr].
  pose proof (fill_bytes b Hready) as Hf. rewrite Hr in Hf. apply Hf.
  destruct Hready as (_ & _ & Hl). lia.
Qed.

Lemma Read_eof (b : Reader bytes_Reader) (n : nat) :
  ready b -> stream b = [] -> (0 < n)%nat ->
  exists b', Read b n = ([], Some EOF, b') /\ err b' = Some EOF.
Proof.
  intros Hready Hs Hn. destruct (stream_nil b Hready Hs) as [Hb Hr].
  pose proof Hready as (_ & He & _).
  unfold Read. rewrite He.
  rewrite bool_decide_eq_false_2 by (intros Hx; now apply Hx).
  replace (n =? 0)%nat with false by (symmetry; apply Nat.eqb_neq; lia).
  cbn [orb]. rewrite Hb. cbn [Nat.eqb].
  destruct (_ <=? _)%nat.
  - rewrite Hr. unfold io_Read, bytes_Reader_Read. eexists. split; reflexivity.
  - destruct (fill_eof b Hready Hs) as [Hf He'].
    destruct (fill b) as [e0 b1]. cbn [fst snd] in *. subst e0.
    exists b1. now rewrite He'.
Qed.

Lemma ReadByte_eof (b : Reader bytes_Reader) :
  ready b -> stream b = [] ->
  exists b', ReadByte b = ("000"%byte, Some EOF, b') /\
             PeekByte b = ("000"%byte, Some EOF, b') /\ err b' = Some EOF.
Proof.
  intros Hready Hs. destruct (stream_nil b Hready Hs) as [Hb Hr].
  pose proof Hready as (_ & He & _).
  destruct (fill_eof b Hready Hs) as [Hf He'].
  unfold ReadByte, PeekByte. rewrite He, Hb. cbn [Nat.eqb].
  destruct (fill b) as [e0 b1]. cbn [fst snd] in *. subst e0.
  exists b1. now rewrite He'.
Qed.

Lemma not_in_take (l : list byte) (c : byte) (n : nat) : c ∉ l -> c ∉ take n l.
Proof.
  intros Hn Hin. apply Hn. rewrite <- (take_drop n l). apply elem_of_app. now left.
Qed.

Lemma not_in_drop (l : list byte) (c : byte) (n : nat) : c ∉ l -> c ∉ drop n l.
Proof.
  intros Hn Hin. apply Hn. rewrite <- (take_drop n l). apply elem_of_app. now right.
Qed.

(** A stream without the delimiter: [ReadBytes] consumes it by buffers and
    ends on the end of the source. *)
Lemma ReadBytes_loop_eof (delim : byte) :
  forall fuel (b : Reader bytes_Reader) full size,
    ready b -> delim ∉ stream b -> (length (stream b) < fuel)%nat ->
    exists b',
      ReadBytes_loop fuel b delim full size = Some (None, Some (ErrIO EOF), b') /\
      err b' = Some EOF.
Proof.
  induction fuel as [|fuel IH]; intros b full size Hready Hn Hf; [lia|].
  cbn [ReadBytes_loop].
  pose proof (ReadSlice_bytes b delim Hready) as Hout. unfold ReadSlice_outcome in Hout.
  assert (Hix : IndexByte (take (length (buf b)) (stream b)) delim = None)
    by (apply IndexByte_None; now apply not_in_take).
  rewrite Hix in Hout.
  destruct (_ <=? _)%nat eqn:EL.
  - apply Nat.leb_le in EL.
    destruct Hout as (b1 & -> & Hr1 & Hs1 & Hl1). cbn [mbind option_bind].
    rewrite decide_True by reflexivity.
    apply IH; [exact Hr1 | rewrite Hs1; now apply not_in_drop|].
    rewrite Hs1, length_drop. destruct Hready as (_ & _ & Hl). lia.
  - destruct Hout as (b1 & -> & He1). cbn [mbind option_bind].
    rewrite decide_False by discriminate. exists b1. now rewrite He1.
Qed.

(** A stream shorter than the bytes asked for: [io.ReadFull]'s loop reads
    it all and stops on the end of the source. *)
Lemma io_ReadAtLeast_loop_short :
  forall fuel (b : Reader bytes_Reader) (acc junk : list byte),
    ready b -> (length (stream b) < length junk)%nat ->
    (length (stream b) < fuel)%nat ->
    exists p1 b',
      io_ReadAtLeast_loop fuel b (acc ++ junk) (length acc)
      = Some (p1, (length acc + length (stream b))%nat, Some EOF, b') /\
      err b' = Some EOF.
Proof.
  induction fuel as [|fuel IH]; intros b acc junk Hready Hs Hf; [lia|].
  cbn [io_ReadAtLeast_loop].
  replace (length acc <? length (acc ++ junk))%nat with true
    by (symmetry; apply Nat.ltb_lt; rewrite length_app; lia).
  replace (length (acc ++ junk) - length acc)%nat with (length junk)
    by (rewrite length_app; lia).
  destruct (decide (stream b = [])) as [Hnil | Hne].
  - destruct (Read_eof b (length junk) Hready Hnil ltac:(lia)) as (b1 & -> & He1).
    rewrite Hnil. cbn [length]. eexists _, b1. split; [reflexivity | exact He1].
  - destruct (Read_bytes b (length junk) Hready ltac:(lia) Hne)
      as (data & b1 & -> & Hd & Hdl & Hst & Hr1 & Hl1).
    rewrite copy_at_middle by exact Hdl. cbn [fst].
    assert (Hdn : (0 < length data)%nat) by (destruct data; [congruence | cbn; lia]).
    assert (Hlen : length (stream b) = (length data + length (stream b1))%nat)
      by (rewrite Hst at 1; apply length_app).
    rewrite app_assoc, <- length_app.
    destruct (IH b1 (acc ++ data) (drop (length data) junk) Hr1)
      as (p1 & b' & -> & He'); [rewrite length_drop; lia | lia|].
    exists p1, b'. split; [|exact He'].
    rewrite length_app, Hlen, Nat.add_assoc. reflexivity.
Qed.

Lemma ReadFull_short (fuel : nat) (b : Reader bytes_Reader) (n : nat) :
  ready b -> (length (stream b) < n)%nat -> (length (stream b) < fuel)%nat ->
  exists b',
    ReadFull fuel b n
    = Some (None,
            Some (ErrIO (if decide (stream b = []) then EOF else ErrUnexpectedEOF)),
            b') /\
    err b' = Some EOF.
Proof.
  intros Hready Hs Hf. pose proof Hready as (_ & He & _).
  unfold ReadFull, io_ReadFull. rewrite He.
  rewrite bool_decide_eq_false_2 by (intros Hx; now apply Hx).
  replace (n =? 0)%nat with false by (symmetry; apply Nat.eqb_neq; lia).
  cbn [orb].
  destruct (io_ReadAtLeast_loop_short fuel b [] (Make n) Hready)
    as (p1 & b' & Hrun & He');
    [unfold Make; rewrite repeat_length; lia | lia |].
  cbn [app length] in Hrun. rewrite Hrun. cbn [mbind option_bind Nat.add].
  unfold Make. rewrite repeat_length.
  replace (n <=? length (stream b))%nat with false
    by (symmetry; apply Nat.leb_gt; lia).
  rewrite bool_decide_eq_true_2 by reflexivity. rewrite andb_true_r.
  exists b'. split; [|exact He'].
  destruct (decide (stream b = [])) as [-> | Hne]; [reflexivity|].
  replace (0 <? length (stream b))%nat with true; [reflexivity|].
  symmetry. apply Nat.ltb_lt. destruct (stream b); [congruence | cbn; lia].
Qed.

(** X6.  Over a byte source, [ReadBytes(delim)] returns the stream up to
    its first [delim], that byte included, whatever the size of the buffer
    (a line longer than the buffer is put together from as many full
    buffers as it takes), and leaves what follows for the next call.  When
    the stream holds no [delim] it consumes it all and returns nil with
    [io.EOF]: the unfinished last line is not handed out. *)
Theorem ReadBytes_on_stream (fuel : nat) (b : Reader bytes_Reader) (delim : byte) :
  ready b -> (length (stream b) < fuel)%nat ->
  (forall pre post,
     stream b = pre ++ delim :: post -> delim ∉ pre ->
     exists b',
       ReadBytes fuel b delim = Some (Some (pre ++ [delim]), None, b') /\
       ready b' /\ stream b' = post /\ length (buf b') = length (buf b)) /\
  (delim ∉ stream b ->
     exists b',
       ReadBytes fuel b delim = Some (None, Some (ErrIO EOF), b') /\
       err b' = Some EOF).
Proof.
  intros Hready Hf. split.
  - intros pre post Hs Hn. apply ReadBytes_bytes; [assumption..|].
    rewrite Hs, length_app in Hf. lia.
  - intros Hn. now apply ReadBytes_loop_eof.
Qed.

(** X7.  Over a byte source, [ReadFull(n)] returns exactly the next [n]
    bytes of the stream and leaves the rest; [ReadFull(0)] returns nil and
    no error; and when fewer than [n] bytes are left it consumes them and
    fails, with [io.ErrUnexpectedEOF] if there were any and [io.EOF] if
    there were none, the reader holding [io.EOF] from then on. *)
Theorem ReadFull_on_stream (fuel : nat) (b : Reader bytes_Reader) (n : nat) :
  ready b -> (n <= fuel)%nat ->
  ReadFull fuel b 0 = Some (None, None, b) /\
  ((0 < n <= length (stream b))%nat ->
     exists b',
       ReadFull fuel b n = Some (Some (take n (stream b)), None, b') /\
       ready b' /\ stream b' = drop n (stream b) /\
       length (buf b') = length (buf b)) /\
  ((length (stream b) < n)%nat ->
     exists b',
       ReadFull fuel b n
       = Some (None,
               Some (ErrIO (if decide (stream b = []) then EOF
                            else ErrUnexpectedEOF)), b') /\
       err b' = Some EOF).
Proof.
  intros Hready Hf. pose proof Hready as (_ & He & _).
  split; [|split].
  - unfold ReadFull. rewrite He. cbn [Nat.eqb]. now rewrite orb_true_r.
  - intros [Hn Hs]. now apply ReadFull_bytes.
  - intros Hs. apply ReadFull_short; [assumption | assumption | lia].
Qed.

(** X8.  Over a byte source, [ReadSlice(delim)] looks at the first
    [len(buf)] bytes of the stream only: with a [delim] among them it
    returns the stream up to that byte; without one it hands out those
    [len(buf)] bytes with [bufio.ErrBufferFull], and the reader goes on
    behind them; and a stream that ends before, without a [delim], gives
    nil and [io.EOF]. *)
Theorem ReadSlice_on_stream (b : Reader bytes_Reader) (delim : byte) :
  ready b ->
  (forall pre post,
     stream b = pre ++ delim :: post -> delim ∉ pre ->
     (length pre < length (buf b))%nat ->
     exists b',
       ReadSlice b delim = Some (Some (pre ++ [delim]), None, b') /\
       ready b' /\ stream b' = post /\ length (buf b') = length (buf b)) /\
  (delim ∉ take (length (buf b)) (stream b) ->
   (length (buf b) <= length (stream b))%nat ->
     exists b',
       ReadSlice b delim
       = Some (Some (take (length (buf b)) (stream b)), Some ErrBufferFull, b') /\
       ready b' /\ stream b' = drop (length (buf b)) (stream b) /\
       length (buf b') = length (buf b)) /\
  (delim ∉ stream b -> (length (stream b) < length (buf b))%nat ->
     exists b',
       ReadSlice b delim = Some (None, Some (ErrIO EOF), b') /\
       err b' = Some EOF).
Proof.
  intros Hready.
  pose proof (ReadSlice_bytes b delim Hready) as Hout. unfold ReadSlice_outcome in Hout.
  split; [|split].
  - intros pre post Hs Hn Hl. rewrite Hs in Hout.
    rewrite take_app_ge in Hout by lia.
    destruct (length (buf b) - length pre)%nat as [|k] eqn:Ek; [lia|].
    cbn [take] in Hout. rewrite IndexByte_first in Hout by exact Hn.
    destruct Hout as (b' & -> & Hr' & Hs' & Hl').
    exists b'. split; [|split; [exact Hr'|split; [|exact Hl']]].
    + rewrite <- Nat.add_1_r, <- take_take_drop, take_app_length, drop_app_length.
      reflexivity.
    + rewrite Hs', <- Nat.add_1_r, <- drop_drop, drop_app_length. reflexivity.
  - intros Hn Hl. apply IndexByte_None in Hn. rewrite Hn in Hout.
    replace (_ <=? _)%nat with true in Hout by (symmetry; apply Nat.leb_le; lia).
    exact Hout.
  - intros Hn Hl.
    assert (Hix : IndexByte (take (length (buf b)) (stream b)) delim = None)
      by (apply IndexByte_None; now apply not_in_take).
    rewrite Hix in Hout.
    replace (_ <=? _)%nat with false in Hout by (symmetry; apply Nat.leb_gt; lia).
    exact Hout.
Qed.

(** X9.  Over a byte source, [Read(p)] and the byte-wise calls hand out the
    stream in order.  [Read] with room for [n > 0] bytes returns at least
    one and at most [n] bytes, the next ones of the stream; [ReadByte]
    returns the next byte and [PeekByte] returns it without consuming it; at
    the end of the stream all three return [io.EOF]; and [Read] into an
    empty slice returns 0 and no error, even at the end of the stream. *)
Theorem Read_on_stream (b : Reader bytes_Reader) :
  ready b ->
  Read b 0 = ([], None, b) /\
  (forall n, (0 < n)%nat -> stream b <> [] ->
     exists data b',
       Read b n = (data, None, b') /\ data <> [] /\ (length data <= n)%nat /\
       stream b = data ++ stream b' /\ ready b') /\
  (forall c s, stream b = c :: s ->
     (exists b', ReadByte b = (c, None, b') /\ ready b' /\ stream b' = s) /\
     (exists b', PeekByte b = (c, None, b') /\ ready b' /\ stream b' = c :: s)) /\
  (stream b = [] ->
     (forall n, (0 < n)%nat -> exists b', Read b n = ([], Some EOF, b')) /\
     (exists b', ReadByte b = ("000"%byte, Some EOF, b')) /\
     (exists b', PeekByte b = ("000"%byte, Some EOF, b'))).
Proof.
  intros Hready. pose proof Hready as (_ & He & _).
  split; [|split; [|split]].
  - unfold Read. rewrite He. cbn [Nat.eqb]. now rewrite orb_true_r.
  - intros n Hn Hne.
    destruct (Read_bytes b n Hready Hn Hne) as (data & b' & ? & ? & ? & ? & ? & _).
    exists data, b'. auto.
  - intros c s Hs. split.
    + destruct (ReadByte_bytes b c s Hready Hs) as (b' & ? & ? & ? & _). eauto.
    + destruct (PeekByte_bytes b c s Hready Hs) as (b' & ? & ? & ? & _). eauto.
  - intros Hs. destruct (ReadByte_eof b Hready Hs) as (b' & Hrb & Hpb & _).
    split; [|eauto].
    intros n Hn. destruct (Read_eof b n Hready Hs Hn) as (b1 & ? & _). eauto.
Qed.

End reader_streams.

(** *** The reader at work *)

(** A byte is not among those of a short string. *)
Ltac not_among :=
  let Hin := fresh "Hin" in
  intros Hin;
  repeat (apply elem_of_cons in Hin as [Hin | Hin]; [discriminate Hin|]);
  now apply not_elem_of_nil in Hin.

Definition reader_hi : Reader bytes_Reader := NewReaderSize (bytes "hi") 4.

Lemma Reader_keeps_cursors_witness :
  wf reader_hi /\ kept reader_hi (snd (fill reader_hi)) /\
  kept reader_hi (snd (ReadByte reader_hi)).
Proof.
  assert (Hw : wf reader_hi) by (unfold wf; cbn; lia).
  destruct (Reader_keeps_cursors (R := bytes_Reader) reader_hi Hw)
    as (H1 & _ & H3 & _).
  split; [exact Hw|]. split; [exact H1 | exact H3].
Defined.

Lemma PeekByte_does_not_consume_witness :
  let b1 := snd (PeekByte reader_hi) in
  PeekByte reader_hi = ("h"%byte, None, b1) /\
  PeekByte b1 = ("h"%byte, None, b1) /\
  ReadByte reader_hi = ReadByte b1.
Proof.
  cbn zeta.
  assert (Hw : wf reader_hi) by (unfold wf; cbn; lia).
  assert (Hp : PeekByte reader_hi = ("h"%byte, None, snd (PeekByte reader_hi)))
    by (vm_compute; reflexivity).
  destruct (PeekByte_does_not_consume (R := bytes_Reader) reader_hi _ _ Hw Hp)
    as (H1 & _ & H3 & _).
  split; [exact Hp|]. split; [exact H1 | exact H3].
Defined.

(** A line of three bytes through a buffer of two. *)
Lemma ReadBytes_on_stream_witness :
  exists b',
    ReadBytes 8 (NewReaderSize (bytes "ab" ++ ["010"%byte] ++ bytes "cd") 2) "010"
    = Some (Some (bytes "ab" ++ ["010"%byte]), None, b') /\
    stream b' = bytes "cd".
Proof.
  destruct (NewReaderSize_ready (bytes "ab" ++ ["010"%byte] ++ bytes "cd") 2)
    as [Hr Hs].
  destruct (ReadBytes_on_stream 8 _ "010" Hr) as [Hline _].
  { rewrite Hs. vm_compute. lia. }
  destruct (Hline (bytes "ab") (bytes "cd")) as (b' & Hrun & _ & Hs' & _).
  - rewrite Hs. reflexivity.
  - not_among.
  - exists b'. now split.
Defined.

Lemma ReadFull_on_stream_witness :
  (exists b',
     ReadFull 8 (NewReaderSize (bytes "abcde") 2) 3
     = Some (Some (bytes "abc"), None, b') /\ stream b' = bytes "de") /\
  (exists b',
     ReadFull 8 (NewReaderSize (bytes "ab") 2) 3
     = Some (None, Some (ErrIO ErrUnexpectedEOF), b')).
Proof.
  split.
  - destruct (NewReaderSize_ready (bytes "abcde") 2) as [Hr Hs].
    destruct (ReadFull_on_stream 8 _ 3 Hr ltac:(lia)) as (_ & Hok & _).
    destruct Hok as (b' & Hrun & _ & Hs' & _); [rewrite Hs; vm_compute; lia|].
    exists b'. rewrite Hs in *. now split.
  - destruct (NewReaderSize_ready (bytes "ab") 2) as [Hr Hs].
    destruct (ReadFull_on_stream 8 _ 3 Hr ltac:(lia)) as (_ & _ & Hshort).
    destruct Hshort as (b' & Hrun & _); [rewrite Hs; vm_compute; lia|].
    exists b'. now rewrite Hs in Hrun.
Defined.

Lemma ReadSlice_on_stream_witness :
  exists b',
    ReadSlice (NewReaderSize (bytes "abcdef") 4) "010"
    = Some (Some (bytes "abcd"), Some ErrBufferFull, b') /\
    stream b' = bytes "ef".
Proof.
  destruct (NewReaderSize_ready (bytes "abcdef") 4) as [Hr Hs].
  destruct (ReadSlice_on_stream _ "010" Hr) as (_ & Hfull & _).
  destruct Hfull as (b' & Hrun & _ & Hs' & _).
  - rewrite Hs. not_among.
  - rewrite Hs. vm_compute. lia.
  - exists b'. rewrite Hs in *. now split.
Defined.

Lemma Read_on_stream_witness :
  (exists b', ReadByte (NewReaderSize (bytes "abc") 4) = ("a"%byte, None, b') /\
              stream b' = bytes "bc") /\
  (exists b', ReadByte (NewReaderSize (bytes "") 4) = ("000"%byte, Some EOF, b')).
Proof.
  split.
  - destruct (NewReaderSize_ready (bytes "abc") 4) as [Hr Hs].
    destruct (Read_on_stream _ Hr) as (_ & _ & Hbyte & _).
    destruct (Hbyte "a"%byte (bytes "bc") Hs) as [(b' & Hrun & _ & Hs') _].
    exists b'. now split.
  - destruct (NewReaderSize_ready (bytes "") 4) as [Hr Hs].
    destruct (Read_on_stream _ Hr) as (_ & _ & _ & Heof).
    destruct (Heof Hs) as (_ & Hrb & _). exact Hrb.
Defined.

End bufio2.

(** ** [bufio2]: the buffered writer *)

Module bufio2_writer.
Import Go bufio2.

(** *** The underlying [io.Writer]

    [wr.Write(p)] is [io_Write wr p]: the count returned, the error and the
    writer afterwards.  An error of the writing side is [io.ErrShortWrite]
    or one the sink made. *)
Inductive write_error :=
| ErrShortWrite
| ErrSink (msg : string).

Global Instance write_error_eq_dec : EqDecision write_error.
Proof. solve_decision. Defined.

Class IoWriter (W : Type) := io_Write : W -> list byte -> nat * option write_error * W.

(** The contract of [io.Writer] on the count: [0 <= n <= len(p)]. *)
Class IoWriterLawful (W : Type) `{IoWriter W} : Prop :=
  io_Write_count : forall (w : W) (p : list byte),
    (fst (fst (io_Write w p)) <= length p)%nat.

(** [bytes.Buffer] (Go's standard library): [Write] appends [p] and returns
    [len(p), nil].  The state is the contents. *)
Definition bytes_Buffer := list byte.

Global Instance bytes_Buffer_Write : IoWriter bytes_Buffer :=
  fun w p => (length p, None, w ++ p).

Global Instance bytes_Buffer_lawful : IoWriterLawful bytes_Buffer.
Proof. intros w p. cbn. lia. Qed.

(** *** [Writer] *)

Record Writer (W : Type) := mkWriter {
  err : option write_error;
  buf : list byte;
  wr : W;
  wpos : nat
}.
Arguments mkWriter {W}.
Arguments err {W}.
Arguments buf {W}.
Arguments wr {W}.
Arguments wpos {W}.

Definition NewWriterSize {W} (w : W) (size : Z) : Writer W :=
  let size := if size <=? 0 then DefaultBufferSize else size in
  mkWriter None (repeat "000"%byte (Z.to_nat size)) w 0.

Definition NewWriter {W} (w : W) : Writer W := NewWriterSize w DefaultBufferSize.

Definition NewWriterBuffer {W} (w : W) (buf : list byte) : Writer W :=
  let buf :=
    if (length buf =? 0)%nat then repeat "000"%byte (Z.to_nat DefaultBufferSize)
    else buf in
  mkWriter None buf w 0.

Section writer.
Context {W : Type} `{IoWriter W}.

Definition flush (b : Writer W) : option write_error * Writer W :=
  match err b with
  | Some e => (Some e, b)
  | None =>
      if (wpos b =? 0)%nat then (None, b)
      else
        let '(n, e, wr') := io_Write (wr b) (take (wpos b) (buf b)) in
        match e with
        | Some e => (Some e, mkWriter (Some e) (buf b) wr' (wpos b))
        | None =>
            if (n <? wpos b)%nat
            then (Some ErrShortWrite,
                  mkWriter (Some ErrShortWrite) (buf b) wr' (wpos b))
            else (None, mkWriter None (buf b) wr' 0)
        end
  end.

Definition Flush (b : Writer W) : option write_error * Writer W := flush b.

Definition available (b : Writer W) : Z :=
  Z.of_nat (length (buf b)) - Z.of_nat (wpos b).

(** [n := copy(b.buf[b.wpos:], p); b.wpos += n] *)
Definition store (b : Writer W) (p : list byte) : Writer W * nat :=
  let '(buf', n) := copy_at (buf b) (wpos b) p in
  (mkWriter (err b) buf' (wr b) (wpos b + n), n).

(** The loop [for b.err == nil && len(p) > b.available()] of [Write]: the
    writer, what is left of [p] and the count [nn] when the loop is left;
    [None] when [fuel] iterations did not leave it.  The slice [p[n:]] is
    within [p] for a count [n] within the contract of [io.Writer]. *)
Fixpoint Write_loop (fuel : nat) (b : Writer W) (p : list byte) (nn : nat)
  : option (Writer W * list byte * nat) :=
  if bool_decide (err b = None) && (available b <? Z.of_nat (length p)) then
    match fuel with
    | O => None
    | S fuel' =>
        if (wpos b =? 0)%nat then
          let '(n, e, wr') := io_Write (wr b) p in
          Write_loop fuel' (mkWriter e (buf b) wr' (wpos b)) (drop n p) (nn + n)
        else
          let '(b1, n) := store b p in
          Write_loop fuel' (snd (flush b1)) (drop n p) (nn + n)
    end
  else Some (b, p, nn).

Definition Write (fuel : nat) (b : Writer W) (p : list byte)
  : option (nat * option write_error * Writer W) :=
  '(b1, p1, nn) ← Write_loop fuel b p 0;
  if bool_decide (err b1 <> None) || (length p1 =? 0)%nat
  then Some (nn, err b1, b1)
  else let '(b2, n) := store b1 p1 in Some ((nn + n)%nat, None, b2).

Definition WriteByte (b : Writer W) (c : byte) : option write_error * Writer W :=
  match err b with
  | Some e => (Some e, b)
  | None =>
      let put (b : Writer W) :=
        (None, mkWriter (err b) (<[wpos b := c]> (buf b)) (wr b) (wpos b + 1)) in
      if available b =? 0 then
        let '(e, b1) := flush b in
        match e with
        | Some _ => (err b1, b1)
        | None => put b1
        end
      else put b
  end.

(** The loop of [WriteString], which never hands the string to the sink
    but through the buffer. *)
Fixpoint WriteString_loop (fuel : nat) (b : Writer W) (s : list byte) (nn : nat)
  : option (Writer W * list byte * nat) :=
  if bool_decide (err b = None) && (available b <? Z.of_nat (length s)) then
    match fuel with
    | O => None
    | S fuel' =>
        let '(b1, n) := store b s in
        WriteString_loop fuel' (snd (flush b1)) (drop n s) (nn + n)
    end
  else Some (b, s, nn).

Definition WriteString (fuel : nat) (b : Writer W) (s : list byte)
  : option (nat * option write_error * Writer W) :=
  '(b1, s1, nn) ← WriteString_loop fuel b s 0;
  if bool_decide (err b1 <> None) || (length s1 =? 0)%nat
  then Some (nn, err b1, b1)
  else let '(b2, n) := store b1 s1 in Some ((nn + n)%nat, None, b2).

End writer.

(** *** A writer that has failed *)

Section writer_errors.
Context {W : Type} `{IoWriter W}.

Lemma flush_error (b b' : Writer W) (e : write_error) :
  flush b = (Some e, b') -> err b' = Some e.
Proof.
  unfold flush. destruct (err b) as [e0|] eqn:E; [now intros [= <- <-]|].
  destruct (wpos b =? 0)%nat; [discriminate|].
  destruct (io_Write _ _) as [[n e0] wr'].
  destruct e0 as [e0|]; [now intros [= <- <-]|].
  destruct (n <? wpos b)%nat; [now intros [= <- <-] | discriminate].
Qed.

Lemma flush_no_error (b b' : Writer W) :
  flush b = (None, b') -> err b' = None.
Proof.
  unfold flush. destruct (err b) as [e0|] eqn:E; [discriminate|].
  destruct (wpos b =? 0)%nat; [now intros [= <-]|].
  destruct (io_Write _ _) as [[n e0] wr'].
  destruct e0 as [e0|]; [discriminate|].
  destruct (n <? wpos b)%nat; [discriminate | now intros [= <-]].
Qed.

Lemma flush_err_result (b : Writer W) : fst (flush b) = err (snd (flush b)).
Proof.
  destruct (flush b) as [[e|] b'] eqn:E; cbn [fst snd]; symmetry.
  - eapply flush_error; exact E.
  - eapply flush_no_error; exact E.
Qed.

Lemma Write_loop_failed fuel (b : Writer W) p nn :
  err b <> None -> Write_loop fuel b p nn = Some (b, p, nn).
Proof.
  intros He. destruct fuel; cbn [Write_loop];
    now rewrite bool_decide_eq_false_2 by exact He.
Qed.

Lemma WriteString_loop_failed fuel (b : Writer W) s nn :
  err b <> None -> WriteString_loop fuel b s nn = Some (b, s, nn).
Proof.
  intros He. destruct fuel; cbn [WriteString_loop];
    now rewrite bool_decide_eq_false_2 by exact He.
Qed.

End writer_errors.

(** *** The contract of [io.Writer], kept by the writer *)

Section writer_contract.
Context {W : Type} `{IoWriterLawful W}.

(** The write cursor within the buffer, which is not empty. *)
Definition wfw (b : Writer W) : Prop :=
  (wpos b <= length (buf b))%nat /\ (0 < length (buf b))%nat.

Definition same_buffer (b0 b : Writer W) : Prop :=
  wfw b /\ length (buf b) = length (buf b0).

Lemma flush_same (b : Writer W) : wfw b -> same_buffer b (snd (flush b)).
Proof.
  intros Hw. unfold flush. destruct (err b); [now split|].
  destruct (wpos b =? 0)%nat; [now split|].
  destruct (io_Write _ _) as [[n e0] wr'].
  destruct e0; [now split|].
  destruct (n <? wpos b)%nat; [now split|].
  split; [|reflexivity]. unfold wfw in *. cbn. lia.
Qed.

Lemma flush_empties (b b' : Writer W) : flush b = (None, b') -> wpos b' = 0%nat.
Proof.
  unfold flush. destruct (err b); [discriminate|].
  destruct (wpos b =? 0)%nat eqn:E; [intros [= <-]; now apply Nat.eqb_eq|].
  destruct (io_Write _ _) as [[n e0] wr'].
  destruct e0; [discriminate|].
  destruct (n <? wpos b)%nat; [discriminate | now intros [= <-]].
Qed.

Lemma store_spec (b : Writer W) (p : list byte) :
  wfw b ->
  let n := Nat.min (length (buf b) - wpos b) (length p) in
  store b p
  = (mkWriter (err b)
       (take (wpos b) (buf b) ++ take n p ++ drop (wpos b + n) (buf b))
       (wr b) (wpos b + n), n).
Proof.
  intros [Hw Hl]. cbn zeta. unfold store, copy_at, copy.
  rewrite length_drop, drop_drop.
  assert (Hmid : take (length (buf b) - wpos b) p
                 ++ drop (wpos b + length p) (buf b)
                 = take (Nat.min (length (buf b) - wpos b) (length p)) p
                   ++ drop (wpos b + Nat.min (length (buf b) - wpos b) (length p))
                        (buf b)).
  { destruct (le_lt_dec (length p) (length (buf b) - wpos b)) as [Hfit | Hbig].
    - rewrite Nat.min_r by lia. now rewrite !(take_ge p) by lia.
    - rewrite Nat.min_l by lia. now rewrite !drop_ge by lia. }
  now rewrite Hmid.
Qed.

Lemma store_same (b : Writer W) (p : list byte) :
  wfw b -> same_buffer b (fst (store b p)) /\ err (fst (store b p)) = err b /\
           (snd (store b p) <= length p)%nat.
Proof.
  intros Hw. rewrite (store_spec b p Hw). cbn [fst snd err].
  destruct Hw as [Hw Hl]. unfold same_buffer, wfw. cbn [buf wpos].
  rewrite !length_app, length_take, length_take, length_drop.
  repeat split; reflexivity || lia.
Qed.

Lemma same_buffer_trans (b0 b1 b2 : Writer W) :
  same_buffer b0 b1 -> same_buffer b1 b2 -> same_buffer b0 b2.
Proof. intros [? ?] [? ?]. split; [assumption | congruence]. Qed.

(** What the two loops keep, [nn0] and [p0] being the count and the bytes
    at the start. *)
Definition loop_kept (b0 : Writer W) (p0 : list byte) (nn0 : nat)
    (res : Writer W * list byte * nat) : Prop :=
  let '(b', p', nn') := res in
  same_buffer b0 b' /\ (nn' + length p' = nn0 + length p0)%nat /\
  (err b' = None -> Z.of_nat (length p') <= available b').

Lemma Write_loop_kept : forall fuel (b : Writer W) p nn res,
  wfw b -> Write_loop fuel b p nn = Some res -> loop_kept b p nn res.
Proof.
  assert (Hexit : forall (b : Writer W) p nn,
            wfw b ->
            bool_decide (err b = None) && (available b <? Z.of_nat (length p)) = false ->
            loop_kept b p nn (b, p, nn)).
  { intros b p nn Hw Hc. split; [now split|]. split; [reflexivity|].
    intros He. rewrite bool_decide_eq_true_2 in Hc by exact He. cbn [andb] in Hc. lia. }
  induction fuel as [|fuel IH]; intros b p nn res Hw; cbn [Write_loop];
    destruct (_ && _) eqn:Ec; try discriminate;
    try (intros [= <-]; now apply Hexit).
  destruct (wpos b =? 0)%nat.
  - pose proof (io_Write_count (wr b) p) as Hn.
    destruct (io_Write (wr b) p) as [[n e] wr']. cbn [fst] in Hn.
    intros Hrec.
    assert (Hw1 : wfw (mkWriter e (buf b) wr' (wpos b))) by exact Hw.
    specialize (IH _ _ _ _ Hw1 Hrec). destruct res as [[b' p'] nn'].
    destruct IH as (Hs & Hcount & Hav). split; [exact Hs|]. split; [|exact Hav].
    rewrite length_drop in Hcount. lia.
  - destruct (store_same b p Hw) as (Hs1 & _ & Hn).
    destruct (store b p) as [b1 n]. cbn [fst snd] in *.
    pose proof (flush_same b1 (proj1 Hs1)) as Hs2.
    intros Hrec. specialize (IH _ _ _ _ (proj1 Hs2) Hrec).
    destruct res as [[b' p'] nn'].
    destruct IH as (Hs & Hcount & Hav).
    split; [eapply same_buffer_trans; [exact Hs1|]; eapply same_buffer_trans; eauto|].
    split; [|exact Hav]. rewrite length_drop in Hcount. lia.
Qed.

Lemma WriteString_loop_kept : forall fuel (b : Writer W) s nn res,
  wfw b -> WriteString_loop fuel b s nn = Some res -> loop_kept b s nn res.
Proof.
  induction fuel as [|fuel IH]; intros b s nn res Hw; cbn [WriteString_loop];
    destruct (_ && _) eqn:Ec; try discriminate;
    try (intros [= <-]; split; [now split|]; split; [reflexivity|];
         intros He; rewrite bool_decide_eq_true_2 in Ec by exact He;
         cbn [andb] in Ec; lia).
  destruct (store_same b s Hw) as (Hs1 & _ & Hn).
  destruct (store b s) as [b1 n]. cbn [fst snd] in *.
  pose proof (flush_same b1 (proj1 Hs1)) as Hs2.
  intros Hrec. specialize (IH _ _ _ _ (proj1 Hs2) Hrec).
  destruct res as [[b' s'] nn'].
  destruct IH as (Hs & Hcount & Hav).
  split; [eapply same_buffer_trans; [exact Hs1|]; eapply same_buffer_trans; eauto|].
  split; [|exact Hav]. rewrite length_drop in Hcount. lia.
Qed.

(** The end of [Write] and of [WriteString], behind either loop. *)
Lemma after_loop (b0 b1 : Writer W) (p0 p1 : list byte) (nn : nat) nn' e b' :
  loop_kept b0 p0 0 (b1, p1, nn) ->
  (if bool_decide (err b1 <> None) || (length p1 =? 0)%nat
   then Some (nn, err b1, b1)
   else let '(b2, n) := store b1 p1 in Some ((nn + n)%nat, None, b2))
  = Some (nn', e, b') ->
  same_buffer b0 b' /\ (nn' <= length p0)%nat /\ e = err b' /\
  (e = None -> nn' = length p0).
Proof.
  intros (Hs & Hcount & Hav). destruct (_ || _) eqn:Ec.
  - intros [= <- <- <-]. split; [exact Hs|]. split; [lia|]. split; [reflexivity|].
    intros He. apply orb_true_iff in Ec as [Ec | Ec].
    + apply bool_decide_eq_true in Ec. contradiction.
    + apply Nat.eqb_eq in Ec. lia.
  - apply orb_false_iff in Ec as [Ec _]. apply bool_decide_eq_false in Ec.
    assert (He : err b1 = None) by (destruct (err b1); [exfalso; apply Ec; discriminate | reflexivity]).
    specialize (Hav He). unfold available in Hav.
    rewrite (store_spec b1 p1 (proj1 Hs)). cbn zeta.
    rewrite Nat.min_r by lia.
    intros [= <- <- <-]. destruct Hs as [[Hw Hl] Hlen].
    split; [|split; [lia|split; [cbn; now rewrite He | intros _; lia]]].
    unfold same_buffer, wfw. cbn [buf wpos].
    rewrite !length_app, length_take, length_take, length_drop. lia.
Qed.

(** X10.  The writer keeps the contract of [io.Writer] that its sink
    keeps.  With a sink whose counts are within [0..len(p)], [Write] and
    [WriteString] return a count of at most [len(p)], return a nil error
    only with the count [len(p)], and return the error the writer then
    holds; [WriteByte] and [Flush] return that error too, and [Flush]
    returns nil only with the buffer emptied.  The write cursor stays within
    the buffer, whose length never changes.  A writer that holds an error
    does nothing more: every call returns the error, writes 0 bytes and
    leaves the writer as it is. *)
Theorem Writer_keeps_contract (b : Writer W) :
  wfw b ->
  (forall fuel p nn e b',
     Write fuel b p = Some (nn, e, b') ->
     same_buffer b b' /\ (nn <= length p)%nat /\ e = err b' /\
     (e = None -> nn = length p)) /\
  (forall fuel s nn e b',
     WriteString fuel b s = Some (nn, e, b') ->
     same_buffer b b' /\ (nn <= length s)%nat /\ e = err b' /\
     (e = None -> nn = length s)) /\
  (forall c, same_buffer b (snd (WriteByte b c)) /\
             fst (WriteByte b c) = err (snd (WriteByte b c))) /\
  (same_buffer b (snd (Flush b)) /\ fst (Flush b) = err (snd (Flush b)) /\
   (fst (Flush b) = None -> wpos (snd (Flush b)) = 0%nat)) /\
  (forall e, err b = Some e ->
     Flush b = (Some e, b) /\
     (forall c, WriteByte b c = (Some e, b)) /\
     (forall fuel p, Write fuel b p = Some (0%nat, Some e, b)) /\
     (forall fuel s, WriteString fuel b s = Some (0%nat, Some e, b))).
Proof.
  intros Hw. split; [|split; [|split; [|split]]].
  - intros fuel p nn e b'. unfold Write.
    destruct (Write_loop fuel b p 0) as [[[b1 p1] nn1]|] eqn:EL; [|discriminate].
    cbn [mbind option_bind]. apply after_loop.
    exact (Write_loop_kept _ _ _ _ _ Hw EL).
  - intros fuel s nn e b'. unfold WriteString.
    destruct (WriteString_loop fuel b s 0) as [[[b1 s1] nn1]|] eqn:EL; [|discriminate].
    cbn [mbind option_bind]. apply after_loop.
    exact (WriteString_loop_kept _ _ _ _ _ Hw EL).
  - intros c. unfold WriteByte. destruct (err b) as [e0|] eqn:E.
    { cbn [fst snd]. split; [now split | now rewrite E]. }
    assert (Hput : forall (b1 : Writer W) (e1 : option write_error),
              same_buffer b b1 -> e1 = None -> (wpos b1 < length (buf b1))%nat ->
              same_buffer b (mkWriter e1 (<[wpos b1 := c]> (buf b1)) (wr b1)
                                      (wpos b1 + 1)) /\
              None = err (mkWriter e1 (<[wpos b1 := c]> (buf b1)) (wr b1)
                                   (wpos b1 + 1))).
    { intros b1 e1 [[Hw1 Hl1] Hlen] He1 Hlt. unfold same_buffer, wfw. cbn [buf wpos err].
      rewrite length_insert. repeat split; lia || congruence. }
    destruct (available b =? 0) eqn:Ea.
    + pose proof (flush_same b Hw) as Hs. pose proof (flush_err_result b) as Hr.
      destruct (flush b) as [[e1|] b1] eqn:Ef; cbn [fst snd] in *.
      * split; [exact Hs | reflexivity].
      * cbv zeta beta. cbn [fst snd]. apply Hput; [exact Hs | now symmetry|].
        rewrite (flush_empties _ _ Ef). destruct Hs as [[_ ?] _]. lia.
    + cbv zeta beta. cbn [fst snd]. apply Hput; [now split | reflexivity|].
      unfold available in Ea. destruct Hw. lia.
  - unfold Flush. split; [now apply flush_same|]. split; [apply flush_err_result|].
    destruct (flush b) as [[e1|] b1] eqn:Ef; cbn [fst snd]; [discriminate|].
    intros _. eapply flush_empties. exact Ef.
  - intros e He.
    assert (Hne : err b <> None) by congruence.
    split; [unfold Flush, flush; now rewrite He|].
    split; [intros c; unfold WriteByte; now rewrite He|].
    split.
    + intros fuel p. unfold Write. rewrite Write_loop_failed by exact Hne.
      cbn [mbind option_bind]. rewrite bool_decide_eq_true_2 by exact Hne.
      now rewrite He.
    + intros fuel s. unfold WriteString. rewrite WriteString_loop_failed by exact Hne.
      cbn [mbind option_bind]. rewrite bool_decide_eq_true_2 by exact Hne.
      now rewrite He.
Qed.

End writer_contract.

(** *** The writer over [bytes.Buffer]: nothing lost, nothing out of order *)

(** The calls of the writer, the bytes each one is given, and a sequence of
    calls run one after the other: the errors returned and the writer at
    the end. *)
Inductive wcall :=
| CallWrite (p : list byte)
| CallWriteByte (c : byte)
| CallWriteString (s : list byte)
| CallFlush.

Definition payload (c : wcall) : list byte :=
  match c with
  | CallWrite p => p
  | CallWriteByte c => [c]
  | CallWriteString s => s
  | CallFlush => []
  end.

Section writer_calls.
Context {W : Type} `{IoWriter W}.

Definition run_wcall (fuel : nat) (c : wcall) (b : Writer W)
  : option (option write_error * Writer W) :=
  match c with
  | CallWrite p => '(_, e, b') ← Write fuel b p; Some (e, b')
  | CallWriteByte c => Some (WriteByte b c)
  | CallWriteString s => '(_, e, b') ← WriteString fuel b s; Some (e, b')
  | CallFlush => Some (Flush b)
  end.

Fixpoint run_wcalls (fuel : nat) (cs : list wcall) (b : Writer W)
  : option (list (option write_error) * Writer W) :=
  match cs with
  | [] => Some ([], b)
  | c :: cs' =>
      '(e, b1) ← run_wcall fuel c b;
      '(es, b2) ← run_wcalls fuel cs' b1;
      Some (e :: es, b2)
  end.

End writer_calls.

Section writer_buffer.

(** All the bytes the writer has taken so far: those the sink holds, then
    those still in the buffer. *)
Definition written (b : Writer bytes_Buffer) : list byte :=
  wr b ++ take (wpos b) (buf b).

Definition wready (b : Writer bytes_Buffer) : Prop := wfw b /\ err b = None.

(** The same buffer length, no error, and [p] added to what was written. *)
Definition appended (b b' : Writer bytes_Buffer) (p : list byte) : Prop :=
  wready b' /\ length (buf b') = length (buf b) /\ written b' = written b ++ p.

Lemma NewWriterSize_wready (w : bytes_Buffer) (size : Z) :
  wready (NewWriterSize w size) /\ written (NewWriterSize w size) = w.
Proof.
  unfold wready, wfw, written, NewWriterSize. cbn [buf wpos err wr take].
  rewrite repeat_length, app_nil_r. unfold DefaultBufferSize.
  destruct (size <=? 0) eqn:E; repeat split; lia || reflexivity.
Qed.

Lemma flush_buffer (b : Writer bytes_Buffer) :
  wready b ->
  exists b', flush b = (None, b') /\ appended b b' [] /\
             wpos b' = 0%nat /\ wr b' = written b.
Proof.
  intros [[Hw Hl] He]. unfold flush. rewrite He.
  destruct (wpos b =? 0)%nat eqn:E0.
  - apply Nat.eqb_eq in E0. exists b. split; [reflexivity|].
    unfold appended, wready, wfw, written. rewrite E0, !app_nil_r. cbn [take].
    repeat split; assumption || lia || reflexivity.
  - unfold io_Write, bytes_Buffer_Write. rewrite length_take.
    replace (_ <? _)%nat with false by (symmetry; apply Nat.ltb_ge; lia).
    eexists. split; [reflexivity|].
    unfold appended, wready, wfw, written. cbn [buf wpos err wr take].
    rewrite !app_nil_r. repeat split; assumption || lia || reflexivity.
Qed.

(** Bytes that fit the room left are stored behind those in the buffer. *)
Lemma store_fits (b : Writer bytes_Buffer) (p : list byte) :
  wready b -> Z.of_nat (length p) <= available b ->
  appended b (fst (store b p)) p /\ snd (store b p) = length p.
Proof.
  intros [[Hw Hl] He] Hfit. unfold available in Hfit.
  rewrite (store_spec b p (conj Hw Hl)). cbn zeta. rewrite Nat.min_r by lia.
  cbn [fst snd]. split; [|reflexivity].
  unfold appended, wready, wfw, written. cbn [buf wpos err wr].
  rewrite firstn_all, !length_app, length_take, length_drop.
  split; [repeat split; assumption || lia|]. split; [lia|].
  rewrite <- app_assoc. f_equal.
  rewrite take_app_ge by (rewrite length_take; lia).
  f_equal. rewrite length_take.
  replace (wpos b + length p - wpos b `min` length (buf b))%nat with (length p) by lia.
  now rewrite take_app_length.
Qed.

(** Bytes that do not fit: the buffer is filled and handed to the sink. *)
Lemma store_flush (b : Writer bytes_Buffer) (p : list byte) :
  wready b -> available b < Z.of_nat (length p) ->
  let n := (length (buf b) - wpos b)%nat in
  snd (store b p) = n /\
  exists b', flush (fst (store b p)) = (None, b') /\
             appended b b' (take n p) /\ wpos b' = 0%nat.
Proof.
  intros [[Hw Hl] He] Hbig. unfold available in Hbig. cbn zeta.
  rewrite (store_spec b p (conj Hw Hl)). cbn zeta. rewrite Nat.min_l by lia.
  cbn [fst snd]. split; [reflexivity|].
  set (b1 := mkWriter _ _ _ _).
  assert (Hr1 : wready b1).
  { unfold wready, wfw, b1. cbn [buf wpos err].
    rewrite !length_app, length_take, length_take, length_drop.
    repeat split; assumption || lia. }
  destruct (flush_buffer b1 Hr1) as (b' & Hf & (Hr' & Hlen & Hwr) & Hw0 & _).
  exists b'. split; [exact Hf|]. split; [|exact Hw0].
  split; [exact Hr'|]. split.
  - rewrite Hlen. unfold b1. cbn [buf].
    rewrite !length_app, length_take, length_take, length_drop. lia.
  - rewrite Hwr, app_nil_r. unfold written, b1. cbn [buf wpos wr].
    rewrite <- app_assoc. f_equal.
    rewrite take_app_ge by (rewrite length_take; lia).
    f_equal. rewrite length_take.
    rewrite take_app_ge by (rewrite length_take; lia).
    rewrite length_take.
    replace (_ - _ - _)%nat with 0%nat by lia. cbn [take]. now rewrite app_nil_r.
Qed.

Lemma appended_trans (b0 b1 b2 : Writer bytes_Buffer) (p q : list byte) :
  appended b0 b1 p -> appended b1 b2 q -> appended b0 b2 (p ++ q).
Proof.
  intros (_ & Hl1 & Hw1) (Hr2 & Hl2 & Hw2).
  split; [exact Hr2|]. split; [congruence|]. now rewrite Hw2, Hw1, app_assoc.
Qed.

Lemma appended_refl (b : Writer bytes_Buffer) : wready b -> appended b b [].
Proof. intros Hr. split; [exact Hr|]. split; [reflexivity | now rewrite app_nil_r]. Qed.

(** The loop of [Write] on an empty buffer: at most one call of the sink. *)
Lemma Write_loop_empty (fuel : nat) (b : Writer bytes_Buffer) (p : list byte) (nn : nat) :
  wready b -> wpos b = 0%nat -> (1 <= fuel)%nat ->
  exists b' p',
    Write_loop fuel b p nn = Some (b', p', (nn + (length p - length p'))%nat) /\
    appended b b' (take (length p - length p') p) /\
    p' = drop (length p - length p') p /\
    Z.of_nat (length p') <= available b'.
Proof.
  intros Hr H0 Hf. pose proof Hr as [[Hw Hl] He].
  destruct fuel as [|fuel]; [lia|]. cbn [Write_loop].
  rewrite bool_decide_eq_true_2 by exact He. cbn [andb].
  destruct (available b <? Z.of_nat (length p)) eqn:Ec.
  - rewrite H0. cbn [Nat.eqb]. unfold io_Write, bytes_Buffer_Write.
    rewrite drop_all.
    set (b1 := mkWriter _ _ _ _).
    assert (Hr1 : appended b b1 p).
    { unfold appended, wready, wfw, written, b1. cbn [buf wpos err wr].
      rewrite H0. cbn [take]. rewrite !app_nil_r.
      repeat split; assumption || lia || reflexivity. }
    exists b1, []. cbn [length]. rewrite Nat.sub_0_r, firstn_all, drop_all.
    split; [|split; [exact Hr1|split; [reflexivity|]]].
    + destruct fuel; cbn [Write_loop]; cbn [length];
        replace (available b1 <? Z.of_nat 0) with false; try reflexivity;
        try (now rewrite andb_false_r);
        symmetry; apply Z.ltb_ge; unfold available, b1; cbn [buf wpos]; lia.
    + unfold available, b1. cbn [buf wpos length]. lia.
  - exists b, p. rewrite Nat.sub_diag, Nat.add_0_r, drop_0. cbn [take].
    split; [reflexivity|]. split; [now apply appended_refl|]. split; [reflexivity | lia].
Qed.

Lemma Write_loop_buffer (fuel : nat) (b : Writer bytes_Buffer) (p : list byte) :
  wready b -> (2 <= fuel)%nat ->
  exists b' p',
    Write_loop fuel b p 0 = Some (b', p', (length p - length p')%nat) /\
    appended b b' (take (length p - length p') p) /\
    p' = drop (length p - length p') p /\
    Z.of_nat (length p') <= available b'.
Proof.
  intros Hr Hf. pose proof Hr as [[Hw Hl] He].
  destruct (wpos b =? 0)%nat eqn:E0.
  { apply Nat.eqb_eq in E0.
    destruct (Write_loop_empty fuel b p 0 Hr E0 ltac:(lia)) as (b' & p' & ? & ?).
    exists b', p'. auto. }
  destruct fuel as [|fuel]; [lia|]. cbn [Write_loop].
  rewrite bool_decide_eq_true_2 by exact He. cbn [andb].
  destruct (available b <? Z.of_nat (length p)) eqn:Ec.
  - rewrite E0. apply Z.ltb_lt in Ec.
    destruct (store_flush b p Hr Ec) as (Hn & b2 & Hfl & Hap & Hw2).
    destruct (store b p) as [b1 n]. cbn [fst snd] in *. subst n.
    rewrite Hfl. cbn [snd].
    set (n := (length (buf b) - wpos b)%nat) in *.
    assert (Hnp : (n < length p)%nat) by (unfold available in Ec; lia).
    destruct (Write_loop_empty fuel b2 (drop n p) (0 + n) (proj1 Hap) Hw2 ltac:(lia))
      as (b' & p' & Hrun & Hap' & Hp' & Hav).
    exists b', p'. rewrite length_drop in *.
    assert (Hle : (length p' <= length p - n)%nat).
    { rewrite Hp', length_drop, length_drop. lia. }
    split; [rewrite Hrun; do 3 f_equal; lia|].
    split; [|split; [|exact Hav]].
    + replace (take (length p - length p') p)
        with (take n p ++ take (length p - n - length p') (drop n p)).
      * eapply appended_trans; eassumption.
      * rewrite take_take_drop. f_equal. lia.
    + rewrite Hp' at 1. rewrite drop_drop. f_equal. lia.
  - apply Z.ltb_ge in Ec. exists b, p. rewrite Nat.sub_diag, drop_0. cbn [take].
    split; [reflexivity|]. split; [now apply appended_refl|]. split; [reflexivity | lia].
Qed.

Lemma Write_buffer (fuel : nat) (b : Writer bytes_Buffer) (p : list byte) :
  wready b -> (2 <= fuel)%nat ->
  exists b', Write fuel b p = Some (length p, None, b') /\ appended b b' p.
Proof.
  intros Hr Hf.
  destruct (Write_loop_buffer fuel b p Hr Hf) as (b1 & p1 & Hrun & Hap & Hp1 & Hav).
  unfold Write. rewrite Hrun. cbn [mbind option_bind].
  pose proof Hap as ((Hw1 & He1) & _).
  rewrite bool_decide_eq_false_2 by (intros Hx; now apply Hx).
  assert (Hle : (length p1 <= length p)%nat) by (rewrite Hp1, length_drop; lia).
  cbn [orb]. destruct (length p1 =? 0)%nat eqn:E1.
  - apply Nat.eqb_eq in E1. rewrite E1, Nat.sub_0_r, firstn_all in *.
    exists b1. rewrite He1. split; [reflexivity | exact Hap].
  - destruct (store_fits b1 p1 (proj1 Hap) Hav) as [Hap2 Hn].
    destruct (store b1 p1) as [b2 n]. cbn [fst snd] in *. subst n.
    exists b2. split; [do 3 f_equal; lia|].
    assert (Hcat : take (length p - length p1) p ++ p1 = p)
      by (rewrite Hp1 at 2; apply take_drop).
    pose proof (appended_trans _ _ _ _ _ Hap Hap2) as Hfin.
    now rewrite Hcat in Hfin.
Qed.

(** The loop of [WriteString]: one full buffer after the other. *)
Lemma WriteString_loop_buffer :
  forall fuel (b : Writer bytes_Buffer) (s : list byte) (nn : nat),
    wready b ->
    (length s + (if (wpos b =? length (buf b))%nat then 1 else 0) < fuel)%nat ->
    exists b' s',
      WriteString_loop fuel b s nn = Some (b', s', (nn + (length s - length s'))%nat) /\
      appended b b' (take (length s - length s') s) /\
      s' = drop (length s - length s') s /\
      Z.of_nat (length s') <= available b'.
Proof.
  induction fuel as [|fuel IH]; intros b s nn Hr Hf; [lia|].
  pose proof Hr as [[Hw Hl] He].
  cbn [WriteString_loop].
  rewrite bool_decide_eq_true_2 by exact He. cbn [andb].
  destruct (available b <? Z.of_nat (length s)) eqn:Ec.
  - apply Z.ltb_lt in Ec.
    destruct (store_flush b s Hr Ec) as (Hn & b2 & Hfl & Hap & Hw2).
    destruct (store b s) as [b1 n]. cbn [fst snd] in *. subst n.
    rewrite Hfl. cbn [snd].
    set (n := (length (buf b) - wpos b)%nat) in *.
    assert (Hns : (n < length s)%nat) by (unfold available in Ec; lia).
    destruct (IH b2 (drop n s) (nn + n)%nat (proj1 Hap)) as (b' & s' & Hrun & Hap' & Hs' & Hav).
    { rewrite length_drop, Hw2.
      destruct Hap as (_ & Hlen & _). rewrite Hlen.
      replace (0 =? length (buf b))%nat with false
        by (symmetry; apply Nat.eqb_neq; lia).
      destruct (wpos b =? length (buf b))%nat eqn:Efull;
        [apply Nat.eqb_eq in Efull | apply Nat.eqb_neq in Efull]; lia. }
    exists b', s'. rewrite length_drop in *.
    assert (Hle : (length s' <= length s - n)%nat).
    { rewrite Hs', length_drop, length_drop. lia. }
    split.
    { rewrite Hrun.
      replace (nn + n + (length s - n - length s'))%nat
        with (nn + (length s - length s'))%nat by lia.
      reflexivity. }
    split; [|split; [|exact Hav]].
    + replace (take (length s - length s') s)
        with (take n s ++ take (length s - n - length s') (drop n s)).
      * eapply appended_trans; eassumption.
      * rewrite take_take_drop. f_equal. lia.
    + rewrite Hs' at 1. rewrite drop_drop. f_equal. lia.
  - apply Z.ltb_ge in Ec. exists b, s. rewrite Nat.sub_diag, Nat.add_0_r, drop_0.
    cbn [take].
    split; [reflexivity|]. split; [now apply appended_refl|]. split; [reflexivity | lia].
Qed.

Lemma WriteString_buffer (fuel : nat) (b : Writer bytes_Buffer) (s : list byte) :
  wready b -> (length s + 2 <= fuel)%nat ->
  exists b', WriteString fuel b s = Some (length s, None, b') /\ appended b b' s.
Proof.
  intros Hr Hf.
  destruct (WriteString_loop_buffer fuel b s 0 Hr) as (b1 & s1 & Hrun & Hap & Hs1 & Hav).
  { destruct (_ =? _)%nat; lia. }
  unfold WriteString. rewrite Hrun. cbn [mbind option_bind Nat.add].
  pose proof Hap as ((Hw1 & He1) & _).
  rewrite bool_decide_eq_false_2 by (intros Hx; now apply Hx).
  assert (Hle : (length s1 <= length s)%nat) by (rewrite Hs1, length_drop; lia).
  cbn [orb]. destruct (length s1 =? 0)%nat eqn:E1.
  - apply Nat.eqb_eq in E1. rewrite E1, Nat.sub_0_r, firstn_all in *.
    exists b1. rewrite He1. split; [reflexivity | exact Hap].
  - destruct (store_fits b1 s1 (proj1 Hap) Hav) as [Hap2 Hn].
    destruct (store b1 s1) as [b2 n]. cbn [fst snd] in *. subst n.
    exists b2. split; [do 3 f_equal; lia|].
    assert (Hcat : take (length s - length s1) s ++ s1 = s)
      by (rewrite Hs1 at 2; apply take_drop).
    pose proof (appended_trans _ _ _ _ _ Hap Hap2) as Hfin.
    now rewrite Hcat in Hfin.
Qed.

Lemma WriteByte_buffer (b : Writer bytes_Buffer) (c : byte) :
  wready b -> exists b', WriteByte b c = (None, b') /\ appended b b' [c].
Proof.
  intros Hr. pose proof Hr as [[Hw Hl] He].
  assert (Hput : forall b1 : Writer bytes_Buffer,
            wready b1 -> (wpos b1 < length (buf b1))%nat ->
            appended b1 (mkWriter (err b1) (<[wpos b1 := c]> (buf b1)) (wr b1)
                                  (wpos b1 + 1)) [c]).
  { intros b1 [[Hw1 Hl1] He1] Hlt.
    unfold appended, wready, wfw, written. cbn [buf wpos err wr].
    rewrite length_insert. split; [repeat split; assumption || lia|].
    split; [reflexivity|]. rewrite <- app_assoc. f_equal.
    rewrite Nat.add_1_r.
    erewrite take_S_r by (apply list_lookup_insert_eq; exact Hlt).
    now rewrite take_insert_ge by lia. }
  unfold WriteByte. rewrite He. cbv zeta beta.
  destruct (available b =? 0) eqn:Ea.
  - destruct (flush_buffer b Hr) as (b1 & -> & Hap & Hw0 & _).
    eexists. split; [reflexivity|].
    replace [c] with ([] ++ [c]) by reflexivity.
    eapply appended_trans; [exact Hap|]. apply Hput; [apply Hap|].
    destruct Hap as ((( _ & ?) & _) & _). lia.
  - eexists. split; [reflexivity|]. rewrite <- He. apply Hput; [exact Hr|].
    unfold available in Ea. lia.
Qed.

Lemma run_wcalls_buffer (fuel : nat) : forall (cs : list wcall) (b : Writer bytes_Buffer),
  wready b -> Forall (fun c => (length (payload c) + 2 <= fuel)%nat) cs ->
  exists b',
    run_wcalls fuel cs b = Some (replicate (length cs) None, b') /\
    appended b b' (concat (payload <$> cs)).
Proof.
  induction cs as [|c cs IH]; intros b Hr Hf.
  - exists b. split; [reflexivity | now apply appended_refl].
  - apply Forall_cons in Hf as [Hc Hcs].
    assert (Hone : exists b1, run_wcall fuel c b = Some (None, b1) /\
                              appended b b1 (payload c)).
    { destruct c as [p | x | s |]; cbn [run_wcall payload] in *.
      - destruct (Write_buffer fuel b p Hr ltac:(lia)) as (b1 & -> & Hap). eauto.
      - destruct (WriteByte_buffer b x Hr) as (b1 & -> & Hap). eauto.
      - destruct (WriteString_buffer fuel b s Hr Hc) as (b1 & -> & Hap). eauto.
      - destruct (flush_buffer b Hr) as (b1 & Hfl & Hap & _).
        unfold Flush. rewrite Hfl. eauto. }
    destruct Hone as (b1 & Hrun1 & Hap1).
    destruct (IH b1 (proj1 Hap1) Hcs) as (b' & Hrun & Hap').
    exists b'. cbn [run_wcalls]. rewrite Hrun1. cbn [mbind option_bind].
    rewrite Hrun. cbn [mbind option_bind length replicate fmap list_fmap concat].
    split; [reflexivity|]. eapply appended_trans; eassumption.
Qed.

(** X11.  Over a sink that takes all it is given ([bytes.Buffer]), the
    writer loses nothing and keeps the order.  From a writer without error,
    any sequence of [Write], [WriteByte], [WriteString] and [Flush] calls
    returns no error, and the bytes the sink holds followed by the bytes
    still in the buffer are those they were before followed by the bytes of
    the calls, in the order of the calls; a [Flush] at the end leaves the
    buffer empty and all of them in the sink.  A writer made by
    [NewWriterSize] starts with what its sink holds. *)
Theorem Writer_delivers_in_order (fuel : nat) (cs : list wcall)
    (b : Writer bytes_Buffer) :
  wready b -> Forall (fun c => (length (payload c) + 2 <= fuel)%nat) cs ->
  exists b',
    run_wcalls fuel cs b = Some (replicate (length cs) None, b') /\
    written b' = written b ++ concat (payload <$> cs) /\
    length (buf b') = length (buf b) /\
    fst (Flush b') = None /\
    wr (snd (Flush b')) = written b ++ concat (payload <$> cs) /\
    wpos (snd (Flush b')) = 0%nat /\
    (forall w size, written (NewWriterSize w size) = w /\
                    wready (NewWriterSize (W := bytes_Buffer) w size)).
Proof.
  intros Hr Hf.
  destruct (run_wcalls_buffer fuel cs b Hr Hf) as (b' & Hrun & Hr' & Hlen & Hwr).
  destruct (flush_buffer b' Hr') as (b2 & Hfl & _ & Hw0 & Hsink).
  exists b'. unfold Flush. rewrite Hfl. cbn [fst snd].
  split; [exact Hrun|]. split; [exact Hwr|]. split; [exact Hlen|].
  split; [reflexivity|]. split; [congruence|]. split; [exact Hw0|].
  intros w size. destruct (NewWriterSize_wready w size). now split.
Qed.

End writer_buffer.

(** *** Through a writer and back through a reader *)

(** X27.  What goes through a [Writer] comes back through a [Reader].  The
    bytes of any sequence of [Write], [WriteByte], [WriteString] and [Flush]
    calls on a new writer over an empty [bytes.Buffer], flushed at the end,
    are what [ReadFull] returns from a new reader over the contents of that
    buffer, whatever the two buffer sizes; nothing is left to read. *)
Theorem Writer_to_Reader_round_trip (fuel : nat) (cs : list wcall)
    (wsize rsize : Z) :
  let data := concat (payload <$> cs) in
  Forall (fun c => (length (payload c) + 2 <= fuel)%nat) cs ->
  (0 < length data <= fuel)%nat ->
  exists w1 w2 r',
    run_wcalls fuel cs (NewWriterSize (W := bytes_Buffer) [] wsize)
    = Some (replicate (length cs) None, w1) /\
    Flush w1 = (None, w2) /\
    bufio2.ReadFull fuel (bufio2.NewReaderSize (R := bytes_Reader) (wr w2) rsize) (length data)
    = Some (Some data, None, r') /\
    bufio2.stream r' = [].
Proof.
  intros data Hf [Hpos Hfuel].
  destruct (NewWriterSize_wready [] wsize) as [Hr Hw].
  destruct (run_wcalls_buffer fuel cs _ Hr Hf) as (w1 & Hrun & Hr1 & _ & Hwr).
  destruct (flush_buffer w1 Hr1) as (w2 & Hfl & _ & _ & Hsink).
  rewrite Hw in Hwr. cbn [app] in Hwr. fold data in Hwr.
  assert (Hnew : bufio2.ready (bufio2.NewReaderSize (R := bytes_Reader) (wr w2) rsize) /\
                 bufio2.stream (bufio2.NewReaderSize (R := bytes_Reader) (wr w2) rsize)
                 = data).
  { destruct (bufio2.NewReaderSize_ready (wr w2) rsize) as [Hrr Hrs].
    split; [exact Hrr|]. etransitivity; [exact Hrs | congruence]. }
  destruct Hnew as [Hrr Hstream].
  destruct (bufio2.ReadFull_bytes fuel _ (length data) Hrr Hpos)
    as (r' & Hread & _ & Hs' & _); [rewrite Hstream; lia | exact Hfuel |].
  rewrite Hstream, firstn_all in Hread. rewrite Hstream, drop_all in Hs'.
  exists w1, w2, r'. unfold Flush. rewrite Hfl.
  split; [exact Hrun|]. split; [reflexivity|]. split; [exact Hread | exact Hs'].
Qed.

(** *** The writer at work *)

Definition writer_4 : Writer bytes_Buffer := NewWriterSize [] 4.

Lemma Writer_keeps_contract_witness :
  wfw writer_4 /\ same_buffer writer_4 (snd (Flush writer_4)) /\
  fst (Flush writer_4) = err (snd (Flush writer_4)).
Proof.
  assert (Hw : wfw writer_4) by (unfold wfw; vm_compute; lia).
  destruct (Writer_keeps_contract (W := bytes_Buffer) writer_4 Hw)
    as (_ & _ & _ & (H1 & H2 & _) & _).
  split; [exact Hw|]. split; [exact H1 | exact H2].
Defined.

(** Twelve bytes through a buffer of four. *)
Lemma Writer_delivers_in_order_witness :
  exists b',
    run_wcalls 16 [CallWrite (bytes "hello "); CallWriteString (bytes "world");
                   CallWriteByte "!"%byte; CallFlush] writer_4
    = Some (replicate 4 None, b') /\
    wr (snd (Flush b')) = bytes "hello world!".
Proof.
  destruct (NewWriterSize_wready [] 4) as [Hr Hw].
  destruct (Writer_delivers_in_order 16
              [CallWrite (bytes "hello "); CallWriteString (bytes "world");
               CallWriteByte "!"%byte; CallFlush] writer_4 Hr)
    as (b' & Hrun & _ & _ & _ & Hsink & _).
  - repeat constructor; vm_compute; lia.
  - exists b'. split; [exact Hrun|]. rewrite Hsink.
    change (written writer_4) with (written (NewWriterSize (W := bytes_Buffer) [] 4)).
    rewrite Hw. reflexivity.
Defined.

(** Twelve bytes through a writer of four bytes and a reader of five. *)
Lemma Writer_to_Reader_round_trip_witness :
  exists w1 w2 r',
    run_wcalls 16 [CallWrite (bytes "hello "); CallWriteString (bytes "world");
                   CallWriteByte "!"%byte] (NewWriterSize (W := bytes_Buffer) [] 4)
    = Some (replicate 3 None, w1) /\
    Flush w1 = (None, w2) /\
    bufio2.ReadFull 16 (bufio2.NewReaderSize (R := bytes_Reader) (wr w2) 5) 12
    = Some (Some (bytes "hello world!"), None, r').
Proof.
  destruct (Writer_to_Reader_round_trip 16
              [CallWrite (bytes "hello "); CallWriteString (bytes "world");
               CallWriteByte "!"%byte] 4 5)
    as (w1 & w2 & r' & Hrun & Hfl & Hread & _).
  - repeat constructor; vm_compute; lia.
  - vm_compute. lia.
  - exists w1, w2, r'. split; [exact Hrun|]. split; [exact Hfl | exact Hread].
Defined.

End bufio2_writer.

(** ** [redis]: the RESP decoder ([decoder.go]) *)

Module redis.
Import Go bufio2 redis_int.

(** Modelled from the spec: [RespType] and its five tags (resp.go is not
    among the sources at hand): [type RespType byte], a frame starting with
    '+' for a simple string, '-' for an error, ':' for an integer, '$' for
    bulk bytes and '*' for an array. *)
Definition RespType := byte.
Definition TypeString : RespType := "+"%byte.
Definition TypeError : RespType := "-"%byte.
Definition TypeInt : RespType := ":"%byte.
Definition TypeBulkBytes : RespType := "$"%byte.
Definition TypeArray : RespType := "*"%byte.

(** Modelled from the spec: [Resp], a type tag with a byte payload (nil for
    a null bulk) or an array of frames (nil for a null array). *)
#[local] Unset Elimination Schemes.
Inductive Resp := mkResp {
  Type' : RespType;
  Value : option (list byte);
  Array : option (list Resp)
}.
#[local] Set Elimination Schemes.

(** Modelled from the spec: [NewBulkBytes] makes a bulk-bytes frame of its
    argument. *)
Definition NewBulkBytes (value : list byte) : Resp :=
  mkResp TypeBulkBytes (Some value) None.

Definition IsError (r : Resp) : bool := bool_decide (Type' r = TypeError).
Definition IsBulkBytes (r : Resp) : bool := bool_decide (Type' r = TypeBulkBytes).

Definition MaxBulkBytesLen : Z := 1024 * 1024 * 512.
Definition MaxArrayLen : Z := 1024 * 1024.

Definition CR : byte := "013"%byte.
Definition LF : byte := "010"%byte.

(** What [decodeResp] returns: [return nil, err], or [return r, err] with
    [r] the frame it allocated. *)
Inductive decoded :=
| Nil (e : error)
| Allocated (r : Resp) (e : option error).

Section decoder.
Context {R : Type} `{IoReader R}.

(** The functions below [Decode] and [DecodeMultiBulk] use the decoder's
    reader only: they take it and return it.  [fuel] bounds the loops of the
    reader that nothing else bounds and the depth of nested arrays; [None]
    is a run that [fuel] did not let finish. *)

Definition decodeTextBytes (fuel : nat) (b : Reader R)
  : option (option (list byte) * option error * Reader R) :=
  '(v, e, b1) ← ReadBytes fuel b LF;
  match e with
  | Some e => Some (None, Some e, b1)
  | None =>
      let bs := default [] v in
      if (length bs <? 2)%nat
         || negb (bool_decide (bs !! (length bs - 2)%nat = Some CR))
      then Some (None, Some ErrBadCRLFEnd, b1)
      else Some (Some (take (length bs - 2) bs), None, b1)
  end.

Definition decodeInt (b : Reader R) : option (Z * option error * Reader R) :=
  '(v, e, b1) ← ReadSlice b LF;
  match e with
  | Some e => Some (0, Some e, b1)
  | None =>
      let bs := default [] v in
      if (length bs <? 2)%nat
         || negb (bool_decide (bs !! (length bs - 2)%nat = Some CR))
      then Some (0, Some ErrBadCRLFEnd, b1)
      else let '(n, e) := Btoi64 (take (length bs - 2) bs) in Some (n, e, b1)
  end.

Definition decodeBulkBytes (fuel : nat) (b : Reader R)
  : option (option (list byte) * option error * Reader R) :=
  '(n, e, b1) ← decodeInt b;
  match e with
  | Some e => Some (None, Some e, b1)
  | None =>
      if n <? -1 then Some (None, Some ErrBadBulkBytesLen, b1)
      else if MaxBulkBytesLen <? n then Some (None, Some ErrBadBulkBytesLenTooLong, b1)
      else if n =? -1 then Some (None, None, b1)
      else
        '(v, e, b2) ← ReadFull fuel b1 (Z.to_nat n + 2);
        match e with
        | Some e => Some (None, Some e, b2)
        | None =>
            let bs := default [] v in
            if negb (bool_decide (bs !! Z.to_nat n = Some CR))
               || negb (bool_decide (bs !! (Z.to_nat n + 1)%nat = Some LF))
            then Some (None, Some ErrBadCRLFEnd, b2)
            else Some (Some (take (Z.to_nat n) bs), None, b2)
        end
  end.

(** The loop [for i := range array] of [decodeArray], [k] elements to go,
    over [dec], the decoder of one frame.  With [bulk_only] it is the loop
    of [decodeMultiBulk], which refuses an element that is not bulk bytes. *)
Fixpoint decode_elements (dec : Reader R -> option (decoded * Reader R))
    (bulk_only : bool) (k : nat) (b : Reader R) (acc : list Resp)
  : option (option (list Resp) * option error * Reader R) :=
  match k with
  | O => Some (Some acc, None, b)
  | S k' =>
      '(res, b1) ← dec b;
      match res with
      | Nil e => Some (None, Some e, b1)
      | Allocated _ (Some e) => Some (None, Some e, b1)
      | Allocated r None =>
          if bulk_only && negb (bool_decide (Type' r = TypeBulkBytes))
          then Some (None, Some ErrBadMultiBulkContent, b1)
          else decode_elements dec bulk_only k' b1 (acc ++ [r])
      end
  end.

Definition decodeArray (dec : Reader R -> option (decoded * Reader R))
    (b : Reader R)
  : option (option (list Resp) * option error * Reader R) :=
  '(n, e, b1) ← decodeInt b;
  match e with
  | Some e => Some (None, Some e, b1)
  | None =>
      if n <? -1 then Some (None, Some ErrBadArrayLen, b1)
      else if MaxArrayLen <? n then Some (None, Some ErrBadArrayLenTooLong, b1)
      else if n =? -1 then Some (None, None, b1)
      else decode_elements dec false (Z.to_nat n) b1 []
  end.

Fixpoint decodeResp (fuel : nat) (b : Reader R) : option (decoded * Reader R) :=
  match fuel with
  | O => None
  | S fuel' =>
      let '(c, e, b1) := ReadByte b in
      match e with
      | Some e => Some (Nil (ErrIO e), b1)
      | None =>
          if bool_decide (c = TypeString) || bool_decide (c = TypeError)
             || bool_decide (c = TypeInt) then
            '(v, e, b2) ← decodeTextBytes fuel' b1;
            Some (Allocated (mkResp c v None) e, b2)
          else if bool_decide (c = TypeBulkBytes) then
            '(v, e, b2) ← decodeBulkBytes fuel' b1;
            Some (Allocated (mkResp c v None) e, b2)
          else if bool_decide (c = TypeArray) then
            '(a, e, b2) ← decodeArray (decodeResp fuel') b1;
            Some (Allocated (mkResp c None a) e, b2)
          else Some (Nil (ErrBadRespType c), b1)
      end
  end.

Definition tokens_step (b : list byte) (r : nat) (st : nat * list Resp)
  : nat * list Resp :=
  let '(l, multi) := st in
  if bool_decide (r = length b) || bool_decide (b !! r = Some " "%byte) then
    ((r + 1)%nat,
     if (l <? r)%nat then multi ++ [NewBulkBytes (slice b l r)] else multi)
  else (l, multi).

(** The loop [for l, r := 0, 0; r <= len(b); r++] of
    [decodeSingleLineMultiBulk]. *)
Definition split_line (b : list byte) : list Resp :=
  snd (fold_left (fun st r => tokens_step b r st) (seq 0 (S (length b))) (0%nat, [])).

Definition decodeSingleLineMultiBulk (fuel : nat) (b : Reader R)
  : option (option (list Resp) * option error * Reader R) :=
  '(v, e, b1) ← decodeTextBytes fuel b;
  match e with
  | Some e => Some (None, Some e, b1)
  | None =>
      let multi := split_line (default [] v) in
      if (length multi =? 0)%nat
      then Some (None, Some ErrBadMultiBulkLen, b1)
      else Some (Some multi, None, b1)
  end.

Definition decodeMultiBulk (fuel : nat) (b : Reader R)
  : option (option (list Resp) * option error * Reader R) :=
  let '(c, e, b1) := PeekByte b in
  match e with
  | Some e => Some (None, Some (ErrIO e), b1)
  | None =>
      if negb (bool_decide (c = TypeArray)) then decodeSingleLineMultiBulk fuel b1
      else
        let '(_, e, b2) := ReadByte b1 in
        match e with
        | Some e => Some (None, Some (ErrIO e), b2)
        | None =>
            '(n, e, b3) ← decodeInt b2;
            match e with
            | Some e => Some (None, Some e, b3)
            | None =>
                if n <=? 0 then Some (None, Some ErrBadArrayLen, b3)
                else if MaxArrayLen <? n
                     then Some (None, Some ErrBadArrayLenTooLong, b3)
                     else decode_elements (decodeResp fuel) true (Z.to_nat n) b3 []
            end
        end
  end.

Record Decoder := mkDecoder {
  br : Reader R;
  Err : option error
}.

Definition NewDecoderBuffer (b : Reader R) : Decoder := mkDecoder b None.
Definition NewDecoderSize (r : R) (size : Z) : Decoder :=
  NewDecoderBuffer (NewReaderSize r size).
Definition NewDecoder (r : R) : Decoder := NewDecoderSize r 8192.

Definition Decode (fuel : nat) (d : Decoder)
  : option (option Resp * option error * Decoder) :=
  match Err d with
  | Some _ => Some (None, Some ErrFailedDecoder, d)
  | None =>
      '(res, b1) ← decodeResp fuel (br d);
      let '(r, e) :=
        match res with
        | Nil e => (None, Some e)
        | Allocated r e => (Some r, e)
        end in
      let d1 := mkDecoder b1 (match e with Some e => Some e | None => Err d end) in
      Some (r, Err d1, d1)
  end.

Definition DecodeMultiBulk (fuel : nat) (d : Decoder)
  : option (option (list Resp) * option error * Decoder) :=
  match Err d with
  | Some _ => Some (None, Some ErrFailedDecoder, d)
  | None =>
      '(m, e, b1) ← decodeMultiBulk fuel (br d);
      let d1 := mkDecoder b1 (match e with Some e => Some e | None => Err d end) in
      Some (m, e, d1)
  end.

End decoder.

(** *** The inline command line *)

(** The line cut at every space, as [strings.Split(line, " ")] cuts it. *)
Fixpoint split_spaces (l : list byte) : list (list byte) :=
  match l with
  | [] => [[]]
  | c :: l' =>
      if decide (c = " "%byte) then [] :: split_spaces l'
      else match split_spaces l' with
           | t :: ts => (c :: t) :: ts
           | [] => [[c]]
           end
  end.

(** The tokens of an inline command in the words of the specification: the
    line split on spaces, the empty tokens skipped. *)
Definition inline_tokens (line : list byte) : list (list byte) :=
  filter (fun t => t <> []) (split_spaces line).

(** The same, read from left to right with the token under way. *)
Fixpoint scan (cur rest : list byte) : list (list byte) :=
  match rest with
  | [] => if decide (cur = []) then [] else [cur]
  | c :: rest' =>
      if decide (c = " "%byte)
      then (if decide (cur = []) then scan [] rest' else cur :: scan [] rest')
      else scan (cur ++ [c]) rest'
  end.

Lemma split_spaces_cons l : exists t ts, split_spaces l = t :: ts.
Proof.
  destruct l as [|c l]; cbn; [eauto|].
  destruct (decide (c = " "%byte)); [eauto|].
  destruct (split_spaces l); eauto.
Qed.

Lemma scan_split : forall rest cur,
  scan cur rest
  = filter (fun t => t <> [])
      (match split_spaces rest with t :: ts => (cur ++ t) :: ts | [] => [cur] end).
Proof.
  induction rest as [|c rest IH]; intros cur; cbn [scan split_spaces].
  - rewrite app_nil_r. destruct (decide (cur = [])) as [-> | Hn].
    + reflexivity.
    + rewrite filter_cons_True by assumption. reflexivity.
  - destruct (decide (c = " "%byte)) as [-> | Hc].
    + rewrite app_nil_r, (IH []).
      destruct (split_spaces_cons rest) as (t & ts & ->). cbn [app].
      destruct (decide (cur = [])) as [-> | Hn].
      * rewrite (filter_cons_False _ []) by tauto. reflexivity.
      * rewrite (filter_cons_True _ cur) by assumption. reflexivity.
    + rewrite (IH (cur ++ [c])).
      destruct (split_spaces_cons rest) as (t & ts & ->).
      now rewrite <- app_assoc.
Qed.

Lemma scan_inline_tokens line : scan [] line = inline_tokens line.
Proof.
  rewrite scan_split. unfold inline_tokens.
  now destruct (split_spaces_cons line) as (t & ts & ->).
Qed.

Lemma scan_nil : forall rest cur,
  scan cur rest = [] <-> cur = [] /\ Forall (eq " "%byte) rest.
Proof.
  induction rest as [|c rest IH]; intros cur; cbn [scan].
  - destruct (decide (cur = [])); split; try tauto; try discriminate.
    intros _. split; [assumption | constructor].
  - destruct (decide (c = " "%byte)) as [-> | Hc].
    + destruct (decide (cur = [])) as [-> | Hn].
      * rewrite IH. split; intros [_ Hf]; (split; [reflexivity|]).
        -- now constructor.
        -- now inversion Hf.
      * split; [discriminate | tauto].
    + rewrite IH. split.
      * intros [Hn _]. now destruct cur.
      * intros [_ Hf]. inversion Hf. congruence.
Qed.

(** No token: the line is empty or made of spaces only. *)
Lemma inline_tokens_nil line :
  inline_tokens line = [] <-> Forall (eq " "%byte) line.
Proof. rewrite <- scan_inline_tokens, scan_nil. tauto. Qed.

(** The loop of [decodeSingleLineMultiBulk] from index [r] on, [b[l:r]]
    being the token under way. *)
Lemma split_line_from (b : list byte) : forall rest r l multi,
  drop r b = rest -> (l <= r <= length b)%nat ->
  snd (fold_left (fun st i => tokens_step b i st)
                 (seq r (S (length b) - r)) (l, multi))
  = multi ++ (NewBulkBytes <$> scan (slice b l r) rest).
Proof.
  induction rest as [|c rest IH]; intros r l multi Hd Hr.
  - assert (r = length b) as ->.
    { apply (f_equal length) in Hd. rewrite length_drop in Hd. cbn in Hd. lia. }
    replace (S (length b) - length b)%nat with 1%nat by lia.
    cbn [seq fold_left tokens_step snd scan].
    rewrite bool_decide_eq_true_2 by reflexivity. cbn [orb snd].
    destruct (decide (slice b l (length b) = [])) as [He | Hne].
    + apply (f_equal length) in He. rewrite slice_length in He by lia.
      cbn in He. destruct (l <? length b)%nat eqn:El;
        [apply Nat.ltb_lt in El; lia|].
      now rewrite app_nil_r.
    + destruct (l <? length b)%nat eqn:El; [reflexivity|].
      apply Nat.ltb_ge in El. exfalso. apply Hne.
      replace l with (length b) by lia. apply slice_nil.
  - assert (Hlt : (r < length b)%nat).
    { apply (f_equal length) in Hd. rewrite length_drop in Hd. cbn in Hd. lia. }
    assert (Hbr : b !! r = Some c).
    { rewrite <- (Nat.add_0_r r), <- lookup_drop, Hd. reflexivity. }
    assert (Hd' : drop (S r) b = rest).
    { replace (S r) with (r + 1)%nat by lia.
      rewrite <- drop_drop, Hd. reflexivity. }
    replace (S (length b) - r)%nat with (S (S (length b) - S r)) by lia.
    cbn [seq fold_left]. unfold tokens_step at 2.
    rewrite bool_decide_eq_false_2 by lia. rewrite Hbr. cbn [orb scan].
    destruct (decide (c = " "%byte)) as [-> | Hc].
    + rewrite bool_decide_eq_true_2 by reflexivity.
      replace (r + 1)%nat with (S r) by lia.
      rewrite (IH (S r) (S r)) by (assumption || lia).
      rewrite slice_nil.
      destruct (decide (slice b l r = [])) as [He | Hne].
      * apply (f_equal length) in He. rewrite slice_length in He by lia.
        cbn in He. destruct (l <? r)%nat eqn:El;
          [apply Nat.ltb_lt in El; lia | reflexivity].
      * destruct (l <? r)%nat eqn:El.
        -- now rewrite <- app_assoc.
        -- apply Nat.ltb_ge in El. exfalso. apply Hne.
           replace l with r by lia. apply slice_nil.
    + rewrite bool_decide_eq_false_2 by congruence.
      rewrite (IH (S r) l) by (assumption || lia).
      do 3 f_equal. rewrite (slice_split b l r (S r)) by lia. f_equal.
      unfold slice. replace (S r - r)%nat with 1%nat by lia.
      rewrite Hd. reflexivity.
Qed.

(** The loop of [decodeSingleLineMultiBulk] yields the tokens of the line
    in the words of the specification. *)
Lemma split_line_inline_tokens (b : list byte) :
  split_line b = NewBulkBytes <$> inline_tokens b.
Proof.
  unfold split_line.
  rewrite <- (Nat.sub_0_r (S (length b))).
  rewrite (split_line_from b b 0 0 []) by (apply drop_0 || lia).
  now rewrite slice_nil, scan_inline_tokens.
Qed.

Section decoder_facts.
Context {R : Type} `{IoReader R}.

(** C1.  [decodeBulkBytes] parses the length [n] with [decodeInt], and then:
    [n = -1] gives a nil payload and no error; [n < -1] the error
    [bad bulk bytes len]; [n > 536870912 = MaxBulkBytesLen] the error
    [bad bulk bytes len, too long]; otherwise it asks [ReadFull] for [n + 2]
    bytes, fails with the error of [ReadFull] if there is one, with
    [bad CRLF end] unless the last two bytes are CR and LF, and returns the
    [n] bytes before them. *)
Theorem decodeBulkBytes_cases (fuel : nat) (b b1 : Reader R) (n : Z) :
  decodeInt b = Some (n, None, b1) ->
  MaxBulkBytesLen = 536870912 /\
  error_message ErrBadBulkBytesLen = Some "bad bulk bytes len"%string /\
  error_message ErrBadBulkBytesLenTooLong
    = Some "bad bulk bytes len, too long"%string /\
  error_message ErrBadCRLFEnd = Some "bad CRLF end"%string /\
  (n = -1 -> decodeBulkBytes fuel b = Some (None, None, b1)) /\
  (n < -1 ->
     decodeBulkBytes fuel b = Some (None, Some ErrBadBulkBytesLen, b1)) /\
  (MaxBulkBytesLen < n ->
     decodeBulkBytes fuel b = Some (None, Some ErrBadBulkBytesLenTooLong, b1)) /\
  (0 <= n <= MaxBulkBytesLen ->
     forall v e b2,
       ReadFull fuel b1 (Z.to_nat n + 2) = Some (v, e, b2) ->
       match e with
       | Some e => decodeBulkBytes fuel b = Some (None, Some e, b2)
       | None =>
           exists payload c1 c2,
             v = Some (payload ++ [c1; c2]) /\
             Z.of_nat (length payload) = n /\
             decodeBulkBytes fuel b
             = if decide (c1 = CR /\ c2 = LF)
               then Some (Some payload, None, b2)
               else Some (None, Some ErrBadCRLFEnd, b2)
       end).
Proof.
  intros Hint. unfold decodeBulkBytes. rewrite Hint. cbn [mbind option_bind].
  change MaxBulkBytesLen with 536870912.
  repeat split.
  - intros ->. reflexivity.
  - intros Hn. apply Z.ltb_lt in Hn. now rewrite Hn.
  - intros Hn. replace (n <? -1) with false by lia.
    apply Z.ltb_lt in Hn. now rewrite Hn.
  - intros [Hlo Hhi] v e b2 Hrf.
    replace (n <? -1) with false by lia.
    replace (536870912 <? n) with false by lia.
    replace (n =? -1) with false by lia.
    rewrite Hrf. cbn [mbind option_bind].
    destruct e as [e|]; [reflexivity|].
    destruct (ReadFull_ok_inv _ _ _ _ _ Hrf ltac:(lia)) as (bs & -> & Hlen).
    change (default [] (Some bs)) with bs.
    exists (take (Z.to_nat n) bs).
    assert (Hd : length (drop (Z.to_nat n) bs) = 2%nat) by (rewrite length_drop; lia).
    destruct (drop (Z.to_nat n) bs) as [|c1 [|c2 [|? ?]]] eqn:Ed; try discriminate.
    exists c1, c2. rewrite <- Ed, take_drop.
    split; [reflexivity|]. split; [rewrite length_take; lia|].
    assert (H1 : bs !! Z.to_nat n = Some c1).
    { rewrite <- (Nat.add_0_r (Z.to_nat n)), <- lookup_drop, Ed. reflexivity. }
    assert (H2 : bs !! (Z.to_nat n + 1)%nat = Some c2).
    { rewrite <- lookup_drop, Ed. reflexivity. }
    rewrite H1, H2.
    destruct (decide (c1 = CR /\ c2 = LF)) as [[-> ->] | Hne].
    + rewrite !bool_decide_eq_true_2 by reflexivity. reflexivity.
    + destruct (decide (c1 = CR)) as [-> | Hc1].
      * rewrite bool_decide_eq_true_2 by reflexivity.
        rewrite bool_decide_eq_false_2 by (intros [= ->]; tauto). reflexivity.
      * rewrite bool_decide_eq_false_2 by (intros [= ->]; tauto). reflexivity.
Qed.

(** C4.  On a decoder without error whose next byte is not '*',
    [DecodeMultiBulk] reads one line with [decodeTextBytes] (a line ended
    by CR LF, returned without them) and returns its tokens as bulk-bytes
    frames: the line split on spaces, the empty tokens skipped.  It fails
    with [bad multi-bulk len] exactly when the line has no token, that is
    when it is empty or made of spaces only. *)
Theorem DecodeMultiBulk_inline (fuel : nat) (d : Decoder (R := R))
    (c : byte) (b1 : Reader R) :
  Err d = None -> PeekByte (br d) = (c, None, b1) -> c <> "*"%byte ->
  DecodeMultiBulk fuel d
  = ('(v, e, b2) ← decodeTextBytes fuel b1;
     match e with
     | Some e => Some (None, Some e, mkDecoder b2 (Some e))
     | None =>
         let line := default [] v in
         if decide (Forall (eq " "%byte) line)
         then Some (None, Some ErrBadMultiBulkLen,
                    mkDecoder b2 (Some ErrBadMultiBulkLen))
         else Some (Some (NewBulkBytes <$> inline_tokens line), None,
                    mkDecoder b2 None)
     end)
  /\ error_message ErrBadMultiBulkLen = Some "bad multi-bulk len"%string.
Proof.
  intros He Hpeek Hc. split; [|reflexivity].
  unfold DecodeMultiBulk, decodeMultiBulk. rewrite He, Hpeek.
  rewrite bool_decide_eq_false_2 by exact Hc. cbn [negb].
  unfold decodeSingleLineMultiBulk.
  destruct (decodeTextBytes fuel b1) as [[[v e] b2]|]; [|reflexivity].
  cbn [mbind option_bind]. destruct e as [e|]; [reflexivity|].
  rewrite split_line_inline_tokens, length_fmap. cbn zeta.
  destruct (decide (Forall (eq " "%byte) (default [] v))) as [Hsp | Hsp].
  - apply inline_tokens_nil in Hsp. rewrite Hsp. reflexivity.
  - rewrite <- inline_tokens_nil in Hsp.
    destruct (inline_tokens (default [] v)); [congruence | reflexivity].
Qed.

(** *** The sticky error *)

(** The errors the functions under [Decode] return are errors of the
    source, of the buffer, of the integer parser or of the framing: never
    [ErrFailedDecoder]. *)
Definition not_failed (e : option error) : Prop := e <> Some ErrFailedDecoder.

Lemma not_failed_io (e : option io_error) : not_failed (ErrIO <$> e).
Proof. unfold not_failed. destruct e; discriminate. Qed.

Lemma ReadSlice_loop_not_failed delim : forall fuel (b : Reader R) v e b',
  ReadSlice_loop fuel b delim = Some (v, e, b') -> not_failed e.
Proof.
  induction fuel as [|fuel IH]; intros b v e b'; cbn [ReadSlice_loop];
    [discriminate|].
  destruct (IndexByte _ _); [intros [= _ <- _]; discriminate|].
  destruct (_ =? _)%nat; [intros [= _ <- _]; discriminate|].
  destruct (fill b) as [[e1|] b1].
  - intros [= _ <- _]. apply not_failed_io.
  - apply IH.
Qed.

Lemma ReadSlice_not_failed delim (b : Reader R) v e b' :
  ReadSlice b delim = Some (v, e, b') -> not_failed e.
Proof.
  unfold ReadSlice. destruct (err b).
  - intros [= _ <- _]. discriminate.
  - apply ReadSlice_loop_not_failed.
Qed.

Lemma ReadBytes_loop_not_failed delim : forall fuel (b : Reader R) full size v e b',
  ReadBytes_loop fuel b delim full size = Some (v, e, b') -> not_failed e.
Proof.
  induction fuel as [|fuel IH]; intros b full size v e b'; cbn [ReadBytes_loop];
    [discriminate|].
  destruct (ReadSlice b delim) as [[[f e1] b1]|]; [|discriminate].
  cbn [mbind option_bind]. destruct e1 as [e1|].
  - destruct (decide (e1 = ErrBufferFull)); [apply IH|].
    intros [= _ <- _]. apply not_failed_io.
  - destruct f; [intros [= _ <- _]; discriminate | apply IH].
Qed.

Lemma ReadFull_not_failed fuel (b : Reader R) n v e b' :
  ReadFull fuel b n = Some (v, e, b') -> not_failed e.
Proof.
  unfold ReadFull. destruct (_ || _).
  - intros [= _ <- _]. apply not_failed_io.
  - destruct (io_ReadFull fuel b (Make n)) as [[[p e1] b1]|]; [|discriminate].
    cbn. destruct e1; intros [= _ <- _]; discriminate.
Qed.

Lemma Btoi64_not_failed bs : not_failed (snd (Btoi64 bs)).
Proof.
  assert (Hg : not_failed (snd (Btoi64_generic bs))).
  { unfold Btoi64_generic. destruct (strconv.ParseInt bs) as [n [e|]]; discriminate. }
  unfold Btoi64. destruct (_ && _); [|exact Hg].
  destruct (match bs with [] => _ | _ => _ end) as [neg i].
  destruct (negb _); [|exact Hg].
  destruct (Btoi64_loop _ _) as [n rest].
  destruct (decide (rest = [])); [discriminate | exact Hg].
Qed.

Lemma decodeInt_not_failed (b : Reader R) n e b' :
  decodeInt b = Some (n, e, b') -> not_failed e.
Proof.
  unfold decodeInt.
  destruct (ReadSlice b LF) as [[[v e1] b1]|] eqn:E; [|discriminate].
  apply ReadSlice_not_failed in E. cbn [mbind option_bind].
  destruct e1; [now intros [= _ <- _]|].
  destruct (_ || _); [intros [= _ <- _]; discriminate|].
  pose proof (Btoi64_not_failed (take (length (default [] v) - 2) (default [] v))) as Hb.
  destruct (Btoi64 _) as [m e2]. now intros [= _ <- _].
Qed.

Lemma decodeTextBytes_not_failed fuel (b : Reader R) v e b' :
  decodeTextBytes fuel b = Some (v, e, b') -> not_failed e.
Proof.
  unfold decodeTextBytes, ReadBytes.
  destruct (ReadBytes_loop fuel b LF [] 0) as [[[v1 e1] b1]|] eqn:E; [|discriminate].
  apply ReadBytes_loop_not_failed in E. cbn [mbind option_bind].
  destruct e1; [now intros [= _ <- _]|].
  destruct (_ || _); intros [= _ <- _]; discriminate.
Qed.

Lemma decodeBulkBytes_not_failed fuel (b : Reader R) v e b' :
  decodeBulkBytes fuel b = Some (v, e, b') -> not_failed e.
Proof.
  unfold decodeBulkBytes.
  destruct (decodeInt b) as [[[n e1] b1]|] eqn:E; [|discriminate].
  apply decodeInt_not_failed in E. cbn [mbind option_bind].
  destruct e1; [now intros [= _ <- _]|].
  destruct (n <? -1); [intros [= _ <- _]; discriminate|].
  destruct (MaxBulkBytesLen <? n); [intros [= _ <- _]; discriminate|].
  destruct (n =? -1); [intros [= _ <- _]; discriminate|].
  destruct (ReadFull fuel b1 _) as [[[v2 e2] b2]|] eqn:E2; [|discriminate].
  apply ReadFull_not_failed in E2. cbn [mbind option_bind].
  destruct e2; [now intros [= _ <- _]|].
  destruct (_ || _); intros [= _ <- _]; discriminate.
Qed.

(** The error of what [decodeResp] returns. *)
Definition decoded_error (res : decoded) : option error :=
  match res with
  | Nil e => Some e
  | Allocated _ e => e
  end.

Lemma decode_elements_not_failed (dec : Reader R -> option (decoded * Reader R))
    bulk_only :
  (forall b res b', dec b = Some (res, b') -> not_failed (decoded_error res)) ->
  forall k b acc v e b',
    decode_elements dec bulk_only k b acc = Some (v, e, b') -> not_failed e.
Proof.
  intros Hdec. induction k as [|k IH]; intros b acc v e b'; cbn [decode_elements].
  - intros [= _ <- _]. discriminate.
  - destruct (dec b) as [[res b1]|] eqn:E; [|discriminate].
    apply Hdec in E. cbn [mbind option_bind].
    destruct res as [e1 | r [e1|]]; cbn in E.
    + now intros [= _ <- _].
    + now intros [= _ <- _].
    + destruct (_ && _); [intros [= _ <- _]; discriminate | apply IH].
Qed.

Lemma decodeResp_not_failed : forall fuel (b : Reader R) res b',
  decodeResp fuel b = Some (res, b') -> not_failed (decoded_error res).
Proof.
  induction fuel as [|fuel IH]; intros b res b'; cbn [decodeResp]; [discriminate|].
  destruct (ReadByte b) as [[c e] b1]. destruct e; [intros [= <- _]; discriminate|].
  destruct (_ || _).
  { destruct (decodeTextBytes fuel b1) as [[[v e] b2]|] eqn:E; [|discriminate].
    apply decodeTextBytes_not_failed in E. now intros [= <- _]. }
  destruct (bool_decide (c = TypeBulkBytes)).
  { destruct (decodeBulkBytes fuel b1) as [[[v e] b2]|] eqn:E; [|discriminate].
    apply decodeBulkBytes_not_failed in E. now intros [= <- _]. }
  destruct (bool_decide (c = TypeArray)); [|intros [= <- _]; discriminate].
  destruct (decodeArray (decodeResp fuel) b1) as [[[a e] b2]|] eqn:E; [|discriminate].
  cbn [mbind option_bind]. intros [= <- _]. cbn.
  revert E. unfold decodeArray.
  destruct (decodeInt b1) as [[[n e1] b3]|] eqn:E1; [|discriminate].
  apply decodeInt_not_failed in E1. cbn [mbind option_bind].
  destruct e1; [now intros [= _ <- _]|].
  destruct (n <? -1); [intros [= _ <- _]; discriminate|].
  destruct (MaxArrayLen <? n); [intros [= _ <- _]; discriminate|].
  destruct (n =? -1); [intros [= _ <- _]; discriminate|].
  apply decode_elements_not_failed, IH.
Qed.

Lemma decodeMultiBulk_not_failed fuel (b : Reader R) m e b' :
  decodeMultiBulk fuel b = Some (m, e, b') -> not_failed e.
Proof.
  unfold decodeMultiBulk.
  destruct (PeekByte b) as [[c e0] b1]. destruct e0; [intros [= _ <- _]; discriminate|].
  destruct (negb _).
  { unfold decodeSingleLineMultiBulk.
    destruct (decodeTextBytes fuel b1) as [[[v e1] b2]|] eqn:E; [|discriminate].
    apply decodeTextBytes_not_failed in E. cbn [mbind option_bind].
    destruct e1; [now intros [= _ <- _]|].
    destruct (_ =? _)%nat; intros [= _ <- _]; discriminate. }
  destruct (ReadByte b1) as [[c1 e1] b2]. destruct e1; [intros [= _ <- _]; discriminate|].
  destruct (decodeInt b2) as [[[n e2] b3]|] eqn:E; [|discriminate].
  apply decodeInt_not_failed in E. cbn [mbind option_bind].
  destruct e2; [now intros [= _ <- _]|].
  destruct (n <=? 0); [intros [= _ <- _]; discriminate|].
  destruct (MaxArrayLen <? n); [intros [= _ <- _]; discriminate|].
  apply decode_elements_not_failed. intros ? ? ?. apply decodeResp_not_failed.
Qed.

(** A call of one of the two entry points, and a sequence of calls on the
    same decoder: the errors returned and the decoder left. *)
Inductive call := CallDecode | CallDecodeMultiBulk.

Definition run_call (fuel : nat) (c : call) (d : Decoder (R := R))
  : option (option error * Decoder (R := R)) :=
  match c with
  | CallDecode => '(_, e, d') ← Decode fuel d; Some (e, d')
  | CallDecodeMultiBulk => '(_, e, d') ← DecodeMultiBulk fuel d; Some (e, d')
  end.

Fixpoint run_calls (fuel : nat) (cs : list call) (d : Decoder (R := R))
  : option (list (option error) * Decoder (R := R)) :=
  match cs with
  | [] => Some ([], d)
  | c :: cs' =>
      '(e, d1) ← run_call fuel c d;
      '(es, d2) ← run_calls fuel cs' d1;
      Some (e :: es, d2)
  end.

Lemma failed_decoder_call fuel c (d : Decoder (R := R)) :
  Err d <> None -> run_call fuel c d = Some (Some ErrFailedDecoder, d).
Proof.
  intros He. destruct c; unfold run_call, Decode, DecodeMultiBulk;
    (destruct (Err d); [reflexivity | congruence]).
Qed.

Lemma failed_decoder_calls fuel (d : Decoder (R := R)) :
  Err d <> None ->
  forall cs,
    run_calls fuel cs d = Some (replicate (length cs) (Some ErrFailedDecoder), d).
Proof.
  intros He. induction cs as [|c cs IH]; [reflexivity|].
  cbn [run_calls]. rewrite failed_decoder_call by assumption.
  cbn [mbind option_bind]. rewrite IH. reflexivity.
Qed.

(** C5.  When a call of [Decode] or [DecodeMultiBulk] returns an error, the
    [Err] field of the decoder is set; from then on [Decode] and
    [DecodeMultiBulk] return (nil and) [ErrFailedDecoder],
    [use of failed decoder], and leave the decoder with its reader as they
    found it, whatever the sequence of calls.  A call on a decoder whose
    [Err] is nil does not return [ErrFailedDecoder]. *)
Theorem sticky_decoder_error (fuel : nat) (c : call) (d d1 : Decoder (R := R))
    (e : error) :
  run_call fuel c d = Some (Some e, d1) ->
  Err d1 <> None /\
  (forall fuel',
     Decode fuel' d1 = Some (None, Some ErrFailedDecoder, d1) /\
     DecodeMultiBulk fuel' d1 = Some (None, Some ErrFailedDecoder, d1)) /\
  (forall fuel' cs,
     run_calls fuel' cs d1
     = Some (replicate (length cs) (Some ErrFailedDecoder), d1)) /\
  error_message ErrFailedDecoder = Some "use of failed decoder"%string /\
  (Err d = None -> e <> ErrFailedDecoder).
Proof.
  intros Hrun.
  assert (Hset : Err d1 <> None /\ (Err d = None -> e <> ErrFailedDecoder)).
  { destruct c; unfold run_call, Decode, DecodeMultiBulk in Hrun.
    - destruct (Err d) as [e0|] eqn:Ed.
      + cbn in Hrun. injection Hrun as <- <-. rewrite Ed. split; discriminate.
      + destruct (decodeResp fuel (br d)) as [[res b1]|] eqn:E; [|discriminate].
        apply decodeResp_not_failed in E. unfold not_failed in E.
        destruct res as [e1 | r [e1|]]; cbn in Hrun, E; try discriminate;
          injection Hrun as <- <-; cbn; (split; [discriminate | congruence]).
    - destruct (Err d) as [e0|] eqn:Ed.
      + cbn in Hrun. injection Hrun as <- <-. rewrite Ed. split; discriminate.
      + destruct (decodeMultiBulk fuel (br d)) as [[[m e1] b1]|] eqn:E; [|discriminate].
        apply decodeMultiBulk_not_failed in E. unfold not_failed in E.
        destruct e1 as [e1|]; cbn in Hrun; try discriminate;
          injection Hrun as <- <-; cbn; (split; [discriminate | congruence]). }
  destruct Hset as [Hset Hne].
  split; [exact Hset|]. split; [|split; [|split; [reflexivity | exact Hne]]].
  - intros fuel'. unfold Decode, DecodeMultiBulk.
    destruct (Err d1); [split; reflexivity | congruence].
  - intros fuel' cs. now apply failed_decoder_calls.
Qed.

End decoder_facts.

Section decoder_array.
Context {R : Type} `{IoLawful R}.

Lemma decode_elements_nonempty (dec : Reader R -> option (decoded * Reader R))
    bulk_only : forall k b acc m b',
  decode_elements dec bulk_only k b acc = Some (m, None, b') ->
  exists l, m = Some l /\ length l = (length acc + k)%nat.
Proof.
  induction k as [|k IH]; intros b acc m b'; cbn [decode_elements].
  - intros [= <- _]. exists acc. split; [reflexivity | lia].
  - destruct (dec b) as [[res b1]|]; [|discriminate]. cbn [mbind option_bind].
    destruct res as [e | r [e|]]; try discriminate.
    destruct (_ && _); [discriminate|].
    intros Hrun. apply IH in Hrun as (l & -> & Hl).
    exists l. split; [reflexivity|]. rewrite Hl, length_app. cbn. lia.
Qed.

(** C10.  On a decoder without error whose next byte is '*', when the
    count [n] that [decodeInt] parses after it is at most 0,
    [DecodeMultiBulk] fails with [bad array len]: so for the empty array,
    [n = 0], and for the null array, [n = -1], which [Decode] both accepts,
    returning an array frame with no element and one with a nil array.
    What [DecodeMultiBulk] returns without error behind a '*' is neither nil
    nor empty. *)
Theorem DecodeMultiBulk_rejects_empty_array (fuel : nat) (d : Decoder (R := R))
    (b1 : Reader R) :
  wf (br d) -> Err d = None -> PeekByte (br d) = ("*"%byte, None, b1) ->
  (forall n b3,
     decodeInt (set_rpos b1 (rpos b1 + 1)) = Some (n, None, b3) ->
     (n <= 0 ->
        DecodeMultiBulk fuel d
        = Some (None, Some ErrBadArrayLen, mkDecoder b3 (Some ErrBadArrayLen))) /\
     (n = 0 ->
        Decode (S fuel) d
        = Some (Some (mkResp TypeArray None (Some [])), None, mkDecoder b3 None)) /\
     (n = -1 ->
        Decode (S fuel) d
        = Some (Some (mkResp TypeArray None None), None, mkDecoder b3 None))) /\
  (forall m d',
     DecodeMultiBulk fuel d = Some (m, None, d') ->
     exists l, m = Some l /\ l <> []) /\
  error_message ErrBadArrayLen = Some "bad array len"%string.
Proof.
  intros Hw He Hpeek.
  destruct (PeekByte_ok _ _ _ Hw Hpeek) as (_ & _ & _ & _ & Hrb1 & Hrb).
  split; [|split; [|reflexivity]].
  - intros n b3 Hint. split; [|split].
    + intros Hn. unfold DecodeMultiBulk, decodeMultiBulk.
      rewrite He, Hpeek. cbn [negb bool_decide decide_rel]. rewrite Hrb1, Hint.
      cbn [mbind option_bind]. apply Z.leb_le in Hn. now rewrite Hn.
    + intros ->. unfold Decode. rewrite He. cbn [decodeResp]. rewrite Hrb.
      cbn [bool_decide decide_rel orb]. unfold decodeArray. rewrite Hint.
      reflexivity.
    + intros ->. unfold Decode. rewrite He. cbn [decodeResp]. rewrite Hrb.
      cbn [bool_decide decide_rel orb]. unfold decodeArray. rewrite Hint.
      reflexivity.
  - intros m d'. unfold DecodeMultiBulk, decodeMultiBulk.
    rewrite He, Hpeek. cbn [negb bool_decide decide_rel]. rewrite Hrb1.
    destruct (decodeInt _) as [[[n e] b3]|]; [|discriminate].
    cbn [mbind option_bind]. destruct e as [e|]; [discriminate|].
    destruct (n <=? 0) eqn:En; [discriminate|].
    destruct (MaxArrayLen <? n); [discriminate|].
    destruct (decode_elements _ _ _ _ _) as [[[m1 e1] b4]|] eqn:E; [|discriminate].
    cbn. intros [= <- -> _].
    apply decode_elements_nonempty in E as (l & -> & Hl).
    exists l. split; [reflexivity|]. intros ->. cbn in Hl. lia.
Qed.

End decoder_array.

(** *** The decoder over [bytes.Reader]: frames of a stream *)

Lemma crlf_stream (line post : list byte) :
  line ++ CR :: LF :: post = (line ++ [CR]) ++ LF :: post.
Proof. now rewrite <- app_assoc. Qed.

Lemma not_in_line_cr (line : list byte) : LF ∉ line -> LF ∉ line ++ [CR].
Proof.
  intros Hn Hin. apply elem_of_app in Hin as [Hin | Hin]; [tauto|].
  apply list_elem_of_singleton in Hin. discriminate.
Qed.

(** The test of the end of a line in [decodeTextBytes] and [decodeInt], on
    a line that ends with CR LF. *)
Lemma crlf_end (line : list byte) :
  let bs := (line ++ [CR]) ++ [LF] in
  ((length bs <? 2)%nat
   || negb (bool_decide (bs !! (length bs - 2)%nat = Some CR))) = false /\
  take (length bs - 2) bs = line.
Proof.
  cbn zeta. rewrite <- app_assoc. cbn [app].
  rewrite length_app. cbn [length].
  replace (length line + 2 - 2)%nat with (length line) by lia.
  rewrite list_lookup_middle by reflexivity.
  rewrite bool_decide_eq_true_2 by reflexivity.
  rewrite take_app_length. split; [|reflexivity].
  apply orb_false_iff. split; [apply Nat.ltb_ge; lia | reflexivity].
Qed.

(** A line of the stream, ended by CR LF, is what [decodeTextBytes] returns,
    whatever the size of the buffer. *)
Lemma decodeTextBytes_bytes (fuel : nat) (b : Reader bytes_Reader)
    (line post : list byte) :
  ready b -> stream b = line ++ CR :: LF :: post -> LF ∉ line ->
  (length line + 1 < fuel)%nat ->
  exists b',
    decodeTextBytes fuel b = Some (Some line, None, b') /\
    ready b' /\ stream b' = post /\ length (buf b') = length (buf b).
Proof.
  intros Hready Hs Hn Hf. rewrite crlf_stream in Hs.
  destruct (ReadBytes_bytes LF fuel b (line ++ [CR]) post Hready Hs)
    as (b' & Hrb & Hr' & Hs' & Hl').
  - now apply not_in_line_cr.
  - rewrite length_app. cbn. lia.
  - exists b'. split; [|split; [exact Hr'|split; [exact Hs'|exact Hl']]].
    unfold decodeTextBytes. rewrite Hrb. cbn [mbind option_bind default from_option id].
    destruct (crlf_end line) as [-> ->]. reflexivity.
Qed.

(** A line of the stream that fits the buffer is what [decodeInt] parses. *)
Lemma decodeInt_bytes (b : Reader bytes_Reader) (digits post : list byte) :
  ready b -> stream b = digits ++ CR :: LF :: post -> LF ∉ digits ->
  (length digits + 1 < length (buf b))%nat ->
  exists b',
    decodeInt b = Some (fst (Btoi64 digits), snd (Btoi64 digits), b') /\
    ready b' /\ stream b' = post /\ length (buf b') = length (buf b).
Proof.
  intros Hready Hs Hn Hfit. rewrite crlf_stream in Hs.
  pose proof (ReadSlice_bytes b LF Hready) as Hout.
  unfold ReadSlice_outcome in Hout. rewrite Hs in Hout.
  assert (Hlen : length (digits ++ [CR]) = (length digits + 1)%nat)
    by (rewrite length_app; reflexivity).
  rewrite take_app_ge in Hout by lia.
  destruct (length (buf b) - length (digits ++ [CR]))%nat as [|k] eqn:Ek; [lia|].
  cbn [take] in Hout.
  rewrite IndexByte_first in Hout by now apply not_in_line_cr.
  destruct Hout as (b' & Hrs & Hr' & Hs' & Hl').
  exists b'. split; [|split; [exact Hr'|split; [|exact Hl']]].
  - unfold decodeInt. rewrite Hrs. cbn [mbind option_bind default from_option id].
    rewrite <- Nat.add_1_r, <- take_take_drop, take_app_length, drop_app_length.
    change (take 1 (LF :: post)) with [LF].
    destruct (crlf_end digits) as [-> ->].
    now destruct (Btoi64 digits).
  - rewrite Hs', <- Nat.add_1_r, <- drop_drop, drop_app_length. reflexivity.
Qed.

(** A bulk frame of the stream, behind its '$': the payload. *)
Lemma decodeBulkBytes_bytes (fuel : nat) (b : Reader bytes_Reader)
    (hdr payload post : list byte) :
  ready b ->
  stream b = hdr ++ CR :: LF :: payload ++ CR :: LF :: post ->
  LF ∉ hdr -> (length hdr + 1 < length (buf b))%nat ->
  Btoi64 hdr = (Z.of_nat (length payload), None) ->
  Z.of_nat (length payload) <= MaxBulkBytesLen ->
  (length payload + 2 <= fuel)%nat ->
  exists b',
    decodeBulkBytes fuel b = Some (Some payload, None, b') /\
    ready b' /\ stream b' = post /\ length (buf b') = length (buf b).
Proof.
  intros Hready Hs Hn Hfit Hint Hmax Hf.
  destruct (decodeInt_bytes b hdr _ Hready Hs Hn Hfit) as (b1 & Hdi & Hr1 & Hs1 & Hl1).
  rewrite Hint in Hdi. cbn [fst snd] in Hdi.
  unfold decodeBulkBytes. rewrite Hdi. cbn [mbind option_bind].
  replace (Z.of_nat (length payload) <? -1) with false by lia.
  replace (MaxBulkBytesLen <? Z.of_nat (length payload)) with false by lia.
  replace (Z.of_nat (length payload) =? -1) with false by lia.
  rewrite Nat2Z.id.
  destruct (ReadFull_bytes fuel b1 (length payload + 2) Hr1)
    as (b2 & Hrf & Hr2 & Hs2 & Hl2); [lia | | lia |].
  { rewrite Hs1, length_app. cbn [length]. lia. }
  rewrite Hrf. cbn [mbind option_bind default from_option id].
  assert (Htk : take (length payload + 2) (stream b1) = payload ++ [CR; LF]).
  { rewrite Hs1, take_app_add. reflexivity. }
  rewrite Htk.
  rewrite list_lookup_middle by reflexivity.
  replace (length payload + 1)%nat with (length (payload ++ [CR]) + 0)%nat
    by (rewrite length_app; cbn; lia).
  replace (payload ++ [CR; LF]) with ((payload ++ [CR]) ++ [LF])
    by (now rewrite <- app_assoc).
  rewrite lookup_app_r, Nat.add_0_r, Nat.sub_diag by lia.
  cbn [lookup list_lookup].
  rewrite !bool_decide_eq_true_2 by reflexivity. cbn [negb orb].
  rewrite <- app_assoc, take_app_length.
  exists b2. split; [reflexivity|]. split; [exact Hr2|]. split; [|congruence].
  rewrite Hs2, Hs1, drop_app_add. reflexivity.
Qed.

(** An inline command of the stream under [DecodeMultiBulk]: the tokens of
    the line, and the stream behind it left for the next call. *)
Lemma DecodeMultiBulk_inline_bytes (fuel : nat)
    (d : Decoder (R := bytes_Reader)) (line post : list byte) :
  Err d = None -> ready (br d) ->
  stream (br d) = line ++ CR :: LF :: post ->
  LF ∉ line -> head line <> Some "*"%byte ->
  (length line + 1 < fuel)%nat ->
  exists b',
    DecodeMultiBulk fuel d
    = (if decide (Forall (eq " "%byte) line)
       then Some (None, Some ErrBadMultiBulkLen,
                  mkDecoder b' (Some ErrBadMultiBulkLen))
       else Some (Some (NewBulkBytes <$> inline_tokens line), None,
                  mkDecoder b' None)) /\
    ready b' /\ stream b' = post.
Proof.
  intros He Hready Hs Hn Hhd Hf.
  assert (Hc : exists c s, line ++ CR :: LF :: post = c :: s /\ c <> "*"%byte).
  { destruct line as [|c rest].
    - exists CR, (LF :: post). split; [reflexivity | discriminate].
    - exists c, (rest ++ CR :: LF :: post). split; [reflexivity|].
      intros ->. now apply Hhd. }
  destruct Hc as (c & s & Hcs & Hc).
  destruct (PeekByte_bytes (br d) c s Hready) as (b1 & Hpeek & Hr1 & Hs1 & _ & _);
    [congruence|].
  rewrite <- Hcs in Hs1.
  destruct (decodeTextBytes_bytes fuel b1 line post Hr1 Hs1 Hn Hf)
    as (b2 & Hdt & Hr2 & Hs2 & _).
  exists b2. split; [|now split].
  unfold DecodeMultiBulk, decodeMultiBulk. rewrite He, Hpeek.
  rewrite bool_decide_eq_false_2 by exact Hc. cbn [negb].
  unfold decodeSingleLineMultiBulk. rewrite Hdt.
  cbn [mbind option_bind default from_option id].
  rewrite split_line_inline_tokens, length_fmap.
  destruct (decide (Forall (eq " "%byte) line)) as [Hsp | Hsp].
  - apply inline_tokens_nil in Hsp. rewrite Hsp. reflexivity.
  - rewrite <- inline_tokens_nil in Hsp.
    destruct (inline_tokens line); [congruence | reflexivity].
Qed.

(** A multi-bulk header of the stream whose count is zero or negative:
    [DecodeMultiBulk] answers [ErrBadArrayLen], keeps it, and has read the
    header line and nothing more. *)
Lemma DecodeMultiBulk_bad_count_bytes (fuel : nat)
    (d : Decoder (R := bytes_Reader)) (digits post : list byte) (n : Z) :
  Err d = None -> ready (br d) ->
  stream (br d) = "*"%byte :: digits ++ CR :: LF :: post ->
  LF ∉ digits -> (length digits + 1 < length (buf (br d)))%nat ->
  Btoi64 digits = (n, None) -> n <= 0 ->
  exists b',
    DecodeMultiBulk fuel d
    = Some (None, Some ErrBadArrayLen, mkDecoder b' (Some ErrBadArrayLen)) /\
    ready b' /\ stream b' = post.
Proof.
  intros He Hready Hs Hn Hfit Hint Hle.
  destruct (PeekByte_bytes (br d) _ _ Hready Hs) as (b1 & Hpeek & Hr1 & Hs1 & _ & Hl1).
  destruct (ReadByte_bytes b1 _ _ Hr1 Hs1) as (b2 & Hrb & Hr2 & Hs2 & Hl2).
  destruct (decodeInt_bytes b2 digits post Hr2 Hs2 Hn) as (b3 & Hdi & Hr3 & Hs3 & _);
    [lia|].
  rewrite Hint in Hdi. cbn [fst snd] in Hdi.
  exists b3. split; [|now split].
  unfold DecodeMultiBulk, decodeMultiBulk. rewrite He, Hpeek.
  rewrite bool_decide_eq_true_2 by reflexivity. cbn [negb].
  rewrite Hrb, Hdi. cbn [mbind option_bind].
  replace (n <=? 0) with true by lia. reflexivity.
Qed.

(** A bulk frame of the stream under [Decode]. *)
Lemma Decode_bulk_bytes (fuel : nat) (d : Decoder (R := bytes_Reader))
    (hdr payload post : list byte) :
  Err d = None -> ready (br d) ->
  stream (br d)
  = "$"%byte :: hdr ++ CR :: LF :: payload ++ CR :: LF :: post ->
  LF ∉ hdr -> (length hdr + 1 < length (buf (br d)))%nat ->
  Btoi64 hdr = (Z.of_nat (length payload), None) ->
  Z.of_nat (length payload) <= MaxBulkBytesLen ->
  (length payload + 2 < fuel)%nat ->
  exists b',
    Decode fuel d = Some (Some (NewBulkBytes payload), None, mkDecoder b' None) /\
    ready b' /\ stream b' = post.
Proof.
  intros He Hready Hs Hn Hfit Hint Hmax Hf.
  destruct fuel as [|fuel]; [lia|].
  destruct (ReadByte_bytes (br d) _ _ Hready Hs) as (b1 & Hrb & Hr1 & Hs1 & Hl1).
  destruct (decodeBulkBytes_bytes fuel b1 hdr payload post Hr1 Hs1 Hn)
    as (b2 & Hdb & Hr2 & Hs2 & _); [lia | exact Hint | exact Hmax | lia |].
  exists b2. split; [|now split].
  unfold Decode. rewrite He. cbn [decodeResp]. rewrite Hrb.
  rewrite !bool_decide_eq_false_2 by discriminate. cbn [orb].
  rewrite bool_decide_eq_true_2 by reflexivity.
  rewrite Hdb. reflexivity.
Qed.

(** *** The theorems at work on [bytes.Reader] sources *)

Definition crlf : list byte := [CR; LF].

(** A reader of 16 bytes over ["5\r\nhello\r\n+OK\r\n"], the '$' read. *)
Definition reader_hello : Reader bytes_Reader :=
  NewReaderSize (bytes "5" ++ crlf ++ bytes "hello" ++ crlf ++ bytes "+OK" ++ crlf) 16.

Definition reader_hello_after_int : Reader bytes_Reader :=
  match decodeInt reader_hello with
  | Some (_, _, b1) => b1
  | None => reader_hello
  end.

Lemma decodeBulkBytes_cases_witness :
  decodeInt reader_hello = Some (5, None, reader_hello_after_int) /\
  exists b2, decodeBulkBytes 8 reader_hello = Some (Some (bytes "hello"), None, b2).
Proof.
  assert (Hint : decodeInt reader_hello = Some (5, None, reader_hello_after_int))
    by (vm_compute; reflexivity).
  split; [exact Hint|].
  destruct (decodeBulkBytes_cases 8 _ _ _ Hint) as (_ & _ & _ & _ & _ & _ & _ & Hread).
  destruct (ReadFull 8 reader_hello_after_int (Z.to_nat 5 + 2))
    as [[[v e] b2]|] eqn:Erf; [|vm_compute in Erf; discriminate].
  specialize (Hread ltac:(vm_compute; split; discriminate) v e b2 eq_refl).
  exists b2.
  assert (Hv : v = Some (bytes "hello" ++ crlf) /\ e = None).
  { vm_compute in Erf. injection Erf as <- <- _. split; reflexivity. }
  destruct Hv as [-> ->].
  destruct Hread as (payload & c1 & c2 & Hv & _ & ->).
  assert (payload = bytes "hello" /\ c1 = CR /\ c2 = LF) as (-> & -> & ->).
  { injection Hv as Hv. apply (f_equal reverse) in Hv.
    rewrite !reverse_app in Hv. cbn in Hv. injection Hv as <- <- Hv.
    apply (f_equal reverse) in Hv. rewrite reverse_involutive in Hv.
    split; [symmetry; exact Hv | split; reflexivity]. }
  rewrite decide_True by (split; reflexivity). reflexivity.
Defined.

(** A decoder over the inline command ["SET a  b \r\n"]. *)
Definition decoder_inline : Decoder (R := bytes_Reader) :=
  NewDecoderSize (bytes "SET a  b " ++ crlf) 64.

Definition decoder_inline_peeked : Reader bytes_Reader :=
  snd (PeekByte (br decoder_inline)).

Lemma DecodeMultiBulk_inline_witness :
  exists d',
    DecodeMultiBulk 4 decoder_inline
    = Some (Some [NewBulkBytes (bytes "SET"); NewBulkBytes (bytes "a");
                  NewBulkBytes (bytes "b")], None, d').
Proof.
  destruct (DecodeMultiBulk_inline 4 decoder_inline "S" decoder_inline_peeked)
    as [Heq _]; [reflexivity | vm_compute; reflexivity | discriminate |].
  rewrite Heq. vm_compute. eexists. reflexivity.
Defined.

(** A decoder over ["?\r\n"], which is no frame. *)
Definition decoder_bad : Decoder (R := bytes_Reader) :=
  NewDecoderSize (bytes "?" ++ crlf) 64.

Definition decoder_bad_failed : Decoder (R := bytes_Reader) :=
  match run_call 4 CallDecode decoder_bad with
  | Some (_, d1) => d1
  | None => decoder_bad
  end.

Lemma sticky_decoder_error_witness :
  run_call 4 CallDecode decoder_bad = Some (Some (ErrBadRespType "?"), decoder_bad_failed)
  /\ run_calls 4 [CallDecode; CallDecodeMultiBulk; CallDecode] decoder_bad_failed
     = Some (replicate 3 (Some ErrFailedDecoder), decoder_bad_failed).
Proof.
  assert (Hrun : run_call 4 CallDecode decoder_bad
                 = Some (Some (ErrBadRespType "?"), decoder_bad_failed))
    by (vm_compute; reflexivity).
  split; [exact Hrun|].
  destruct (sticky_decoder_error _ _ _ _ _ Hrun) as (_ & _ & Hcalls & _).
  exact (Hcalls 4%nat [CallDecode; CallDecodeMultiBulk; CallDecode]).
Defined.

(** A decoder over the empty array ["*0\r\n"]. *)
Definition decoder_empty_array : Decoder (R := bytes_Reader) :=
  NewDecoderSize (bytes "*0" ++ crlf) 64.

Definition decoder_empty_array_peeked : Reader bytes_Reader :=
  snd (PeekByte (br decoder_empty_array)).

Lemma DecodeMultiBulk_rejects_empty_array_witness :
  (exists d', DecodeMultiBulk 4 decoder_empty_array
              = Some (None, Some ErrBadArrayLen, d')) /\
  (exists d', Decode 5 decoder_empty_array
              = Some (Some (mkResp TypeArray None (Some [])), None, d')).
Proof.
  destruct (DecodeMultiBulk_rejects_empty_array 4 decoder_empty_array
              decoder_empty_array_peeked) as (Hn & _ & _).
  - unfold wf. vm_compute. lia.
  - reflexivity.
  - vm_compute. reflexivity.
  - destruct (decodeInt (set_rpos decoder_empty_array_peeked
                                  (rpos decoder_empty_array_peeked + 1)))
      as [[[n e] b3]|] eqn:Ei; [|vm_compute in Ei; discriminate].
    assert (Hne : n = 0 /\ e = None)
      by (vm_compute in Ei; injection Ei as <- <- _; split; reflexivity).
    destruct Hne as [-> ->].
    destruct (Hn 0 b3 eq_refl) as (Hm & Hd & _).
    split; eexists; [apply Hm; lia | apply Hd; reflexivity].
Defined.

(** [Decode(r)], [DecodeFromBytes(p)] and [DecodeMultiBulkFromBytes(p)]. *)
Definition DecodeFromBytes (fuel : nat) (p : list byte) :=
  Decode fuel (NewDecoder (R := bytes_Reader) p).
Definition DecodeMultiBulkFromBytes (fuel : nat) (p : list byte) :=
  DecodeMultiBulk fuel (NewDecoder (R := bytes_Reader) p).

(** *** Frames of a byte stream: lines, integers, bulks *)

Section decoder_streams.

(** The line [decodeTextBytes] and [decodeInt] take from what [ReadBytes]
    or [ReadSlice] returned, when the byte before LF is not CR. *)
Lemma bad_crlf_end (pre : list byte) :
  last pre <> Some CR ->
  let bs := pre ++ [LF] in
  ((length bs <? 2)%nat
   || negb (bool_decide (bs !! (length bs - 2)%nat = Some CR))) = true.
Proof.
  intros Hl. cbn zeta. destruct pre as [|x pre] using rev_ind; [reflexivity|].
  rewrite last_snoc in Hl.
  apply orb_true_iff. right. rewrite !length_app. cbn [length].
  replace (length pre + 1 + 1 - 2)%nat with (length pre) by lia.
  rewrite <- app_assoc. cbn [app].
  rewrite list_lookup_middle by reflexivity.
  rewrite bool_decide_eq_false_2 by congruence. reflexivity.
Qed.

Lemma decodeTextBytes_bad_end (fuel : nat) (b : Reader bytes_Reader)
    (pre post : list byte) :
  ready b -> stream b = pre ++ LF :: post -> LF ∉ pre ->
  (length pre < fuel)%nat -> last pre <> Some CR ->
  exists b',
    decodeTextBytes fuel b = Some (None, Some ErrBadCRLFEnd, b') /\
    ready b' /\ stream b' = post.
Proof.
  intros Hready Hs Hn Hf Hl.
  destruct (ReadBytes_bytes LF fuel b pre post Hready Hs Hn Hf)
    as (b' & Hrb & Hr' & Hs' & _).
  exists b'. split; [|now split].
  unfold decodeTextBytes. rewrite Hrb. cbn [mbind option_bind default from_option id].
  now rewrite (bad_crlf_end pre Hl).
Qed.

Lemma decodeTextBytes_eof (fuel : nat) (b : Reader bytes_Reader) :
  ready b -> LF ∉ stream b -> (length (stream b) < fuel)%nat ->
  exists b', decodeTextBytes fuel b = Some (None, Some (ErrIO EOF), b').
Proof.
  intros Hready Hn Hf.
  destruct (ReadBytes_loop_eof LF fuel b [] 0 Hready Hn Hf) as (b' & Hrb & _).
  exists b'. unfold decodeTextBytes, ReadBytes. now rewrite Hrb.
Qed.

(** An integer line that does not fit the buffer with its CR LF. *)
Lemma decodeInt_buffer_full (b : Reader bytes_Reader) (digits post : list byte) :
  ready b -> stream b = digits ++ CR :: LF :: post -> LF ∉ digits ->
  (length (buf b) <= length digits + 1)%nat ->
  exists b',
    decodeInt b = Some (0, Some ErrBufferFull, b') /\ ready b' /\
    stream b' = drop (length (buf b)) (stream b).
Proof.
  intros Hready Hs Hn Hfit. rewrite crlf_stream in Hs.
  pose proof (ReadSlice_bytes b LF Hready) as Hout.
  unfold ReadSlice_outcome in Hout.
  assert (Hlen : length (digits ++ [CR]) = (length digits + 1)%nat)
    by (rewrite length_app; reflexivity).
  assert (Hix : IndexByte (take (length (buf b)) (stream b)) LF = None).
  { apply IndexByte_None. rewrite Hs, take_app_le by lia.
    apply not_in_take. now apply not_in_line_cr. }
  rewrite Hix in Hout.
  replace (_ <=? _)%nat with true in Hout
    by (symmetry; apply Nat.leb_le; rewrite Hs, length_app; cbn [length]; lia).
  destruct Hout as (b' & Hrs & Hr' & Hs' & _).
  exists b'. split; [|now split].
  unfold decodeInt. now rewrite Hrs.
Qed.

(** The frames of one line behind their type byte. *)
Lemma decodeResp_line (fuel : nat) (b : Reader bytes_Reader) (c : byte)
    (line post : list byte) :
  ready b -> stream b = c :: line ++ CR :: LF :: post ->
  c = TypeString \/ c = TypeError \/ c = TypeInt ->
  LF ∉ line -> (length line + 1 < fuel)%nat ->
  exists b',
    decodeResp (S fuel) b = Some (Allocated (mkResp c (Some line) None) None, b') /\
    ready b' /\ stream b' = post /\ length (buf b') = length (buf b).
Proof.
  intros Hready Hs Hc Hn Hf.
  destruct (ReadByte_bytes b _ _ Hready Hs) as (b1 & Hrb & Hr1 & Hs1 & Hl1).
  destruct (decodeTextBytes_bytes fuel b1 line post Hr1 Hs1 Hn Hf)
    as (b2 & Hdt & Hr2 & Hs2 & Hl2).
  exists b2. split; [|split; [exact Hr2|split; [exact Hs2 | congruence]]].
  cbn [decodeResp]. rewrite Hrb.
  replace (_ || _ || _) with true
    by (symmetry; destruct Hc as [-> | [-> | ->]]; reflexivity).
  now rewrite Hdt.
Qed.

Lemma decodeResp_bulk (fuel : nat) (b : Reader bytes_Reader)
    (hdr payload post : list byte) :
  ready b ->
  stream b = "$"%byte :: hdr ++ CR :: LF :: payload ++ CR :: LF :: post ->
  LF ∉ hdr -> (length hdr + 1 < length (buf b))%nat ->
  Btoi64 hdr = (Z.of_nat (length payload), None) ->
  Z.of_nat (length payload) <= MaxBulkBytesLen ->
  (length payload + 2 < fuel)%nat ->
  exists b',
    decodeResp fuel b = Some (Allocated (NewBulkBytes payload) None, b') /\
    ready b' /\ stream b' = post /\ length (buf b') = length (buf b).
Proof.
  intros Hready Hs Hn Hfit Hint Hmax Hf.
  destruct fuel as [|fuel]; [lia|].
  destruct (ReadByte_bytes b _ _ Hready Hs) as (b1 & Hrb & Hr1 & Hs1 & Hl1).
  destruct (decodeBulkBytes_bytes fuel b1 hdr payload post Hr1 Hs1 Hn)
    as (b2 & Hdb & Hr2 & Hs2 & Hl2); [lia | exact Hint | exact Hmax | lia |].
  exists b2. split; [|split; [exact Hr2|split; [exact Hs2 | congruence]]].
  cbn [decodeResp]. rewrite Hrb.
  rewrite !bool_decide_eq_false_2 by discriminate. cbn [orb].
  rewrite bool_decide_eq_true_2 by reflexivity.
  now rewrite Hdb.
Qed.

(** The null bulk, and a bulk whose payload is not followed by CR LF. *)
Lemma decodeBulkBytes_null (fuel : nat) (b : Reader bytes_Reader)
    (hdr post : list byte) :
  ready b -> stream b = hdr ++ CR :: LF :: post ->
  LF ∉ hdr -> (length hdr + 1 < length (buf b))%nat ->
  Btoi64 hdr = (-1, None) ->
  exists b', decodeBulkBytes fuel b = Some (None, None, b') /\
             ready b' /\ stream b' = post.
Proof.
  intros Hready Hs Hn Hfit Hint.
  destruct (decodeInt_bytes b hdr _ Hready Hs Hn Hfit) as (b1 & Hdi & Hr1 & Hs1 & _).
  rewrite Hint in Hdi. cbn [fst snd] in Hdi.
  exists b1. split; [|now split]. unfold decodeBulkBytes. now rewrite Hdi.
Qed.

Lemma decodeBulkBytes_bad_end (fuel : nat) (b : Reader bytes_Reader)
    (hdr payload post : list byte) (c1 c2 : byte) :
  ready b ->
  stream b = hdr ++ CR :: LF :: payload ++ c1 :: c2 :: post ->
  LF ∉ hdr -> (length hdr + 1 < length (buf b))%nat ->
  Btoi64 hdr = (Z.of_nat (length payload), None) ->
  Z.of_nat (length payload) <= MaxBulkBytesLen ->
  (length payload + 2 <= fuel)%nat ->
  ~ (c1 = CR /\ c2 = LF) ->
  exists b',
    decodeBulkBytes fuel b = Some (None, Some ErrBadCRLFEnd, b') /\
    ready b' /\ stream b' = post.
Proof.
  intros Hready Hs Hn Hfit Hint Hmax Hf Hbad.
  destruct (decodeInt_bytes b hdr _ Hready Hs Hn Hfit) as (b1 & Hdi & Hr1 & Hs1 & Hl1).
  rewrite Hint in Hdi. cbn [fst snd] in Hdi.
  unfold decodeBulkBytes. rewrite Hdi. cbn [mbind option_bind].
  replace (Z.of_nat (length payload) <? -1) with false by lia.
  replace (MaxBulkBytesLen <? Z.of_nat (length payload)) with false by lia.
  replace (Z.of_nat (length payload) =? -1) with false by lia.
  rewrite Nat2Z.id.
  destruct (ReadFull_bytes fuel b1 (length payload + 2) Hr1)
    as (b2 & Hrf & Hr2 & Hs2 & Hl2); [lia | | lia |].
  { rewrite Hs1, length_app. cbn [length]. lia. }
  rewrite Hrf. cbn [mbind option_bind default from_option id].
  assert (Htk : take (length payload + 2) (stream b1) = payload ++ [c1; c2]).
  { rewrite Hs1, take_app_add. reflexivity. }
  rewrite Htk.
  rewrite list_lookup_middle by reflexivity.
  replace (length payload + 1)%nat with (length (payload ++ [c1]) + 0)%nat
    by (rewrite length_app; cbn; lia).
  replace (payload ++ [c1; c2]) with ((payload ++ [c1]) ++ [c2])
    by (now rewrite <- app_assoc).
  rewrite lookup_app_r, Nat.add_0_r, Nat.sub_diag by lia.
  cbn [lookup list_lookup].
  exists b2. split; [|split; [exact Hr2|]].
  - destruct (decide (c1 = CR)) as [-> | H1].
    + rewrite bool_decide_eq_true_2 by reflexivity. cbn [negb orb].
      rewrite bool_decide_eq_false_2 by (intros [= ->]; tauto). reflexivity.
    + rewrite bool_decide_eq_false_2 by congruence. reflexivity.
  - rewrite Hs2, Hs1, drop_app_add. reflexivity.
Qed.

(** The bytes of a bulk frame, for a header [hdr] and a payload. *)
Definition bulk_frame (hp : list byte * list byte) : list byte :=
  "$"%byte :: fst hp ++ CR :: LF :: snd hp ++ [CR; LF].

(** A header the decoder takes for the payload, with a buffer of [L]
    bytes: it fits the buffer with its CR LF and [Btoi64] reads it as the
    length of the payload, below the limit. *)
Definition bulk_ok (L : nat) (hp : list byte * list byte) : Prop :=
  (LF ∉ fst hp) /\ (length (fst hp) + 1 < L)%nat /\
  Btoi64 (fst hp) = (Z.of_nat (length (snd hp)), None) /\
  Z.of_nat (length (snd hp)) <= MaxBulkBytesLen.

Lemma decode_elements_bulks (fuel : nat) (bulk_only : bool) :
  forall (items : list (list byte * list byte)) (b : Reader bytes_Reader)
         (acc : list Resp) (post : list byte),
    ready b -> stream b = concat (bulk_frame <$> items) ++ post ->
    Forall (bulk_ok (length (buf b))) items ->
    Forall (fun hp => (length (snd hp) + 2 < fuel)%nat) items ->
    exists b',
      decode_elements (decodeResp fuel) bulk_only (length items) b acc
      = Some (Some (acc ++ (NewBulkBytes <$> (snd <$> items))), None, b') /\
      ready b' /\ stream b' = post /\ length (buf b') = length (buf b).
Proof.
  induction items as [|[hdr payload] items IH]; intros b acc post Hready Hs Hok Hf.
  - exists b. cbn [length decode_elements fmap list_fmap]. rewrite app_nil_r.
    split; [reflexivity|]. split; [exact Hready|]. split; [exact Hs | reflexivity].
  - apply Forall_cons in Hok as [(Hn & Hfit & Hint & Hmax) Hok].
    apply Forall_cons in Hf as [Hf1 Hf].
    cbn [fst snd] in *.
    cbn [fmap list_fmap concat length decode_elements] in *.
    unfold bulk_frame in Hs at 1. cbn [fst snd app] in Hs.
    rewrite <- !app_assoc in Hs. cbn [app] in Hs. rewrite <- app_assoc in Hs.
    cbn [app] in Hs.
    destruct (decodeResp_bulk fuel b hdr payload _ Hready Hs Hn Hfit Hint Hmax Hf1)
      as (b1 & Hdr & Hr1 & Hs1 & Hl1).
    rewrite Hdr. cbn [mbind option_bind Type' NewBulkBytes].
    rewrite bool_decide_eq_true_2 by reflexivity. cbn [negb].
    rewrite andb_false_r.
    destruct (IH b1 (acc ++ [NewBulkBytes payload]) post Hr1 Hs1) as (b' & Hrun & Hr' & Hs' & Hl').
    { now rewrite Hl1. }
    { exact Hf. }
    exists b'. split; [|split; [exact Hr'|split; [exact Hs' | congruence]]].
    unfold NewBulkBytes in *. rewrite Hrun, <- app_assoc. reflexivity.
Qed.

End decoder_streams.

Section decoder_on_streams.

(** X12.  Over a byte source, [decodeTextBytes] returns the bytes up to the
    first CR LF, without them, whatever the size of the buffer, and leaves
    the rest of the stream; a line feed that no carriage return precedes
    gives [ErrBadCRLFEnd] (the line is consumed all the same); and a stream
    that ends before a line feed gives [io.EOF]. *)
Theorem decodeTextBytes_on_stream (fuel : nat) (b : Reader bytes_Reader) :
  ready b -> (length (stream b) < fuel)%nat ->
  (forall line post,
     stream b = line ++ CR :: LF :: post -> LF ∉ line ->
     exists b', decodeTextBytes fuel b = Some (Some line, None, b') /\
                ready b' /\ stream b' = post) /\
  (forall pre post,
     stream b = pre ++ LF :: post -> LF ∉ pre -> last pre <> Some CR ->
     exists b', decodeTextBytes fuel b = Some (None, Some ErrBadCRLFEnd, b') /\
                ready b' /\ stream b' = post) /\
  (LF ∉ stream b ->
     exists b', decodeTextBytes fuel b = Some (None, Some (ErrIO EOF), b')).
Proof.
  intros Hready Hf. split; [|split].
  - intros line post Hs Hn.
    destruct (decodeTextBytes_bytes fuel b line post Hready Hs Hn)
      as (b' & ? & ? & ? & _); [|eauto].
    rewrite Hs, length_app in Hf. cbn [length] in Hf. lia.
  - intros pre post Hs Hn Hl.
    apply (decodeTextBytes_bad_end fuel b pre post); try assumption.
    rewrite Hs, length_app in Hf. cbn [length] in Hf. lia.
  - intros Hn. now apply decodeTextBytes_eof.
Qed.

(** X13.  Over a byte source, [decodeInt] parses with [Btoi64] the bytes
    before the first CR LF, provided the line fits the buffer with its CR
    LF: [decodeInt] reads with [ReadSlice], so a count or length line of
    [len(buf) - 1] bytes or more fails with [bufio.ErrBufferFull], however
    well formed it is. *)
Theorem decodeInt_on_stream (b : Reader bytes_Reader) (digits post : list byte) :
  ready b -> stream b = digits ++ CR :: LF :: post -> LF ∉ digits ->
  ((length digits + 1 < length (buf b))%nat ->
     exists b',
       decodeInt b = Some (fst (Btoi64 digits), snd (Btoi64 digits), b') /\
       ready b' /\ stream b' = post) /\
  ((length (buf b) <= length digits + 1)%nat ->
     exists b',
       decodeInt b = Some (0, Some ErrBufferFull, b') /\ ready b' /\
       stream b' = drop (length (buf b)) (stream b)).
Proof.
  intros Hready Hs Hn. split.
  - intros Hfit.
    destruct (decodeInt_bytes b digits post Hready Hs Hn Hfit) as (b' & ? & ? & ? & _).
    eauto.
  - intros Hbig. now apply (decodeInt_buffer_full b digits post).
Qed.

(** X14.  [Decode] on a status, error or integer frame: the frame returned
    has the type byte read and, as its value, the bytes of the line as they
    are.  The bytes behind ':' are not parsed: anything up to CR LF is
    accepted as an integer reply. *)
Theorem Decode_line_on_stream (fuel : nat) (d : Decoder (R := bytes_Reader))
    (c : byte) (line post : list byte) :
  Err d = None -> ready (br d) ->
  stream (br d) = c :: line ++ CR :: LF :: post ->
  c = TypeString \/ c = TypeError \/ c = TypeInt ->
  LF ∉ line -> (length line + 1 < fuel)%nat ->
  exists b',
    Decode (S fuel) d
    = Some (Some (mkResp c (Some line) None), None, mkDecoder b' None) /\
    ready b' /\ stream b' = post.
Proof.
  intros He Hready Hs Hc Hn Hf.
  destruct (decodeResp_line fuel (br d) c line post Hready Hs Hc Hn Hf)
    as (b' & Hdr & Hr' & Hs' & _).
  exists b'. split; [|now split].
  unfold Decode. now rewrite He, Hdr.
Qed.

Lemma Decode_of_bulk (fuel : nat) (d : Decoder (R := bytes_Reader)) b1 v e b2 :
  Err d = None -> ReadByte (br d) = ("$"%byte, None, b1) ->
  decodeBulkBytes fuel b1 = Some (v, e, b2) ->
  Decode (S fuel) d
  = Some (Some (mkResp TypeBulkBytes v None), e, mkDecoder b2 e).
Proof.
  intros He Hrb Hdb. unfold Decode. rewrite He. cbn [decodeResp]. rewrite Hrb.
  rewrite !bool_decide_eq_false_2 by discriminate. cbn [orb].
  rewrite bool_decide_eq_true_2 by reflexivity.
  rewrite Hdb. cbn [mbind option_bind Err]. now destruct e.
Qed.

Lemma decodeBulkBytes_short (fuel : nat) (b : Reader bytes_Reader)
    (hdr rest : list byte) (n : nat) :
  ready b -> stream b = hdr ++ CR :: LF :: rest ->
  LF ∉ hdr -> (length hdr + 1 < length (buf b))%nat ->
  Btoi64 hdr = (Z.of_nat n, None) -> Z.of_nat n <= MaxBulkBytesLen ->
  (length rest < n + 2)%nat -> (length rest < fuel)%nat ->
  exists b',
    decodeBulkBytes fuel b
    = Some (None,
            Some (ErrIO (if decide (rest = []) then EOF else ErrUnexpectedEOF)),
            b').
Proof.
  intros Hready Hs Hn Hfit Hint Hmax Hshort Hf.
  destruct (decodeInt_bytes b hdr _ Hready Hs Hn Hfit) as (b1 & Hdi & Hr1 & Hs1 & Hl1).
  rewrite Hint in Hdi. cbn [fst snd] in Hdi.
  unfold decodeBulkBytes. rewrite Hdi. cbn [mbind option_bind].
  replace (Z.of_nat n <? -1) with false by lia.
  replace (MaxBulkBytesLen <? Z.of_nat n) with false by lia.
  replace (Z.of_nat n =? -1) with false by lia.
  rewrite Nat2Z.id.
  destruct (ReadFull_short fuel b1 (n + 2) Hr1) as (b2 & Hrf & _);
    [rewrite Hs1; lia | rewrite Hs1; lia |].
  rewrite Hrf, Hs1. cbn [mbind option_bind]. eauto.
Qed.

(** X15.  [Decode] on a bulk frame whose header fits the buffer and reads
    as the number [n].  With [n = -1] it returns the null bulk, value nil.
    With [n] the length of the bytes that follow, CR LF behind them, it
    returns those bytes, which may hold CR and LF themselves.  Two bytes
    behind the payload that are not CR LF give [ErrBadCRLFEnd], and a stream
    that ends before [n + 2] bytes gives [io.ErrUnexpectedEOF], or [io.EOF]
    when nothing at all follows the header; the decoder has failed then. *)
Theorem Decode_bulk_on_stream (fuel : nat) (d : Decoder (R := bytes_Reader))
    (hdr rest : list byte) (n : Z) :
  Err d = None -> ready (br d) ->
  stream (br d) = "$"%byte :: hdr ++ CR :: LF :: rest ->
  LF ∉ hdr -> (length hdr + 1 < length (buf (br d)))%nat ->
  Btoi64 hdr = (n, None) -> n <= MaxBulkBytesLen ->
  (length rest < fuel)%nat ->
  (n = -1 ->
     exists b',
       Decode (S fuel) d
       = Some (Some (mkResp TypeBulkBytes None None), None, mkDecoder b' None) /\
       ready b' /\ stream b' = rest) /\
  (forall payload post,
     n = Z.of_nat (length payload) -> rest = payload ++ CR :: LF :: post ->
     exists b',
       Decode (S fuel) d
       = Some (Some (NewBulkBytes payload), None, mkDecoder b' None) /\
       ready b' /\ stream b' = post) /\
  (forall payload c1 c2 post,
     n = Z.of_nat (length payload) -> rest = payload ++ c1 :: c2 :: post ->
     ~ (c1 = CR /\ c2 = LF) ->
     exists b',
       Decode (S fuel) d
       = Some (Some (mkResp TypeBulkBytes None None), Some ErrBadCRLFEnd,
               mkDecoder b' (Some ErrBadCRLFEnd)) /\
       ready b' /\ stream b' = post) /\
  (0 <= n -> (Z.of_nat (length rest) < n + 2) ->
     let e := ErrIO (if decide (rest = []) then EOF else ErrUnexpectedEOF) in
     exists b',
       Decode (S fuel) d
       = Some (Some (mkResp TypeBulkBytes None None), Some e,
               mkDecoder b' (Some e))).
Proof.
  intros He Hready Hs Hn Hfit Hint Hmax Hf.
  destruct (ReadByte_bytes (br d) _ _ Hready Hs) as (b1 & Hrb & Hr1 & Hs1 & Hl1).
  rewrite <- Hl1 in Hfit.
  split; [|split; [|split]].
  - intros ->.
    destruct (decodeBulkBytes_null fuel b1 hdr rest Hr1 Hs1 Hn Hfit Hint)
      as (b' & Hdb & Hr' & Hs').
    exists b'. split; [|now split]. exact (Decode_of_bulk _ _ _ _ _ _ He Hrb Hdb).
  - intros payload post -> ->.
    destruct (decodeBulkBytes_bytes fuel b1 hdr payload post Hr1 Hs1 Hn Hfit Hint Hmax)
      as (b' & Hdb & Hr' & Hs' & _).
    { rewrite length_app in Hf. cbn [length] in Hf. lia. }
    exists b'. split; [|now split]. exact (Decode_of_bulk _ _ _ _ _ _ He Hrb Hdb).
  - intros payload c1 c2 post -> -> Hbad.
    destruct (decodeBulkBytes_bad_end fuel b1 hdr payload post c1 c2
                Hr1 Hs1 Hn Hfit Hint Hmax) as (b' & Hdb & Hr' & Hs');
      [rewrite length_app in Hf; cbn [length] in Hf; lia | exact Hbad |].
    exists b'. split; [|now split]. exact (Decode_of_bulk _ _ _ _ _ _ He Hrb Hdb).
  - intros H0 Hshort. cbn zeta.
    assert (Hint' : Btoi64 hdr = (Z.of_nat (Z.to_nat n), None))
      by (rewrite Z2Nat.id by exact H0; exact Hint).
    destruct (decodeBulkBytes_short fuel b1 hdr rest (Z.to_nat n)
                Hr1 Hs1 Hn Hfit Hint') as (b' & Hdb); [lia | lia | exact Hf |].
    exists b'. exact (Decode_of_bulk _ _ _ _ _ _ He Hrb Hdb).
Qed.

(** X16.  A command as a client sends it: '*', the count, CR LF, then as
    many bulk frames.  [DecodeMultiBulk] returns the payloads of the frames,
    in order, as bulk frames, and [Decode] returns the array of them; both
    leave the stream that follows the last frame for the next call.  The
    count and every length are read by [Btoi64] from a line that fits the
    buffer; the payloads may be longer than the buffer. *)
Theorem DecodeMultiBulk_command_on_stream (fuel : nat)
    (d : Decoder (R := bytes_Reader)) (cnt : list byte)
    (items : list (list byte * list byte)) (post : list byte) :
  Err d = None -> ready (br d) ->
  stream (br d)
  = "*"%byte :: cnt ++ CR :: LF :: concat (bulk_frame <$> items) ++ post ->
  LF ∉ cnt -> (length cnt + 1 < length (buf (br d)))%nat ->
  Btoi64 cnt = (Z.of_nat (length items), None) ->
  (0 < length items)%nat -> Z.of_nat (length items) <= MaxArrayLen ->
  Forall (bulk_ok (length (buf (br d)))) items ->
  Forall (fun hp => (length (snd hp) + 2 < fuel)%nat) items ->
  let frames := NewBulkBytes <$> (snd <$> items) in
  (exists b',
     DecodeMultiBulk fuel d = Some (Some frames, None, mkDecoder b' None) /\
     ready b' /\ stream b' = post) /\
  (exists b',
     Decode (S fuel) d
     = Some (Some (mkResp TypeArray None (Some frames)), None, mkDecoder b' None) /\
     ready b' /\ stream b' = post).
Proof.
  intros He Hready Hs Hn Hfit Hint Hpos Hmax Hok Hf. cbn zeta.
  destruct (PeekByte_bytes (br d) _ _ Hready Hs) as (b1 & Hpeek & Hr1 & Hs1 & _ & Hl1).
  destruct (ReadByte_bytes b1 _ _ Hr1 Hs1) as (b2 & Hrb & Hr2 & Hs2 & Hl2).
  destruct (ReadByte_bytes (br d) _ _ Hready Hs) as (b2' & Hrb' & Hr2' & Hs2' & Hl2').
  assert (Hcount : forall b2 : Reader bytes_Reader,
            ready b2 -> length (buf b2) = length (buf (br d)) ->
            stream b2 = cnt ++ CR :: LF :: concat (bulk_frame <$> items) ++ post ->
            forall bulk_only, exists b3 b',
              decodeInt b2 = Some (Z.of_nat (length items), None, b3) /\
              decode_elements (decodeResp fuel) bulk_only (length items) b3 []
              = Some (Some (NewBulkBytes <$> (snd <$> items)), None, b') /\
              ready b' /\ stream b' = post).
  { intros b0 Hr0 Hl0 Hs0 bulk_only.
    destruct (decodeInt_bytes b0 cnt _ Hr0 Hs0 Hn ltac:(lia)) as (b3 & Hdi & Hr3 & Hs3 & Hl3).
    rewrite Hint in Hdi. cbn [fst snd] in Hdi.
    destruct (decode_elements_bulks fuel bulk_only items b3 [] post Hr3 Hs3)
      as (b' & Hrun & Hr' & Hs' & _); [now rewrite Hl3, Hl0 | exact Hf |].
    cbn [app] in Hrun. exists b3, b'.
    split; [exact Hdi|]. split; [exact Hrun|]. now split. }
  assert (Hlo : (Z.of_nat (length items) <=? 0) = false) by lia.
  assert (Hhi : (MaxArrayLen <? Z.of_nat (length items)) = false) by lia.
  split.
  - destruct (Hcount b2 Hr2 ltac:(congruence) Hs2 true) as (b3 & b' & Hdi & Hrun & Hr' & Hs').
    exists b'. split; [|now split].
    unfold DecodeMultiBulk, decodeMultiBulk. rewrite He, Hpeek.
    rewrite bool_decide_eq_true_2 by reflexivity. cbn [negb].
    rewrite Hrb, Hdi. cbn [mbind option_bind]. rewrite Hlo, Hhi, Nat2Z.id, Hrun.
    reflexivity.
  - destruct (Hcount b2' Hr2' Hl2' Hs2' false) as (b3 & b' & Hdi & Hrun & Hr' & Hs').
    exists b'. split; [|now split].
    unfold Decode. rewrite He. cbn [decodeResp]. rewrite Hrb'.
    rewrite !bool_decide_eq_false_2 by discriminate. cbn [orb].
    rewrite bool_decide_eq_true_2 by reflexivity.
    unfold decodeArray. rewrite Hdi. cbn [mbind option_bind].
    replace (Z.of_nat (length items) <? -1) with false by lia.
    replace (Z.of_nat (length items) =? -1) with false by lia.
    now rewrite Hhi, Nat2Z.id, Hrun.
Qed.

(** X17.  At the end of the input [Decode] and [DecodeMultiBulk] return
    [io.EOF] and the decoder has failed.  On a first byte that is none of
    '+', '-', ':', '$' and '*', [Decode] consumes that byte and fails with
    the bad-type error that names it. *)
Theorem Decode_end_of_input (fuel : nat) (d : Decoder (R := bytes_Reader)) :
  Err d = None -> ready (br d) ->
  (stream (br d) = [] ->
     (exists b', Decode (S fuel) d
                 = Some (None, Some (ErrIO EOF), mkDecoder b' (Some (ErrIO EOF)))) /\
     (exists b', DecodeMultiBulk fuel d
                 = Some (None, Some (ErrIO EOF), mkDecoder b' (Some (ErrIO EOF))))) /\
  (forall c rest,
     stream (br d) = c :: rest ->
     c <> TypeString -> c <> TypeError -> c <> TypeInt ->
     c <> TypeBulkBytes -> c <> TypeArray ->
     exists b',
       Decode (S fuel) d
       = Some (None, Some (ErrBadRespType c),
               mkDecoder b' (Some (ErrBadRespType c))) /\
       ready b' /\ stream b' = rest).
Proof.
  intros He Hready. split.
  - intros Hs. destruct (ReadByte_eof (br d) Hready Hs) as (b' & Hrb & Hpb & _).
    split; exists b'.
    + unfold Decode. rewrite He. cbn [decodeResp]. now rewrite Hrb.
    + unfold DecodeMultiBulk, decodeMultiBulk. now rewrite He, Hpb.
  - intros c rest Hs H1 H2 H3 H4 H5.
    destruct (ReadByte_bytes (br d) _ _ Hready Hs) as (b' & Hrb & Hr' & Hs' & _).
    exists b'. split; [|now split].
    unfold Decode. rewrite He. cbn [decodeResp]. rewrite Hrb.
    now rewrite !bool_decide_eq_false_2 by assumption.
Qed.

(** X18.  [DecodeMultiBulk] takes bulk frames only: an array whose first
    element is a status, error or integer frame is refused with
    [ErrBadMultiBulkContent], once that element has been read, and the
    decoder has failed. *)
Theorem DecodeMultiBulk_needs_bulks (fuel : nat) (d : Decoder (R := bytes_Reader))
    (cnt : list byte) (n : Z) (c : byte) (line post : list byte) :
  Err d = None -> ready (br d) ->
  stream (br d) = "*"%byte :: cnt ++ CR :: LF :: c :: line ++ CR :: LF :: post ->
  LF ∉ cnt -> (length cnt + 1 < length (buf (br d)))%nat ->
  Btoi64 cnt = (n, None) -> 0 < n <= MaxArrayLen ->
  c = TypeString \/ c = TypeError \/ c = TypeInt ->
  LF ∉ line -> (length line + 1 < fuel)%nat ->
  exists b',
    DecodeMultiBulk (S fuel) d
    = Some (None, Some ErrBadMultiBulkContent,
            mkDecoder b' (Some ErrBadMultiBulkContent)) /\
    ready b' /\ stream b' = post.
Proof.
  intros He Hready Hs Hn Hfit Hint Hrange Hc Hnl Hf.
  destruct (PeekByte_bytes (br d) _ _ Hready Hs) as (b1 & Hpeek & Hr1 & Hs1 & _ & Hl1).
  destruct (ReadByte_bytes b1 _ _ Hr1 Hs1) as (b2 & Hrb & Hr2 & Hs2 & Hl2).
  destruct (decodeInt_bytes b2 cnt _ Hr2 Hs2 Hn ltac:(lia)) as (b3 & Hdi & Hr3 & Hs3 & _).
  rewrite Hint in Hdi. cbn [fst snd] in Hdi.
  destruct (decodeResp_line fuel b3 c line post Hr3 Hs3 Hc Hnl Hf)
    as (b' & Hdr & Hr' & Hs' & _).
  exists b'. split; [|now split].
  unfold DecodeMultiBulk, decodeMultiBulk. rewrite He, Hpeek.
  rewrite bool_decide_eq_true_2 by reflexivity. cbn [negb].
  rewrite Hrb, Hdi. cbn [mbind option_bind].
  replace (n <=? 0) with false by lia.
  replace (MaxArrayLen <? n) with false by lia.
  destruct (Z.to_nat n) as [|k] eqn:Ek; [lia|].
  cbn [decode_elements]. rewrite Hdr. cbn [mbind option_bind Type'].
  rewrite bool_decide_eq_false_2
    by (destruct Hc as [-> | [-> | ->]]; discriminate).
  reflexivity.
Qed.

(** X19.  The count of an array is checked before any element is read: one
    above 1048576 is refused with [ErrBadArrayLenTooLong] by [Decode] and
    by [DecodeMultiBulk], one below -1 with [ErrBadArrayLen] by [Decode],
    and a count line that [Btoi64] does not accept with the error of
    [Btoi64]; the stream behind the count line is left unread. *)
Theorem array_count_is_checked_first (fuel : nat) (d : Decoder (R := bytes_Reader))
    (cnt post : list byte) :
  Err d = None -> ready (br d) ->
  stream (br d) = "*"%byte :: cnt ++ CR :: LF :: post ->
  LF ∉ cnt -> (length cnt + 1 < length (buf (br d)))%nat ->
  let refused (e : error) :=
    exists b',
      Decode (S fuel) d
      = Some (Some (mkResp TypeArray None None), Some e, mkDecoder b' (Some e)) /\
      ready b' /\ stream b' = post in
  let refused_multi (e : error) :=
    exists b',
      DecodeMultiBulk fuel d = Some (None, Some e, mkDecoder b' (Some e)) /\
      ready b' /\ stream b' = post in
  (forall n, Btoi64 cnt = (n, None) -> MaxArrayLen < n ->
     refused ErrBadArrayLenTooLong /\ refused_multi ErrBadArrayLenTooLong) /\
  (forall n, Btoi64 cnt = (n, None) -> n < -1 -> refused ErrBadArrayLen) /\
  (forall n e, Btoi64 cnt = (n, Some e) -> refused e /\ refused_multi e).
Proof.
  intros He Hready Hs Hn Hfit. cbn zeta.
  destruct (PeekByte_bytes (br d) _ _ Hready Hs) as (b1 & Hpeek & Hr1 & Hs1 & _ & Hl1).
  destruct (ReadByte_bytes b1 _ _ Hr1 Hs1) as (b2 & Hrb & Hr2 & Hs2 & Hl2).
  destruct (ReadByte_bytes (br d) _ _ Hready Hs) as (b2' & Hrb' & Hr2' & Hs2' & Hl2').
  destruct (decodeInt_bytes b2 cnt _ Hr2 Hs2 Hn ltac:(lia)) as (b3 & Hdi & Hr3 & Hs3 & _).
  destruct (decodeInt_bytes b2' cnt _ Hr2' Hs2' Hn ltac:(lia))
    as (b3' & Hdi' & Hr3' & Hs3' & _).
  assert (HD : forall e x,
            decodeArray (decodeResp fuel) b2' = Some (None, Some e, x) ->
            Decode (S fuel) d
            = Some (Some (mkResp TypeArray None None), Some e, mkDecoder x (Some e))).
  { intros e x Hda. unfold Decode. rewrite He. cbn [decodeResp]. rewrite Hrb'.
    rewrite !bool_decide_eq_false_2 by discriminate. cbn [orb].
    rewrite bool_decide_eq_true_2 by reflexivity. now rewrite Hda. }
  assert (HM : forall e x,
            ('(n, e0, b3) ← decodeInt b2;
             match e0 with
             | Some e0 => Some (None, Some e0, b3)
             | None =>
                 if n <=? 0 then Some (None, Some ErrBadArrayLen, b3)
                 else if MaxArrayLen <? n
                      then Some (None, Some ErrBadArrayLenTooLong, b3)
                      else decode_elements (decodeResp fuel) true (Z.to_nat n) b3 []
             end) = Some (None, Some e, x) ->
            DecodeMultiBulk fuel d = Some (None, Some e, mkDecoder x (Some e))).
  { intros e x Hm. unfold DecodeMultiBulk, decodeMultiBulk. rewrite He, Hpeek.
    rewrite bool_decide_eq_true_2 by reflexivity. cbn [negb].
    rewrite Hrb. now rewrite Hm. }
  split; [|split].
  - intros n Hint Hbig. rewrite Hint in Hdi, Hdi'. cbn [fst snd] in *. split.
    + exists b3'. split; [|now split]. apply HD. unfold decodeArray.
      rewrite Hdi'. cbn [mbind option_bind].
      assert (MaxArrayLen = 1048576) as HMx by reflexivity.
      replace (n <? -1) with false by lia.
      now replace (MaxArrayLen <? n) with true by lia.
    + exists b3. split; [|now split]. apply HM. rewrite Hdi. cbn [mbind option_bind].
      assert (MaxArrayLen = 1048576) as HMx by reflexivity.
      replace (n <=? 0) with false by lia.
      now replace (MaxArrayLen <? n) with true by lia.
  - intros n Hint Hneg. rewrite Hint in Hdi'. cbn [fst snd] in *.
    exists b3'. split; [|now split]. apply HD. unfold decodeArray.
    rewrite Hdi'. cbn [mbind option_bind].
    now replace (n <? -1) with true by lia.
  - intros n e Hint. rewrite Hint in Hdi, Hdi'. cbn [fst snd] in *. split.
    + exists b3'. split; [|now split]. apply HD. unfold decodeArray. now rewrite Hdi'.
    + exists b3. split; [|now split]. apply HM. now rewrite Hdi.
Qed.

End decoder_on_streams.

(** *** Inline commands on a stream *)

(** A line of tokens: [lead] spaces, every token of [items] followed by one
    space and as many more as it is paired with, the last token, [trail]
    spaces. *)
Definition spaces (k : nat) : list byte := replicate k " "%byte.

Definition inline_line (lead : nat) (items : list (list byte * nat))
    (last : list byte) (trail : nat) : list byte :=
  spaces lead
  ++ concat ((fun tk => fst tk ++ spaces (S (snd tk))) <$> items)
  ++ last ++ spaces trail.

(** A token of an inline command: not empty, without space and line feed. *)
Definition token_ok (t : list byte) : Prop :=
  t <> [] /\ (" "%byte ∉ t) /\ (LF ∉ t).

Lemma scan_token : forall t cur rest,
  " "%byte ∉ t -> scan cur (t ++ rest) = scan (cur ++ t) rest.
Proof.
  induction t as [|c t IH]; intros cur rest Hn; cbn [app scan].
  - now rewrite app_nil_r.
  - rewrite decide_False by (intros ->; apply Hn; left).
    rewrite IH by (intros Hin; apply Hn; now right).
    now rewrite <- app_assoc.
Qed.

Lemma scan_spaces : forall k rest, scan [] (spaces k ++ rest) = scan [] rest.
Proof.
  induction k as [|k IH]; intros rest; [reflexivity|].
  cbn [spaces replicate app scan]. rewrite decide_True by reflexivity.
  rewrite decide_True by reflexivity. apply IH.
Qed.

Lemma scan_token_end (cur : list byte) (k : nat) (rest : list byte) :
  cur <> [] -> scan cur (spaces (S k) ++ rest) = cur :: scan [] rest.
Proof.
  intros Hn. cbn [spaces replicate app scan]. rewrite decide_True by reflexivity.
  rewrite decide_False by exact Hn. f_equal. apply scan_spaces.
Qed.

Lemma scan_items : forall items rest,
  Forall token_ok (fst <$> items) ->
  scan [] (concat ((fun tk => fst tk ++ spaces (S (snd tk))) <$> items) ++ rest)
  = (fst <$> items) ++ scan [] rest.
Proof.
  induction items as [|[t k] items IH]; intros rest Hok; [reflexivity|].
  rewrite fmap_cons in Hok. apply Forall_cons in Hok as [(Hne & Hsp & _) Hok].
  cbn [fmap list_fmap concat fst snd app]. rewrite <- !app_assoc.
  rewrite scan_token by exact Hsp. cbn [app].
  rewrite scan_token_end by exact Hne. f_equal. now apply IH.
Qed.

(** The tokens of a line of tokens. *)
Lemma inline_tokens_line lead items last trail :
  Forall token_ok ((fst <$> items) ++ [last]) ->
  inline_tokens (inline_line lead items last trail) = (fst <$> items) ++ [last].
Proof.
  intros Hok. apply Forall_app in Hok as [Hitems Hlast].
  apply Forall_singleton in Hlast as (Hne & Hsp & _).
  rewrite <- scan_inline_tokens. unfold inline_line.
  rewrite scan_spaces, scan_items by exact Hitems. f_equal.
  rewrite scan_token by exact Hsp. cbn [app].
  destruct trail as [|k].
  - cbn [spaces replicate scan]. now rewrite decide_False by exact Hne.
  - rewrite <- (app_nil_r (spaces (S k))), scan_token_end by exact Hne.
    reflexivity.
Qed.

Lemma spaces_no_lf k : LF ∉ spaces k.
Proof.
  induction k as [|k IH]; cbn [spaces replicate]; [apply not_elem_of_nil|].
  apply not_elem_of_cons. split; [discriminate | exact IH].
Qed.

Lemma inline_line_no_lf lead items last trail :
  Forall token_ok ((fst <$> items) ++ [last]) ->
  LF ∉ inline_line lead items last trail.
Proof.
  intros Hok. apply Forall_app in Hok as [Hitems Hlast].
  apply Forall_singleton in Hlast as (_ & _ & Hlf).
  unfold inline_line. rewrite !not_elem_of_app.
  split; [apply spaces_no_lf|]. split; [|split; [exact Hlf | apply spaces_no_lf]].
  induction items as [|[t k] items IH]; [apply not_elem_of_nil|].
  rewrite fmap_cons in Hitems. apply Forall_cons in Hitems as [(_ & _ & Ht) Hitems].
  cbn [fmap list_fmap concat fst snd]. rewrite !not_elem_of_app.
  split; [split; [exact Ht | apply spaces_no_lf] | now apply IH].
Qed.

Lemma spaces_Forall k : Forall (eq " "%byte) (spaces k).
Proof. induction k; constructor; [reflexivity | assumption]. Qed.

(** X26.  An inline command on a stream: a line that does not start with
    '*', ended by CR LF.  [DecodeMultiBulk] returns its tokens in order as
    bulk frames, however many spaces stand before, between and behind them
    and however long the line is against the buffer, and leaves the stream
    behind the line for the next call.  A line of spaces only, the empty
    line among them, is refused with [ErrBadMultiBulkLen] and the decoder
    has failed. *)
Theorem DecodeMultiBulk_inline_on_stream (fuel : nat)
    (d : Decoder (R := bytes_Reader)) :
  Err d = None -> ready (br d) ->
  (forall lead items last trail post,
     let line := inline_line lead items last trail in
     let tokens := (fst <$> items) ++ [last] in
     stream (br d) = line ++ CR :: LF :: post ->
     Forall token_ok tokens -> head line <> Some "*"%byte ->
     (length line + 1 < fuel)%nat ->
     exists b',
       DecodeMultiBulk fuel d
       = Some (Some (NewBulkBytes <$> tokens), None, mkDecoder b' None) /\
       ready b' /\ stream b' = post) /\
  (forall k post,
     stream (br d) = spaces k ++ CR :: LF :: post -> (k + 1 < fuel)%nat ->
     exists b',
       DecodeMultiBulk fuel d
       = Some (None, Some ErrBadMultiBulkLen,
               mkDecoder b' (Some ErrBadMultiBulkLen)) /\
       ready b' /\ stream b' = post).
Proof.
  intros He Hready. split.
  - intros lead items last trail post line tokens Hs Hok Hhd Hf.
    destruct (DecodeMultiBulk_inline_bytes fuel d line post He Hready Hs)
      as (b' & Hrun & Hr' & Hs'); [now apply inline_line_no_lf | exact Hhd | exact Hf |].
    exists b'. split; [|now split]. rewrite Hrun.
    unfold line. rewrite inline_tokens_line by exact Hok.
    rewrite decide_False; [reflexivity|].
    intros Hall. apply inline_tokens_nil in Hall. fold line in Hall.
    unfold line in Hall. rewrite inline_tokens_line in Hall by exact Hok.
    now destruct (fst <$> items).
  - intros k post Hs Hf.
    destruct (DecodeMultiBulk_inline_bytes fuel d (spaces k) post He Hready Hs)
      as (b' & Hrun & Hr' & Hs').
    + apply spaces_no_lf.
    + now destruct k.
    + unfold spaces. rewrite length_replicate. exact Hf.
    + exists b'. split; [|now split]. rewrite Hrun.
      now rewrite decide_True by apply spaces_Forall.
Qed.

(** *** The decoder at work *)

(** A decoder over bytes, as [NewDecoderSize] makes it. *)
Lemma NewDecoderSize_ready (src : list byte) (size : Z) :
  let d := NewDecoderSize (R := bytes_Reader) src size in
  Err d = None /\ ready (br d) /\ stream (br d) = src.
Proof.
  cbn zeta. destruct (NewReaderSize_ready src size) as [Hr Hs].
  split; [reflexivity|]. now split.
Qed.

Lemma decodeTextBytes_on_stream_witness :
  exists b',
    decodeTextBytes 8 (NewReaderSize (bytes "OK" ++ crlf ++ bytes "x") 2)
    = Some (Some (bytes "OK"), None, b') /\ stream b' = bytes "x".
Proof.
  destruct (NewReaderSize_ready (bytes "OK" ++ crlf ++ bytes "x") 2) as [Hr Hs].
  destruct (decodeTextBytes_on_stream 8 _ Hr) as (Hline & _).
  { rewrite Hs. vm_compute. lia. }
  destruct (Hline (bytes "OK") (bytes "x")) as (b' & Hrun & _ & Hs').
  - rewrite Hs. reflexivity.
  - not_among.
  - exists b'. now split.
Defined.

(** A length of five digits with a buffer of four bytes. *)
Lemma decodeInt_on_stream_witness :
  exists b',
    decodeInt (NewReaderSize (bytes "12345" ++ crlf) 4)
    = Some (0, Some ErrBufferFull, b').
Proof.
  destruct (NewReaderSize_ready (bytes "12345" ++ crlf) 4) as [Hr Hs].
  destruct (decodeInt_on_stream _ (bytes "12345") [] Hr) as (_ & Hfull).
  - rewrite Hs. reflexivity.
  - not_among.
  - destruct Hfull as (b' & Hrun & _); [vm_compute; lia|]. now exists b'.
Defined.

Lemma Decode_line_on_stream_witness :
  exists b',
    Decode 8 (NewDecoderSize (bytes ":abc" ++ crlf) 4)
    = Some (Some (mkResp TypeInt (Some (bytes "abc")) None), None,
            mkDecoder b' None).
Proof.
  destruct (NewDecoderSize_ready (bytes ":abc" ++ crlf) 4) as (He & Hr & Hs).
  destruct (Decode_line_on_stream 7 _ ":"%byte (bytes "abc") [] He Hr)
    as (b' & Hrun & _).
  - rewrite Hs. reflexivity.
  - auto.
  - not_among.
  - vm_compute. lia.
  - now exists b'.
Defined.

(** A payload that holds CR LF itself. *)
Lemma Decode_bulk_on_stream_witness :
  let payload := bytes "a" ++ crlf ++ bytes "bc" in
  exists b',
    Decode 16 (NewDecoderSize (bytes "$5" ++ crlf ++ payload ++ crlf ++ bytes "+") 8)
    = Some (Some (NewBulkBytes payload), None, mkDecoder b' None) /\
    stream b' = bytes "+".
Proof.
  cbn zeta.
  destruct (NewDecoderSize_ready
              (bytes "$5" ++ crlf ++ (bytes "a" ++ crlf ++ bytes "bc") ++ crlf
               ++ bytes "+") 8) as (He & Hr & Hs).
  destruct (Decode_bulk_on_stream 15 _ (bytes "5")
              ((bytes "a" ++ crlf ++ bytes "bc") ++ crlf ++ bytes "+") 5 He Hr)
    as (_ & Hok & _).
  - rewrite Hs. reflexivity.
  - not_among.
  - vm_compute. lia.
  - vm_compute. reflexivity.
  - vm_compute. discriminate.
  - vm_compute. lia.
  - destruct (Hok (bytes "a" ++ crlf ++ bytes "bc") (bytes "+")) as (b' & Hrun & _ & Hs');
      [reflexivity | reflexivity |].
    exists b'. now split.
Defined.

Lemma DecodeMultiBulk_command_on_stream_witness :
  exists b',
    DecodeMultiBulk 8
      (NewDecoderSize (bytes "*2" ++ crlf ++ bytes "$3" ++ crlf ++ bytes "GET" ++ crlf
                       ++ bytes "$1" ++ crlf ++ bytes "k" ++ crlf) 8)
    = Some (Some [NewBulkBytes (bytes "GET"); NewBulkBytes (bytes "k")], None,
            mkDecoder b' None).
Proof.
  destruct (NewDecoderSize_ready
              (bytes "*2" ++ crlf ++ bytes "$3" ++ crlf ++ bytes "GET" ++ crlf
               ++ bytes "$1" ++ crlf ++ bytes "k" ++ crlf) 8) as (He & Hr & Hs).
  destruct (DecodeMultiBulk_command_on_stream 8 _ (bytes "2")
              [(bytes "3", bytes "GET"); (bytes "1", bytes "k")] [] He Hr)
    as [(b' & Hrun & _) _].
  - rewrite Hs. reflexivity.
  - not_among.
  - vm_compute. lia.
  - vm_compute. reflexivity.
  - cbn. lia.
  - vm_compute. discriminate.
  - repeat constructor; try not_among; cbn [fst snd];
      try (vm_compute; lia); try (vm_compute; reflexivity);
      try (vm_compute; discriminate).
  - repeat constructor; vm_compute; lia.
  - now exists b'.
Defined.

Lemma Decode_end_of_input_witness :
  exists b',
    Decode 1 (NewDecoderSize (R := bytes_Reader) [] 8)
    = Some (None, Some (ErrIO EOF), mkDecoder b' (Some (ErrIO EOF))).
Proof.
  destruct (NewDecoderSize_ready [] 8) as (He & Hr & Hs).
  destruct (Decode_end_of_input 0 _ He Hr) as [Hend _].
  destruct (Hend Hs) as [Hd _]. exact Hd.
Defined.

Lemma DecodeMultiBulk_needs_bulks_witness :
  exists b',
    DecodeMultiBulk 8 (NewDecoderSize (bytes "*1" ++ crlf ++ bytes "+OK" ++ crlf) 8)
    = Some (None, Some ErrBadMultiBulkContent,
            mkDecoder b' (Some ErrBadMultiBulkContent)).
Proof.
  destruct (NewDecoderSize_ready (bytes "*1" ++ crlf ++ bytes "+OK" ++ crlf) 8)
    as (He & Hr & Hs).
  destruct (DecodeMultiBulk_needs_bulks 7 _ (bytes "1") 1 "+"%byte (bytes "OK") []
              He Hr) as (b' & Hrun & _).
  - rewrite Hs. reflexivity.
  - not_among.
  - vm_compute. lia.
  - vm_compute. reflexivity.
  - split; [lia | vm_compute; discriminate].
  - auto.
  - not_among.
  - vm_compute. lia.
  - now exists b'.
Defined.

Lemma array_count_is_checked_first_witness :
  exists b',
    DecodeMultiBulk 8 (NewDecoderSize (bytes "*1048577" ++ crlf ++ bytes "$1") 16)
    = Some (None, Some ErrBadArrayLenTooLong,
            mkDecoder b' (Some ErrBadArrayLenTooLong)) /\
    stream b' = bytes "$1".
Proof.
  destruct (NewDecoderSize_ready (bytes "*1048577" ++ crlf ++ bytes "$1") 16)
    as (He & Hr & Hs).
  destruct (array_count_is_checked_first 8 _ (bytes "1048577") (bytes "$1") He Hr)
    as (Hlong & _).
  - rewrite Hs. reflexivity.
  - not_among.
  - vm_compute. lia.
  - destruct (Hlong 1048577) as [_ (b' & Hrun & _ & Hs')];
      [vm_compute; reflexivity | vm_compute; reflexivity |].
    exists b'. now split.
Defined.

(** ["  SET  k v "] under a buffer of four bytes. *)
Lemma DecodeMultiBulk_inline_on_stream_witness :
  exists b',
    DecodeMultiBulk 16
      (NewDecoderSize (bytes "  SET  k v " ++ crlf ++ bytes "PING" ++ crlf) 4)
    = Some (Some [NewBulkBytes (bytes "SET"); NewBulkBytes (bytes "k");
                  NewBulkBytes (bytes "v")], None, mkDecoder b' None) /\
    stream b' = bytes "PING" ++ crlf.
Proof.
  destruct (NewDecoderSize_ready
              (bytes "  SET  k v " ++ crlf ++ bytes "PING" ++ crlf) 4) as (He & Hr & Hs).
  destruct (DecodeMultiBulk_inline_on_stream 16 _ He Hr) as [Hline _].
  destruct (Hline 2%nat [(bytes "SET", 1%nat); (bytes "k", 0%nat)] (bytes "v") 1%nat
              (bytes "PING" ++ crlf)) as (b' & Hrun & _ & Hs').
  - rewrite Hs. reflexivity.
  - repeat constructor; try discriminate; not_among.
  - discriminate.
  - vm_compute. lia.
  - exists b'. now split.
Defined.

End redis.

(** ** [strings] and [bytes]

    Go's standard library, not part of the repository: the functions the
    proxy calls, over byte sequences (a Go string is its bytes), as their
    documentation describes them. *)

Module strings.
Import Go.

(** [bytes.HasPrefix(s, prefix)], [strings.HasPrefix] *)
Definition HasPrefix (s pre : list byte) : bool :=
  bool_decide (take (length pre) s = pre).

(** [strings.Contains(s, substr)], [bytes.Contains] *)
Fixpoint Contains (s sub : list byte) : bool :=
  HasPrefix s sub ||
  match s with
  | [] => false
  | _ :: s' => Contains s' sub
  end.

(** [strings.Split(s, sep)] for a separator of one byte: the pieces of [s]
    between the separators, [[s]] if there is none. *)
Fixpoint Split (s : list byte) (sep : byte) : list (list byte) :=
  match s with
  | [] => [[]]
  | c :: s' =>
      if decide (c = sep) then [] :: Split s' sep
      else match Split s' sep with
           | t :: ts => (c :: t) :: ts
           | [] => [[c]]
           end
  end.

(** [strings.SplitN(s, sep, 2)] for a separator of one byte: [s] cut at the
    first separator, [[s]] if there is none. *)
Fixpoint SplitN2 (s : list byte) (sep : byte) : list (list byte) :=
  match s with
  | [] => [[]]
  | c :: s' =>
      if decide (c = sep) then [[]; s']
      else match SplitN2 s' sep with
           | [t; rest] => [c :: t; rest]
           | _ => [s]
           end
  end.

(** The UTF-8 encodings of the runes [unicode.IsSpace] holds of: tab, line
    feed, vertical tab, form feed, carriage return, space, U+0085, U+00A0,
    U+1680, U+2000 to U+200A, U+2028, U+2029, U+202F, U+205F, U+3000. *)
Definition white_space : list (list byte) :=
  [ ["009"]; ["010"]; ["011"]; ["012"]; ["013"]; [" "];
    [xc2; x85]; [xc2; xa0]; [xe1; x9a; x80];
    [xe2; x80; x80]; [xe2; x80; x81]; [xe2; x80; x82]; [xe2; x80; x83];
    [xe2; x80; x84]; [xe2; x80; x85]; [xe2; x80; x86]; [xe2; x80; x87];
    [xe2; x80; x88]; [xe2; x80; x89]; [xe2; x80; x8a];
    [xe2; x80; xa8]; [xe2; x80; xa9]; [xe2; x80; xaf];
    [xe2; x81; x9f]; [xe3; x80; x80] ]%byte.

(** [s] without the runes of [runes] it starts with; a rune takes a byte at
    least, so [fuel = len(s)] steps reach the end. *)
Fixpoint trim_prefix (runes : list (list byte)) (fuel : nat) (s : list byte)
  : list byte :=
  match fuel with
  | O => s
  | S fuel' =>
      match find (fun r => HasPrefix s r) runes with
      | Some r => trim_prefix runes fuel' (drop (length r) s)
      | None => s
      end
  end.

(** [strings.TrimSpace(s)]: [s] without leading and trailing white space, as
    Unicode defines it.  A rune that is white space is read at the start of
    a string, and at its end, exactly when the string starts, or ends, with
    the encoding of that rune. *)
Definition TrimSpace (s : list byte) : list byte :=
  let s1 := trim_prefix white_space (length s) s in
  reverse (trim_prefix (reverse <$> white_space) (length s1) (reverse s1)).

End strings.

(** ** [proxy]: backend connections and the shared pool ([backend.go]) *)

Module proxy.
Import Go.

Definition stateConnected : Z := 1.
Definition stateDataStale : Z := 2.

(** Go's [uint] has 64 bits where the proxy runs. *)
Definition wrap_uint (z : Z) : Z := z mod 2 ^ 64.

(** A [BackendConn] as the pool and the health checks see it.  The [state]
    and [closed] atomics hold what they were last set to; [input_closed]
    records [close(bc.input)], which [bc.stop] lets happen once.  The
    worker behind it is started by [NewBackendConn] and changes [state] on
    its own. *)
Record BackendConn := mkBackendConn {
  addr : string;
  database : Z;
  state : Z;
  closed : bool;
  input_closed : bool
}.

(** Objects live in stores, a pointer is an index of the store, [None] the
    nil pointer. *)
Abbreviation ptr := nat (only parsing).

(** [sharedBackendConn]; [host] and [port], used by no function here, are
    left out, and [owner] is the one pool of the store. *)
Record sharedBackendConn := mkShared {
  saddr : string;
  conns : list (list ptr);
  single : option (list ptr);
  refcnt : Z
}.

(** [sharedBackendConnPool] with the objects it reaches. *)
Record Pool := mkPool {
  BackendNumberDatabases : Z;
  parallel : Z;
  pool : gmap string ptr;
  shared : list sharedBackendConn;
  workers : list BackendConn
}.

Definition NewBackendConn (ws : list BackendConn) (a : string) (db : Z)
  : ptr * list BackendConn :=
  (length ws, ws ++ [mkBackendConn a db 0 false false]).

(** [bc.Close()] *)
Definition Close (bc : BackendConn) : BackendConn :=
  mkBackendConn (addr bc) (database bc) (state bc) true true.

Definition IsConnected (ws : list BackendConn) (bc : ptr) : bool :=
  match ws !! bc with
  | Some w => state w =? stateConnected
  | None => false
  end.

(** [l[i]] for a Go [int] index: [None] is the run-time panic. *)
Definition index {A} (l : list A) (i : Z) : option A :=
  if i <? 0 then None else l !! Z.to_nat i.

(** The loop [for range parallel] of [BackendConn], [k] iterations to go:
    the worker it returns from, if any. *)
Fixpoint probe (ws : list BackendConn) (par : list ptr) (k : nat) (i : Z)
  : option (option ptr) :=
  match k with
  | O => Some None
  | S k' =>
      let i' := wrap_uint (i + 1) mod Z.of_nat (length par) in
      bc ← index par i';
      if IsConnected ws bc then Some (Some bc) else probe ws par k' i'
  end.

(** [s.BackendConn(database, seed, must)]; the outer [None] is a run-time
    panic (an index out of range). *)
Definition BackendConn_select (ws : list BackendConn)
    (s : option sharedBackendConn) (db : Z) (seed : Z) (must : bool)
  : option (option ptr) :=
  match s with
  | None => Some None
  | Some s =>
      match single s with
      | Some sg =>
          bc ← index sg db;
          Some (if must || IsConnected ws bc then Some bc else None)
      | None =>
          par ← index (conns s) db;
          r ← probe ws par (length par) seed;
          match r with
          | Some bc => Some (Some bc)
          | None =>
              if negb must then Some None
              else bc ← index par 0; Some (Some bc)
          end
      end
  end.

(** The inner loop of [newSharedBackendConn]: [k] workers for one database. *)
Fixpoint new_parallel (ws : list BackendConn) (a : string) (db : Z) (k : nat)
  : list ptr * list BackendConn :=
  match k with
  | O => ([], ws)
  | S k' =>
      let '(bc, ws1) := NewBackendConn ws a db in
      let '(row, ws2) := new_parallel ws1 a db k' in
      (bc :: row, ws2)
  end.

(** The outer loop: the databases from [db] on, [n] of them. *)
Fixpoint new_conns (ws : list BackendConn) (a : string) (par : nat) (db : Z)
    (n : nat) : list (list ptr) * list BackendConn :=
  match n with
  | O => ([], ws)
  | S n' =>
      let '(row, ws1) := new_parallel ws a db par in
      let '(rows, ws2) := new_conns ws1 a par (db + 1) n' in
      (row :: rows, ws2)
  end.

(** [newSharedBackendConn(addr, pool)]: the object and the workers' store.
    [None] where [make] panics on a negative length or [s.conns[database][0]]
    on an empty row. *)
Definition newSharedBackendConn (p : Pool) (a : string)
  : option (sharedBackendConn * list BackendConn) :=
  if (BackendNumberDatabases p <? 0) || (parallel p <? 0) then None
  else
    let '(cs, ws) :=
      new_conns (workers p) a (Z.to_nat (parallel p)) 0
                (Z.to_nat (BackendNumberDatabases p)) in
    sg ← (if parallel p =? 1 then Some <$> mapM (fun row => row !! 0%nat) cs
          else Some None);
    Some (mkShared a cs sg 1, ws).

(** [newSharedBackendConnPool(config, parallel)], [math2.MaxInt(1, parallel)]
    being the larger of the two. *)
Definition newSharedBackendConnPool (ndb : Z) (par : Z) : Pool :=
  mkPool ndb (Z.max 1 par) ∅ [] [].

(** Modelled from the spec: [log.Panicf] (the log package is not among the
    sources at hand) panics, [Release beyond zero panics]: the call does not
    return, which is [None] below. *)
Definition Panicf {A} : option A := None.

Definition set_refcnt (s : sharedBackendConn) (n : Z) : sharedBackendConn :=
  mkShared (saddr s) (conns s) (single s) n.

(** [s.Retain()] on the pointer [s]: the pointer returned and the pool. *)
Definition Retain (p : Pool) (s : option ptr) : option (option ptr * Pool) :=
  match s with
  | None => Some (None, p)
  | Some q =>
      sc ← shared p !! q;
      if refcnt sc <=? 0 then Panicf
      else
        let sc' := set_refcnt sc (wrap64 (refcnt sc + 1)) in
        Some (Some q, mkPool (BackendNumberDatabases p) (parallel p) (pool p)
                        (<[q := sc']> (shared p)) (workers p))
  end.

(** The loops of [Release] over [s.conns]: every worker closed. *)
Definition close_all (ws : list BackendConn) (cs : list (list ptr))
  : list BackendConn :=
  fold_left (fun ws bc => alter Close bc ws) (concat cs) ws.

(** [s.Release()] on the pointer [s]. *)
Definition Release (p : Pool) (s : option ptr) : option Pool :=
  match s with
  | None => Some p
  | Some q =>
      sc ← shared p !! q;
      if refcnt sc <=? 0 then Panicf
      else
        let sc' := set_refcnt sc (wrap64 (refcnt sc - 1)) in
        let sh := <[q := sc']> (shared p) in
        if negb (refcnt sc' =? 0) then
          Some (mkPool (BackendNumberDatabases p) (parallel p) (pool p) sh (workers p))
        else
          Some (mkPool (BackendNumberDatabases p) (parallel p)
                  (delete (saddr sc') (pool p)) sh
                  (close_all (workers p) (conns sc')))
  end.

(** [p.Get(addr)] *)
Definition Get (p : Pool) (a : string) : option ptr := pool p !! a.

(** [p.Retain(addr)] *)
Definition Pool_Retain (p : Pool) (a : string) : option (option ptr * Pool) :=
  match pool p !! a with
  | Some bc => Retain p (Some bc)
  | None =>
      '(sc, ws) ← newSharedBackendConn p a;
      let bc := length (shared p) in
      Some (Some bc, mkPool (BackendNumberDatabases p) (parallel p)
                       (<[a := bc]> (pool p)) (shared p ++ [sc]) ws)
  end.

(** *** The health of a backend connection *)

(** The errors a request is completed with, and those of the keepalive. *)
Inductive request_error :=
| ErrBackendConnReset
| ErrRequestIsBroken
| ErrRespIsRequired
| ErrBackendConnFailure (cause : error)
| ErrBadInfoResp (value : option (list byte))
| ErrBadInfoRespType (t : redis.RespType).

(** Modelled from the spec: [Request] (request.go is not among the sources
    at hand), with its multi-bulk command, its response and error slots and
    its two optional wait groups, each the count it holds. *)
Record Request := mkRequest {
  Multi : list redis.Resp;
  Resp : option redis.Resp;
  Err : option request_error;
  Batch : option Z;
  Group : option Z
}.

(** [bc.setResponse(r, resp, err)]; [Done] takes one from a wait group. *)
Definition setResponse (r : Request) (resp : option redis.Resp)
    (err : option request_error) : Request :=
  mkRequest (Multi r) resp err
            ((fun n => n - 1) <$> Batch r) ((fun n => n - 1) <$> Group r).

(** [state.CompareAndSwap(old, new)] of [atomic2.Int64]: whether it swapped,
    and the state. *)
Definition CompareAndSwap (st old new : Z) : bool * Z :=
  if st =? old then (true, new) else (false, st).

Definition errRespMasterDown : list byte := bytes "MASTERDOWN".
Definition errRespLoading : list byte := bytes "LOADING".

(** One turn of the loop [for r := range tasks] of [loopReader], [dec]
    being what [c.Decode()] returned: the state, the request completed, and
    whether the loop goes on. *)
Definition loopReader_step (st : Z) (r : Request)
    (dec : option redis.Resp * option error) : Z * Request * bool :=
  let '(resp, err) := dec in
  match err with
  | Some e => (st, setResponse r None (Some (ErrBackendConnFailure e)), false)
  | None =>
      let st' :=
        match resp with
        | Some rp =>
            if redis.IsError rp then
              let value := default [] (redis.Value rp) in
              if strings.HasPrefix value errRespMasterDown
              then snd (CompareAndSwap st stateConnected stateDataStale)
              else if strings.HasPrefix value errRespLoading
                   then snd (CompareAndSwap st stateConnected stateDataStale)
                   else st
            else st
        | None => st
        end in
      (st', setResponse r resp None, true)
  end.

(** The table the keepalive builds of an [INFO] reply. *)
Definition info_line (info : gmap (list byte) (list byte)) (line : list byte)
  : gmap (list byte) (list byte) :=
  match strings.SplitN2 line ":" with
  | [k; v] =>
      let key := strings.TrimSpace k in
      if decide (key = []) then info else <[key := strings.TrimSpace v]> info
  | _ => info
  end.

Definition parse_info (s : list byte) : gmap (list byte) (list byte) :=
  fold_left info_line (strings.Split s "010") ∅.

(** The function [KeepAlive] sends to [keepAliveCallback] in state
    [DataStale], run once [m.Batch.Wait()] has returned, on the state of the
    connection at that time: the state it leaves and the error it logs. *)
Definition keepalive_callback (st : Z) (m : Request) : Z * option request_error :=
  match Err m with
  | Some e => (st, Some e)
  | None =>
      match Resp m with
      | None => (st, Some ErrRespIsRequired)
      | Some resp =>
          if redis.IsError resp then (st, Some (ErrBadInfoResp (redis.Value resp)))
          else if redis.IsBulkBytes resp then
            let info := parse_info (default [] (redis.Value resp)) in
            if bool_decide (default [] (info !! bytes "master_link_status")
                            = bytes "down")
            then (st, None)
            else if bool_decide (default [] (info !! bytes "loading") = bytes "1")
                 then (st, None)
                 else (snd (CompareAndSwap st stateDataStale stateConnected), None)
          else (st, Some (ErrBadInfoRespType (redis.Type' resp)))
      end
  end.

(** What [KeepAlive] asks of the worker. *)
Inductive probe_request := Ping | Info.

(** [bc.KeepAlive()], [queued] being [len(bc.input)]: what it returns and
    the command it queues; with [Info] goes the callback above. *)
Definition KeepAlive (queued : nat) (st : Z) : bool * option probe_request :=
  if negb (queued =? 0)%nat then (false, None)
  else if st =? stateDataStale then (true, Some Info)
       else (true, Some Ping).

(** The [INFO] request of a keepalive, completed with the bulk reply
    [reply]. *)
Definition info_reply (reply : list byte) : Request :=
  mkRequest [redis.NewBulkBytes (bytes "INFO")]
            (Some (redis.NewBulkBytes reply)) None (Some 0) None.

(** The sentence "in state [DataStale] the callback swaps the state back to
    [Connected] exactly when the reply contains neither
    [master_link_status:down] nor [loading:1]", for one reply. *)
Definition swaps_iff_reply_contains_neither (reply : list byte) : Prop :=
  fst (keepalive_callback stateDataStale (info_reply reply)) = stateConnected
  <-> strings.Contains reply (bytes "master_link_status:down") = false /\
      strings.Contains reply (bytes "loading:1") = false.

(** C6, as stated, fails: the reply ["loading:1\nloading:0"] contains
    [loading:1], and the callback, which keeps the last value of a key,
    finds [loading] to be 0 and swaps the state to [Connected]. *)
Lemma keepalive_last_value_wins :
  ~ swaps_iff_reply_contains_neither
      (bytes "loading:1" ++ ["010"%byte] ++ bytes "loading:0").
Proof.
  unfold swaps_iff_reply_contains_neither. intros [Hswap _].
  assert (Hc : strings.Contains
                 (bytes "loading:1" ++ ["010"%byte] ++ bytes "loading:0")
                 (bytes "loading:1") = true) by (vm_compute; reflexivity).
  rewrite Hc in Hswap. destruct Hswap as [_ Hf]; [vm_compute; reflexivity|].
  discriminate Hf.
Qed.

(** So does a reply of a server that reports [async_loading:1] with
    [loading:0]: the text [loading:1] is in the reply, the key [loading] is
    0, and the state goes back to [Connected]. *)
Example keepalive_async_loading :
  let reply := bytes "loading:0" ++ ["013"; "010"]%byte
               ++ bytes "async_loading:1" ++ ["013"; "010"]%byte in
  strings.Contains reply (bytes "loading:1") = true /\
  keepalive_callback stateDataStale (info_reply reply) = (stateConnected, None).
Proof. vm_compute. split; reflexivity. Qed.

(** *** The table of an [INFO] reply, in words

    The reply is split into lines on line feed.  A line without ':' is
    skipped; any other is cut at its first ':' into a key and a value, both
    trimmed of white space, and skipped if the key is empty.  The value of a
    key in the table is that of the last line with this key. *)

(** A line cut at its first ':'. *)
Fixpoint cut_at_colon (line : list byte) : option (list byte * list byte) :=
  match line with
  | [] => None
  | c :: rest =>
      if decide (c = ":"%byte) then Some ([], rest)
      else '(k, v) ← cut_at_colon rest; Some (c :: k, v)
  end.

(** The key and the value a line gives, if any. *)
Definition entry_of_line (line : list byte) : option (list byte * list byte) :=
  '(k, v) ← cut_at_colon line;
  if decide (strings.TrimSpace k = []) then None
  else Some (strings.TrimSpace k, strings.TrimSpace v).

(** The entries of a reply, in the order of its lines. *)
Definition entries (reply : list byte) : list (list byte * list byte) :=
  omap entry_of_line (strings.Split reply "010").

(** The value of the last entry of [es] with the key [key]. *)
Definition last_entry_value (es : list (list byte * list byte)) (key : list byte)
  : option (list byte) :=
  snd <$> last (filter (fun e => fst e = key) es).

(** The value of a key in the table of a reply, [""] without such a line. *)
Definition table_value (reply : list byte) (key : string) : list byte :=
  default [] (last_entry_value (entries reply) (bytes key)).

Lemma SplitN2_cut (line : list byte) :
  strings.SplitN2 line ":"
  = match cut_at_colon line with
    | Some (k, v) => [k; v]
    | None => [line]
    end.
Proof.
  induction line as [|c rest IH]; [reflexivity|].
  cbn [strings.SplitN2 cut_at_colon].
  destruct (decide (c = ":"%byte)); [reflexivity|].
  rewrite IH. destruct (cut_at_colon rest) as [[k v]|]; reflexivity.
Qed.

Lemma info_line_entry (info : gmap (list byte) (list byte)) (line : list byte) :
  info_line info line
  = match entry_of_line line with
    | Some (k, v) => <[k := v]> info
    | None => info
    end.
Proof.
  unfold info_line, entry_of_line. rewrite SplitN2_cut.
  destruct (cut_at_colon line) as [[k v]|]; [|reflexivity].
  cbn [mbind option_bind].
  destruct (decide (strings.TrimSpace k = [])); reflexivity.
Qed.

Lemma last_entry_value_snoc es k v key :
  last_entry_value (es ++ [(k, v)]) key
  = if decide (k = key) then Some v else last_entry_value es key.
Proof.
  unfold last_entry_value. rewrite filter_app, filter_cons, filter_nil. cbn [fst].
  destruct (decide (k = key)).
  - now rewrite last_snoc.
  - now rewrite app_nil_r.
Qed.

Lemma fold_info_lines (ls : list (list byte)) : forall info es key,
  (forall key, info !! key = last_entry_value es key) ->
  fold_left info_line ls info !! key
  = last_entry_value (es ++ omap entry_of_line ls) key.
Proof.
  induction ls as [|line ls IH]; intros info es key Hinfo.
  - cbn [fold_left omap list_omap]. rewrite app_nil_r. apply Hinfo.
  - cbn [fold_left]. rewrite info_line_entry. cbn [omap list_omap].
    destruct (entry_of_line line) as [[k v]|].
    + rewrite (IH _ (es ++ [(k, v)])), <- app_assoc; [reflexivity|].
      intros key'. rewrite last_entry_value_snoc.
      destruct (decide (k = key')) as [-> | Hne].
      * apply lookup_insert_eq.
      * rewrite lookup_insert_ne by exact Hne. apply Hinfo.
    + now apply IH.
Qed.

(** The table the callback builds holds, for every key, the value of the
    table in words. *)
Lemma parse_info_table (reply key : list byte) :
  parse_info reply !! key = last_entry_value (entries reply) key.
Proof.
  unfold parse_info, entries.
  rewrite (fold_info_lines _ ∅ [] key); [reflexivity|].
  intros key'. apply lookup_empty.
Qed.

(** A reply with a key given twice, a line without ':', a line with an
    empty key, and white space around keys and values. *)
Example entries_of_a_reply :
  let reply := bytes " loading : 1 " ++ ["013"; "010"]%byte
               ++ bytes "# Replication" ++ ["010"]%byte
               ++ bytes " :x" ++ ["010"]%byte
               ++ bytes "role:slave:0" ++ ["010"]%byte
               ++ bytes "loading:0" in
  entries reply
  = [(bytes "loading", bytes "1"); (bytes "role", bytes "slave:0");
     (bytes "loading", bytes "0")] /\
  table_value reply "loading" = bytes "0" /\
  table_value reply "role" = bytes "slave:0" /\
  table_value reply "master_link_status" = [].
Proof. vm_compute. repeat split; reflexivity. Qed.

(** C6, amended.  The reader loop, on a reply of type error whose payload
    starts with [MASTERDOWN] or [LOADING], swaps the state from
    [Connected], 1, to [DataStale], 2 (and leaves any other state), and
    completes the request with that reply and no error, and goes on.  The
    callback of the keepalive, on a bulk reply to [INFO], swaps the state
    from [DataStale] to [Connected] exactly when, in the table of the reply,
    [master_link_status] is not [down] and [loading] is not [1]; otherwise,
    and in any other state, it leaves the state as it is.  The table is the
    one described in words: the lines of the reply split on line feed, each
    cut at its first ':', key and value trimmed of white space, the lines
    without ':' or with an empty key skipped, a later line replacing an
    earlier one with the same key; the table the callback builds holds
    exactly these values. *)
Theorem backend_health_transitions :
  stateConnected = 1 /\ stateDataStale = 2 /\
  (forall st r rp,
     redis.IsError rp = true ->
     strings.HasPrefix (default [] (redis.Value rp)) (bytes "MASTERDOWN") = true
     \/ strings.HasPrefix (default [] (redis.Value rp)) (bytes "LOADING") = true ->
     loopReader_step st r (Some rp, None)
     = (if st =? stateConnected then stateDataStale else st,
        setResponse r (Some rp) None, true) /\
     Resp (setResponse r (Some rp) None) = Some rp /\
     Err (setResponse r (Some rp) None) = None) /\
  (forall st m resp,
     Err m = None -> Resp m = Some resp -> redis.IsBulkBytes resp = true ->
     let reply := default [] (redis.Value resp) in
     keepalive_callback st m
     = (if (st =? stateDataStale)
           && negb (bool_decide (table_value reply "master_link_status" = bytes "down"))
           && negb (bool_decide (table_value reply "loading" = bytes "1"))
        then stateConnected else st, None)) /\
  (forall reply,
     fst (keepalive_callback stateDataStale (info_reply reply)) = stateConnected
     <-> table_value reply "master_link_status" <> bytes "down" /\
         table_value reply "loading" <> bytes "1") /\
  (forall reply key,
     parse_info reply !! key = last_entry_value (entries reply) key).
Proof.
  split; [reflexivity|]. split; [reflexivity|].
  assert (Hcb : forall st m resp,
     Err m = None -> Resp m = Some resp -> redis.IsBulkBytes resp = true ->
     keepalive_callback st m
     = (if (st =? stateDataStale)
           && negb (bool_decide (table_value (default [] (redis.Value resp))
                                   "master_link_status" = bytes "down"))
           && negb (bool_decide (table_value (default [] (redis.Value resp))
                                   "loading" = bytes "1"))
        then stateConnected else st, None)).
  { intros st m resp He Hr Hb. unfold keepalive_callback. rewrite He, Hr, Hb.
    assert (Hne : redis.IsError resp = false).
    { unfold redis.IsError, redis.IsBulkBytes in *.
      apply bool_decide_eq_true in Hb. apply bool_decide_eq_false.
      rewrite Hb. discriminate. }
    rewrite Hne. unfold table_value, CompareAndSwap.
    rewrite <- !parse_info_table.
    destruct (bool_decide (_ = bytes "down")); [now rewrite andb_false_r|].
    destruct (bool_decide (_ = bytes "1")); [now rewrite andb_false_r|].
    rewrite !andb_true_r. now destruct (st =? stateDataStale). }
  split; [|split; [|split]].
  - intros st r rp Hie Hpre. split; [|split; reflexivity].
    unfold loopReader_step. rewrite Hie.
    unfold errRespMasterDown, errRespLoading, CompareAndSwap.
    destruct Hpre as [-> | Hl].
    + now destruct (st =? stateConnected).
    + rewrite Hl. destruct (strings.HasPrefix _ (bytes "MASTERDOWN"));
        now destruct (st =? stateConnected).
  - intros st m resp He Hr Hb. cbn zeta. now apply Hcb.
  - intros reply. unfold info_reply.
    rewrite (Hcb _ _ (redis.NewBulkBytes reply)) by reflexivity.
    cbn [fst redis.Value redis.NewBulkBytes default from_option id].
    change (stateDataStale =? stateDataStale) with true. cbn [andb].
    destruct (bool_decide (_ = bytes "down")) eqn:E1;
      [apply bool_decide_eq_true in E1 | apply bool_decide_eq_false in E1];
      (destruct (bool_decide (_ = bytes "1")) eqn:E2;
        [apply bool_decide_eq_true in E2 | apply bool_decide_eq_false in E2]);
      cbn [negb andb]; split; try tauto; try discriminate.
  - apply parse_info_table.
Qed.

(** *** Selection of a worker *)

(** The workers of a row in the order the selection probes them: from
    index [start] on, round-robin, each once. *)
Definition probe_order (par : list ptr) (start : Z) (k : nat) : list ptr :=
  omap (fun j => index par ((start + Z.of_nat j) mod Z.of_nat (length par)))
       (seq 0 k).

(** A [sharedBackendConn] of a pool with [par] workers per database, as
    [newSharedBackendConn] makes it: rows of [par] workers, and [single]
    set, to the first worker of every row, exactly when [par] is 1. *)
Definition shaped (par : Z) (s : sharedBackendConn) : Prop :=
  Forall (fun row => Z.of_nat (length row) = par) (conns s) /\
  single s = if par =? 1 then Some (omap (fun row => row !! 0%nat) (conns s))
             else None.

Lemma index_lookup {A} (l : list A) (i : Z) (x : A) :
  index l i = Some x <-> 0 <= i /\ l !! Z.to_nat i = Some x.
Proof.
  unfold index. destruct (i <? 0) eqn:E.
  - apply Z.ltb_lt in E. split; [discriminate | lia].
  - apply Z.ltb_ge in E. tauto.
Qed.

Lemma index_in_range {A} (l : list A) (i : Z) :
  0 <= i < Z.of_nat (length l) -> exists x, index l i = Some x.
Proof.
  intros Hi. destruct (lookup_lt_is_Some_2 l (Z.to_nat i)) as [x Hx]; [lia|].
  exists x. apply index_lookup. split; [lia | exact Hx].
Qed.

Lemma omap_pointwise {A B} (f g : A -> option B) (l : list A) :
  (forall x, f x = g x) -> omap f l = omap g l.
Proof.
  intros Hfg. induction l as [|x l IH]; [reflexivity|].
  cbn. now rewrite Hfg, IH.
Qed.

Lemma omap_seq_shift {B} (f : nat -> option B) : forall k a,
  omap f (seq (S a) k) = omap (fun j => f (S j)) (seq a k).
Proof.
  induction k as [|k IH]; intros a; [reflexivity|].
  cbn. now rewrite IH.
Qed.

Lemma probe_order_S par start k :
  probe_order par start (S k)
  = match index par (start mod Z.of_nat (length par)) with
    | Some bc => bc :: probe_order par (start + 1) k
    | None => probe_order par (start + 1) k
    end.
Proof.
  unfold probe_order. cbn [seq omap list_omap].
  rewrite Z.add_0_r, omap_seq_shift.
  rewrite (omap_pointwise _
    (fun j => index par ((start + 1 + Z.of_nat j) mod Z.of_nat (length par)))).
  - reflexivity.
  - intros j. do 2 f_equal. lia.
Qed.

Lemma probe_order_mod par start k :
  probe_order par (start mod Z.of_nat (length par)) k = probe_order par start k.
Proof.
  unfold probe_order. apply omap_pointwise. intros j. f_equal.
  destruct (decide (length par = 0%nat)) as [-> | Hn].
  - cbn. now rewrite !Z.mod_0_r.
  - now rewrite Z.add_mod_idemp_l by lia.
Qed.

(** The loop of [BackendConn] returns the first connected worker in the
    order of [probe_order], from the index after [i]. *)
Lemma probe_find ws par : forall k i,
  par <> [] -> Z.of_nat (length par) < 2 ^ 63 ->
  0 <= i < 2 ^ 64 ->
  probe ws par k i
  = Some (find (IsConnected ws)
               (probe_order par (wrap_uint (i + 1) mod Z.of_nat (length par)) k)).
Proof.
  intros k i Hne Hlen. revert i.
  assert (HN : 0 < Z.of_nat (length par)) by (destruct par; [congruence | cbn; lia]).
  induction k as [|k IH]; intros i Hi; [reflexivity|].
  cbn [probe]. set (i' := wrap_uint (i + 1) mod Z.of_nat (length par)).
  assert (Hi' : 0 <= i' < Z.of_nat (length par)) by (apply Z.mod_pos_bound; lia).
  destruct (index_in_range par i' Hi') as [bc Hbc].
  rewrite Hbc. cbn [mbind option_bind].
  rewrite probe_order_S, Z.mod_small, Hbc by exact Hi'.
  cbn [find]. destruct (IsConnected ws bc); [reflexivity|].
  rewrite IH by lia. do 2 f_equal.
  unfold wrap_uint. rewrite (Z.mod_small (i' + 1)) by lia.
  apply probe_order_mod.
Qed.

Lemma probe_order_lookup par start k j :
  par <> [] -> (j < k)%nat ->
  probe_order par start k !! j
  = index par ((start + Z.of_nat j) mod Z.of_nat (length par)).
Proof.
  intros Hne. revert start j. induction k as [|k IH]; intros start j Hj; [lia|].
  assert (HN : 0 < Z.of_nat (length par)) by (destruct par; [congruence | cbn; lia]).
  rewrite probe_order_S.
  destruct (index_in_range par (start mod Z.of_nat (length par))) as [bc Hbc];
    [apply Z.mod_pos_bound; lia|].
  rewrite Hbc. destruct j as [|j].
  - cbn. now rewrite Z.add_0_r.
  - cbn [lookup list_lookup]. rewrite IH by lia. do 2 f_equal. lia.
Qed.

Lemma omap_total_lookup {A B} (f : A -> option B) (l : list A) (i : nat) :
  Forall (fun x => is_Some (f x)) l -> omap f l !! i = l !! i ≫= f.
Proof.
  intros Hall. revert i. induction Hall as [|x l [y Hy] _ IH]; intros i.
  - reflexivity.
  - cbn [omap list_omap]. rewrite Hy. destruct i as [|i]; [now cbn | apply IH].
Qed.

(** C7.  On a [sharedBackendConn] of a pool with [par] workers per
    database, [BackendConn(db, seed, must)] with [conns[db] = row] returns:
    for [par > 1], the first connected worker of the row in the order
    [row[(start + j) mod N]], [j = 0 .. N - 1], where [N = par] is the length
    of the row and [start = (seed + 1) mod N], the sum computed as a [uint];
    if no worker of the row is connected, nil when [must] is false and
    [row[0]] when it is true; for [par = 1], the one worker of the row, which
    is [single[db]], if [must] is true or that worker is connected, and nil
    otherwise. *)
Theorem BackendConn_selection (ws : list BackendConn) (par : Z)
    (s : sharedBackendConn) (db seed : Z) (must : bool) (row : list ptr) :
  shaped par s -> index (conns s) db = Some row ->
  0 <= seed < 2 ^ 64 -> 0 < par < 2 ^ 63 ->
  Z.of_nat (length row) = par /\
  (1 < par ->
     let start := ((seed + 1) mod 2 ^ 64) mod par in
     let order := probe_order row start (length row) in
     (forall j, (j < length row)%nat ->
        order !! j = index row ((start + Z.of_nat j) mod par)) /\
     BackendConn_select ws (Some s) db seed must
     = Some (match find (IsConnected ws) order with
             | Some bc => Some bc
             | None => if must then row !! 0%nat else None
             end)) /\
  (par = 1 ->
     exists bc,
       row = [bc] /\ (single s ≫= fun sg => index sg db) = Some bc /\
       BackendConn_select ws (Some s) db seed must
       = Some (if must || IsConnected ws bc then Some bc else None)).
Proof.
  intros [Hrows Hsingle] Hrow Hseed Hpar.
  apply index_lookup in Hrow as Hrow'. destruct Hrow' as [Hdb Hlk].
  assert (Hlen : Z.of_nat (length row) = par).
  { rewrite Forall_lookup in Hrows. exact (Hrows _ _ Hlk). }
  assert (Hne : row <> []) by (intros ->; cbn in Hlen; lia).
  split; [exact Hlen|]. split.
  - intros H1. cbn zeta. split.
    + intros j Hj. rewrite probe_order_lookup by assumption. now rewrite Hlen.
    + unfold BackendConn_select.
      replace (par =? 1) with false in Hsingle by lia.
      rewrite Hsingle, Hrow. cbn [mbind option_bind].
      rewrite probe_find by (assumption || lia). cbn [mbind option_bind].
      unfold wrap_uint. rewrite Hlen.
      destruct (find _ _); [reflexivity|].
      destruct must; cbn [negb]; [|reflexivity].
      destruct row as [|bc row']; [congruence | reflexivity].
  - intros ->. destruct row as [|bc [|? ?]]; cbn in Hlen; try lia.
    exists bc. split; [reflexivity|].
    cbn in Hsingle. rewrite Hsingle. cbn [mbind option_bind].
    assert (Hsg : index (omap (fun row => row !! 0%nat) (conns s)) db = Some bc).
    { apply index_lookup. split; [exact Hdb|].
      rewrite omap_total_lookup, Hlk; [reflexivity|].
      eapply Forall_impl; [exact Hrows|]. intros r Hr. cbn in Hr.
      destruct r; [cbn in Hr; lia | eauto]. }
    split; [exact Hsg|].
    unfold BackendConn_select. rewrite Hsingle, Hsg. reflexivity.
Qed.

(** Three workers of one database, the second and third connected. *)
Definition three_workers : list BackendConn :=
  [mkBackendConn "redis:6379" 0 0 false false;
   mkBackendConn "redis:6379" 0 stateConnected false false;
   mkBackendConn "redis:6379" 0 stateConnected false false].

Definition shared_three : sharedBackendConn :=
  mkShared "redis:6379" [[0; 1; 2]%nat] None 1.

Lemma BackendConn_selection_witness :
  BackendConn_select three_workers (Some shared_three) 0 5 false = Some (Some 1%nat)
  /\ BackendConn_select three_workers (Some shared_three) 0 (2 ^ 64 - 1) false
     = Some (Some 1%nat).
Proof.
  assert (Hs : shaped 3 shared_three).
  { split; [repeat constructor | reflexivity]. }
  split.
  - destruct (BackendConn_selection three_workers 3 shared_three 0 5 false
                [0; 1; 2]%nat Hs eq_refl ltac:(lia) ltac:(lia))
      as (_ & Hsel & _).
    destruct (Hsel ltac:(lia)) as [_ ->]. vm_compute. reflexivity.
  - destruct (BackendConn_selection three_workers 3 shared_three 0 (2 ^ 64 - 1)
                false [0; 1; 2]%nat Hs eq_refl ltac:(lia) ltac:(lia))
      as (_ & Hsel & _).
    destruct (Hsel ltac:(lia)) as [_ ->]. vm_compute. reflexivity.
Defined.

(** *** The pool *)

(** A worker as [NewBackendConn] makes it. *)
Definition new_worker (a : string) (db : Z) : BackendConn :=
  mkBackendConn a db 0 false false.

Lemma new_parallel_spec a db : forall k ws,
  new_parallel ws a db k
  = (seq (length ws) k, ws ++ replicate k (new_worker a db)).
Proof.
  induction k as [|k IH]; intros ws; cbn [new_parallel NewBackendConn].
  - cbn. now rewrite app_nil_r.
  - rewrite IH, length_app. cbn [length replicate seq].
    rewrite Nat.add_1_r, <- app_assoc. reflexivity.
Qed.

(** The workers [new_conns] makes: [n] rows of [par] pointers, all new, in
    the order of their creation. *)
Lemma new_conns_spec a par : forall n db ws rows ws',
  new_conns ws a par db n = (rows, ws') ->
  length rows = n /\
  Forall (fun row => length row = par) rows /\
  concat rows = seq (length ws) (n * par) /\
  exists new, ws' = ws ++ new /\ length new = (n * par)%nat /\
    Forall (fun w => addr w = a /\ state w = 0 /\ closed w = false) new.
Proof.
  induction n as [|n IH]; intros db ws rows ws'; cbn [new_conns].
  - intros [= <- <-]. repeat split; try constructor.
    exists []. now rewrite app_nil_r.
  - rewrite new_parallel_spec.
    destruct (new_conns _ a par (db + 1) n) as [rows1 ws2] eqn:E.
    intros [= <- <-].
    destruct (IH _ _ _ _ E) as (Hl & Hf & Hc & new & -> & Hn & Hnew).
    rewrite length_app, length_replicate in Hc.
    split; [cbn; lia|]. split; [constructor; [apply length_seq | exact Hf]|].
    split.
    + cbn [concat]. rewrite Hc. cbn [Nat.mul]. now rewrite seq_app.
    + exists (replicate par (new_worker a db) ++ new).
      rewrite app_assoc. split; [reflexivity|].
      split; [rewrite length_app, length_replicate; cbn; lia|].
      apply Forall_app. split; [|exact Hnew].
      apply Forall_replicate. now cbn.
Qed.

Lemma mapM_omap {A B} (f : A -> option B) (l : list A) :
  Forall (fun x => is_Some (f x)) l -> mapM f l = Some (omap f l).
Proof.
  intros Hall. apply mapM_Some_2.
  induction Hall as [|x l [y Hy] _ IH]; cbn [omap list_omap]; [constructor|].
  rewrite Hy. now constructor.
Qed.

(** [newSharedBackendConn] on a pool with sensible settings: a reference
    count of 1 and [BackendNumberDatabases * parallel] workers, all new. *)
Lemma newSharedBackendConn_spec (p : Pool) (a : string) :
  0 <= BackendNumberDatabases p -> 0 <= parallel p ->
  exists sc new,
    newSharedBackendConn p a = Some (sc, workers p ++ new) /\
    saddr sc = a /\ refcnt sc = 1 /\ shaped (parallel p) sc /\
    Z.of_nat (length (conns sc)) = BackendNumberDatabases p /\
    concat (conns sc)
    = seq (length (workers p))
          (Z.to_nat (BackendNumberDatabases p) * Z.to_nat (parallel p)) /\
    Z.of_nat (length new) = BackendNumberDatabases p * parallel p /\
    Forall (fun w => addr w = a /\ state w = 0 /\ closed w = false) new.
Proof.
  intros Hndb Hpar. unfold newSharedBackendConn.
  replace (BackendNumberDatabases p <? 0) with false by lia.
  replace (parallel p <? 0) with false by lia. cbn [orb].
  destruct (new_conns _ _ _ _ _) as [rows ws'] eqn:E.
  destruct (new_conns_spec _ _ _ _ _ _ _ E) as (Hl & Hf & Hc & new & -> & Hn & Hnew).
  assert (Hshape : Forall (fun row => Z.of_nat (length row) = parallel p) rows).
  { eapply Forall_impl; [exact Hf|]. cbn. intros row Hr. lia. }
  destruct (parallel p =? 1) eqn:E1.
  - assert (Hsome : Forall (fun row : list ptr => is_Some (row !! 0%nat)) rows).
    { eapply Forall_impl; [exact Hf|]. cbn. intros row Hr.
      apply lookup_lt_is_Some_2. lia. }
    assert (Hm : mapM (fun row : list ptr => row !! 0%nat) rows
                 = Some (omap (fun row : list ptr => row !! 0%nat) rows))
      by (apply mapM_omap; exact Hsome).
    rewrite Hm. cbn.
    exists (mkShared a rows (Some (omap (fun row => row !! 0%nat) rows)) 1), new.
    repeat split; try assumption; cbn; try lia. now rewrite E1.
  - cbn. exists (mkShared a rows None 1), new.
    repeat split; try assumption; cbn; try lia. now rewrite E1.
Qed.

Lemma close_all_lookup (cs : list (list ptr)) : forall ws (i : ptr),
  close_all ws cs !! i
  = if decide (i ∈ concat cs) then Close <$> ws !! i else ws !! i.
Proof.
  unfold close_all. induction (concat cs) as [|x l IH]; intros ws i.
  - cbn. rewrite decide_False by apply not_elem_of_nil. reflexivity.
  - cbn [fold_left]. rewrite IH.
    destruct (decide (i = x)) as [-> | Hne].
    + rewrite list_lookup_alter_eq.
      rewrite (decide_True (P := x ∈ x :: l)) by (left).
      destruct (decide (x ∈ l)); [|reflexivity].
      destruct (ws !! x); reflexivity.
    + rewrite list_lookup_alter_ne by congruence.
      destruct (decide (i ∈ l)) as [Hin | Hnin].
      * now rewrite decide_True by (now right).
      * rewrite decide_False; [reflexivity|].
        rewrite elem_of_cons. tauto.
Qed.

(** The calls a holder of an address makes: [p.Retain(addr)], and
    [Release()] on a pointer that a [Retain] returned. *)
Inductive op := OpRetain | OpRelease.

(** A sequence of calls for the address [a]; [held] are the pointers
    retained and not yet released.  [None]: a call panicked, or a release
    had nothing to release. *)
Fixpoint run (ops : list op) (a : string) (p : Pool) (held : list ptr)
  : option (Pool * list ptr) :=
  match ops with
  | [] => Some (p, held)
  | OpRetain :: ops' =>
      '(r, p1) ← Pool_Retain p a;
      q ← r;
      run ops' a p1 (q :: held)
  | OpRelease :: ops' =>
      match held with
      | [] => None
      | q :: held' => p1 ← Release p (Some q); run ops' a p1 held'
      end
  end.

(** Retains and releases in pairs: no release before its retain, as many
    of each when the sequence ends; [n] is the number of references held. *)
Fixpoint paired (ops : list op) (n : nat) : bool :=
  match ops with
  | [] => (n =? 0)%nat
  | OpRetain :: ops' => paired ops' (S n)
  | OpRelease :: ops' =>
      match n with
      | O => false
      | S n' => paired ops' n'
      end
  end.

(** The state of the entry of [a] while references are held. *)
Definition entry_inv (a : string) (ndb par : Z) (p : Pool) (held : list ptr)
  : Prop :=
  BackendNumberDatabases p = ndb /\ parallel p = par /\
  match held with
  | [] => pool p !! a = None
  | q :: _ =>
      pool p !! a = Some q /\ Forall (eq q) held /\
      exists sc, shared p !! q = Some sc /\ saddr sc = a /\
                 refcnt sc = Z.of_nat (length held)
  end.

Lemma wrap64_small z : - 2 ^ 63 <= z < 2 ^ 63 -> wrap64 z = z.
Proof. apply wrap64_id. Qed.

Lemma run_paired (a : string) (ndb par : Z) :
  0 <= ndb -> 0 <= par ->
  forall ops p held,
    entry_inv a ndb par p held ->
    Z.of_nat (length held + length ops) < 2 ^ 63 ->
    paired ops (length held) = true ->
    exists p', run ops a p held = Some (p', []) /\ entry_inv a ndb par p' [] /\
               forall a', a' <> a -> pool p' !! a' = pool p !! a'.
Proof.
  intros Hndb Hpar. induction ops as [|o ops IH]; intros p held Hinv Hbound Hp.
  - cbn in Hp. apply Nat.eqb_eq in Hp. destruct held; [|discriminate].
    exists p. repeat split; try apply Hinv.
  - destruct Hinv as (Hn & Hq & Hentry). destruct o; cbn [run paired] in *.
    + (* Retain *)
      unfold Pool_Retain. destruct held as [|q held].
      * rewrite Hentry.
        destruct (newSharedBackendConn_spec p a) as (sc & new & -> & Ha & Hr & _);
          [lia | lia |].
        cbn [mbind option_bind].
        match goal with |- context [run ops a ?p1 _] =>
          edestruct (IH p1 [length (shared p)]) as (p' & Hrun & Hinv' & Hother); [| |exact Hp|]
        end.
        -- split; [exact Hn|]. split; [exact Hq|]. cbn [pool shared].
           split; [apply lookup_insert_eq|]. split; [repeat constructor|].
           exists sc. split; [apply list_lookup_middle; reflexivity|].
           split; [exact Ha | exact Hr].
        -- cbn [length] in *. lia.
        -- exists p'. split; [exact Hrun|]. split; [exact Hinv'|].
           intros a' Ha'. rewrite Hother by exact Ha'. cbn [pool].
           now rewrite lookup_insert_ne by congruence.
      * destruct Hentry as (Hpa & Hall & sc & Hsc & Ha & Hr).
        rewrite Hpa. unfold Retain. rewrite Hsc. cbn [mbind option_bind].
        replace (refcnt sc <=? 0) with false by (cbn [length] in Hr; lia).
        cbn [mbind option_bind].
        match goal with |- context [run ops a ?p1 _] =>
          edestruct (IH p1 (q :: q :: held)) as (p' & Hrun & Hinv' & Hother); [| |exact Hp|]
        end.
        -- split; [exact Hn|]. split; [exact Hq|]. cbn [pool shared].
           split; [exact Hpa|]. split; [constructor; [reflexivity | exact Hall]|].
           eexists. split; [apply list_lookup_insert_eq; eapply lookup_lt_Some, Hsc|].
           cbn [saddr refcnt set_refcnt]. split; [exact Ha|].
           rewrite wrap64_small; cbn [length] in *; lia.
        -- cbn [length] in *. lia.
        -- exists p'. split; [exact Hrun|]. split; [exact Hinv'|].
           intros a' Ha'. now rewrite Hother.
    + (* Release *)
      destruct held as [|q held]; [discriminate|].
      destruct Hentry as (Hpa & Hall & sc & Hsc & Ha & Hr).
      cbn [length] in Hp, Hr, Hbound.
      unfold Release. rewrite Hsc. cbn [mbind option_bind].
      replace (refcnt sc <=? 0) with false by lia.
      cbn [refcnt set_refcnt saddr conns].
      rewrite wrap64_small by lia.
      assert (Hlk : forall sc', <[q := sc']> (shared p) !! q = Some sc')
        by (intros sc'; apply list_lookup_insert_eq; eapply lookup_lt_Some, Hsc).
      destruct held as [|q' held].
      * replace (refcnt sc - 1 =? 0) with true by (cbn in Hr; lia).
        cbn [negb mbind option_bind].
        match goal with |- context [run ops a ?p1 _] =>
          edestruct (IH p1 []) as (p' & Hrun & Hinv' & Hother); [| |exact Hp|]
        end.
        -- split; [exact Hn|]. split; [exact Hq|]. cbn [pool].
           rewrite Ha. apply lookup_delete_eq.
        -- cbn [length] in *. lia.
        -- exists p'. split; [exact Hrun|]. split; [exact Hinv'|].
           intros a' Ha'. rewrite Hother by exact Ha'. cbn [pool].
           rewrite Ha. now rewrite lookup_delete_ne by congruence.
      * replace (refcnt sc - 1 =? 0) with false by (cbn [length] in Hr; lia).
        cbn [negb mbind option_bind].
        apply Forall_cons in Hall as [_ Hall'].
        assert (q' = q) as -> by (apply Forall_cons in Hall' as [Heq _]; congruence).
        match goal with |- context [run ops a ?p1 _] =>
          edestruct (IH p1 (q :: held)) as (p' & Hrun & Hinv' & Hother); [| |exact Hp|]
        end.
        -- split; [exact Hn|]. split; [exact Hq|]. cbn [pool shared].
           split; [exact Hpa|]. split; [exact Hall'|].
           eexists. split; [apply Hlk|]. cbn [saddr refcnt set_refcnt].
           split; [exact Ha|]. cbn [length] in *. lia.
        -- cbn [length] in *. lia.
        -- exists p'. split; [exact Hrun|]. split; [exact Hinv'|].
           intros a' Ha'. now rewrite Hother.
Qed.

(** C8.  The reference counts of the pool.  [Retain(addr)] on an address
    of the map increments the count of its entry and returns it; on an
    absent address it makes a [sharedBackendConn] with count 1 and
    [BackendNumberDatabases * parallel] new workers and puts it in the map.
    [Release] decrements the count; when the count reaches zero, and only
    then, it closes every worker of the entry and deletes the entry from the
    map.  [Release] and [Retain] on an object whose count is zero or
    negative panic.  So after retains and releases in pairs on an address
    that was absent, the address is absent again, and no other entry of the
    map has changed. *)
Theorem pool_refcount_discipline :
  (forall p a q sc,
     pool p !! a = Some q -> shared p !! q = Some sc ->
     0 < refcnt sc < 2 ^ 63 - 1 ->
     Pool_Retain p a
     = Some (Some q,
             mkPool (BackendNumberDatabases p) (parallel p) (pool p)
               (<[q := set_refcnt sc (refcnt sc + 1)]> (shared p)) (workers p))) /\
  (forall p a,
     pool p !! a = None -> 0 <= BackendNumberDatabases p -> 0 <= parallel p ->
     exists sc new,
       Pool_Retain p a
       = Some (Some (length (shared p)),
               mkPool (BackendNumberDatabases p) (parallel p)
                 (<[a := length (shared p)]> (pool p))
                 (shared p ++ [sc]) (workers p ++ new)) /\
       saddr sc = a /\ refcnt sc = 1 /\
       Z.of_nat (length new) = BackendNumberDatabases p * parallel p /\
       concat (conns sc) = seq (length (workers p)) (length new) /\
       Forall (fun w => addr w = a /\ state w = 0 /\ closed w = false) new) /\
  (forall p q sc,
     shared p !! q = Some sc ->
     (refcnt sc <= 0 ->
        Release p (Some q) = None /\ Retain p (Some q) = None) /\
     (1 < refcnt sc < 2 ^ 63 ->
        Release p (Some q)
        = Some (mkPool (BackendNumberDatabases p) (parallel p) (pool p)
                  (<[q := set_refcnt sc (refcnt sc - 1)]> (shared p))
                  (workers p))) /\
     (refcnt sc = 1 ->
        exists ws,
          Release p (Some q)
          = Some (mkPool (BackendNumberDatabases p) (parallel p)
                    (delete (saddr sc) (pool p))
                    (<[q := set_refcnt sc 0]> (shared p)) ws) /\
          (forall bc, bc ∈ concat (conns sc) ->
             ws !! bc = Close <$> workers p !! bc) /\
          (forall bc w, bc ∈ concat (conns sc) -> ws !! bc = Some w ->
             closed w = true) /\
          (forall bc, bc ∉ concat (conns sc) -> ws !! bc = workers p !! bc))) /\
  (forall a ops p,
     pool p !! a = None -> 0 <= BackendNumberDatabases p -> 0 <= parallel p ->
     Z.of_nat (length ops) < 2 ^ 63 -> paired ops 0 = true ->
     exists p',
       run ops a p [] = Some (p', []) /\ pool p' !! a = None /\
       forall a', a' <> a -> pool p' !! a' = pool p !! a').
Proof.
  split; [|split; [|split]].
  - intros p a q sc Hpa Hsc Hr. unfold Pool_Retain, Retain.
    rewrite Hpa, Hsc. cbn [mbind option_bind].
    replace (refcnt sc <=? 0) with false by lia.
    rewrite wrap64_small by lia. reflexivity.
  - intros p a Hpa Hndb Hpar. unfold Pool_Retain. rewrite Hpa.
    destruct (newSharedBackendConn_spec p a Hndb Hpar)
      as (sc & new & -> & Ha & Hr & _ & _ & Hc & Hlen & Hnew).
    exists sc, new. cbn [mbind option_bind].
    split; [reflexivity|]. split; [exact Ha|]. split; [exact Hr|].
    split; [exact Hlen|]. split; [|exact Hnew].
    rewrite Hc. f_equal. nia.
  - intros p q sc Hsc. split; [|split].
    + intros Hr. unfold Release, Retain. rewrite Hsc. cbn [mbind option_bind].
      replace (refcnt sc <=? 0) with true by lia. split; reflexivity.
    + intros Hr. unfold Release. rewrite Hsc. cbn [mbind option_bind].
      replace (refcnt sc <=? 0) with false by lia.
      cbn [refcnt set_refcnt]. rewrite wrap64_small by lia.
      replace (refcnt sc - 1 =? 0) with false by lia. reflexivity.
    + intros Hr. unfold Release. rewrite Hsc. cbn [mbind option_bind].
      replace (refcnt sc <=? 0) with false by lia.
      cbn [refcnt set_refcnt saddr conns]. rewrite wrap64_small by lia.
      replace (refcnt sc - 1 =? 0) with true by lia. cbn [negb].
      replace (refcnt sc - 1) with 0 by lia.
      eexists. split; [reflexivity|]. split; [|split].
      * intros bc Hbc. rewrite close_all_lookup. now rewrite decide_True.
      * intros bc w Hbc. rewrite close_all_lookup, decide_True by exact Hbc.
        destruct (workers p !! bc); [|discriminate]. now intros [= <-].
      * intros bc Hbc. rewrite close_all_lookup. now rewrite decide_False.
  - intros a ops p Hpa Hndb Hpar Hlen Hp.
    destruct (run_paired a _ _ Hndb Hpar ops p []) as (p' & Hrun & Hinv & Hother).
    + repeat split. exact Hpa.
    + exact Hlen.
    + exact Hp.
    + exists p'. split; [exact Hrun|]. split; [apply Hinv | exact Hother].
Qed.

(** *** The selection never hands out a wrong connection *)

(** The probing order goes through the whole row. *)
Lemma probe_order_covers (row : list ptr) (start : Z) (bc : ptr) :
  bc ∈ probe_order row start (length row) <-> bc ∈ row.
Proof.
  destruct (decide (row = [])) as [-> | Hne]; [reflexivity|].
  assert (HN : 0 < Z.of_nat (length row)) by (destruct row; [congruence | cbn; lia]).
  unfold probe_order. rewrite list_elem_of_omap. split.
  - intros (j & _ & Hj). apply index_lookup in Hj as [_ Hj].
    eapply list_elem_of_lookup_2. exact Hj.
  - intros Hin. apply list_elem_of_lookup in Hin as [i Hi].
    assert (Hil : (i < length row)%nat) by (apply lookup_lt_Some in Hi; exact Hi).
    set (j := Z.to_nat ((Z.of_nat i - start) mod Z.of_nat (length row))).
    assert (Hj : (j < length row)%nat).
    { subst j. pose proof (Z.mod_pos_bound (Z.of_nat i - start) _ HN). lia. }
    exists j. split; [apply elem_of_seq; lia|].
    apply index_lookup. subst j.
    rewrite Z2Nat.id by (apply Z.mod_pos_bound; exact HN).
    rewrite Z.add_mod_idemp_r by lia.
    replace (start + (Z.of_nat i - start)) with (Z.of_nat i) by lia.
    rewrite Z.mod_small by lia. split; [lia|]. now rewrite Nat2Z.id.
Qed.

Lemma find_connected (ws : list BackendConn) (l : list ptr) :
  match find (IsConnected ws) l with
  | Some bc => bc ∈ l /\ IsConnected ws bc = true
  | None => forall bc, bc ∈ l -> IsConnected ws bc = false
  end.
Proof.
  destruct (find (IsConnected ws) l) as [bc|] eqn:E.
  - apply find_some in E as [Hin Hc]. split; [now apply list_elem_of_In | exact Hc].
  - intros bc Hin. apply list_elem_of_In in Hin. exact (find_none _ _ E bc Hin).
Qed.

(** X20.  [BackendConn(database, seed, must)] on a shared connection as
    [newSharedBackendConn] makes it, for a database it has: the connection
    returned is one of that database; without [must] it is a connected
    one, and nil is returned exactly when none of them is connected; with
    [must] a connection is always returned, a connected one if there is
    any.  On the nil receiver the result is nil, and a database the object
    has not is an index out of range. *)
Theorem BackendConn_selection_is_safe (ws : list BackendConn) (par : Z)
    (s : sharedBackendConn) (db seed : Z) (must : bool) (row : list ptr) :
  shaped par s -> index (conns s) db = Some row ->
  0 <= seed < 2 ^ 64 -> 0 < par < 2 ^ 63 ->
  (exists r,
     BackendConn_select ws (Some s) db seed must = Some r /\
     (forall bc, r = Some bc ->
        bc ∈ row /\ (must = false -> IsConnected ws bc = true)) /\
     (r = None ->
        must = false /\ forall bc, bc ∈ row -> IsConnected ws bc = false) /\
     (forall bc, bc ∈ row -> IsConnected ws bc = true ->
        exists bc', r = Some bc' /\ IsConnected ws bc' = true)) /\
  BackendConn_select ws None db seed must = Some None /\
  (forall db', index (conns s) db' = None ->
     BackendConn_select ws (Some s) db' seed must = None).
Proof.
  intros [Hrows Hsingle] Hrow Hseed Hpar.
  apply index_lookup in Hrow as Hrow'. destruct Hrow' as [Hdb Hlk].
  assert (Hlen : Z.of_nat (length row) = par).
  { rewrite Forall_lookup in Hrows. exact (Hrows _ _ Hlk). }
  assert (Hne : row <> []) by (intros ->; cbn in Hlen; lia).
  split; [|split; [reflexivity|]].
  - unfold BackendConn_select. destruct (par =? 1) eqn:E1.
    + apply Z.eqb_eq in E1. subst par.
      destruct row as [|bc [|? ?]]; cbn in Hlen; try lia.
      rewrite Hsingle. cbn [mbind option_bind].
      assert (Hsg : index (omap (fun row => row !! 0%nat) (conns s)) db = Some bc).
      { apply index_lookup. split; [exact Hdb|].
        rewrite omap_total_lookup, Hlk; [reflexivity|].
        eapply Forall_impl; [exact Hrows|]. intros r Hr. cbn in Hr.
        destruct r; [cbn in Hr; lia | eauto]. }
      rewrite Hsg. cbn [mbind option_bind]. eexists. split; [reflexivity|].
      destruct must; cbn [orb].
      * split; [intros ? [= <-]; split; [apply list_elem_of_here | discriminate]|].
        split; [discriminate|]. intros bc' Hin Hc.
        apply list_elem_of_singleton in Hin. subst bc'. eauto.
      * destruct (IsConnected ws bc) eqn:Ec.
        -- split; [intros ? [= <-]; split; [apply list_elem_of_here | auto]|].
           split; [discriminate|]. eauto.
        -- split; [discriminate|]. split.
           ++ intros _. split; [reflexivity|]. intros bc' Hin.
              apply list_elem_of_singleton in Hin. now subst bc'.
           ++ intros bc' Hin Hc. apply list_elem_of_singleton in Hin. subst bc'.
              congruence.
    + rewrite Hsingle, Hrow. cbn [mbind option_bind].
      rewrite probe_find by (assumption || lia). cbn [mbind option_bind].
      pose proof (find_connected ws
        (probe_order row (wrap_uint (seed + 1) mod Z.of_nat (length row)) (length row)))
        as Hfind.
      destruct (find _ _) as [bc|].
      * destruct Hfind as [Hin Hc]. apply probe_order_covers in Hin.
        eexists. split; [reflexivity|].
        split; [intros ? [= <-]; auto|]. split; [discriminate | eauto].
      * assert (Hnone : forall bc, bc ∈ row -> IsConnected ws bc = false)
          by (intros bc Hin; apply Hfind; now apply probe_order_covers).
        destruct must; cbn [negb].
        -- destruct row as [|bc0 row']; [congruence|].
           cbn [index Z.ltb Z.compare Z.to_nat lookup list_lookup mbind option_bind].
           eexists. split; [reflexivity|].
           split; [intros ? [= <-]; split; [apply list_elem_of_here | discriminate]|].
           split; [discriminate|]. intros bc Hin Hc. rewrite Hnone in Hc by exact Hin.
           discriminate.
        -- eexists. split; [reflexivity|]. split; [discriminate|].
           split; [auto|]. intros bc Hin Hc. rewrite Hnone in Hc by exact Hin.
           discriminate.
  - intros db' Hnone. unfold BackendConn_select. rewrite Hsingle.
    destruct (par =? 1) eqn:E1; [|now rewrite Hnone].
    apply Z.eqb_eq in E1. subst par.
    assert (Hsg : index (omap (fun row => row !! 0%nat) (conns s)) db' = None).
    { unfold index in *. destruct (db' <? 0); [reflexivity|].
      rewrite omap_total_lookup, Hnone; [reflexivity|].
      eapply Forall_impl; [exact Hrows|]. intros r Hr. cbn in Hr.
      destruct r; [cbn in Hr; lia | eauto]. }
    now rewrite Hsg.
Qed.

(** *** The states of a connection *)

(** X21.  The two health checks move the state along one edge each and
    along no other: the reader loop may only turn [Connected] into
    [DataStale], the keepalive callback may only turn [DataStale] into
    [Connected], and neither touches a connection in any other state (one
    that is not connected stays so).  The reader loop completes its request
    in every case, taking one from each wait group the request has, and
    stops exactly when decoding failed, leaving the state as it is and the
    request with the failure as its error and no reply. *)
Theorem health_checks_move_one_edge :
  (forall st r dec,
     let '(st', r', go) := loopReader_step st r dec in
     (st' = st \/ (st = stateConnected /\ st' = stateDataStale)) /\
     Batch r' = (fun n => n - 1) <$> Batch r /\
     Group r' = (fun n => n - 1) <$> Group r /\
     Multi r' = Multi r /\
     match snd dec with
     | Some e =>
         go = false /\ st' = st /\ Resp r' = None /\
         Err r' = Some (ErrBackendConnFailure e)
     | None => go = true /\ Resp r' = fst dec /\ Err r' = None
     end) /\
  (forall st m,
     let '(st', e) := keepalive_callback st m in
     st' = st \/ (st = stateDataStale /\ st' = stateConnected /\ e = None)).
Proof.
  assert (Hcas : forall st old new,
            snd (CompareAndSwap st old new) = st \/
            (st = old /\ snd (CompareAndSwap st old new) = new)).
  { intros st old new. unfold CompareAndSwap. destruct (st =? old) eqn:E.
    - apply Z.eqb_eq in E. right. now split.
    - now left. }
  split.
  - intros st r [resp [e|]]; cbn [loopReader_step setResponse Batch Group Multi
                                   Resp Err fst snd].
    + repeat split; auto.
    + split; [|repeat split; auto].
      destruct resp as [rp|]; [|now left].
      destruct (redis.IsError rp); [|now left].
      destruct (strings.HasPrefix _ errRespMasterDown);
        [apply Hcas|].
      destruct (strings.HasPrefix _ errRespLoading); [apply Hcas | now left].
  - intros st m. unfold keepalive_callback.
    destruct (Err m); [now left|]. destruct (Resp m) as [resp|]; [|now left].
    destruct (redis.IsError resp); [now left|].
    destruct (redis.IsBulkBytes resp); [|now left].
    destruct (bool_decide _); [now left|]. destruct (bool_decide _); [now left|].
    destruct (Hcas st stateDataStale stateConnected) as [-> | [-> ->]];
      [now left | right; auto].
Qed.

(** *** The connections of a new shared connection *)

Lemma new_conns_layout (a : string) (par : nat) : forall n db ws rows ws',
  new_conns ws a par db n = (rows, ws') ->
  (forall k w, ws !! k = Some w -> ws' !! k = Some w) /\
  (forall j i row bc,
     rows !! j = Some row -> row !! i = Some bc ->
     bc = (length ws + j * par + i)%nat /\ (i < par)%nat /\
     ws' !! bc = Some (new_worker a (db + Z.of_nat j))).
Proof.
  induction n as [|n IH]; intros db ws rows ws'; cbn [new_conns].
  - intros [= <- <-]. split; [auto|]. intros j i row bc Hj. now rewrite lookup_nil in Hj.
  - rewrite new_parallel_spec.
    destruct (new_conns _ a par (db + 1) n) as [rows1 ws2] eqn:E.
    intros [= <- <-].
    destruct (IH _ _ _ _ E) as (Hkeep & Hlay).
    rewrite length_app, length_replicate in Hlay.
    split.
    + intros k w Hk. apply Hkeep. now apply lookup_app_l_Some.
    + intros [|j] i row bc Hj Hi; cbn [lookup list_lookup] in Hj.
      * injection Hj as <-. apply lookup_seq in Hi as [-> Hi].
        split; [lia|]. split; [exact Hi|].
        apply Hkeep. rewrite lookup_app_r by lia.
        replace (length ws + i - length ws)%nat with i by lia.
        rewrite Z.add_0_r. now apply lookup_replicate_2.
      * destruct (Hlay j i row bc Hj Hi) as (-> & Hip & Hw).
        split; [lia|]. split; [exact Hip|].
        rewrite Hw. f_equal. f_equal. lia.
Qed.

(** X22.  What [newSharedBackendConn] builds for a pool of [ndb] databases
    and [par] connections each: the connection at [conns[db][i]] is a new
    one, made for the address and for the database [db], not connected and
    not closed; no connection appears twice; those that existed before are
    left as they were; the reference count starts at 1; and [single] is the
    first column exactly when [par] is 1. *)
Theorem newSharedBackendConn_layout (p : Pool) (a : string) :
  0 <= BackendNumberDatabases p -> 0 <= parallel p ->
  exists sc ws,
    newSharedBackendConn p a = Some (sc, ws) /\
    saddr sc = a /\ refcnt sc = 1 /\
    Z.of_nat (length (conns sc)) = BackendNumberDatabases p /\
    (forall db i row bc,
       conns sc !! db = Some row -> row !! i = Some bc ->
       Z.of_nat (length row) = parallel p /\
       bc = (length (workers p) + db * Z.to_nat (parallel p) + i)%nat /\
       ws !! bc = Some (mkBackendConn a (Z.of_nat db) 0 false false)) /\
    NoDup (concat (conns sc)) /\
    (forall k w, workers p !! k = Some w -> ws !! k = Some w) /\
    single sc = (if parallel p =? 1
                 then Some (omap (fun row => row !! 0%nat) (conns sc)) else None).
Proof.
  intros Hdb Hpar.
  destruct (newSharedBackendConn_spec p a Hdb Hpar)
    as (sc & new & Hnew & Ha & Hrc & [Hrows Hsingle] & Hlen & Hcat & _ & _).
  exists sc, (workers p ++ new). split; [exact Hnew|].
  split; [exact Ha|]. split; [exact Hrc|]. split; [exact Hlen|].
  unfold newSharedBackendConn in Hnew.
  replace (_ || _) with false in Hnew by (symmetry; apply orb_false_iff; lia).
  destruct (new_conns _ _ _ _ _) as [cs ws'] eqn:E.
  destruct (new_conns_layout _ _ _ _ _ _ _ E) as [Hkeep Hlay].
  assert (Hcs : conns sc = cs /\ workers p ++ new = ws').
  { destruct (if parallel p =? 1 then _ else _) as [sg|]; [|discriminate].
    cbn [mbind option_bind] in Hnew. now injection Hnew as <- <-. }
  destruct Hcs as [Hcs Hws]. rewrite Hws.
  split; [|split; [|split; [exact Hkeep | exact Hsingle]]].
  - intros db i row bc Hrow Hi. rewrite Hcs in Hrow.
    destruct (Hlay db i row bc Hrow Hi) as (-> & _ & Hw).
    split; [|split; [reflexivity|]].
    + rewrite Forall_lookup in Hrows. rewrite <- Hcs in Hrow. exact (Hrows _ _ Hrow).
    + rewrite Hw. unfold new_worker. now rewrite Z.add_0_l.
  - rewrite Hcat. apply NoDup_seq.
Qed.

(** *** The selection and the layout at work *)

(** A row where nothing is connected. *)
Definition idle_workers : list BackendConn :=
  [mkBackendConn "redis:6379" 0 0 false false;
   mkBackendConn "redis:6379" 0 stateDataStale false false;
   mkBackendConn "redis:6379" 0 0 false false].

Lemma BackendConn_selection_is_safe_witness :
  BackendConn_select idle_workers (Some shared_three) 0 7 false = Some None /\
  exists bc, BackendConn_select idle_workers (Some shared_three) 0 7 true
             = Some (Some bc) /\ bc ∈ [0; 1; 2]%nat.
Proof.
  assert (Hs : shaped 3 shared_three).
  { split; [repeat constructor | reflexivity]. }
  split; [vm_compute; reflexivity|].
  destruct (BackendConn_selection_is_safe idle_workers 3 shared_three 0 7 true
              [0; 1; 2]%nat Hs eq_refl ltac:(lia) ltac:(lia))
    as ((r & Hrun & Hsome & Hnone & _) & _).
  destruct r as [bc|]; [|destruct (Hnone eq_refl); discriminate].
  exists bc. split; [exact Hrun|]. exact (proj1 (Hsome bc eq_refl)).
Defined.

Lemma newSharedBackendConn_layout_witness :
  exists sc ws,
    newSharedBackendConn (newSharedBackendConnPool 2 2) "redis:6379"
    = Some (sc, ws) /\
    conns sc = [[0; 1]; [2; 3]]%nat /\
    ws !! 3%nat = Some (mkBackendConn "redis:6379" 1 0 false false).
Proof.
  destruct (newSharedBackendConn_layout (newSharedBackendConnPool 2 2) "redis:6379")
    as (sc & ws & Hrun & _ & _ & _ & Hlay & _); [cbn; lia | cbn; lia |].
  exists sc, ws. split; [exact Hrun|].
  assert (Hc : conns sc = [[0; 1]; [2; 3]]%nat)
    by (vm_compute in Hrun; now injection Hrun as <- _).
  split; [exact Hc|].
  destruct (Hlay 1%nat 1%nat [2; 3]%nat 3%nat) as (_ & _ & Hw);
    [now rewrite Hc | reflexivity | exact Hw].
Defined.

End proxy.

(** ** [unsafe2]: off-heap slices ([cgo_slice.go], [slice.go]) *)

Module unsafe2.
Import Go.

(** A [cgoSlice] in the store: [ptr] and [buf] ([None] for nil), and
    whether the run time holds a finalizer for it ([runtime.SetFinalizer]). *)
Record cgoSlice := mkCgoSlice {
  ptr : option Z;
  buf : option (list byte);
  finalizer : bool
}.

(** The two counters of the package, the regions given back to C so far, in
    the order of the calls of [cgo_free], and the store of slices, a pointer
    being an index of it. *)
Record Offheap := mkOffheap {
  allocOffheapBytes : Z;
  maxOffheapBytes : Z;
  freed : list Z;
  slices : list cgoSlice
}.

(** [atomic2.Int64]'s [Add] and [Sub]: the new value, an [int64]. *)
Definition Add (v n : Z) : Z := wrap64 (v + n).
Definition Sub (v n : Z) : Z := wrap64 (v - n).

(** Modelled from the spec: [cgo_malloc] and [cgo_free] (the cgo file is
    not among the sources at hand) take a region off the managed heap and
    give it back.  What [cgo_malloc(n)] returned is an argument of
    [newCGoSlice]: nil, or the address of a region and its [n] bytes. *)
Definition cgo_free (w : Offheap) (p : Z) : Offheap :=
  mkOffheap (allocOffheapBytes w) (maxOffheapBytes w) (freed w ++ [p]) (slices w).

Definition set_alloc (w : Offheap) (v : Z) : Offheap :=
  mkOffheap v (maxOffheapBytes w) (freed w) (slices w).

Definition set_slice (w : Offheap) (i : nat) (s : cgoSlice) : Offheap :=
  mkOffheap (allocOffheapBytes w) (maxOffheapBytes w) (freed w)
            (<[i := s]> (slices w)).

(** [newCGoSlice(n, force)]: the slice, nil or new in the store. *)
Definition newCGoSlice (w : Offheap) (n : Z) (force : bool)
    (malloc : option (Z * list byte)) : option nat * Offheap :=
  let after := Add (allocOffheapBytes w) n in
  let w1 := set_alloc w after in
  if negb force && (maxOffheapBytes w <? after)
  then (None, set_alloc w1 (Sub after n))
  else
    match malloc with
    | None => (None, set_alloc w1 (Sub after n))
    | Some (p, region) =>
        (Some (length (slices w)),
         mkOffheap after (maxOffheapBytes w) (freed w)
                   (slices w ++ [mkCgoSlice (Some p) (Some region) true]))
    end.

(** [s.reclaim()] for the slice at [i]. *)
Definition reclaim (w : Offheap) (i : nat) : Offheap :=
  match slices w !! i with
  | None => w
  | Some s =>
      match ptr s with
      | None => w
      | Some p =>
          let w1 := cgo_free w p in
          let w2 := set_alloc w1 (Sub (allocOffheapBytes w1)
                                      (Z.of_nat (length (default [] (buf s))))) in
          set_slice w2 i (mkCgoSlice None None false)
      end
  end.

(** [FreeSlice(s)] for a [cgoSlice]. *)
Definition FreeSlice (w : Offheap) (s : option nat) : Offheap :=
  match s with
  | None => w
  | Some i => reclaim w i
  end.

(** The run time finding the slice at [i] unreachable: if a finalizer is
    set it is taken off and run, once. *)
Definition run_finalizer (w : Offheap) (i : nat) : Offheap :=
  match slices w !! i with
  | Some s =>
      if finalizer s
      then reclaim (set_slice w i (mkCgoSlice (ptr s) (buf s) false)) i
      else w
  | None => w
  end.

(** The two ways to [reclaim]. *)
Inductive release := ByFreeSlice | ByFinalizer.

Definition release_step (i : nat) (w : Offheap) (r : release) : Offheap :=
  match r with
  | ByFreeSlice => FreeSlice w (Some i)
  | ByFinalizer => run_finalizer w i
  end.

(** A slice that has been reclaimed. *)
Definition reclaimed (w : Offheap) (i : nat) : Prop :=
  slices w !! i = Some (mkCgoSlice None None false).

Lemma reclaim_reclaimed w i : reclaimed w i -> reclaim w i = w.
Proof. unfold reclaimed, reclaim. now intros ->. Qed.

Lemma run_finalizer_reclaimed w i : reclaimed w i -> run_finalizer w i = w.
Proof. unfold reclaimed, run_finalizer. now intros ->. Qed.

Lemma releases_reclaimed i : forall rs w,
  reclaimed w i -> fold_left (release_step i) rs w = w.
Proof.
  induction rs as [|r rs IH]; intros w Hr; [reflexivity|].
  cbn [fold_left]. destruct r; cbn [release_step FreeSlice].
  - rewrite reclaim_reclaimed by exact Hr. now apply IH.
  - rewrite run_finalizer_reclaimed by exact Hr. now apply IH.
Qed.

Lemma reclaim_live w i s p b :
  slices w !! i = Some s -> ptr s = Some p -> buf s = Some b ->
  reclaim w i
  = mkOffheap (Sub (allocOffheapBytes w) (Z.of_nat (length b)))
              (maxOffheapBytes w) (freed w ++ [p])
              (<[i := mkCgoSlice None None false]> (slices w)).
Proof. intros Hs Hp Hb. unfold reclaim. now rewrite Hs, Hp, Hb. Qed.

Lemma reclaim_leaves_reclaimed w i s :
  slices w !! i = Some s -> ptr s <> None -> reclaimed (reclaim w i) i.
Proof.
  intros Hs Hp. unfold reclaim, reclaimed. rewrite Hs.
  destruct (ptr s); [|congruence]. cbn.
  apply list_lookup_insert_eq. eapply lookup_lt_Some, Hs.
Qed.

(** C9.  [reclaim] is idempotent.  The first call on a slice frees its
    region, takes the length of the slice from the count of off-heap bytes,
    sets [ptr] and [buf] to nil and takes the finalizer off; a call on a slice
    whose [ptr] is nil changes nothing.  So, for a slice that [newCGoSlice]
    made, whatever the calls of [FreeSlice] and the runs of the finalizer,
    one at least, the region is freed once and the count is the count
    before the calls less the length of the slice.  In numbers: the count
    after the first call is the count before minus the length, an [int64]
    (the difference itself where it is one), and a second call leaves it
    there; the count of a slice of [n] bytes that [newCGoSlice] made, [n]
    above the count before the allocation, is back at that count after the
    calls, however many they are. *)
Theorem reclaim_exactly_once :
  (forall w i, reclaim (reclaim w i) i = reclaim w i) /\
  (forall w i s p b,
     slices w !! i = Some s -> ptr s = Some p -> buf s = Some b ->
     reclaim w i
     = mkOffheap (Sub (allocOffheapBytes w) (Z.of_nat (length b)))
                 (maxOffheapBytes w) (freed w ++ [p])
                 (<[i := mkCgoSlice None None false]> (slices w))) /\
  (forall w i s, slices w !! i = Some s -> ptr s = None -> reclaim w i = w) /\
  (forall w n force p region i w1 r rs,
     newCGoSlice w n force (Some (p, region)) = (Some i, w1) ->
     let w2 := fold_left (release_step i) (r :: rs) w1 in
     freed w2 = freed w1 ++ [p] /\
     allocOffheapBytes w2
     = Sub (allocOffheapBytes w1) (Z.of_nat (length region)) /\
     slices w2 !! i = Some (mkCgoSlice None None false)) /\
  (forall w i s p b,
     slices w !! i = Some s -> ptr s = Some p -> buf s = Some b ->
     let old := allocOffheapBytes w in
     let len := Z.of_nat (length b) in
     allocOffheapBytes (reclaim w i) = (old - len + 2 ^ 63) mod 2 ^ 64 - 2 ^ 63 /\
     (- 2 ^ 63 <= old - len < 2 ^ 63 ->
      allocOffheapBytes (reclaim w i) = old - len) /\
     allocOffheapBytes (reclaim (reclaim w i) i) = allocOffheapBytes (reclaim w i) /\
     freed (reclaim (reclaim w i) i) = freed w ++ [p]) /\
  (forall w n force p region i w1 r rs,
     newCGoSlice w n force (Some (p, region)) = (Some i, w1) ->
     Z.of_nat (length region) = n ->
     - 2 ^ 63 <= allocOffheapBytes w -> allocOffheapBytes w + n < 2 ^ 63 ->
     let w2 := fold_left (release_step i) (r :: rs) w1 in
     allocOffheapBytes w1 = allocOffheapBytes w + n /\
     allocOffheapBytes w2 = allocOffheapBytes w1 - n /\
     allocOffheapBytes w2 = allocOffheapBytes w /\
     freed w2 = freed w ++ [p]).
Proof.
  assert (Hidem : forall w i, reclaim (reclaim w i) i = reclaim w i).
  { intros w i. destruct (slices w !! i) as [s|] eqn:Hs.
    + destruct (ptr s) as [p|] eqn:Hp.
      * apply reclaim_reclaimed. eapply reclaim_leaves_reclaimed; [exact Hs|].
        congruence.
      * unfold reclaim. now rewrite Hs, Hp, Hs, Hp.
    + unfold reclaim. now rewrite Hs, Hs. }
  assert (Hruns : forall w n force p region i w1 r rs,
            newCGoSlice w n force (Some (p, region)) = (Some i, w1) ->
            let w2 := fold_left (release_step i) (r :: rs) w1 in
            allocOffheapBytes w1 = Add (allocOffheapBytes w) n /\
            freed w1 = freed w /\
            freed w2 = freed w1 ++ [p] /\
            allocOffheapBytes w2
            = Sub (allocOffheapBytes w1) (Z.of_nat (length region)) /\
            slices w2 !! i = Some (mkCgoSlice None None false)).
  { intros w n force p region i w1 r rs Hnew. cbn zeta.
    unfold newCGoSlice in Hnew.
    destruct (negb force && _); [discriminate|].
    injection Hnew as <- <-.
    set (s0 := mkCgoSlice (Some p) (Some region) true).
    set (w1 := mkOffheap _ _ _ _).
    assert (Hs : slices w1 !! length (slices w) = Some s0)
      by (apply list_lookup_middle; reflexivity).
    assert (Hfirst : release_step (length (slices w)) w1 r
                     = mkOffheap (Sub (allocOffheapBytes w1) (Z.of_nat (length region)))
                         (maxOffheapBytes w1) (freed w1 ++ [p])
                         (<[length (slices w) := mkCgoSlice None None false]>
                            (slices w1))).
    { destruct r; cbn [release_step FreeSlice].
      - now apply (reclaim_live _ _ s0).
      - unfold run_finalizer. rewrite Hs. cbn [finalizer s0].
        rewrite (reclaim_live _ _ (mkCgoSlice (Some p) (Some region) false) p region);
          [|cbn; apply list_lookup_insert_eq; eapply lookup_lt_Some, Hs
           |reflexivity|reflexivity].
        cbn. now rewrite list_insert_insert_eq. }
    split; [reflexivity|]. split; [reflexivity|].
    cbn [fold_left]. rewrite Hfirst, releases_reclaimed.
    + cbn. repeat split. apply list_lookup_insert_eq. eapply lookup_lt_Some, Hs.
    + unfold reclaimed. cbn. apply list_lookup_insert_eq. eapply lookup_lt_Some, Hs. }
  split; [exact Hidem|]. split; [apply reclaim_live|]. split; [|split; [|split]].
  - intros w i s Hs Hp. unfold reclaim. now rewrite Hs, Hp.
  - intros w n force p region i w1 r rs Hnew.
    destruct (Hruns w n force p region i w1 r rs Hnew) as (_ & _ & H1 & H2 & H3).
    cbn zeta. split; [exact H1|]. split; [exact H2 | exact H3].
  - intros w i s p b Hs Hp Hb. cbn zeta.
    rewrite Hidem, (reclaim_live w i s p b Hs Hp Hb).
    cbn [allocOffheapBytes freed]. unfold Sub, wrap64.
    split; [reflexivity|]. split; [|split; reflexivity].
    intros Hr. rewrite Z.mod_small by lia. lia.
  - intros w n force p region i w1 r rs Hnew Hlen Hlo Hhi.
    destruct (Hruns w n force p region i w1 r rs Hnew) as (Ha & Hf & H1 & H2 & _).
    cbn zeta in *.
    assert (Hw1 : allocOffheapBytes w1 = allocOffheapBytes w + n).
    { rewrite Ha. unfold Add, wrap64. rewrite Z.mod_small by lia. lia. }
    assert (Hw2 : fold_left (release_step i) rs (release_step i w1 r)
                  = fold_left (release_step i) (r :: rs) w1) by reflexivity.
    split; [exact Hw1|].
    assert (Hsub : allocOffheapBytes (fold_left (release_step i) (r :: rs) w1)
                   = allocOffheapBytes w1 - n).
    { rewrite H2, Hlen, Hw1. unfold Sub, wrap64.
      rewrite Z.mod_small by lia. lia. }
    split; [exact Hsub|]. split; [lia|]. now rewrite H1, Hf.
Qed.

(** *** [MakeSlice] and [MakeOffheapSlice] *)





(** *** The counter of off-heap bytes *)

(** The bytes of the regions that slices of the store still hold. *)
Definition held (s : cgoSlice) : nat :=
  match ptr s with
  | Some _ => length (default [] (buf s))
  | None => 0
  end.

Definition live_bytes (w : Offheap) : Z :=
  Z.of_nat (sum_list_with held (slices w)).

(** [OffheapBytes()] is the number of bytes held, within [int64]. *)
Definition accounted (w : Offheap) : Prop :=
  allocOffheapBytes w = live_bytes w /\ live_bytes w < 2 ^ 63.

Lemma Add_Sub (v n : Z) :
  0 <= v -> 0 <= n -> v + n < 2 ^ 63 -> Add v n = v + n /\ Sub (Add v n) n = v.
Proof.
  intros Hv Hn Hs. unfold Add, Sub.
  rewrite (wrap64_id (v + n)) by (unfold in_int64; lia).
  split; [reflexivity|]. rewrite wrap64_id by (unfold in_int64; lia). lia.
Qed.

Lemma sum_list_with_app_one (l : list cgoSlice) (s : cgoSlice) :
  sum_list_with held (l ++ [s]) = (sum_list_with held l + held s)%nat.
Proof. rewrite sum_list_with_app. cbn. lia. Qed.

Lemma sum_list_with_insert (l : list cgoSlice) (i : nat) (s s' : cgoSlice) :
  l !! i = Some s ->
  (sum_list_with held (<[i := s']> l) + held s
   = sum_list_with held l + held s')%nat.
Proof.
  revert i. induction l as [|x l IH]; intros [|i] Hi; simpl in Hi; try discriminate.
  - injection Hi as ->. change (<[0%nat := s']> (s :: l)) with (s' :: l).
    cbn [sum_list_with]. lia.
  - specialize (IH i Hi). change (<[S i := s']> (x :: l)) with (x :: <[i := s']> l).
    cbn [sum_list_with]. lia.
Qed.

Lemma live_bytes_nonneg (w : Offheap) : 0 <= live_bytes w.
Proof. unfold live_bytes. lia. Qed.

Lemma failed_alloc (w : Offheap) (n : Z) :
  0 <= allocOffheapBytes w -> 0 <= n -> allocOffheapBytes w + n < 2 ^ 63 ->
  set_alloc (set_alloc w (Add (allocOffheapBytes w) n))
            (Sub (Add (allocOffheapBytes w) n) n) = w.
Proof.
  intros Hv Hn Hs. destruct (Add_Sub _ _ Hv Hn Hs) as [_ ->].
  now destruct w.
Qed.

Lemma newCGoSlice_accounted (w : Offheap) (n : Z) (force : bool) malloc :
  accounted w -> 0 <= n -> allocOffheapBytes w + n < 2 ^ 63 ->
  (forall p region, malloc = Some (p, region) -> Z.of_nat (length region) = n) ->
  accounted (snd (newCGoSlice w n force malloc)).
Proof.
  intros [Ha Hr] Hn Hs Hm.
  pose proof (live_bytes_nonneg w) as H0. rewrite <- Ha in H0.
  unfold newCGoSlice. cbn zeta.
  destruct (negb force && _).
  { cbn [snd]. rewrite failed_alloc by assumption. now split. }
  destruct malloc as [[p region]|].
  - cbn [snd]. specialize (Hm p region eq_refl).
    destruct (Add_Sub _ _ H0 Hn Hs) as [-> _].
    unfold accounted, live_bytes in *. cbn [allocOffheapBytes slices].
    rewrite sum_list_with_app_one.
    change (held (mkCgoSlice (Some p) (Some region) true)) with (length region).
    lia.
  - cbn [snd]. rewrite failed_alloc by assumption. now split.
Qed.

Lemma reclaim_accounted (w : Offheap) (i : nat) :
  accounted w -> accounted (reclaim w i).
Proof.
  intros [Ha Hr]. unfold reclaim.
  destruct (slices w !! i) as [s|] eqn:Es; [|now split].
  destruct (ptr s) as [p|] eqn:Ep; [|now split].
  pose proof (sum_list_with_insert (slices w) i s (mkCgoSlice None None false) Es) as Hsum.
  change (held (mkCgoSlice None None false)) with 0%nat in Hsum.
  assert (Hh : held s = length (default [] (buf s))) by (unfold held; now rewrite Ep).
  unfold accounted, live_bytes in *.
  cbn [set_slice set_alloc cgo_free allocOffheapBytes slices].
  unfold Sub. rewrite wrap64_id by (unfold in_int64; lia). lia.
Qed.

Lemma run_finalizer_accounted (w : Offheap) (i : nat) :
  accounted w -> accounted (run_finalizer w i).
Proof.
  intros Hacc. unfold run_finalizer.
  destruct (slices w !! i) as [s|] eqn:Es; [|exact Hacc].
  destruct (finalizer s); [|exact Hacc].
  apply reclaim_accounted. destruct Hacc as [Ha Hr].
  pose proof (sum_list_with_insert (slices w) i s
                (mkCgoSlice (ptr s) (buf s) false) Es) as Hsum.
  assert (Hh : held (mkCgoSlice (ptr s) (buf s) false) = held s) by reflexivity.
  unfold accounted, live_bytes in *. cbn [set_slice allocOffheapBytes slices]. lia.
Qed.

(** X23.  [OffheapBytes()] is the number of bytes of the regions that
    slices still hold.  This holds at the start, and every operation keeps
    it: an allocation that succeeds adds the size of the region, one that
    is refused or that [cgo_malloc] fails leaves the counter as it was, and
    [reclaim], [FreeSlice] and the finalizer subtract the size of a region
    once, when they give it back, and nothing when the slice holds none. *)
Theorem OffheapBytes_counts_held_bytes (w : Offheap) :
  accounted w ->
  (forall n force malloc,
     0 <= n -> allocOffheapBytes w + n < 2 ^ 63 ->
     (forall p region, malloc = Some (p, region) -> Z.of_nat (length region) = n) ->
     accounted (snd (newCGoSlice w n force malloc)) /\
     (fst (newCGoSlice w n force malloc) = None ->
      snd (newCGoSlice w n force malloc) = w)) /\
  (forall i, accounted (reclaim w i)) /\
  (forall s, accounted (FreeSlice w s)) /\
  (forall i, accounted (run_finalizer w i)) /\
  (forall mx, accounted (mkOffheap 0 mx [] [])).
Proof.
  intros Hacc. split; [|split; [|split; [|split]]].
  - intros n force malloc Hn Hs Hm.
    split; [now apply newCGoSlice_accounted|].
    destruct Hacc as [Ha _].
    pose proof (live_bytes_nonneg w) as H0. rewrite <- Ha in H0.
    unfold newCGoSlice. cbn zeta. destruct (negb force && _).
    + intros _. cbn [snd]. now apply failed_alloc.
    + destruct malloc as [[p region]|]; [discriminate|].
      intros _. cbn [snd]. now apply failed_alloc.
  - intros i. now apply reclaim_accounted.
  - intros [i|]; [now apply reclaim_accounted | exact Hacc].
  - intros i. now apply run_finalizer_accounted.
  - intros mx. split; [reflexivity | now vm_compute].
Qed.


(** *** The counter at work *)

Definition offheap_start : Offheap := mkOffheap 0 0 [] [].

Lemma OffheapBytes_counts_held_bytes_witness :
  accounted offheap_start /\
  accounted (snd (newCGoSlice offheap_start 3 true (Some (4096, bytes "abc")))) /\
  allocOffheapBytes (snd (newCGoSlice offheap_start 3 true (Some (4096, bytes "abc"))))
  = 3.
Proof.
  assert (Ha : accounted offheap_start) by (split; [reflexivity | now vm_compute]).
  destruct (OffheapBytes_counts_held_bytes offheap_start Ha) as (Hnew & _).
  destruct (Hnew 3 true (Some (4096, bytes "abc"))) as [Hacc _].
  - lia.
  - now vm_compute.
  - intros p region [= _ <-]. reflexivity.
  - split; [exact Ha|]. split; [exact Hacc | reflexivity].
Defined.


End unsafe2.
(** ** [sync2]: [Future] ([future.go]) *)

Module sync2.

(** [sync.WaitGroup] (Go's standard library) keeps its counter in 32 bits
    and panics when an [Add] leaves it negative; [Wait] returns when it is
    zero. *)
Definition wrap32 (z : Z) : Z := (z + 2 ^ 31) mod 2 ^ 32 - 2 ^ 31.

Section future.
Context {V : Type}.

(** A [Future]: the counter of [wait] and the map, [None] while it is nil.
    The mutex is not a field: every call below is one step, as the lock
    taken by [Done] and by [Wait] makes it. *)
Record Future := mkFuture {
  wait : Z;
  vmap : option (gmap string V)
}.

(** The zero value, [&Future{}]. *)
Definition zero : Future := mkFuture 0 None.

Definition lazyInit (f : Future) : Future :=
  match vmap f with
  | None => mkFuture (wait f) (Some ∅)
  | Some _ => f
  end.

(** [wait.Add(delta)]; [None] is the panic on a negative counter. *)
Definition WaitGroup_Add (f : Future) (delta : Z) : option Future :=
  let v := wrap32 (wait f + delta) in
  if v <? 0 then None else Some (mkFuture v (vmap f)).

(** [f.Add()] *)
Definition Add (f : Future) : option Future := WaitGroup_Add f 1.

(** [f.Done(key, val)]; [wait.Done()] is [wait.Add(-1)]. *)
Definition Done (f : Future) (key : string) (val : V) : option Future :=
  let f1 := lazyInit f in
  let f2 := mkFuture (wait f1) (Some (<[key := val]> (default ∅ (vmap f1)))) in
  WaitGroup_Add f2 (-1).

(** [f.Wait()]: the map returned and the future; [None] while [wait.Wait()]
    blocks. *)
Definition Wait (f : Future) : option (gmap string V * Future) :=
  if wait f =? 0 then
    let f1 := lazyInit f in Some (default ∅ (vmap f1), f1)
  else None.

(** The calls that change a future, and a sequence of them in the order
    they take effect; [None] when one panics. *)
Inductive fcall :=
| CallAdd
| CallDone (key : string) (val : V).

Definition step (c : fcall) (f : Future) : option Future :=
  match c with
  | CallAdd => Add f
  | CallDone key val => Done f key val
  end.

Definition run_fcalls (cs : list fcall) (f : Future) : option Future :=
  foldl (fun acc c => acc ≫= step c) (Some f) cs.

(** The number of [Add] calls, and of [Done] calls. *)
Definition adds (cs : list fcall) : nat :=
  sum_list_with (fun c => match c with CallAdd => 1 | CallDone _ _ => 0 end)%nat cs.

Definition dones (cs : list fcall) : nat :=
  sum_list_with (fun c => match c with CallAdd => 0 | CallDone _ _ => 1 end)%nat cs.

(** The value of the last [Done] with the key [k]. *)
Definition value_done (k : string) (c : fcall) : option V :=
  match c with
  | CallDone key val => if decide (key = k) then Some val else None
  | CallAdd => None
  end.

Definition last_value (cs : list fcall) (k : string) : option V :=
  last (omap (value_done k) cs).

End future.

Arguments Future : clear implicits.
Arguments fcall : clear implicits.

Section future_facts.
Context {V : Type}.

Lemma run_fcalls_snoc (cs : list (fcall V)) (c : fcall V) (f : Future V) :
  run_fcalls (cs ++ [c]) f = run_fcalls cs f ≫= step c.
Proof. unfold run_fcalls. now rewrite foldl_app. Qed.

Lemma wrap32_small z : - 2 ^ 31 <= z < 2 ^ 31 -> wrap32 z = z.
Proof. intros Hz. unfold wrap32. rewrite Z.mod_small by lia. lia. Qed.

Lemma counts_snoc (cs : list (fcall V)) (c : fcall V) :
  adds (cs ++ [c])
  = (adds cs + match c with CallAdd => 1 | CallDone _ _ => 0 end)%nat /\
  dones (cs ++ [c])
  = (dones cs + match c with CallAdd => 0 | CallDone _ _ => 1 end)%nat.
Proof.
  unfold adds, dones. rewrite !sum_list_with_app. cbn [sum_list_with].
  split; lia.
Qed.

Lemma lazyInit_same (f : Future V) :
  wait (lazyInit f) = wait f /\
  default ∅ (vmap (lazyInit f)) = default ∅ (vmap f).
Proof.
  unfold lazyInit. destruct (vmap f) as [m|] eqn:E; cbn [wait vmap].
  - now rewrite E.
  - split; reflexivity.
Qed.

(** What a run from the zero value keeps. *)
Lemma run_fcalls_inv : forall (cs : list (fcall V)) (f : Future V),
  run_fcalls cs zero = Some f ->
  wait f = Z.of_nat (adds cs) - Z.of_nat (dones cs) /\
  0 <= wait f < 2 ^ 31 /\
  forall k, default ∅ (vmap f) !! k = last_value cs k.
Proof.
  induction cs as [|c cs IH] using rev_ind; intros f.
  - intros [= <-]. cbn. split; [reflexivity|]. split; [lia|].
    intros k. apply lookup_empty.
  - rewrite run_fcalls_snoc.
    destruct (run_fcalls cs zero) as [f1|]; [|discriminate].
    destruct (IH f1 eq_refl) as (Hw & Hr & Hm). cbn [mbind option_bind].
    destruct (counts_snoc cs c) as [-> ->].
    assert (H31 : (2:Z) ^ 31 = 2147483648) by reflexivity.
    assert (H32 : (2:Z) ^ 32 = 4294967296) by reflexivity.
    destruct c as [|key val]; cbn [step]; unfold Add, Done, WaitGroup_Add; cbn zeta.
    + destruct (decide (wait f1 + 1 < 2 ^ 31)) as [Hfit | Hover].
      * rewrite wrap32_small by lia. replace (wait f1 + 1 <? 0) with false by lia.
        intros [= <-]. cbn [wait vmap].
        split; [lia|]. split; [lia|]. intros k. rewrite Hm.
        unfold last_value. now rewrite omap_app, app_nil_r.
      * assert (Hw1 : wrap32 (wait f1 + 1) = - 2 ^ 31).
        { unfold wrap32. replace (wait f1 + 1) with (2 ^ 31) by lia.
          reflexivity. }
        rewrite Hw1. discriminate.
    + destruct (lazyInit_same f1) as [Hl Hv].
      cbn [wait vmap]. rewrite Hl, Hv.
      destruct (decide (1 <= wait f1)) as [Hpos | Hzero].
      * rewrite wrap32_small by lia. replace (wait f1 + -1 <? 0) with false by lia.
        intros [= <-]. cbn [wait vmap default from_option id].
        split; [lia|]. split; [lia|]. intros k.
        unfold last_value. rewrite omap_app.
        change (omap (value_done k) [CallDone key val])
          with (match value_done k (CallDone key val) with
                | Some v => [v] | None => [] end).
        cbn [value_done].
        destruct (decide (key = k)) as [-> | Hne].
        -- rewrite lookup_insert_eq. now rewrite last_snoc.
        -- rewrite lookup_insert_ne by exact Hne. rewrite app_nil_r. apply Hm.
      * rewrite wrap32_small by lia. replace (wait f1 + -1 <? 0) with true by lia.
        discriminate.
Qed.

(** X25.  A future collects one value per key.  After any sequence of
    [Add] and [Done] calls on a new future that has not panicked, [Wait]
    returns exactly when there have been as many [Done] as [Add], and the
    map it returns holds, for every key, the value of the last [Done] with
    that key, and no other key; on a future nobody has touched it returns
    an empty map, not nil.  A [Done] beyond the number of [Add] panics. *)
Theorem Future_collects_last_values (cs : list (fcall V)) (f : Future V) :
  run_fcalls cs zero = Some f ->
  (dones cs <= adds cs)%nat /\
  (is_Some (Wait f) <-> adds cs = dones cs) /\
  (forall m f', Wait f = Some (m, f') ->
     (forall k, m !! k = last_value cs k) /\ vmap f' = Some m /\ wait f' = 0) /\
  (adds cs = dones cs ->
     forall key val, run_fcalls (cs ++ [CallDone key val]) zero = None) /\
  Wait (V := V) zero = Some (∅, mkFuture 0 (Some ∅)).
Proof.
  intros Hrun. destruct (run_fcalls_inv cs f Hrun) as (Hw & Hr & Hm).
  split; [lia|]. split; [|split; [|split; [|reflexivity]]].
  - unfold Wait. destruct (wait f =? 0) eqn:E0.
    + apply Z.eqb_eq in E0. split; [lia | eauto].
    + apply Z.eqb_neq in E0. split; [intros [? [=]] | lia].
  - intros m f'. unfold Wait. destruct (wait f =? 0) eqn:E0; [|discriminate].
    apply Z.eqb_eq in E0. intros [= <- <-].
    destruct (lazyInit_same f) as [_ Hv].
    split; [intros k; rewrite Hv; apply Hm|].
    unfold lazyInit. destruct (vmap f) as [m0|] eqn:Ev; cbn [vmap wait].
    + rewrite Ev. now split.
    + now split.
  - intros Heq key val. rewrite run_fcalls_snoc, Hrun. cbn [mbind option_bind step].
    unfold Done, WaitGroup_Add. cbn zeta.
    destruct (lazyInit_same f) as [Hl _].
    cbn [wait]. rewrite Hl. replace (wait f) with 0 by lia. reflexivity.
Qed.

End future_facts.

(** *** A future at work *)

Lemma Future_collects_last_values_witness :
  exists f m f',
    run_fcalls [CallAdd; CallAdd; CallDone "a" 1; CallDone "a" 2] (zero (V := Z))
    = Some f /\
    Wait f = Some (m, f') /\ m !! "a"%string = Some 2.
Proof.
  destruct (run_fcalls [CallAdd; CallAdd; CallDone "a" 1; CallDone "a" 2]
              (zero (V := Z))) as [f|] eqn:Hrun; [|vm_compute in Hrun; discriminate].
  destruct (Future_collects_last_values _ f Hrun) as (_ & Hwait & Hmap & _).
  destruct (proj2 Hwait eq_refl) as [[m f'] Hw].
  destruct (Hmap m f' Hw) as (Hlast & _).
  exists f, m, f'. split; [reflexivity|]. split; [exact Hw|].
  rewrite Hlast. reflexivity.
Defined.

End sync2.
